(* ===== verification/_CoqProject ===== *)
-Q . S2P
Prelude.v
Strings.v
TL.v
Transport.v
Hash.v
AES.v
Crypto.v
Envelope.v
Auth.v
Invoke.v
Queries.v
Kdf.v
Seal.v
Md5.v
Client.v
Account.v
Password.v
Peers.v
Difference.v
Api.v
Media.v
Storage.v
Flood.v
Life.v
Session.v
Json.v
Codec.v
Keys.v
Saved.v
Updates.v
Dispatcher.v
Filters.v
Config.v
Bot.v
Calls.v
Runtime.v
Delivery.v
BotClient.v
BotApi.v
Console.v
Programs.v
CachePrograms.v
BotPrograms.v
ApiPrograms.v
