(* ===== verification/Prelude.v ===== *)
(** * MtProGo: a verification development (root file)

    MtProGo (src/) is a Telegram client in Go without dependencies: the package
    [mtproto] speaks MTProto 2.0 (key exchange, encrypted session, a hand-written
    part of the TL schema), [updates] and [filters] route messages to handlers,
    and the root package adds session stores, the MTProto bot and a bot of the
    HTTP Bot API.  This library translates that code into Rocq functions and
    proves what makes it correct.

    ** How the parts interact

    A client dials an endpoint, agrees on an authorisation key over unencrypted
    messages, and keeps it with a session (salt, session id, sequence number,
    last message id).  Every request is serialised to TL, sealed in a packet with
    the key, framed and written; replies are read, opened and dispatched until
    the one for the request comes.  Logins, media transfers and updates are
    sequences of such requests; the bot keeps peers and states found in replies,
    hands messages to the dispatcher, and answers through the client.  Sessions
    are saved in stores as JSON and resumed, with the update state and the peers.
    The Bot API bot polls for updates over HTTP and hands them to the same
    dispatcher.

    ** Conventions

    Go outcomes are [outcome]: a value, an error, or a panic (index or slice out
    of range).  Stateful code is in the monad [M S]; [zoom] runs a computation on
    a part of the state, [hoare] is its triple and [nopanic] the triple without
    assertions.  Machine integers are [Z] with [u32], [u64], [i32], [i64] where
    Go wraps.  Bytes are [Byte.byte], strings [String.string] by their bytes.
    Clock readings, random bytes, the peer's bytes, the outcomes of writes, dials,
    sleeps and file operations are inputs, arbitrary in every theorem.

    ** Files

    Shared:
    - [Prelude]: outcomes, the monad, counted loops, triples, integers, bytes;
    - [Strings]: the functions used of [strings] and [strconv];
    - [Json], [Codec]: [encoding/json] from the bytes to the fields of structs
      (grammar, UTF-8 and escapes, numbers, matching of names, base64).

    The wire (mtproto/tl.go, abridged.go, crypto.go, invoke.go):
    - [TL]: [tlBuffer] and [tlReader];
    - [Transport]: connections, abridged framing, unencrypted messages;
    - [Hash], [AES], [Kdf], [Md5], [Seal]: the digests, ciphers and encodings of
      Go's standard library as executable functions, with published vectors;
    - [Crypto]: IGE mode (over the class [BlockCipher], discharged by [AES]),
      RSA_PAD, SHA-1 protected data;
    - [Keys]: the built-in server key, from the PEM text (rsa_keys.go);
    - [Envelope]: the session [encryptedState], message ids, packets;
    - [Invoke]: [handleMessage], the read loop, the attempts, FLOOD_WAIT and
      migration errors.

    The client (mtproto/auth.go, probe.go, client.go, account.go, password.go,
    highlevel.go, state.go, difference.go, peers.go, media.go, session.go):
    - [Auth]: the three exchanges of the key agreement, factorisation of pq;
    - [Queries]: the requests as bytes;
    - [Client]: [EncryptedClient] as a record over the environment [env] (dials,
      open connections, clock, random source), [Invoke], login with migration;
    - [Account], [Password]: user login, SRP;
    - [Peers], [Difference]: the scanners and parsers of replies;
    - [Api]: one definition per method of the client;
    - [Media]: transfers over the class [Invoker], of which [client_invoker] is
      the client's instance; [InvokerKeeps] and, in [Flood], [InvokerDrains] are
      its laws;
    - [Storage]: a server that stores parts, the specification of the transfers;
    - [Flood]: what a failed request consumes of the stream;
    - [Life]: the calls of a client and the states they reach;
    - [Session]: session stores over a file system that fails, and the client
      resumed from a session (also session_store.go, session/session.go);
    - [Saved]: sessions, string sessions and the bot's bundle as JSON (session.go,
      runtime_session.go).

    Updates and the bots (updates/, filters/, client.go, options.go,
    mtproto_bot*.go, bot.go, internal/botapi/client.go):
    - [Updates]: messages, dialog ids, the message ring and the peer cache;
    - [Dispatcher], [Filters]: routing;
    - [Config]: the configuration and [New];
    - [Bot]: the bot's peer map, messages, states, reconnect delays;
    - [Calls]: the bot's methods, repeated through FLOOD_WAIT;
    - [Runtime]: the bot's life: [NewMTProtoBot], [Login], [SaveSession], the
      polling loop of [Run], reconnecting;
    - [Delivery]: the same loop seen from the handlers;
    - [BotClient], [BotApi]: the Bot API client (forms, HTTP, JSON) and its bot;
      the class [UpdateServer] is the contract of getUpdates its delivery
      theorem relies on.

    The example programs (examples/), which compose the parts above:
    - [Console]: standard input through [bufio], what is printed, the questions
      of the programs; panics and deferred calls, with the triple [runs];
    - [Programs]: the six [main]s on the encrypted client (logins, probes, one
      message sent);
    - [BotPrograms]: the five MTProto bots, their handlers registered and run;
    - [CachePrograms]: the two programs that dispatch messages themselves;
    - [ApiPrograms]: two bots of the Bot API.

    ** What the theorems show

    The numbered theorems (C1, C2, ...) are the development's claims.
    - Agreement with the other side: against a server that follows the protocol
      the handshake completes ([Auth.authKeyOnConn_completes]); the SRP proof is
      the one the server computes; uploads leave the file on the server and
      downloads bring it back.
    - Soundness against any other side: the handshake, [invoke], every method of
      a client and of a bot neither panic nor run on, leave no deadline and no
      connection behind, and accept only what is authentic ([Auth], [Invoke],
      [Envelope], [Account.login_connections], [Life.client_life],
      [Calls.bot_calls_sound]); a bot's [Run] closes what it opened
      ([Runtime.bot_run_closes]); no bytes make the session parsers panic or
      return an ill-typed value ([Saved.parsed_sessions_typed]).
    - Delivery: both bots hand on what they are sent once and in order, whatever
      fails ([Delivery.bot_run_delivers], [BotApi.updates_delivered_once]).
    - Round trips: TL values, frames, packets, queries, parsers of replies,
      sessions in JSON and as strings, forms.
    - Refinement: the message ring is the last messages, the peer cache a FIFO
      map, every session store a map from places to sessions whatever fails; a
      bot that restarts goes on from what was saved ([Runtime.bot_restart_resumes]).
    - Termination: the fuel of each loop is shown to be enough.
    - Programs: every example on the encrypted client and every MTProto bot
      returns or panics with no connection left open ([Programs.programs_close],
      [BotPrograms.bot_programs_close]); the account login replaces a session
      only by one that reads back ([Programs.account_login_saves]); the cache
      programs print what they promise ([CachePrograms.cache_programs_output]).
    - What the code gets wrong is stated as a theorem beside the definition.

    ** Bounds and fuel

    - The read loop, the recursion through containers, downloads and the rounds
      after FLOOD_WAIT are bounded by the bytes still to be read; more fuel gives
      the same result ([invocation_terminates], [bot_calls_sound]).
    - Login through migrations is bounded by the outcomes of dials left
      ([migration_terminates]); each dial consumes one.
    - [pollardRho] needs at most n rounds of each loop for pq = n > 1; for pq = 1
      the inner loop of the code never ends ([Auth.factorPQ_spec]), which is the
      one input for which a handshake of the code runs on where the model's
      returns an error.
    - Drawing a random number in range is bounded by the random source.
    - The bots' loops go round until their context is done; how often is an
      argument ([rounds], [ticks]), arbitrary in the theorems; under
      [context.Background()], as in the examples, it is how long the run is
      watched.  What later looks at the context find is a script, arbitrary too.
    - Reading a line of the console is bounded by the bytes still to come.
    - File sizes are below 2{^49} where the part count, computed in float64, must
      be exact.

    ** Not modelled

    - The HTTP transport under the Bot API client: a function from the endpoint
      and the form to a status and a body or an error.
    - The deferred calls of [Run] after a panic in a handler: the theorems take
      handlers that return.  Handlers may change the application's state and call
      the bot, through its methods or through the reply of their message; they do
      not see the dispatcher that calls them.
    - Where decoding stops at a type error and Go would go on, the callers drop
      the value; the error values of encoding/json are not told apart.
    - [big.Int.ProbablyPrime], [compress/gzip], [x509.ParsePKIXPublicKey],
      regular expressions, the Unicode folding tables and the MIME tables are
      arguments.  So are the server keys of the handshake; [Keys] shows what the
      built-in ones are.
    - Mutexes: the locked sections are atomic steps.  Calls of one client or bot
      from several goroutines at once are not modelled.
    - Debug logging, and the formatted text of most errors: an error is its
      constructor, its format and its arguments.  What the programs print is kept
      by its operands.
    - realbot_cache and realbot_selective_cache, whose handlers read the caches of
      the dispatcher that is calling them (the questions of the former are in
      [Console]).
    - cmd/ (a stub), doc.go, transport/transport.go and errors/errors.go: comments
      and types nothing else uses. *)

From Stdlib Require Export ZArith Lia Strings.Byte Strings.String.
From stdpp Require Export base list gmap strings.
#[global] Open Scope Z_scope.
#[global] Open Scope list_scope.

(** ** Go outcomes

    A Go call ends in one of three ways: it returns a value, it returns a
    non-nil [error], or it panics (index out of range, slice bounds). *)

(** An argument of [fmt.Errorf]. *)
Inductive fmt_arg :=
| FZ (z : Z)
| FS (s : string).

(** The error values the program builds or inspects.  [ErrNew] is [errors.New],
    [ErrFmt] is [fmt.Errorf] (format and arguments kept apart), [ErrWrap] is
    [fmt.Errorf] with a [%w] verb; the three named errors are the types that
    [errors.As] looks for; [ErrEnv] is an error of the environment (network,
    random source, clock, context, file system). *)
Inductive goerr :=
| ErrNew (text : string)
| ErrFmt (format : string) (args : list fmt_arg)
| ErrWrap (format : string) (args : list fmt_arg) (inner : goerr)
| ErrRPC (code : Z) (message : string)
| ErrBadServerSalt (bad_msg_id bad_seqno code new_salt : Z)
| ErrBadMessage (bad_msg_id bad_seqno code : Z)
| ErrEnv (what : string).

(** [errors.As] for the three error types: the first match down the chain of
    [%w] wrappings. *)
Fixpoint as_RPCError (e : goerr) : option (Z * string) :=
  match e with
  | ErrRPC code message => Some (code, message)
  | ErrWrap _ _ inner => as_RPCError inner
  | _ => None
  end.

Fixpoint as_BadServerSalt (e : goerr) : option (Z * Z * Z * Z) :=
  match e with
  | ErrBadServerSalt id seq code salt => Some (id, seq, code, salt)
  | ErrWrap _ _ inner => as_BadServerSalt inner
  | _ => None
  end.

Fixpoint as_BadMessage (e : goerr) : option (Z * Z * Z) :=
  match e with
  | ErrBadMessage id seq code => Some (id, seq, code)
  | ErrWrap _ _ inner => as_BadMessage inner
  | _ => None
  end.

Inductive outcome (A : Type) :=
| Ok (a : A)
| Err (e : goerr)
| Panic.
Arguments Ok {A} a.
Arguments Err {A} e.
Arguments Panic {A}.

Definition is_panic {A} (o : outcome A) : bool :=
  match o with Panic => true | _ => false end.

Definition is_ok {A} (o : outcome A) : bool :=
  match o with Ok _ => true | _ => false end.

(** The value of a call, or a default. *)
Definition ok_or {A} (d : A) (o : outcome A) : A :=
  match o with Ok a => a | _ => d end.

Definition omap_outcome {A B} (f : A -> B) (o : outcome A) : outcome B :=
  match o with Ok a => Ok (f a) | Err e => Err e | Panic => Panic end.

(** ** The state, error and panic monad

    [M S A] is Go code with receiver state [S] and results [(A, error)]; the
    state written before an error or a panic is kept, as it is in Go. *)

Definition M (S A : Type) : Type := S -> outcome A * S.

Definition ret {S A} (a : A) : M S A := fun s => (Ok a, s).
Definition fail {S A} (e : goerr) : M S A := fun s => (Err e, s).
Definition panic {S A} : M S A := fun s => (Panic, s).
Definition bind {S A B} (m : M S A) (k : A -> M S B) : M S B :=
  fun s => match m s with
           | (Ok a, s') => k a s'
           | (Err e, s') => (Err e, s')
           | (Panic, s') => (Panic, s')
           end.
Definition get {S} : M S S := fun s => (Ok s, s).
Definition put {S} (s : S) : M S unit := fun _ => (Ok tt, s).
Definition modify {S} (f : S -> S) : M S unit := fun s => (Ok tt, f s).
Definition lift {S A} (o : outcome A) : M S A := fun s => (o, s).

(** Run a computation for its result, from a given state. *)
Definition eval {S A} (m : M S A) (s : S) : outcome A := fst (m s).

(** [v, err := m; if err != nil { handler }] in code that goes on after an
    error. *)
Definition try {S A} (m : M S A) : M S (A + goerr) :=
  fun s => match m s with
           | (Ok a, s') => (Ok (inl a), s')
           | (Err e, s') => (Ok (inr e), s')
           | (Panic, s') => (Panic, s')
           end.

Declare Scope go_scope.
Delimit Scope go_scope with go.
Notation "x <- m ;; k" := (bind m (fun x => k))
  (at level 100, m at next level, right associativity) : go_scope.
Notation "m ;; k" := (bind m (fun _ => k))
  (at level 100, right associativity) : go_scope.
Notation "b |> f" := (f b) (at level 50, left associativity, only parsing) : go_scope.
#[global] Open Scope go_scope.

(** [if cond { return err }] *)
Definition guard {S} (ok : bool) (e : goerr) : M S unit :=
  if ok then ret tt else fail e.
(** [if cond { m }] *)
Definition when {S} (c : bool) (m : M S unit) : M S unit :=
  if c then m else ret tt.

Section MonadLaws.
Context {S A B C : Type}.
Lemma bind_ret (a : A) (k : A -> M S B) s : (x <- ret a ;; k x) s = k a s.
Proof. reflexivity. Qed.
Lemma ret_bind (m : M S A) s : (x <- m ;; ret x) s = m s.
Proof. unfold bind, ret. destruct (m s) as [[| |] s']; reflexivity. Qed.
Lemma bind_assoc (m : M S A) (k : A -> M S B) (h : B -> M S C) s :
  (y <- (x <- m ;; k x) ;; h y) s = (x <- m ;; y <- k x ;; h y) s.
Proof. unfold bind. destruct (m s) as [[| |] s']; reflexivity. Qed.
Lemma bind_ext (m : M S A) (k h : A -> M S B) s :
  (forall a s', k a s' = h a s') -> (x <- m ;; k x) s = (x <- m ;; h x) s.
Proof. intros H. unfold bind. destruct (m s) as [[a| |] s']; auto. Qed.
Lemma bind_ext_ok (m : M S A) (k h : A -> M S B) s :
  (forall a s', m s = (Ok a, s') -> k a s' = h a s') -> (x <- m ;; k x) s = (x <- m ;; h x) s.
Proof. intros H. unfold bind. destruct (m s) as [[a| |] s']; auto. Qed.
Lemma bind_ok (m : M S A) (k : A -> M S B) s a s' :
  m s = (Ok a, s') -> (x <- m ;; k x) s = k a s'.
Proof. intros H. unfold bind. by rewrite H. Qed.
Lemma bind_err (m : M S A) (k : A -> M S B) s e s' :
  m s = (Err e, s') -> (x <- m ;; k x) s = (Err e, s').
Proof. intros H. unfold bind. by rewrite H. Qed.
End MonadLaws.

(** ** Counted loops

    [for i := 0; i < count; i++ { body }] for a machine integer [count] that may
    be huge: the recursion is on the binary representation, and an error, a
    panic or an early return ([inr]) skips the remaining rounds. *)

(** Round [f], then round [g] unless [f] returned early. *)
Definition rounds {S A R} (f g : A -> M S (A + R)) : A -> M S (A + R) := fun a =>
  x <- f a ;;
  match x with inl a' => g a' | inr r => ret (inr r) end.

Fixpoint for_pos {S A R} (p : positive) (body : A -> M S (A + R)) : A -> M S (A + R) :=
  match p with
  | xH => body
  | xO p' => rounds (for_pos p' body) (for_pos p' body)
  | xI p' => rounds body (rounds (for_pos p' body) (for_pos p' body))
  end.

Definition for_n {S A R} (count : Z) (body : A -> M S (A + R)) (a : A) : M S (A + R) :=
  match count with Zpos p => for_pos p body a | _ => ret (inl a) end.

(** A loop without early return. *)
Definition for_each {S A} (count : Z) (body : A -> M S A) (a : A) : M S A :=
  x <- for_n (R := Empty_set) count (fun a => a' <- body a ;; ret (inl a')) a ;;
  match x with inl a' => ret a' | inr r => match r with end end.

(** What a loop that the code leaves unbounded returns when its fuel is used up;
    that this does not happen is proved loop by loop. *)
Definition out_of_fuel : goerr := ErrEnv "out of fuel".

(** [m] run on a local object [t] (a reader), the state untouched. *)
Definition on {S T A} (t : T) (m : M T A) : M S (A * T) := fun s =>
  match m t with
  | (Ok a, t') => (Ok (a, t'), s)
  | (Err e, _) => (Err e, s)
  | (Panic, _) => (Panic, s)
  end.

(** [m] run on one component of the state. *)
Definition zoom {S T A} (getter : S -> T) (setter : T -> S -> S) (m : M T A) : M S A := fun s =>
  let '(o, t) := m (getter s) in (o, setter t s).

Lemma on_bind {S T A B} (t : T) (m : M T A) (k : A * T -> M S B) s :
  (x <- on t m ;; k x) s =
  match m t with
  | (Ok a, t') => k (a, t') s
  | (Err e, _) => (Err e, s)
  | (Panic, _) => (Panic, s)
  end.
Proof. unfold bind, on. by destruct (m t) as [[?|?|] ?]. Qed.

Section Loops.
Context {S A R : Type}.
Implicit Types f g h body : A -> M S (A + R).

#[local] Instance ext_eq : Equiv (A -> M S (A + R)) := fun f g => forall a s, f a s = g a s.

#[local] Instance ext_equivalence : Equivalence (≡@{A -> M S (A + R)}).
Proof. split; [done|by intros ????|intros ?????? ; etrans; eauto]. Qed.

#[local] Instance rounds_proper : Proper ((≡) ==> (≡) ==> (≡@{A -> M S (A + R)})) rounds.
Proof.
  intros f1 f2 Hf g1 g2 Hg a s. unfold rounds, bind. rewrite Hf.
  destruct (f2 a s) as [[[a'|r]| |] s']; auto.
Qed.

Lemma rounds_assoc f g h : rounds (rounds f g) h ≡ rounds f (rounds g h).
Proof. intros a s. unfold rounds, bind. by destruct (f a s) as [[[a'|r]| |] s']. Qed.

Lemma for_pos_comm p body : rounds (for_pos p body) body ≡ rounds body (for_pos p body).
Proof.
  assert (Hsq : forall g, rounds g body ≡ rounds body g ->
                rounds (rounds g g) body ≡ rounds body (rounds g g)).
  { intros g H. by rewrite rounds_assoc, H, <- rounds_assoc, H, rounds_assoc. }
  induction p as [p IH|p IH|]; simpl; [|by apply Hsq|done].
  by rewrite rounds_assoc, (Hsq _ IH).
Qed.

(** One round first, then the others. *)
Lemma for_pos_succ p body : for_pos (Pos.succ p) body ≡ rounds body (for_pos p body).
Proof.
  induction p as [p IH|p IH|]; simpl; [|done|done].
  rewrite IH, rounds_assoc. apply rounds_proper; [done|].
  by rewrite <- rounds_assoc, for_pos_comm, rounds_assoc.
Qed.

(** Two bodies that agree where the accumulator satisfies an invariant. *)
Lemma for_n_ext (Q : A -> Prop) n f g a s :
  (forall a s, Q a -> f a s = g a s) ->
  (forall a s a' s', Q a -> f a s = (Ok (inl a'), s') -> Q a') ->
  Q a -> for_n n f a s = for_n n g a s.
Proof.
  intros Hfg Hinv Ha. destruct n as [|p|p]; [done| |done].
  assert (G : (forall a s, Q a -> for_pos p f a s = for_pos p g a s) /\
              (forall a s a' s', Q a -> for_pos p f a s = (Ok (inl a'), s') -> Q a')).
  { assert (Hr : forall f1 f2 g1 g2,
      (forall a s, Q a -> f1 a s = g1 a s) /\ (forall a s a' s', Q a -> f1 a s = (Ok (inl a'), s') -> Q a') ->
      (forall a s, Q a -> f2 a s = g2 a s) /\ (forall a s a' s', Q a -> f2 a s = (Ok (inl a'), s') -> Q a') ->
      (forall a s, Q a -> rounds f1 f2 a s = rounds g1 g2 a s) /\
      (forall a s a' s', Q a -> rounds f1 f2 a s = (Ok (inl a'), s') -> Q a')).
    { clear. intros f1 f2 g1 g2 [H1 I1] [H2 I2]. unfold rounds, bind. split.
      - intros a s Ha. rewrite <- H1 by done.
        destruct (f1 a s) as [[[a'|r]| |] s'] eqn:E; try done. apply H2. by eapply I1.
      - intros a s a' s' Ha. destruct (f1 a s) as [[[a1|r]| |] s1] eqn:E; try done.
        apply I2. by eapply I1. }
    induction p as [p IH|p IH|]; simpl; auto. }
  by apply G.
Qed.

Lemma for_n_zero body a s : for_n 0 body a s = (Ok (inl a), s).
Proof. reflexivity. Qed.

Lemma for_n_succ n body a s :
  0 <= n -> for_n (1 + n) body a s = rounds body (for_n n body) a s.
Proof.
  destruct n as [|p|p]; intros Hn; [| |lia].
  - unfold rounds. simpl. symmetry. unfold bind, ret.
    by destruct (body a s) as [[[?|?]| |] ?].
  - replace (1 + Zpos p) with (Zpos (Pos.succ p)) by lia. apply (for_pos_succ p body a s).
Qed.
End Loops.

(** ** Triples

    [hoare P m Q E]: from a state with [P], [m] does not panic, ends with [Q] on
    its value and state when it returns, and with [E] on its state when it
    returns an error. *)

Definition hoare {S A} (P : S -> Prop) (m : M S A) (Q : A -> S -> Prop) (E : S -> Prop) : Prop :=
  forall s, P s -> match m s with
                   | (Ok a, s') => Q a s'
                   | (Err _, s') => E s'
                   | (Panic, _) => False
                   end.

Section Hoare.
Context {S : Type}.
Implicit Types (P E : S -> Prop).

Lemma hoare_ret {A} P (a : A) E : hoare P (ret a) (fun x s => x = a /\ P s) E.
Proof. by intros s Hs. Qed.

Lemma hoare_fail {A} P e (Q : A -> S -> Prop) E :
  (forall s, P s -> E s) -> hoare P (fail e) Q E.
Proof. intros H s Hs. by apply H. Qed.

Lemma hoare_bind {A B} P (m : M S A) (k : A -> M S B) Q Q' E :
  hoare P m Q E -> (forall a, hoare (Q a) (k a) Q' E) -> hoare P (x <- m ;; k x) Q' E.
Proof.
  intros Hm Hk s Hs. specialize (Hm s Hs). unfold bind.
  destruct (m s) as [[a|e|] s']; [by apply Hk|done|done].
Qed.

Lemma hoare_conseq {A} P P' (m : M S A) (Q Q' : A -> S -> Prop) E E' :
  hoare P' m Q' E' -> (forall s, P s -> P' s) -> (forall a s, Q' a s -> Q a s) ->
  (forall s, E' s -> E s) -> hoare P m Q E.
Proof.
  intros Hm HP HQ HE s Hs. specialize (Hm s (HP s Hs)).
  destruct (m s) as [[a|e|] s']; auto.
Qed.

Lemma hoare_pure {A} (p : Prop) P (m : M S A) Q E :
  (p -> hoare P m Q E) -> hoare (fun s => p /\ P s) m Q E.
Proof. intros H s [Hp Hs]. by apply H. Qed.

Lemma hoare_guard P c e E :
  (forall s, P s -> E s) -> hoare P (guard c e) (fun _ s => c = true /\ P s) E.
Proof. intros H s Hs. destruct c; [done|by apply H]. Qed.

Lemma hoare_lift {A} P (o : outcome A) E :
  o <> Panic -> (forall s, P s -> E s) -> hoare P (lift o) (fun a s => o = Ok a /\ P s) E.
Proof. intros Ho HE s Hs. unfold lift. destruct o; [done|by apply HE|done]. Qed.

Lemma hoare_lift_ok {A B} P (o : outcome A) a (k : A -> M S B) Q E :
  o = Ok a -> hoare P (k a) Q E -> hoare P (x <- lift o ;; k x) Q E.
Proof. by intros ->. Qed.

Lemma hoare_get P E : hoare P get (fun x s => x = s /\ P s) E.
Proof. by intros s Hs. Qed.

Lemma hoare_modify P (f : S -> S) (Q : unit -> S -> Prop) E :
  (forall s, P s -> Q tt (f s)) -> hoare P (modify f) Q E.
Proof. intros H s Hs. by apply H. Qed.

Lemma hoare_try {A} P (m : M S A) Q E E' :
  hoare P m Q E -> hoare P (try m) (fun r s => match r with inl a => Q a s | inr _ => E s end) E'.
Proof.
  intros Hm s Hs. specialize (Hm s Hs). unfold try. destruct (m s) as [[a|e|] s']; done.
Qed.

(** A step on a component [T] of the state. *)
Lemma hoare_zoom {A T} (g : S -> T) (u : T -> S -> S) P (m : M T A) Q E :
  (forall s, P s -> hoare (fun t => t = g s) m (fun a t => Q a (u t s)) (fun t => E (u t s))) ->
  hoare P (zoom g u m) Q E.
Proof.
  intros H s Hs. specialize (H s Hs (g s) eq_refl). unfold zoom.
  destruct (m (g s)) as [[a|e|] t]; done.
Qed.

(** The invariant rule for counted loops; [R] is the type of early returns. *)
Lemma hoare_for_n {A R} n (body : A -> M S (A + R)) a (I : A -> S -> Prop) (Q : R -> S -> Prop) E :
  let post (x : A + R) s := match x with inl a => I a s | inr r => Q r s end in
  (forall a, hoare (I a) (body a) post E) -> hoare (I a) (for_n n body a) post E.
Proof.
  intros post Hb.
  assert (Hr : forall f g, (forall a, hoare (I a) (f a) post E) -> (forall a, hoare (I a) (g a) post E) ->
               forall a, hoare (I a) (rounds f g a) post E).
  { intros f g Hf Hg a'. eapply hoare_bind; [apply Hf|]. intros [a''|r]; [apply Hg|].
    by intros s Hs. }
  assert (H0 : forall a, hoare (I a) (ret (inl a)) post E) by (intros a' s Hs; exact Hs).
  destruct n as [|p|p]; [apply H0| |apply H0].
  revert a. simpl. induction p as [p IH|p IH|]; simpl; auto.
Qed.
End Hoare.

(** ** Absence of panics *)

Definition nopanic {S A} (m : M S A) : Prop := hoare (fun _ => True) m (fun _ _ => True) (fun _ => True).

Lemma nopanic_bind {S A B} (m : M S A) (k : A -> M S B) :
  nopanic m -> (forall a, nopanic (k a)) -> nopanic (x <- m ;; k x).
Proof. intros Hm Hk. eapply hoare_bind; [exact Hm|]. intros a s _. by apply Hk. Qed.

(** A continuation that relies on what a successful first step returned. *)
Lemma nopanic_bind_post {S A B} (P : A -> Prop) (m : M S A) (k : A -> M S B) :
  nopanic m -> (forall s a s', m s = (Ok a, s') -> P a) -> (forall a, P a -> nopanic (k a)) ->
  nopanic (x <- m ;; k x).
Proof.
  intros Hm HP Hk s _. specialize (Hm s I). unfold bind.
  destruct (m s) as [[a|e|] s'] eqn:E; [|done|done]. apply Hk; [by eapply HP|done].
Qed.

Lemma nopanic_ret {S A} (a : A) : nopanic (S := S) (ret a).
Proof. done. Qed.
Lemma nopanic_fail {S A} e : nopanic (S := S) (A := A) (fail e).
Proof. done. Qed.
Lemma nopanic_guard {S} c e : nopanic (S := S) (guard c e).
Proof. by destruct c. Qed.
Lemma nopanic_lift {S A} (o : outcome A) : o <> Panic -> nopanic (S := S) (lift o).
Proof. intros H s _. unfold lift. by destruct o. Qed.
Lemma nopanic_zoom {S T A} (g : S -> T) u (m : M T A) : nopanic m -> nopanic (zoom g u m).
Proof.
  intros Hm s _. unfold zoom. specialize (Hm (g s) I). by destruct (m (g s)) as [[a|e|] t].
Qed.

Lemma nopanic_try {S A} (m : M S A) : nopanic m -> nopanic (try m).
Proof. intros Hm s _. specialize (Hm s I). unfold try. by destruct (m s) as [[a|e|] s']. Qed.

Lemma nopanic_eval {S A} (m : M S A) s : nopanic m -> eval m s <> Panic.
Proof. intros Hm. specialize (Hm s I). unfold eval. by destruct (m s) as [[a|e|] s']. Qed.

Create HintDb nopanic.
#[export] Hint Resolve nopanic_ret nopanic_fail nopanic_guard : nopanic.

(** Go through the steps of a composed computation, leaving the ones the hints
    do not know. *)
Ltac nopanic_steps :=
  cbv zeta;
  repeat lazymatch goal with
  | |- nopanic (bind _ _) => apply nopanic_bind; [|intros ?]
  | |- nopanic (guard _ _) => apply nopanic_guard
  | |- nopanic (ret _) => apply nopanic_ret
  | |- nopanic (fail _) => apply nopanic_fail
  | |- nopanic (zoom _ _ _) => apply nopanic_zoom
  | |- nopanic (lift _) => apply nopanic_lift
  | |- nopanic (if ?c then _ else _) => destruct c
  | |- nopanic (match ?x with _ => _ end) => destruct x
  | _ => solve [auto with nopanic]
  end.

(** ** Machine integers *)

Definition two8 : Z := 256.
Definition two16 : Z := 65536.
Definition two24 : Z := 16777216.
Definition two31 : Z := 2147483648.
Definition two32 : Z := 4294967296.
Definition two63 : Z := 9223372036854775808.
Definition two64 : Z := 18446744073709551616.

(** Go conversions and the wrap-around of Go arithmetic: [uint32(x)],
    [uint64(x)], [int32(x)], [int64(x)] ([int] is 64 bits wide). *)
Definition u32 (z : Z) : Z := z mod two32.
Definition u64 (z : Z) : Z := z mod two64.
Definition i32 (z : Z) : Z := (z + two31) mod two32 - two31.
Definition i64 (z : Z) : Z := (z + two63) mod two64 - two63.

Definition is_u32 (z : Z) : Prop := 0 <= z < two32.
Definition is_u64 (z : Z) : Prop := 0 <= z < two64.
Definition is_i32 (z : Z) : Prop := - two31 <= z < two31.
Definition is_i64 (z : Z) : Prop := - two63 <= z < two63.

Ltac unfold_words :=
  unfold is_u32, is_u64, is_i32, is_i64, u32, u64, i32, i64,
         two8, two16, two24, two31, two32, two63, two64 in *.

(** Linear arithmetic with [mod] and [/] by constants. *)
Ltac zlia := unfold_words; Z.div_mod_to_equations; lia.

Lemma u32_range z : is_u32 (u32 z).
Proof. unfold_words. apply Z.mod_pos_bound. lia. Qed.
Lemma u64_range z : is_u64 (u64 z).
Proof. unfold_words. apply Z.mod_pos_bound. lia. Qed.
Lemma i32_range z : is_i32 (i32 z).
Proof. unfold_words. pose proof (Z.mod_pos_bound (z + 2147483648) 4294967296). lia. Qed.
Lemma i64_range z : is_i64 (i64 z).
Proof.
  unfold_words.
  pose proof (Z.mod_pos_bound (z + 9223372036854775808) 18446744073709551616). lia.
Qed.

Lemma u32_id z : is_u32 z -> u32 z = z.
Proof. intros. apply Z.mod_small. exact H. Qed.
Lemma u64_id z : is_u64 z -> u64 z = z.
Proof. intros. apply Z.mod_small. exact H. Qed.
Lemma i32_id z : is_i32 z -> i32 z = z.
Proof. intros. unfold_words. rewrite Z.mod_small; lia. Qed.
Lemma i64_id z : is_i64 z -> i64 z = z.
Proof. intros. unfold_words. rewrite Z.mod_small; lia. Qed.

(** Signed and unsigned views of one bit pattern convert back and forth. *)
Lemma i32_u32 z : is_i32 z -> i32 (u32 z) = z.
Proof. intros. zlia. Qed.
Lemma i64_u64 z : is_i64 z -> i64 (u64 z) = z.
Proof. intros. zlia. Qed.
Lemma u32_i32 z : is_u32 z -> u32 (i32 z) = z.
Proof. intros. zlia. Qed.
Lemma u64_i64 z : is_u64 z -> u64 (i64 z) = z.
Proof. intros. zlia. Qed.

(** Bitwise operations stay in range. *)
Lemma is_i64_shiftr z : is_i64 z <-> Z.shiftr z 63 = 0 \/ Z.shiftr z 63 = -1.
Proof.
  rewrite Z.shiftr_div_pow2 by lia. change (2 ^ 63) with two63. unfold is_i64, two63.
  split; intros H; [|Z.div_mod_to_equations; lia].
  destruct (Z.ltb_spec z 0); [right|left]; Z.div_mod_to_equations; lia.
Qed.
Lemma lor_i64 a b : is_i64 a -> is_i64 b -> is_i64 (Z.lor a b).
Proof. rewrite !is_i64_shiftr, Z.shiftr_lor. by intros [-> | ->] [-> | ->]; auto. Qed.
Lemma land_i64 a b : is_i64 a -> is_i64 b -> is_i64 (Z.land a b).
Proof. rewrite !is_i64_shiftr, Z.shiftr_land. by intros [-> | ->] [-> | ->]; auto. Qed.
Lemma quot_i64 a b : is_i64 a -> 0 < b -> is_i64 (Z.quot a b).
Proof.
  unfold is_i64, two63. intros Ha Hb. destruct (Z.le_gt_cases 0 a).
  - pose proof (Z.quot_pos a b ltac:(lia) Hb).
    pose proof (Z.quot_le_upper_bound a b a Hb). nia.
  - pose proof (Z.quot_opp_l a b ltac:(lia)). pose proof (Z.quot_pos (- a) b ltac:(lia) Hb).
    pose proof (Z.quot_le_upper_bound (- a) b (- a) Hb). nia.
Qed.

Create HintDb words.
Create Rewrite HintDb words.
#[export] Hint Resolve u32_range u64_range i32_range i64_range : words.
#[export] Hint Rewrite u32_id u64_id i32_id i64_id i32_u32 i64_u64 u32_i32 u64_i64
  using (auto with words; lia) : words.

(** ** Bytes

    A Go [byte] is [Byte.byte]; [b2z] reads it as an unsigned integer and [z2b]
    is the conversion [byte(x)], which keeps the low eight bits. *)

#[global] Instance byte_eq_decision : EqDecision byte := Byte.byte_eq_dec.

Definition b2z (b : byte) : Z := Z.of_N (Byte.to_N b).
Definition z2b (z : Z) : byte :=
  match Byte.of_N (Z.to_N (z mod 256)) with Some b => b | None => x00 end.

Lemma b2z_range b : 0 <= b2z b < 256.
Proof. unfold b2z. pose proof (Byte.to_N_bounded b). lia. Qed.

Lemma z2b_b2z b : z2b (b2z b) = b.
Proof.
  unfold z2b. rewrite Z.mod_small by apply b2z_range.
  unfold b2z. rewrite N2Z.id. by rewrite Byte.of_to_N.
Qed.

Lemma b2z_z2b z : b2z (z2b z) = z mod 256.
Proof.
  unfold z2b. pose proof (Z.mod_pos_bound z 256 ltac:(lia)) as Hr.
  destruct (Byte.of_N _) as [b|] eqn:E.
  - apply Byte.to_of_N in E. unfold b2z. rewrite E. lia.
  - apply Byte.of_N_None_iff in E. lia.
Qed.

Lemma b2z_inj a b : b2z a = b2z b -> a = b.
Proof. intros H. rewrite <- (z2b_b2z a), <- (z2b_b2z b). by rewrite H. Qed.

(** [a ^ b] on bytes. *)
Definition bxor (a b : byte) : byte := z2b (Z.lxor (b2z a) (b2z b)).

Lemma lxor_byte_range a b : 0 <= Z.lxor (b2z a) (b2z b) < 256.
Proof.
  pose proof (b2z_range a) as Ha. pose proof (b2z_range b) as Hb.
  assert (0 <= Z.lxor (b2z a) (b2z b)) by (apply Z.lxor_nonneg; lia).
  split; [done|].
  destruct (decide (Z.lxor (b2z a) (b2z b) = 0)) as [->|Hne]; [lia|].
  apply (Z.log2_lt_pow2 _ 8); [lia|].
  eapply Z.le_lt_trans; [apply Z.log2_lxor; lia|].
  assert (forall c, Z.log2 (b2z c) < 8).
  { intros c. pose proof (b2z_range c).
    destruct (decide (b2z c = 0)) as [->|]; [reflexivity|]. apply Z.log2_lt_pow2; lia. }
  apply Z.max_lub_lt; auto.
Qed.

Lemma b2z_bxor a b : b2z (bxor a b) = Z.lxor (b2z a) (b2z b).
Proof. unfold bxor. rewrite b2z_z2b. apply Z.mod_small, lxor_byte_range. Qed.

Lemma bxor_cancel a b : bxor (bxor a b) b = a.
Proof.
  apply b2z_inj. rewrite !b2z_bxor, Z.lxor_assoc, Z.lxor_nilpotent.
  apply Z.lxor_0_r.
Qed.

Lemma bxor_comm a b : bxor a b = bxor b a.
Proof. unfold bxor. by rewrite Z.lxor_comm. Qed.

Lemma bxor_zero a b : bxor a b = x00 <-> a = b.
Proof.
  split; [|intros ->].
  - intros H. apply (f_equal b2z) in H. rewrite b2z_bxor in H.
    apply b2z_inj. by apply Z.lxor_eq.
  - apply b2z_inj. rewrite b2z_bxor. apply Z.lxor_nilpotent.
Qed.

(** [a | b<<k] with [a] below the shift is addition. *)
Lemma lor_shiftl_add a b k :
  0 <= k -> 0 <= a < 2 ^ k -> Z.lor a (Z.shiftl b k) = a + b * 2 ^ k.
Proof.
  intros Hk Ha.
  assert (Z.land a (Z.shiftl b k) = 0) as H0.
  { apply Z.bits_inj'. intros i Hi. rewrite Z.land_spec, Z.shiftl_spec, Z.bits_0 by done.
    destruct (Z.ltb_spec i k).
    - by rewrite (Z.testbit_neg_r b), andb_false_r by lia.
    - rewrite <- (Z.mod_small a (2 ^ k)) by done. by rewrite Z.mod_pow2_bits_high by lia. }
  rewrite <- Z.shiftl_mul_pow2 by done. rewrite <- Z.lxor_lor by done.
  by rewrite Z.add_nocarry_lxor.
Qed.

(** ** Go slices

    [len] is Go's [len] as an integer; [slice l lo hi] is [l[lo:hi]], which
    panics when the bounds are out of order or out of range; [index l i] is
    [l[i]]. *)

Definition len {A} (l : list A) : Z := Z.of_nat (length l).

Definition sub {A} (l : list A) (lo hi : Z) : list A :=
  take (Z.to_nat (hi - lo)) (drop (Z.to_nat lo) l).

Definition slice {A} (l : list A) (lo hi : Z) : outcome (list A) :=
  if (0 <=? lo) && (lo <=? hi) && (hi <=? len l) then Ok (sub l lo hi) else Panic.

Definition index {A} (l : list A) (i : Z) : outcome A :=
  if (0 <=? i) && (i <? len l) then
    match l !! Z.to_nat i with Some x => Ok x | None => Panic end
  else Panic.

Lemma len_nil {A} : len (@nil A) = 0.
Proof. reflexivity. Qed.
Lemma len_cons {A} (x : A) l : len (x :: l) = 1 + len l.
Proof. unfold len. rewrite length_cons. lia. Qed.
Lemma len_app {A} (l1 l2 : list A) : len (l1 ++ l2) = len l1 + len l2.
Proof. unfold len. rewrite length_app. lia. Qed.
Lemma len_nonneg {A} (l : list A) : 0 <= len l.
Proof. unfold len. lia. Qed.
Lemma len_replicate {A} n (x : A) : len (replicate n x) = Z.of_nat n.
Proof. unfold len. by rewrite length_replicate. Qed.
Lemma len_map {A B} (f : A -> B) l : len (f <$> l) = len l.
Proof. unfold len. by rewrite length_fmap. Qed.
Lemma len_map_list {A B} (f : A -> B) l : len (map f l) = len l.
Proof. unfold len. by rewrite length_map. Qed.
Lemma len_zero {A} (l : list A) : len l = 0 -> l = [].
Proof. destruct l; [done|]. rewrite len_cons. pose proof (len_nonneg l). lia. Qed.

Lemma len_sub {A} (l : list A) lo hi :
  0 <= lo <= hi -> hi <= len l -> len (sub l lo hi) = hi - lo.
Proof. intros. unfold sub, len in *. rewrite length_take, length_drop. lia. Qed.

Lemma slice_ok {A} (l : list A) lo hi :
  0 <= lo -> lo <= hi -> hi <= len l -> slice l lo hi = Ok (sub l lo hi).
Proof.
  intros. unfold slice.
  rewrite (proj2 (Z.leb_le 0 lo)), (proj2 (Z.leb_le lo hi)), (proj2 (Z.leb_le hi _)) by lia.
  done.
Qed.

Lemma slice_cases {A} (l : list A) lo hi :
  (0 <= lo <= hi /\ hi <= len l /\ slice l lo hi = Ok (sub l lo hi))
  \/ slice l lo hi = Panic.
Proof.
  unfold slice. destruct ((0 <=? lo) && (lo <=? hi) && (hi <=? len l)) eqn:E; [left|by right].
  apply andb_prop in E as [E E3]. apply andb_prop in E as [E1 E2].
  apply Z.leb_le in E1, E2, E3. auto with lia.
Qed.

(** A slice that covers exactly the middle part of a concatenation. *)
Lemma sub_app_mid {A} (l1 l2 l3 : list A) lo hi :
  lo = len l1 -> hi = len l1 + len l2 -> sub (l1 ++ l2 ++ l3) lo hi = l2.
Proof.
  intros -> ->. unfold sub, len.
  replace (Z.to_nat (Z.of_nat (length l1))) with (length l1) by lia.
  rewrite drop_app_length.
  replace (Z.to_nat _) with (length l2) by lia. apply take_app_length.
Qed.

Lemma sub_app_tail {A} (l1 l2 : list A) lo hi :
  lo = len l1 -> hi = len l1 + len l2 -> sub (l1 ++ l2) lo hi = l2.
Proof.
  intros H1 H2. rewrite <- (app_nil_r (l1 ++ l2)), <- (app_assoc l1 l2 []).
  by apply sub_app_mid.
Qed.

Lemma sub_app_head {A} (l1 l2 : list A) hi : hi = len l1 -> sub (l1 ++ l2) 0 hi = l1.
Proof. intros ->. by apply (sub_app_mid [] l1 l2). Qed.

Lemma sub_all {A} (l : list A) hi : hi = len l -> sub l 0 hi = l.
Proof. intros ->. rewrite <- (app_nil_r l) at 1. by apply sub_app_head. Qed.

(** Cutting a list in two. *)
Lemma sub_split {A} (l : list A) k :
  0 <= k <= len l -> l = sub l 0 k ++ sub l k (len l).
Proof.
  intros. unfold sub, len in *. rewrite Z.sub_0_r, drop_0.
  rewrite (take_ge (drop _ l)) by (rewrite length_drop; lia).
  by rewrite take_drop.
Qed.

Lemma sub_cat {A} (l : list A) a b c :
  0 <= a <= b -> b <= c -> sub l a c = sub l a b ++ sub l b c.
Proof.
  intros Hab Hbc. unfold sub.
  replace (drop (Z.to_nat b) l) with (drop (Z.to_nat (b - a)) (drop (Z.to_nat a) l))
    by (rewrite drop_drop; f_equal; lia).
  rewrite take_take_drop. f_equal. lia.
Qed.

Lemma index_ok {A} (l : list A) i :
  0 <= i < len l -> exists x, index l i = Ok x /\ l !! Z.to_nat i = Some x.
Proof.
  intros H. unfold index. destruct (lookup_lt_is_Some_2 l (Z.to_nat i)) as [x Hx].
  { unfold len in H. lia. }
  exists x. rewrite Hx.
  rewrite (proj2 (Z.leb_le 0 i)), (proj2 (Z.ltb_lt i _)) by lia. done.
Qed.

Lemma index_app_mid {A} (l1 l2 : list A) x i : i = len l1 -> index (l1 ++ x :: l2) i = Ok x.
Proof.
  intros ->. unfold index. pose proof (len_nonneg l1). pose proof (len_nonneg l2).
  rewrite (proj2 (Z.leb_le 0 _)), (proj2 (Z.ltb_lt _ _)) by (rewrite ?len_app, ?len_cons; lia).
  unfold len. rewrite Nat2Z.id. simpl. by rewrite list_lookup_middle.
Qed.

(** ** Integers as bytes

    [le_bytes n z] is [binary.LittleEndian.AppendUintN] of the low [n] bytes of
    [z]; [le_value] is [binary.LittleEndian.UintN]; [be_value] is
    [big.Int.SetBytes]. *)

Fixpoint le_bytes (n : nat) (z : Z) : list byte :=
  match n with O => [] | S n' => z2b z :: le_bytes n' (z / 256) end.

Fixpoint le_value (l : list byte) : Z :=
  match l with [] => 0 | b :: l' => b2z b + 256 * le_value l' end.

Definition be_value (l : list byte) : Z := foldl (fun acc b => acc * 256 + b2z b) 0 l.

Lemma length_le_bytes n z : length (le_bytes n z) = n.
Proof. revert z. induction n; intros; simpl; auto. Qed.
Lemma len_le_bytes n z : len (le_bytes n z) = Z.of_nat n.
Proof. unfold len. by rewrite length_le_bytes. Qed.

Lemma le_value_bound l : 0 <= le_value l < 256 ^ len l.
Proof.
  induction l as [|b l IH]; [done|]. simpl le_value. rewrite len_cons.
  rewrite Z.pow_add_r by (pose proof (len_nonneg l); lia).
  pose proof (b2z_range b). lia.
Qed.

Lemma le_value_le_bytes n z : le_value (le_bytes n z) = z mod 256 ^ Z.of_nat n.
Proof.
  revert z. induction n as [|n IH]; intros z; [by rewrite Z.mod_1_r|].
  cbn [le_bytes le_value]. rewrite IH, b2z_z2b, Nat2Z.inj_succ, Z.pow_succ_r by lia.
  rewrite Z.rem_mul_r; [lia|lia|]. apply Z.pow_pos_nonneg; lia.
Qed.

Lemma le_bytes_le_value l n : n = length l -> le_bytes n (le_value l) = l.
Proof.
  intros ->. induction l as [|b l IH]; [done|]. cbn [length le_bytes le_value].
  pose proof (b2z_range b).
  replace ((b2z b + 256 * le_value l) / 256) with (le_value l) by zlia.
  rewrite IH. f_equal. apply b2z_inj. rewrite b2z_z2b. zlia.
Qed.

Lemma le_value_4 z : le_value (le_bytes 4 z) = u32 z.
Proof. apply le_value_le_bytes. Qed.
Lemma le_value_8 z : le_value (le_bytes 8 z) = u64 z.
Proof. apply le_value_le_bytes. Qed.

Lemma le_value_is_u32 l : len l = 4 -> is_u32 (le_value l).
Proof. intros H. pose proof (le_value_bound l) as B. rewrite H in B. exact B. Qed.
Lemma le_value_is_u64 l : len l = 8 -> is_u64 (le_value l).
Proof. intros H. pose proof (le_value_bound l) as B. rewrite H in B. exact B. Qed.

(** Strings are byte strings. *)
Definition bytes_of (s : string) : list byte := list_byte_of_string s.
Definition string_of (l : list byte) : string := string_of_list_byte l.

Lemma string_of_bytes_of s : string_of (bytes_of s) = s.
Proof. apply string_of_list_byte_of_string. Qed.
Lemma bytes_of_string_of l : bytes_of (string_of l) = l.
Proof. apply list_byte_of_string_of_list_byte. Qed.

(** A filter that keeps everything. *)
Lemma filter_all {A} (p : A -> bool) (l : list A) : Forall (fun x => p x = true) l -> List.filter p l = l.
Proof. induction 1 as [|x l Hx _ IH]; [done|]. cbn. by rewrite Hx, IH. Qed.

Create HintDb lens.
Create Rewrite HintDb lens.
#[export] Hint Rewrite @len_nil @len_cons @len_app @len_replicate @len_map
  len_le_bytes : lens.

(** Length side conditions: push [len] inward, know it is not negative. *)
Ltac len_nonneg_all :=
  repeat match goal with
  | |- context [len ?l] =>
      lazymatch goal with _ : 0 <= len l |- _ => fail | _ => pose proof (len_nonneg l) end
  | _ : context [len ?l] |- _ =>
      lazymatch goal with _ : 0 <= len l |- _ => fail | _ => pose proof (len_nonneg l) end
  end.
Ltac len_lia := autorewrite with lens in *; len_nonneg_all; lia.
