(* ===== verification/Strings.v ===== *)
(** * Strings: what the program uses of Go's [strings] and [strconv]

    A Go string is a byte string.  White space is [unicode.IsSpace] on UTF-8:
    each space rune is its byte pattern, and no pattern starts with a
    continuation byte, so scanning byte by byte meets runes at their start.
    Numbers are 64-bit: [Atoi] and [ParseInt(s, 10, 64)] agree. *)

From S2P Require Import Prelude.

(** ** Prefixes *)

Fixpoint strip_prefix (p s : list byte) : option (list byte) :=
  match p, s with
  | [], _ => Some s
  | a :: p', b :: s' => if decide (a = b) then strip_prefix p' s' else None
  | _ :: _, [] => None
  end.

Definition HasPrefix (s p : string) : bool :=
  match strip_prefix (bytes_of p) (bytes_of s) with Some _ => true | None => false end.

Definition TrimPrefix (s p : string) : string :=
  match strip_prefix (bytes_of p) (bytes_of s) with Some r => string_of r | None => s end.

Definition HasSuffix (s p : string) : bool :=
  match strip_prefix (rev (bytes_of p)) (rev (bytes_of s)) with Some _ => true | None => false end.

Lemma strip_prefix_spec p s r : strip_prefix p s = Some r <-> s = p ++ r.
Proof.
  revert s. induction p as [|a p IH]; intros s; simpl; [split; congruence|].
  destruct s as [|b s]; [done|]. destruct (decide (a = b)) as [->|Hne].
  - rewrite IH. split; congruence.
  - split; congruence.
Qed.

Lemma strip_prefix_app p r : strip_prefix p (p ++ r) = Some r.
Proof. by apply strip_prefix_spec. Qed.

Lemma bytes_of_app a b : bytes_of (a ++ b)%string = bytes_of a ++ bytes_of b.
Proof.
  unfold bytes_of, list_byte_of_string. rewrite <- map_app. f_equal.
  induction a as [|c a IH]; [done|].
  change (c :: list_ascii_of_string (a ++ b)%string
          = c :: (list_ascii_of_string a ++ list_ascii_of_string b)). by rewrite IH.
Qed.

Lemma bytes_of_inj a b : bytes_of a = bytes_of b -> a = b.
Proof. intros H. rewrite <- (string_of_bytes_of a), <- (string_of_bytes_of b). by rewrite H. Qed.

Lemma HasPrefix_app p s : HasPrefix (p ++ s)%string p = true.
Proof. unfold HasPrefix. by rewrite bytes_of_app, strip_prefix_app. Qed.
Lemma TrimPrefix_app p s : TrimPrefix (p ++ s)%string p = s.
Proof. unfold TrimPrefix. by rewrite bytes_of_app, strip_prefix_app, string_of_bytes_of. Qed.

(** ** White space *)

(** [unicode.IsSpace]: the runes in UTF-8. *)
Definition space_runes : list (list byte) :=
  [[x09]; [x0a]; [x0b]; [x0c]; [x0d]; [x20]; [xc2; x85]; [xc2; xa0]; [xe1; x9a; x80];
   [xe2; x80; x80]; [xe2; x80; x81]; [xe2; x80; x82]; [xe2; x80; x83]; [xe2; x80; x84];
   [xe2; x80; x85]; [xe2; x80; x86]; [xe2; x80; x87]; [xe2; x80; x88]; [xe2; x80; x89];
   [xe2; x80; x8a]; [xe2; x80; xa8]; [xe2; x80; xa9]; [xe2; x80; xaf]; [xe2; x81; x9f];
   [xe3; x80; x80]].

(** The rest of [l] after one space rune at its start. *)
Fixpoint skip_rune (runes : list (list byte)) (l : list byte) : option (list byte) :=
  match runes with
  | [] => None
  | r :: rs => match strip_prefix r l with Some l' => Some l' | None => skip_rune rs l end
  end.

Fixpoint trim_left (runes : list (list byte)) (fuel : nat) (l : list byte) : list byte :=
  match fuel with
  | O => l
  | S fuel' =>
      match skip_rune runes l with Some l' => trim_left runes fuel' l' | None => l end
  end.

Definition trim_bytes (l : list byte) : list byte :=
  let l1 := trim_left space_runes (length l) l in
  rev (trim_left (map (@rev byte) space_runes) (length l1) (rev l1)).

Definition TrimSpace (s : string) : string := string_of (trim_bytes (bytes_of s)).

(** [strings.Fields]: the maximal runs of non-space bytes. *)
Fixpoint fields_loop (fuel : nat) (l cur : list byte) : list (list byte) :=
  let flush := match cur with [] => [] | _ => [rev cur] end in
  match fuel, l with
  | S fuel', b :: l' =>
      match skip_rune space_runes l with
      | Some rest => flush ++ fields_loop fuel' rest []
      | None => fields_loop fuel' l' (b :: cur)
      end
  | _, _ => flush
  end.

Definition Fields (s : string) : list string :=
  map string_of (fields_loop (length (bytes_of s)) (bytes_of s) []).

(** [strings.ReplaceAll(s, "\x00", "")] *)
Definition drop_nul (s : string) : string :=
  string_of (List.filter (fun b => negb (b2z b =? 0)) (bytes_of s)).

(** [strings.IndexByte(s, c)], and the part of [s] before it. *)
Fixpoint index_byte (l : list byte) (c : byte) (i : Z) : Z :=
  match l with
  | [] => -1
  | b :: l' => if decide (b = c) then i else index_byte l' c (i + 1)
  end.

Lemma index_byte_app w c rest i :
  ~ In c w -> index_byte (w ++ c :: rest) c i = i + len w.
Proof.
  revert i. induction w as [|b w IH]; intros i Hn; simpl.
  - rewrite decide_True by done. rewrite len_nil. lia.
  - destruct (decide (b = c)) as [->|]; [exfalso; apply Hn; by left|].
    rewrite IH by (intros H; apply Hn; by right). rewrite len_cons. lia.
Qed.

Lemma index_byte_absent w c i : ~ In c w -> index_byte w c i = -1.
Proof.
  revert i. induction w as [|b w IH]; intros i Hn; [done|]. simpl.
  destruct (decide (b = c)) as [->|]; [exfalso; apply Hn; by left|].
  apply IH. intros H. apply Hn. by right.
Qed.

Lemma skip_rune_shorter runes l l' :
  Forall (fun r => r <> []) runes -> skip_rune runes l = Some l' -> (length l' < length l)%nat.
Proof.
  induction 1 as [|r rs Hr Hrs IH]; simpl; [done|].
  destruct (strip_prefix r l) eqn:E; [|done]. intros [= ->].
  apply strip_prefix_spec in E as ->. rewrite length_app. destruct r; [done|]. simpl. lia.
Qed.

Lemma space_runes_nonempty : Forall (fun r => r <> []) space_runes.
Proof. repeat constructor; discriminate. Qed.
Lemma rev_space_runes_nonempty : Forall (fun r => r <> []) (map (@rev byte) space_runes).
Proof. repeat constructor; discriminate. Qed.

(** The fuel is enough: what is left starts with no space rune. *)
Lemma trim_left_done runes fuel l :
  Forall (fun r => r <> []) runes -> (length l <= fuel)%nat ->
  skip_rune runes (trim_left runes fuel l) = None.
Proof.
  intros Hr. revert l. induction fuel as [|fuel IH]; intros l Hf; simpl.
  - destruct l; [|simpl in Hf; lia]. clear -Hr.
    induction Hr as [|r rs Hr0 Hrs IH]; [done|]. simpl. by destruct r.
  - destruct (skip_rune runes l) as [l'|] eqn:E; [|done].
    apply IH. apply (skip_rune_shorter _ _ _ Hr) in E. lia.
Qed.

(** Nothing to trim on the left of a text that starts with no space rune. *)
Lemma trim_left_id runes fuel l : skip_rune runes l = None -> trim_left runes fuel l = l.
Proof. intros H. destruct fuel; simpl; [done|]. by rewrite H. Qed.

(** ** Numbers *)

Definition digit_val (b : byte) : option Z :=
  let d := b2z b - 48 in if (0 <=? d) && (d <=? 9) then Some d else None.

Fixpoint parse_digits (l : list byte) (acc : Z) : option Z :=
  match l with
  | [] => Some acc
  | b :: l' => match digit_val b with Some d => parse_digits l' (acc * 10 + d) | None => None end
  end.

Definition err_syntax : goerr := ErrNew "invalid syntax".
Definition err_range : goerr := ErrNew "value out of range".

(** [strconv.Atoi] and [strconv.ParseInt(s, 10, 64)]. *)
Definition ParseInt64 (s : string) : outcome Z :=
  match bytes_of s with
  | [] => Err err_syntax
  | b :: l =>
      let '(neg, ds) :=
        if b2z b =? 43 then (false, l) else if b2z b =? 45 then (true, l) else (false, b :: l) in
      match ds with
      | [] => Err err_syntax
      | _ =>
          match parse_digits ds 0 with
          | None => Err err_syntax
          | Some u =>
              if neg then if u <=? two63 then Ok (- u) else Err err_range
              else if u <? two63 then Ok u else Err err_range
          end
      end
  end.

Definition Atoi : string -> outcome Z := ParseInt64.

(** [strconv.ParseInt(s, 10, 32)] *)
Definition ParseInt32 (s : string) : outcome Z :=
  match ParseInt64 s with
  | Ok n => if (- two31 <=? n) && (n <? two31) then Ok n else Err err_range
  | Err e => Err e
  | Panic => Panic
  end.

(** [for u > 0 { i--; buf[i] = byte('0' + u%10); u /= 10 }]; a 64-bit value has
    at most twenty digits. *)
Fixpoint dec_loop (fuel : nat) (u : Z) (buf : list byte) : list byte :=
  match fuel with
  | O => buf
  | S fuel' => if 0 <? u then dec_loop fuel' (u / 10) (z2b (48 + u mod 10) :: buf) else buf
  end.

(** [strconv.FormatInt(v, 10)], [strconv.Itoa], [%d]. *)
Definition FormatInt (v : Z) : string :=
  string_of (if v =? 0 then [x30]
             else if v <? 0 then x2d :: dec_loop 20 (- v) [] else dec_loop 20 v []).

Lemma digit_val_digit d : 0 <= d <= 9 -> digit_val (z2b (48 + d)) = Some d.
Proof.
  intros H. unfold digit_val. rewrite b2z_z2b, Z.mod_small by lia.
  replace (48 + d - 48) with d by lia.
  by rewrite (proj2 (Z.leb_le 0 d)), (proj2 (Z.leb_le d 9)) by lia.
Qed.

(** The digits of [u] put before [buf] parse as [u] followed by [buf]. *)
Lemma parse_dec_loop fuel u buf :
  0 <= u < 10 ^ Z.of_nat fuel -> parse_digits (dec_loop fuel u buf) 0 = parse_digits buf u.
Proof.
  revert u buf. induction fuel as [|fuel IH]; intros u buf Hu; simpl.
  { rewrite Z.pow_0_r in Hu. by replace u with 0 by lia. }
  destruct (Z.ltb_spec 0 u) as [Hp|Hp]; [|by replace u with 0 by lia].
  rewrite Nat2Z.inj_succ, Z.pow_succ_r in Hu by lia.
  pose proof (Z.mod_pos_bound u 10 ltac:(lia)).
  rewrite IH.
  - simpl. rewrite digit_val_digit by lia. f_equal. pose proof (Z.div_mod u 10). lia.
  - split; [apply Z.div_pos; lia|]. apply Z.div_lt_upper_bound; lia.
Qed.

Lemma dec_loop_head fuel u :
  0 < u < 10 ^ Z.of_nat fuel -> exists d l, dec_loop fuel u [] = z2b (48 + d) :: l /\ 0 <= d <= 9.
Proof.
  assert (G : forall fuel u buf, (0 < u -> 0 < Z.of_nat fuel) ->
     (exists d l, buf = z2b (48 + d) :: l /\ 0 <= d <= 9) \/ 0 < u ->
     exists d l, dec_loop fuel u buf = z2b (48 + d) :: l /\ 0 <= d <= 9).
  { clear. induction fuel as [|fuel IH]; intros u buf Hf H; simpl.
    { destruct H as [H|H]; [done|]. specialize (Hf H). simpl in Hf. lia. }
    destruct (Z.ltb_spec 0 u) as [Hp|Hp]; [|by destruct H as [H|H]; [|lia]].
    pose proof (Z.mod_pos_bound u 10 ltac:(lia)).
    destruct fuel as [|fuel].
    { simpl. eexists _, _. split; [done|lia]. }
    apply IH; [lia|]. left. eexists _, _. split; [done|lia]. }
  intros Hu. apply G; [|right; lia]. destruct fuel; [|lia].
  rewrite Z.pow_0_r in Hu. lia.
Qed.

Lemma sign_not_digit d : 0 <= d <= 9 -> (b2z (z2b (48 + d)) =? 43) = false /\ (b2z (z2b (48 + d)) =? 45) = false.
Proof. intros. rewrite b2z_z2b, Z.mod_small by lia. split; apply Z.eqb_neq; lia. Qed.

(** Printing and parsing a 64-bit integer. *)
Lemma ParseInt64_FormatInt v : is_i64 v -> ParseInt64 (FormatInt v) = Ok v.
Proof.
  intros Hv. unfold ParseInt64, FormatInt. rewrite bytes_of_string_of.
  destruct (Z.eqb_spec v 0) as [->|H0]; [done|]. unfold is_i64, two63 in *.
  destruct (Z.ltb_spec v 0) as [Hn|Hp].
  - destruct (dec_loop_head 20 (- v)) as (d & l & E & Hd); [lia|].
    change (b2z x2d =? 43) with false. change (b2z x2d =? 45) with true. cbn iota beta.
    rewrite E. rewrite <- E, parse_dec_loop by lia. simpl.
    rewrite (proj2 (Z.leb_le _ _)) by lia. f_equal. lia.
  - destruct (dec_loop_head 20 v) as (d & l & E & Hd); [lia|].
    destruct (sign_not_digit d Hd) as [E1 E2]. rewrite E, E1, E2.
    rewrite <- E, parse_dec_loop by lia. simpl.
    by rewrite (proj2 (Z.ltb_lt _ _)) by lia.
Qed.

Lemma ParseInt32_FormatInt v : is_i32 v -> ParseInt32 (FormatInt v) = Ok v.
Proof.
  intros Hv. unfold ParseInt32. rewrite ParseInt64_FormatInt by (unfold is_i32, is_i64, two31, two63 in *; lia).
  unfold is_i32 in Hv. by rewrite (proj2 (Z.leb_le _ _)), (proj2 (Z.ltb_lt _ _)) by lia.
Qed.

Lemma FormatInt_inj v w : is_i64 v -> is_i64 w -> FormatInt v = FormatInt w -> v = w.
Proof.
  intros Hv Hw H. pose proof (ParseInt64_FormatInt v Hv) as E.
  rewrite H, ParseInt64_FormatInt in E by done. by injection E.
Qed.

(** ** Texts of visible ASCII characters are left alone *)

Definition graphic (b : byte) : bool := (33 <=? b2z b) && (b2z b <=? 126).

Lemma strip_graphic runes l :
  forallb (fun r => match r with b :: _ => negb (graphic b) | [] => false end) runes = true ->
  forallb graphic l = true -> skip_rune runes l = None.
Proof.
  intros Hr Hl. induction runes as [|r rs IH]; [done|]. simpl in *.
  apply andb_prop in Hr as [Hr Hrs]. destruct r as [|b r]; [done|].
  destruct l as [|c l]; simpl in *; [by apply IH|].
  apply andb_prop in Hl as [Hc Hl]. destruct (decide (b = c)) as [->|]; [|apply IH, Hrs].
  by rewrite Hc in Hr.
Qed.

Lemma trim_graphic l : forallb graphic l = true -> trim_bytes l = l.
Proof.
  intros H. unfold trim_bytes. rewrite (trim_left_id _ _ l) by (by apply strip_graphic).
  rewrite trim_left_id; [apply rev_involutive|]. apply strip_graphic; [done|].
  rewrite forallb_forall in *. intros x Hx. apply H. by apply in_rev.
Qed.

Lemma filter_nul_graphic l :
  forallb graphic l = true -> List.filter (fun b => negb (b2z b =? 0)) l = l.
Proof.
  induction l as [|b l IH]; simpl; [done|]. intros H. apply andb_prop in H as [Hb Hl].
  apply andb_prop in Hb as [Hb _]. apply Z.leb_le in Hb.
  rewrite (proj2 (Z.eqb_neq (b2z b) 0)) by lia. simpl. by rewrite IH.
Qed.

Lemma graphic_digit d : 0 <= d <= 9 -> graphic (z2b (48 + d)) = true.
Proof.
  intros. unfold graphic. rewrite b2z_z2b, Z.mod_small by lia.
  by rewrite (proj2 (Z.leb_le 33 _)), (proj2 (Z.leb_le _ 126)) by lia.
Qed.

Lemma graphic_dec_loop fuel u buf :
  forallb graphic buf = true -> forallb graphic (dec_loop fuel u buf) = true.
Proof.
  revert u buf. induction fuel as [|fuel IH]; intros u buf H; simpl; [done|].
  destruct (0 <? u); [|done]. apply IH. simpl.
  rewrite graphic_digit by (pose proof (Z.mod_pos_bound u 10); lia). done.
Qed.

Lemma graphic_FormatInt v : forallb graphic (bytes_of (FormatInt v)) = true.
Proof.
  unfold FormatInt. rewrite bytes_of_string_of. destruct (v =? 0); [done|].
  destruct (v <? 0); [|by apply graphic_dec_loop]. cbn [forallb]. by rewrite graphic_dec_loop.
Qed.

(** ASCII letters to lower case. *)
Definition lower_byte (b : byte) : byte :=
  if (65 <=? b2z b) && (b2z b <=? 90) then z2b (b2z b + 32) else b.

Definition is_ascii (l : list byte) : bool := forallb (fun b => b2z b <? 128) l.

(** [strings.ToLower]; [unicode_lower] is its mapping of texts that are not ASCII. *)
Definition ToLower (unicode_lower : list byte -> list byte) (s : string) : string :=
  let l := bytes_of s in string_of (if is_ascii l then map lower_byte l else unicode_lower l).

(** [strings.Contains(s, substr)] *)
Fixpoint contains_bytes (l sub : list byte) : bool :=
  match strip_prefix sub l with
  | Some _ => true
  | None => match l with [] => false | _ :: l' => contains_bytes l' sub end
  end.
Definition Contains (s substr : string) : bool := contains_bytes (bytes_of s) (bytes_of substr).

Lemma contains_bytes_spec l sub : contains_bytes l sub = true <-> exists x y, l = x ++ sub ++ y.
Proof.
  induction l as [|b l IH]; cbn [contains_bytes].
  - destruct (strip_prefix sub []) as [r|] eqn:E.
    + apply strip_prefix_spec in E. split; [|done]. intros _. by exists [], r.
    + split; [done|]. intros (x & y & H). symmetry in H. apply app_nil in H as [-> H]. symmetry in H.
      assert (E2 : strip_prefix sub [] = Some y) by (by apply strip_prefix_spec). congruence.
  - destruct (strip_prefix sub (b :: l)) as [r|] eqn:E.
    + apply strip_prefix_spec in E. split; [|done]. intros _. by exists [], r.
    + rewrite IH. split.
      * intros (x & y & ->). by exists (b :: x), y.
      * intros (x & y & H). destruct x as [|c x]; [|injection H as _ ->; by exists x, y].
        assert (E2 : strip_prefix sub (b :: l) = Some y) by (by apply strip_prefix_spec). congruence.
Qed.

Lemma Contains_spec s substr : Contains s substr = true <-> exists x y, s = (x ++ substr ++ y)%string.
Proof.
  unfold Contains. rewrite contains_bytes_spec. split.
  - intros (x & y & H). exists (string_of x), (string_of y). apply bytes_of_inj.
    by rewrite !bytes_of_app, !bytes_of_string_of.
  - intros (x & y & ->). exists (bytes_of x), (bytes_of y). by rewrite !bytes_of_app.
Qed.

Example trim_ex : TrimSpace (string_of ([x20; xe2; x80; x83; x61; x20; x62; xc2; xa0; x0a])) = "a b"%string.
Proof. reflexivity. Qed.
Example fields_ex : Fields " /start  now " = ["/start"; "now"]%string.
Proof. reflexivity. Qed.
Example atoi_ex : (Atoi "-42", is_ok (Atoi "4 2"), is_ok (Atoi "9223372036854775808")) = (Ok (-42), false, false).
Proof. reflexivity. Qed.
