(* ===== verification/TL.v ===== *)
(** * TL: the TL serialisation layer (src/mtproto/tl.go)

    [tlBuffer] is the append-only writer, [tlReader] the cursor over a received
    body.  The writer's operations are functions on the buffer; the reader's are
    computations in [M tlReader], because the cursor moves even when a read
    fails half way.  Two relations carry the proofs of every parser built on
    this file: [reads m bs a] (from any position, [m] consumes exactly [bs] and
    returns [a]) and [rsafe m] (whatever the input, [m] does not panic and only
    moves the cursor forward inside the buffer). *)

From S2P Require Import Prelude.

Definition constructorReqPQMulti := 0xbe7e8ef1.
Definition constructorResPQ := 0x05162463.
Definition constructorVector := 0x1cb5c415.
Definition constructorPQInnerDataDC := 0xa9f55f95.
Definition constructorReqDHParams := 0xd712e4be.
Definition constructorServerDHParamsOK := 0xd0e8075c.
Definition constructorServerDHParamsBad := 0x79cb045d.
Definition constructorServerDHInnerData := 0xb5890dba.
Definition constructorSetClientDHParams := 0xf5045f1f.
Definition constructorClientDHInnerData := 0x6643b654.
Definition constructorDHGenOK := 0x3bcbf734.
Definition constructorDHGenRetry := 0x46dc1fb9.
Definition constructorDHGenFail := 0xa69dae02.

(** ** The writer *)

Record tlBuffer := TLBuffer { tb_buf : list byte }.

(** [var b tlBuffer] *)
Definition tb_empty : tlBuffer := TLBuffer [].

Definition putInt (v : Z) (b : tlBuffer) : tlBuffer := TLBuffer (tb_buf b ++ le_bytes 4 v).
Definition putLong (v : Z) (b : tlBuffer) : tlBuffer := TLBuffer (tb_buf b ++ le_bytes 8 v).
Definition putRaw (v : list byte) (b : tlBuffer) : tlBuffer := TLBuffer (tb_buf b ++ v).

(** [for (header+n)%4 != 0 { b.buf = append(b.buf, 0); header++ }]: four rounds
    of fuel always reach a multiple of four. *)
Fixpoint pad_loop (fuel : nat) (header n : Z) (buf : list byte) : list byte :=
  match fuel with
  | O => buf
  | S fuel' =>
      if (header + n) mod 4 =? 0 then buf
      else pad_loop fuel' (header + 1) n (buf ++ [x00])
  end.

Definition putBytes (v : list byte) (b : tlBuffer) : tlBuffer :=
  let n := len v in
  let '(prefix, header) :=
    if n <? 254 then ([z2b n], 1)
    else ([z2b 254; z2b n; z2b (Z.shiftr n 8); z2b (Z.shiftr n 16)], 4) in
  TLBuffer (pad_loop 4 header n (tb_buf b ++ prefix ++ v)).

Definition putString (v : string) (b : tlBuffer) : tlBuffer := putBytes (bytes_of v) b.

(** ** The reader *)

Record tlReader := TLReader { r_buf : list byte; r_off : Z }.

Definition newTLReader (buf : list byte) : tlReader := TLReader buf 0.

Definition advance (k : Z) : M tlReader unit :=
  modify (fun r => TLReader (r_buf r) (r_off r + k)).

(** [if len(r.buf)-r.off < n { return ..., errors.New(text) }] *)
Definition need (n : Z) (text : string) : M tlReader unit :=
  r <- get ;;
  guard (negb (len (r_buf r) - r_off r <? n)) (ErrNew text).

(** [r.buf[r.off : r.off+n]] *)
Definition peek (n : Z) : M tlReader (list byte) :=
  r <- get ;; lift (slice (r_buf r) (r_off r) (r_off r + n)).

(** [r.buf[r.off+k]] *)
Definition peek_at (k : Z) : M tlReader byte :=
  r <- get ;; lift (index (r_buf r) (r_off r + k)).

Definition tl_int : M tlReader Z :=
  need 4 "tl: not enough bytes for int" ;;
  v <- peek 4 ;; advance 4 ;; ret (le_value v).

Definition tl_long : M tlReader Z :=
  need 8 "tl: not enough bytes for long" ;;
  v <- peek 8 ;; advance 8 ;; ret (le_value v).

Definition tl_raw (n : Z) : M tlReader (list byte) :=
  guard (negb (n <? 0)) (ErrNew "tl: not enough bytes for raw") ;;
  need n "tl: not enough bytes for raw" ;;
  v <- peek n ;; advance n ;; ret v.

(** The padding loop of [bytes]. *)
Fixpoint skip_loop (fuel : nat) (header n : Z) : M tlReader unit :=
  match fuel with
  | O => ret tt
  | S fuel' =>
      if (header + n) mod 4 =? 0 then ret tt
      else need 1 "tl: not enough bytes for bytes padding" ;;
           advance 1 ;; skip_loop fuel' (header + 1) n
  end.

Definition tl_bytes : M tlReader (list byte) :=
  need 1 "tl: not enough bytes for bytes length" ;;
  b <- peek_at 0 ;;
  let first := b2z b in
  advance 1 ;;
  nh <- (if first <? 254 then ret (first, 1)
         else need 3 "tl: not enough bytes for long bytes length" ;;
              b0 <- peek_at 0 ;; b1 <- peek_at 1 ;; b2 <- peek_at 2 ;;
              let n := Z.lor (Z.lor (b2z b0) (Z.shiftl (b2z b1) 8)) (Z.shiftl (b2z b2) 16) in
              advance 3 ;; ret (n, 4)) ;;
  let '(n, header) := nh in
  need n "tl: not enough bytes for bytes payload" ;;
  v <- peek n ;; advance n ;;
  skip_loop 4 header n ;;
  ret v.

Definition tl_string : M tlReader string := b <- tl_bytes ;; ret (string_of b).

Definition tl_remaining (r : tlReader) : list byte :=
  if len (r_buf r) <=? r_off r then [] else sub (r_buf r) (r_off r) (len (r_buf r)).

(** ** What a read consumes *)

(** [reads m bs a]: wherever [bs] stands in the buffer, [m] started at its first
    byte returns [a] and leaves the cursor just after its last byte. *)
Definition reads {A} (m : M tlReader A) (bs : list byte) (a : A) : Prop :=
  forall pre post,
    m (TLReader (pre ++ bs ++ post) (len pre)) =
    (Ok a, TLReader (pre ++ bs ++ post) (len pre + len bs)).

Lemma reads_ret {A} (a : A) : reads (ret a) [] a.
Proof. intros pre post. unfold ret. by rewrite len_nil, Z.add_0_r. Qed.

Lemma reads_bind {A B} (m : M tlReader A) (k : A -> M tlReader B) bs1 bs2 a b :
  reads m bs1 a -> reads (k a) bs2 b -> reads (x <- m ;; k x) (bs1 ++ bs2) b.
Proof.
  intros H1 H2 pre post.
  specialize (H1 pre (bs2 ++ post)). specialize (H2 (pre ++ bs1) post).
  rewrite <- !app_assoc in *. rewrite (bind_ok _ _ _ _ _ H1).
  rewrite len_app in *. rewrite H2. by rewrite Z.add_assoc.
Qed.

(** A step that consumes nothing, and the last value of a sequence. *)
Lemma reads_bind0 {A B} (m : M tlReader A) (k : A -> M tlReader B) bs a b :
  reads m [] a -> reads (k a) bs b -> reads (x <- m ;; k x) bs b.
Proof. apply (reads_bind m k [] bs). Qed.

Lemma reads_last {A B} (m : M tlReader A) (k : A -> M tlReader B) bs a b :
  reads m bs a -> reads (k a) [] b -> reads (x <- m ;; k x) bs b.
Proof. intros H1 H2. rewrite <- (app_nil_r bs). by eapply reads_bind. Qed.

(** The last step of a parser that consumes everything [m] consumes. *)
Lemma reads_map {A B} (m : M tlReader A) (f : A -> B) bs a :
  reads m bs a -> reads (x <- m ;; ret (f x)) bs (f a).
Proof.
  intros H. rewrite <- (app_nil_r bs).
  eapply reads_bind; [exact H|apply reads_ret].
Qed.

Lemma reads_guard (c : bool) e : c = true -> reads (guard c e) [] tt.
Proof. intros ->. apply reads_ret. Qed.

Lemma reads_run {A} (m : M tlReader A) bs rest a :
  reads m bs a -> m (newTLReader (bs ++ rest)) = (Ok a, TLReader (bs ++ rest) (len bs)).
Proof. intros H. apply (H [] rest). Qed.

Lemma reads_eval {A} (m : M tlReader A) bs rest a :
  reads m bs a -> eval m (newTLReader (bs ++ rest)) = Ok a.
Proof. intros H. unfold eval. by rewrite (reads_run _ _ _ _ H). Qed.

Lemma need_ok n text r :
  n <= len (r_buf r) - r_off r -> need n text r = (Ok tt, r).
Proof.
  intros. unfold need, bind, get, guard.
  rewrite (proj2 (Z.ltb_ge _ n)) by lia. done.
Qed.

Lemma need_short n text r :
  len (r_buf r) - r_off r < n -> need n text r = (Err (ErrNew text), r).
Proof.
  intros. unfold need, bind, get, guard.
  by rewrite (proj2 (Z.ltb_lt _ n)) by lia.
Qed.

(** The three steps every fixed-width read is made of. *)
Lemma reads_chunk {A} n text (bs : list byte) (f : list byte -> A) :
  n = len bs ->
  reads (need n text ;; v <- peek n ;; advance n ;; ret (f v)) bs (f bs).
Proof.
  intros -> pre post. erewrite bind_ok; [|apply need_ok; simpl; len_lia].
  unfold bind, peek, get, lift, advance, modify, ret. simpl.
  rewrite slice_ok by (try len_lia; apply len_nonneg).
  by rewrite sub_app_mid.
Qed.

Lemma reads_int v : reads tl_int (le_bytes 4 v) (u32 v).
Proof. rewrite <- le_value_4. by apply (reads_chunk 4 _ (le_bytes 4 v) le_value). Qed.

Lemma reads_long v : reads tl_long (le_bytes 8 v) (u64 v).
Proof. rewrite <- le_value_8. by apply (reads_chunk 8 _ (le_bytes 8 v) le_value). Qed.

Lemma reads_raw n bs : n = len bs -> reads (tl_raw n) bs bs.
Proof.
  intros ->. unfold tl_raw. rewrite <- (app_nil_l bs) at 2.
  eapply reads_bind.
  { apply reads_guard. pose proof (len_nonneg bs). by rewrite (proj2 (Z.ltb_ge _ _)) by lia. }
  by apply (reads_chunk (len bs) _ bs id).
Qed.

(** ** Length-prefixed byte strings *)

Definition pad_len (k : Z) : Z := (- k) mod 4.

(** The bytes [putBytes] appends. *)
Definition tl_encoding (v : list byte) : list byte :=
  let n := len v in
  (if n <? 254 then [z2b n]
   else [z2b 254; z2b n; z2b (Z.shiftr n 8); z2b (Z.shiftr n 16)])
  ++ v ++ replicate (Z.to_nat (pad_len ((if n <? 254 then 1 else 4) + n))) x00.

Lemma pad_len_range k : 0 <= pad_len k < 4.
Proof. apply Z.mod_pos_bound. lia. Qed.

Lemma pad_len_step k : k mod 4 <> 0 -> pad_len k = 1 + pad_len (k + 1).
Proof. unfold pad_len. intros. zlia. Qed.

Lemma pad_len_done k : k mod 4 = 0 -> pad_len k = 0.
Proof. unfold pad_len. intros. zlia. Qed.

Lemma pad_loop_spec fuel header n buf :
  pad_len (header + n) < Z.of_nat fuel ->
  pad_loop fuel header n buf = buf ++ replicate (Z.to_nat (pad_len (header + n))) x00.
Proof.
  revert header buf. induction fuel as [|fuel IH]; intros header buf Hf; simpl.
  { pose proof (pad_len_range (header + n)). lia. }
  case (Z.eqb_spec ((header + n) mod 4) 0); intros H0.
  - rewrite (pad_len_done _ H0). by rewrite app_nil_r.
  - pose proof (pad_len_step _ H0) as Hs. pose proof (pad_len_range (header + n + 1)).
    replace (header + n + 1) with (header + 1 + n) in * by lia.
    rewrite IH by lia. rewrite Hs, Z2Nat.inj_add, <- app_assoc by lia. done.
Qed.

Lemma putBytes_spec v b : putBytes v b = TLBuffer (tb_buf b ++ tl_encoding v).
Proof.
  unfold putBytes, tl_encoding. f_equal.
  destruct (len v <? 254) eqn:E; rewrite pad_loop_spec by apply pad_len_range;
    by rewrite <- !app_assoc.
Qed.

(** What each writer appends. *)
Lemma buf_putInt v b : tb_buf (putInt v b) = tb_buf b ++ le_bytes 4 v.
Proof. reflexivity. Qed.
Lemma buf_putLong v b : tb_buf (putLong v b) = tb_buf b ++ le_bytes 8 v.
Proof. reflexivity. Qed.
Lemma buf_putRaw v b : tb_buf (putRaw v b) = tb_buf b ++ v.
Proof. reflexivity. Qed.
Lemma buf_putBytes v b : tb_buf (putBytes v b) = tb_buf b ++ tl_encoding v.
Proof. by rewrite putBytes_spec. Qed.
Lemma buf_putString s b : tb_buf (putString s b) = tb_buf b ++ tl_encoding (bytes_of s).
Proof. apply buf_putBytes. Qed.
Lemma buf_empty : tb_buf tb_empty = [].
Proof. reflexivity. Qed.

Create Rewrite HintDb tl_buf.
#[export] Hint Rewrite buf_putInt buf_putLong buf_putRaw buf_putBytes buf_putString buf_empty
  : tl_buf.

Lemma reads_skip_loop fuel header n bs :
  pad_len (header + n) < Z.of_nat fuel -> len bs = pad_len (header + n) ->
  reads (skip_loop fuel header n) bs tt.
Proof.
  revert header bs. induction fuel as [|fuel IH]; intros header bs Hf Hlen; simpl.
  { pose proof (pad_len_range (header + n)). lia. }
  case (Z.eqb_spec ((header + n) mod 4) 0); intros H0.
  - rewrite (pad_len_done _ H0) in Hlen. rewrite (len_zero _ Hlen). apply reads_ret.
  - pose proof (pad_len_step _ H0) as Hs. pose proof (pad_len_range (header + n + 1)).
    replace (header + n + 1) with (header + 1 + n) in * by lia.
    destruct bs as [|x bs]; [rewrite len_nil in Hlen; lia|]. rewrite len_cons in Hlen.
    intros pre post. erewrite bind_ok; [|apply need_ok; simpl; len_lia].
    unfold bind at 1, advance, modify. simpl.
    specialize (IH (header + 1) bs ltac:(lia) ltac:(lia) (pre ++ [x]) post).
    autorewrite with lens in IH. rewrite <- app_assoc in IH. simpl in IH.
    replace (len pre + 1) with (len pre + (1 + 0)) by lia. rewrite IH.
    do 2 f_equal. autorewrite with lens. lia.
Qed.

(** Reading one byte at the cursor. *)
Lemma peek_at_mid pre mid x post k :
  k = len mid ->
  peek_at k (TLReader (pre ++ mid ++ x :: post) (len pre)) =
  (Ok x, TLReader (pre ++ mid ++ x :: post) (len pre)).
Proof.
  intros ->. unfold peek_at, bind, get, lift. simpl. f_equal.
  rewrite (app_assoc pre mid). apply index_app_mid. by rewrite len_app.
Qed.

Lemma lor_three_bytes n :
  Z.lor (Z.lor (b2z (z2b n)) (Z.shiftl (b2z (z2b (Z.shiftr n 8))) 8))
        (Z.shiftl (b2z (z2b (Z.shiftr n 16))) 16) = n mod two24.
Proof.
  rewrite !b2z_z2b, !Z.shiftr_div_pow2 by lia.
  rewrite (lor_shiftl_add _ _ 8) by zlia. rewrite lor_shiftl_add by zlia.
  change (2 ^ 8) with 256. change (2 ^ 16) with 65536. zlia.
Qed.

(** The prefix of a short string, of a long string, and the payload. *)
Lemma take_byte {A} t pre x post (k : byte -> M tlReader A) :
  (need 1 t ;; b <- peek_at 0 ;; advance 1 ;; k b) (TLReader (pre ++ x :: post) (len pre)) =
  k x (TLReader (pre ++ x :: post) (len pre + 1)).
Proof.
  erewrite bind_ok; [|apply need_ok; simpl; len_lia].
  erewrite bind_ok; [|by apply (peek_at_mid pre [] x post 0)]. done.
Qed.

Lemma take_three {A} t pre x y z post (k : byte -> byte -> byte -> M tlReader A) :
  (need 3 t ;; b0 <- peek_at 0 ;; b1 <- peek_at 1 ;; b2 <- peek_at 2 ;; advance 3 ;; k b0 b1 b2)
    (TLReader (pre ++ x :: y :: z :: post) (len pre)) =
  k x y z (TLReader (pre ++ x :: y :: z :: post) (len pre + 3)).
Proof.
  erewrite bind_ok; [|apply need_ok; simpl; len_lia].
  erewrite bind_ok; [|by apply (peek_at_mid pre [] x _ 0)].
  erewrite bind_ok; [|by apply (peek_at_mid pre [x] y _ 1)].
  erewrite bind_ok; [|by apply (peek_at_mid pre [x; y] z _ 2)]. done.
Qed.

Lemma take_chunk {A} n t pre bs post (k : list byte -> M tlReader A) :
  n = len bs ->
  (need n t ;; v <- peek n ;; advance n ;; k v) (TLReader (pre ++ bs ++ post) (len pre)) =
  k bs (TLReader (pre ++ bs ++ post) (len pre + len bs)).
Proof.
  intros ->. erewrite bind_ok; [|apply need_ok; simpl; len_lia].
  unfold bind at 1, peek at 1, bind at 1, get, lift. simpl.
  rewrite slice_ok by (try len_lia; apply len_nonneg).
  by rewrite sub_app_mid.
Qed.

(** Payload and padding, once the length is known. *)
Lemma reads_payload header v text pad :
  len pad = pad_len (header + len v) ->
  reads (need (len v) text ;; x <- peek (len v) ;; advance (len v) ;;
         skip_loop 4 header (len v) ;; ret x) (v ++ pad) v.
Proof.
  intros Hp pre post. rewrite <- app_assoc. rewrite take_chunk by done.
  pose proof (reads_skip_loop 4 header (len v) pad) as Hs.
  pose proof (pad_len_range (header + len v)).
  specialize (Hs ltac:(lia) Hp (pre ++ v) post).
  rewrite <- app_assoc, !len_app in Hs. erewrite bind_ok by exact Hs.
  unfold ret. by rewrite len_app, Z.add_assoc.
Qed.

Lemma reads_bytes v : len v < two24 -> reads tl_bytes (tl_encoding v) v.
Proof.
  intros Hlen pre post. unfold tl_bytes, tl_encoding.
  set (pad := replicate _ _).
  assert (Hpad : forall h, h = (if len v <? 254 then 1 else 4) -> len pad = pad_len (h + len v)).
  { intros h ->. unfold pad. rewrite len_replicate.
    match goal with |- context [pad_len ?k] => pose proof (pad_len_range k) end. lia. }
  pose proof (len_nonneg v). destruct (Z.ltb_spec (len v) 254) as [Hs|Hs].
  - rewrite <- app_assoc. cbn [app]. rewrite take_byte. unfold bind at 1.
    rewrite b2z_z2b, Z.mod_small, (proj2 (Z.ltb_lt _ 254)) by lia. unfold ret at 1.
    pose proof (reads_payload 1 v "tl: not enough bytes for bytes payload" pad
                  (Hpad 1 eq_refl) (pre ++ [z2b (len v)]) post) as R.
    autorewrite with lens in R. rewrite <- !app_assoc in R. cbn [app] in R.
    rewrite Z.add_0_r in R. rewrite <- (app_assoc v pad post), R.
    do 2 f_equal. autorewrite with lens. lia.
  - rewrite <- app_assoc. cbn [app]. rewrite take_byte. rewrite b2z_z2b.
    change (254 mod 256 <? 254) with false. cbn iota.
    pose proof (take_three "tl: not enough bytes for long bytes length"
      (pre ++ [z2b 254]) (z2b (len v)) (z2b (Z.shiftr (len v) 8)) (z2b (Z.shiftr (len v) 16))
      ((v ++ pad) ++ post)
      (fun b0 b1 b2 => ret (Z.lor (Z.lor (b2z b0) (Z.shiftl (b2z b1) 8)) (Z.shiftl (b2z b2) 16), 4)))
      as H3.
    rewrite <- app_assoc in H3. autorewrite with lens in H3. cbn [app] in H3.
    rewrite Z.add_0_r in H3. erewrite bind_ok by exact H3. clear H3.
    rewrite lor_three_bytes, Z.mod_small by (unfold two24 in *; lia).
    pose proof (reads_payload 4 v "tl: not enough bytes for bytes payload" pad (Hpad 4 eq_refl)
      (pre ++ [z2b 254; z2b (len v); z2b (Z.shiftr (len v) 8); z2b (Z.shiftr (len v) 16)]) post) as R.
    autorewrite with lens in R. rewrite <- !app_assoc in R. cbn [app] in R.
    rewrite <- (app_assoc v pad post).
    replace (len pre + (1 + (1 + (1 + (1 + 0))))) with (len pre + 1 + 3) in R by lia.
    rewrite R. do 2 f_equal. autorewrite with lens. lia.
Qed.

Lemma reads_string s : len (bytes_of s) < two24 -> reads tl_string (tl_encoding (bytes_of s)) s.
Proof.
  intros H. pose proof (reads_map tl_bytes string_of _ _ (reads_bytes _ H)) as R.
  by rewrite string_of_bytes_of in R.
Qed.

Lemma len_tl_encoding_mod4 v : len (tl_encoding v) mod 4 = 0.
Proof.
  unfold tl_encoding. pose proof (len_nonneg v).
  destruct (len v <? 254); autorewrite with lens; unfold pad_len; zlia.
Qed.

(** ** Safety of reads *)

Definition rwf (r : tlReader) : Prop := 0 <= r_off r <= len (r_buf r).

(** From [r], an outcome that is not a panic, with the buffer untouched and the
    cursor moved forward inside it. *)
Definition safe_at {A} (r : tlReader) (o : outcome A * tlReader) : Prop :=
  fst o <> Panic /\ r_buf (snd o) = r_buf r /\ r_off r <= r_off (snd o) /\ rwf (snd o).

Definition rsafe {A} (m : M tlReader A) : Prop := forall r, rwf r -> safe_at r (m r).

Lemma rwf_new buf : rwf (newTLReader buf).
Proof. split; simpl; [lia|apply len_nonneg]. Qed.

Lemma rsafe_eval {A} (m : M tlReader A) buf : rsafe m -> eval m (newTLReader buf) <> Panic.
Proof. intros H. apply (H _ (rwf_new buf)). Qed.

Lemma safe_at_stay {A} r (o : outcome A) : rwf r -> o <> Panic -> safe_at r (o, r).
Proof. intros H Ho. split; [done|]. split; [done|]. split; [simpl; lia|done]. Qed.

Lemma safe_at_later {A} r r1 (o : outcome A * tlReader) :
  r_buf r1 = r_buf r -> r_off r <= r_off r1 -> safe_at r1 o -> safe_at r o.
Proof. intros Hb Ho (H1 & H2 & H3 & H4). split; [done|]. split; [congruence|]. split; [lia|done]. Qed.

(** Continuing [k] bytes further. *)
Lemma safe_at_advance {A} r n (m : M tlReader A) :
  rwf r -> 0 <= n <= len (r_buf r) - r_off r -> rsafe m ->
  safe_at r (m (TLReader (r_buf r) (r_off r + n))).
Proof.
  intros [Hr1 Hr2] Hn Hm. eapply safe_at_later; [| |apply Hm]; simpl; [done|lia|].
  split; simpl; lia.
Qed.

Lemma rsafe_ret {A} (a : A) : rsafe (ret a).
Proof. intros r H. by apply safe_at_stay. Qed.
Lemma rsafe_fail {A} e : rsafe (@fail _ A e).
Proof. intros r H. by apply safe_at_stay. Qed.
Lemma rsafe_get : rsafe get.
Proof. intros r H. by apply safe_at_stay. Qed.
Lemma rsafe_lift {A} (o : outcome A) : o <> Panic -> rsafe (lift o).
Proof. intros Ho r H. by apply safe_at_stay. Qed.
Lemma rsafe_advance k : 0 <= k -> forall r, rwf r -> r_off r + k <= len (r_buf r) -> safe_at r (advance k r).
Proof. intros Hk r [H1 H2] Hl. repeat split; simpl; [done|lia..]. Qed.
Lemma rsafe_guard_then {A} c e (k : M tlReader A) : (c = true -> rsafe k) -> rsafe (guard c e ;; k).
Proof.
  intros Hk r Hr. destruct c; [|by apply safe_at_stay].
  change ((guard true e ;; k) r) with (k r). by apply Hk.
Qed.
Lemma rsafe_guard c e : rsafe (guard c e).
Proof. unfold guard. destruct c; [apply rsafe_ret|apply rsafe_fail]. Qed.

Lemma rsafe_bind {A B} (m : M tlReader A) (k : A -> M tlReader B) :
  rsafe m -> (forall a, rsafe (k a)) -> rsafe (x <- m ;; k x).
Proof.
  intros Hm Hk r Hr. specialize (Hm r Hr). unfold bind.
  destruct (m r) as [[a|e|] r'] eqn:E; destruct Hm as (Hp & Hb & Ho & Hw); simpl in *.
  - eapply safe_at_later; [done|done|]. by apply Hk.
  - by repeat split; try apply Hw.
  - done.
Qed.

Lemma rsafe_need n t : rsafe (need n t).
Proof. apply rsafe_bind; [apply rsafe_get|intros; apply rsafe_guard]. Qed.

Lemma rsafe_when c m : rsafe m -> rsafe (when c m).
Proof. intros. destruct c; [done|apply rsafe_ret]. Qed.

Lemma rsafe_try {A} (m : M tlReader A) : rsafe m -> rsafe (try m).
Proof.
  intros Hm r Hr. specialize (Hm r Hr). unfold try.
  destruct (m r) as [[a|e|] r']; destruct Hm as (Hp & Hb & Ho & Hw); by repeat split; try apply Hw.
Qed.

Lemma rsafe_rounds {A R} (f g : A -> M tlReader (A + R)) :
  (forall a, rsafe (f a)) -> (forall a, rsafe (g a)) -> forall a, rsafe (rounds f g a).
Proof. intros Hf Hg a. apply rsafe_bind; [apply Hf|]. intros [a'|r]; [apply Hg|apply rsafe_ret]. Qed.

Lemma rsafe_for_n {A R} n (body : A -> M tlReader (A + R)) a :
  (forall a, rsafe (body a)) -> rsafe (for_n n body a).
Proof.
  intros Hb. destruct n as [|p|p]; [apply rsafe_ret| |apply rsafe_ret].
  revert a. simpl. induction p as [p IH|p IH|]; simpl; auto using rsafe_rounds.
Qed.

Lemma rsafe_for_each {A} n (body : A -> M tlReader A) a :
  (forall a, rsafe (body a)) -> rsafe (for_each n body a).
Proof.
  intros Hb. apply rsafe_bind.
  - apply rsafe_for_n. intros a'. apply rsafe_bind; [apply Hb|]. intros. apply rsafe_ret.
  - intros [a'|[]]. apply rsafe_ret.
Qed.

(** Looking at and consuming at most as much as was checked for. *)
Lemma rsafe_need_then {A} n t (k : M tlReader A) :
  (forall r, rwf r -> n <= len (r_buf r) - r_off r -> safe_at r (k r)) ->
  rsafe (need n t ;; k).
Proof.
  intros Hk r Hr. destruct (Z.ltb_spec (len (r_buf r) - r_off r) n).
  - erewrite bind_err by (by apply need_short). by apply safe_at_stay.
  - erewrite bind_ok by (by apply need_ok). by apply Hk.
Qed.

Lemma rsafe_chunk {A} n t (k : list byte -> M tlReader A) :
  0 <= n -> (forall v, rsafe (k v)) ->
  rsafe (need n t ;; v <- peek n ;; advance n ;; k v).
Proof.
  intros Hn Hk. apply rsafe_need_then. intros r Hr Hl. pose proof Hr as [Hr1 Hr2].
  unfold bind at 1, peek, bind at 1, get, lift. rewrite slice_ok by lia.
  by apply (safe_at_advance r n (k _)).
Qed.

Lemma rsafe_int : rsafe tl_int.
Proof. apply rsafe_chunk; [lia|]. intros. apply rsafe_ret. Qed.
Lemma rsafe_long : rsafe tl_long.
Proof. apply rsafe_chunk; [lia|]. intros. apply rsafe_ret. Qed.

Lemma rsafe_raw n : rsafe (tl_raw n).
Proof.
  destruct (Z.ltb_spec n 0) as [Hn|Hn].
  - intros r Hr. unfold tl_raw, guard. rewrite (proj2 (Z.ltb_lt n 0)) by done.
    by apply (rsafe_fail (A := list byte) (ErrNew "tl: not enough bytes for raw")).
  - unfold tl_raw. apply rsafe_bind; [apply rsafe_guard|]. intros _.
    apply rsafe_chunk; [done|]. intros. apply rsafe_ret.
Qed.

Lemma rsafe_take_byte {A} t (k : byte -> M tlReader A) :
  (forall b, rsafe (k b)) -> rsafe (need 1 t ;; b <- peek_at 0 ;; advance 1 ;; k b).
Proof.
  intros Hk. apply rsafe_need_then. intros r Hr Hl. pose proof Hr as [Hr1 Hr2].
  destruct (index_ok (r_buf r) (r_off r + 0)) as (x & Hx & _); [lia|].
  unfold bind at 1, peek_at, bind at 1, get, lift. rewrite Hx.
  apply (safe_at_advance r 1 (k x)); [done|lia|done].
Qed.

Lemma rsafe_take_three {A} t (k : byte -> byte -> byte -> M tlReader A) :
  (forall x y z, rsafe (k x y z)) ->
  rsafe (need 3 t ;; b0 <- peek_at 0 ;; b1 <- peek_at 1 ;; b2 <- peek_at 2 ;;
         advance 3 ;; k b0 b1 b2).
Proof.
  intros Hk. apply rsafe_need_then. intros r Hr Hl. pose proof Hr as [Hr1 Hr2].
  destruct (index_ok (r_buf r) (r_off r + 0)) as (x & Hx & _); [lia|].
  destruct (index_ok (r_buf r) (r_off r + 1)) as (y & Hy & _); [lia|].
  destruct (index_ok (r_buf r) (r_off r + 2)) as (z & Hz & _); [lia|].
  unfold bind, peek_at, bind, get, lift. rewrite Hx, Hy, Hz.
  apply (safe_at_advance r 3 (k x y z)); [done|lia|done].
Qed.

Lemma rsafe_skip_loop fuel header n : rsafe (skip_loop fuel header n).
Proof.
  revert header. induction fuel as [|fuel IH]; intros header; simpl; [apply rsafe_ret|].
  destruct (_ =? 0); [apply rsafe_ret|].
  apply rsafe_need_then. intros r Hr Hl. apply (safe_at_advance r 1); [done|lia|apply IH].
Qed.

Create HintDb tl.
#[export] Hint Resolve rsafe_ret rsafe_fail rsafe_get rsafe_guard rsafe_need rsafe_int rsafe_long
  rsafe_raw rsafe_skip_loop rsafe_when rsafe_try : tl.

(** A sequence whose continuation is safe only on the values [m] can return. *)
Definition returns {A} (m : M tlReader A) (P : A -> Prop) : Prop :=
  forall r a r', m r = (Ok a, r') -> P a.

Lemma rsafe_bind_post {A B} (P : A -> Prop) (m : M tlReader A) (k : A -> M tlReader B) :
  rsafe m -> returns m P -> (forall a, P a -> rsafe (k a)) -> rsafe (x <- m ;; k x).
Proof.
  intros Hm HP Hk r Hr. specialize (Hm r Hr). unfold bind.
  destruct (m r) as [[a|e|] r'] eqn:E; destruct Hm as (Hp & Hb & Ho & Hw); simpl in *.
  - eapply safe_at_later; [done|done|]. apply Hk; [by eapply HP|done].
  - by repeat split; try apply Hw.
  - done.
Qed.

Lemma bind_inv {S A B} (m : M S A) (k : A -> M S B) s b s' :
  (x <- m ;; k x) s = (Ok b, s') -> exists a s1, m s = (Ok a, s1) /\ k a s1 = (Ok b, s').
Proof. unfold bind. destruct (m s) as [[a|e|] s1]; intros H; [eauto|done|done]. Qed.

Lemma ret_inv {S A} (a b : A) (s s' : S) : ret a s = (Ok b, s') -> a = b /\ s = s'.
Proof. by injection 1. Qed.

(** Split a successful run into its steps. *)
Ltac run_inv :=
  repeat match goal with
  | H : bind _ _ _ = (Ok _, _) |- _ =>
      let a := fresh "a" in let s := fresh "s" in let H1 := fresh "Hrun" in
      apply bind_inv in H as (a & s & H1 & H)
  | H : ret _ _ = (Ok _, _) |- _ => apply ret_inv in H as [? ?]; subst
  | H : fail _ _ = (Ok _, _) |- _ => discriminate H
  end.

(** What a successful fixed-width read did. *)
Lemma chunk_inv {A} n text (f : list byte -> A) r a r' :
  (need n text ;; v <- peek n ;; advance n ;; ret (f v)) r = (Ok a, r') ->
  n <= len (r_buf r) - r_off r /\ a = f (sub (r_buf r) (r_off r) (r_off r + n)) /\
  r' = TLReader (r_buf r) (r_off r + n).
Proof.
  destruct (Z.ltb_spec (len (r_buf r) - r_off r) n) as [Hl|Hl].
  { erewrite bind_err by (by apply need_short). done. }
  erewrite bind_ok by (by apply need_ok). intros H. split; [done|].
  unfold bind at 1, peek, bind at 1, get, lift in H.
  destruct (slice_cases (r_buf r) (r_off r) (r_off r + n)) as [(_ & _ & E)|E]; rewrite E in H; [|done].
  cbn in H. by injection H as <- <-.
Qed.

Lemma int_inv r a r' : tl_int r = (Ok a, r') ->
  4 <= len (r_buf r) - r_off r /\ a = le_value (sub (r_buf r) (r_off r) (r_off r + 4)) /\
  r' = TLReader (r_buf r) (r_off r + 4).
Proof. apply (chunk_inv 4 _ le_value). Qed.

Lemma long_inv r a r' : tl_long r = (Ok a, r') ->
  8 <= len (r_buf r) - r_off r /\ a = le_value (sub (r_buf r) (r_off r) (r_off r + 8)) /\
  r' = TLReader (r_buf r) (r_off r + 8).
Proof. apply (chunk_inv 8 _ le_value). Qed.

Lemma raw_inv n r a r' : tl_raw n r = (Ok a, r') ->
  0 <= n <= len (r_buf r) - r_off r /\ a = sub (r_buf r) (r_off r) (r_off r + n) /\
  r' = TLReader (r_buf r) (r_off r + n).
Proof.
  unfold tl_raw. destruct (Z.ltb_spec n 0) as [Hn|Hn]; [done|].
  change ((guard (negb false) (ErrNew "tl: not enough bytes for raw");; ?k) r) with (k r).
  intros H. apply (chunk_inv n _ id) in H as (H1 & H2 & H3). split; [lia|done].
Qed.

Lemma three_bytes_range x y z :
  0 <= Z.lor (Z.lor (b2z x) (Z.shiftl (b2z y) 8)) (Z.shiftl (b2z z) 16) < two24.
Proof.
  pose proof (b2z_range x). pose proof (b2z_range y). pose proof (b2z_range z).
  rewrite (lor_shiftl_add (b2z x)) by lia. change (2 ^ 8) with 256.
  rewrite lor_shiftl_add by lia. unfold two24. lia.
Qed.

(** The first half of [bytes]: the payload length and the header size. *)
Definition tl_length (first : Z) : M tlReader (Z * Z) :=
  if first <? 254 then ret (first, 1)
  else need 3 "tl: not enough bytes for long bytes length" ;;
       b0 <- peek_at 0 ;; b1 <- peek_at 1 ;; b2 <- peek_at 2 ;;
       let n := Z.lor (Z.lor (b2z b0) (Z.shiftl (b2z b1) 8)) (Z.shiftl (b2z b2) 16) in
       advance 3 ;; ret (n, 4).

Lemma rsafe_length first : rsafe (tl_length first).
Proof.
  unfold tl_length. destruct (first <? 254); [apply rsafe_ret|].
  apply rsafe_take_three. intros. apply rsafe_ret.
Qed.

Lemma tl_length_range first :
  0 <= first < 256 -> returns (tl_length first) (fun nh => 0 <= nh.1 < two24).
Proof.
  intros Hf r nh r' H. unfold tl_length in H. destruct (Z.ltb_spec first 254); run_inv; simpl.
  - unfold two24. lia.
  - apply three_bytes_range.
Qed.

Lemma rsafe_bytes : rsafe tl_bytes.
Proof.
  apply rsafe_take_byte. intros b. pose proof (b2z_range b).
  eapply (rsafe_bind_post _ (tl_length (b2z b))).
  { apply rsafe_length. } { by apply tl_length_range. }
  intros [n header] [Hn _]. apply rsafe_chunk; [done|].
  intros. apply rsafe_bind; auto with tl.
Qed.
#[export] Hint Resolve rsafe_bytes : tl.

Lemma rsafe_string : rsafe tl_string.
Proof. apply rsafe_bind; auto with tl. Qed.
#[export] Hint Resolve rsafe_string : tl.

(** Discharge [rsafe] of a composed parser: peel binds and branches. *)
Ltac rsafe_auto :=
  repeat first
    [ solve [auto with tl]
    | apply rsafe_bind; [|intros]
    | apply rsafe_for_n; intros
    | apply rsafe_for_each; intros
    | match goal with
      | |- rsafe (if ?c then _ else _) => destruct c
      | |- rsafe (match ?x with _ => _ end) => destruct x
      | |- rsafe (let '(_, _) := ?x in _) => destruct x
      end ].

(** A read by a caller whose own state is untouched. *)
Lemma hoare_on {S A} (P : S -> Prop) r (m : M tlReader A) :
  rsafe m -> rwf r ->
  hoare P (on r m) (fun x s => (m r = (Ok (fst x), snd x) /\ rwf (snd x) /\ r_buf (snd x) = r_buf r) /\ P s) P.
Proof.
  intros Hm Hr s Hs. specialize (Hm r Hr). unfold on.
  destruct (m r) as [[a|e|] r'] eqn:E; destruct Hm as (Hp & Hb & Ho & Hw); done.
Qed.

Lemma peek_returns n : returns (peek n) (fun v => len v = n).
Proof.
  intros r v r' H. unfold peek in H. run_inv. injection Hrun as <- <-.
  unfold lift in H. injection H as H <-.
  destruct (slice_cases (r_buf r) (r_off r) (r_off r + n)) as [(?&?&E)|E]; rewrite E in H;
    [injection H as <-|done].
  rewrite len_sub; lia.
Qed.

(** What [bytes] can return at all: fewer than 2{^24} bytes. *)
Lemma tl_bytes_bound : returns tl_bytes (fun v => len v < two24).
Proof.
  intros r v r' H. unfold tl_bytes in H. run_inv. pose proof (b2z_range a0).
  apply (tl_length_range (b2z a0)) in Hrun2; [|done].
  destruct a2 as [n header]. simpl in *. run_inv. apply peek_returns in Hrun4. lia.
Qed.

(** A counted loop over the encodings of a list. *)
Lemma reads_for_each {A B} (body : A -> M tlReader A) (enc : B -> list byte) (f : A -> B -> A) xs a :
  (forall a x, In x xs -> reads (body a) (enc x) (f a x)) ->
  reads (for_each (len xs) body a) (concat (map enc xs)) (foldl f a xs).
Proof.
  intros Hb pre post. unfold for_each.
  set (loop := fun a => a' <- body a ;; ret (inl a')).
  enough (G : for_n (R := Empty_set) (len xs) loop a
                (TLReader (pre ++ concat (map enc xs) ++ post) (len pre)) =
              (Ok (inl (foldl f a xs)),
               TLReader (pre ++ concat (map enc xs) ++ post) (len pre + len (concat (map enc xs))))).
  { by rewrite (bind_ok _ _ _ _ _ G). }
  revert pre a. induction xs as [|x xs IH]; intros pre a.
  { rewrite len_nil, Z.add_0_r. reflexivity. }
  rewrite len_cons, for_n_succ by apply len_nonneg. unfold rounds. cbn [map concat foldl].
  pose proof (Hb a x ltac:(by left) pre (concat (map enc xs) ++ post)) as R.
  rewrite <- app_assoc. unfold loop at 1.
  erewrite bind_ok; [|erewrite bind_ok by exact R; reflexivity]. cbv beta iota.
  specialize (IH ltac:(intros; apply Hb; by right) (pre ++ enc x) (f a x)).
  rewrite <- app_assoc, len_app in IH. rewrite IH. by rewrite len_app, Z.add_assoc.
Qed.

(** ** The writer and the reader are inverse *)

Definition after (b : tlBuffer) (rest : list byte) : tlReader :=
  TLReader (tb_buf b ++ rest) (len (tb_buf b)).

(** A read started where the writer stood reads back what was written. *)
Lemma reads_after {A} (m : M tlReader A) b b' bs a rest :
  tb_buf b' = tb_buf b ++ bs -> reads m bs a ->
  m (TLReader (tb_buf b' ++ rest) (len (tb_buf b))) = (Ok a, after b' rest).
Proof.
  intros Hb H. rewrite Hb, <- app_assoc, H. unfold after.
  by rewrite Hb, <- app_assoc, len_app.
Qed.

(** [string/bytes] round trip (tl.go): for every payload shorter than
    2{^24} bytes, whatever was written before and whatever follows, [bytes]
    started where [putBytes] started returns exactly the payload and stops
    exactly where [putBytes] stopped. *)
Theorem bytes_putBytes_roundtrip (v : list byte) (b : tlBuffer) (rest : list byte) :
  len v < two24 ->
  tl_bytes (TLReader (tb_buf (putBytes v b) ++ rest) (len (tb_buf b)))
  = (Ok v, after (putBytes v b) rest).
Proof.
  intros H. eapply reads_after; [|by apply reads_bytes]. by rewrite putBytes_spec.
Qed.

Lemma bytes_putBytes_roundtrip_witness :
  tl_bytes (TLReader (tb_buf (putBytes (replicate 300 x07) (putInt 5 tb_empty)) ++ [x01; x02]) 4)
  = (Ok (replicate 300 x07), after (putBytes (replicate 300 x07) (putInt 5 tb_empty)) [x01; x02]).
Proof.
  apply (bytes_putBytes_roundtrip (replicate 300 x07) (putInt 5 tb_empty) [x01; x02]).
  reflexivity.
Defined.

(** Truncation of the length prefix (tl.go): [putBytes] writes the length in
    three bytes without a check, so a payload of 2{^24} bytes or more is never
    read back, whatever its content. *)
Theorem putBytes_oversize_lossy (v : list byte) (b : tlBuffer) (rest : list byte) :
  two24 <= len v ->
  eval tl_bytes (TLReader (tb_buf (putBytes v b) ++ rest) (len (tb_buf b))) <> Ok v.
Proof.
  intros Hv H. unfold eval in H. destruct (tl_bytes _) as [o r'] eqn:E. simpl in H. subst o.
  apply tl_bytes_bound in E. lia.
Qed.

Lemma putBytes_oversize_lossy_witness :
  exists v, eval tl_bytes (TLReader (tb_buf (putBytes v tb_empty) ++ []) 0) <> Ok v.
Proof.
  exists (replicate (Z.to_nat two24) x00).
  apply (putBytes_oversize_lossy (replicate (Z.to_nat two24) x00) tb_empty []).
  rewrite len_replicate, Z2Nat.id; [reflexivity|discriminate].
Defined.

(** Word alignment: [putBytes] keeps a four-byte aligned buffer aligned. *)
Lemma putBytes_aligned v b :
  len (tb_buf b) mod 4 = 0 -> len (tb_buf (putBytes v b)) mod 4 = 0.
Proof.
  intros H. rewrite putBytes_spec. simpl. rewrite len_app.
  pose proof (len_tl_encoding_mod4 v). zlia.
Qed.
