(* ===== verification/Transport.v ===== *)
(** * Transport: abridged framing and unencrypted messages
    (src/mtproto/abridged.go, sendUnencrypted of auth.go, nextMessageID of
    probe.go)

    A connection is the bytes the peer will deliver before the stream ends, the
    bytes put on the wire so far, and the outcome of the next writes. *)

From S2P Require Import Prelude TL.

(** [c_fail]: the outcome of the next calls to [Write], [None] for success and
    [Some k] for an error after [k] bytes; past the end of the list every write
    succeeds. *)
Record conn := Conn { c_in : list byte; c_out : list byte; c_fail : list (option nat) }.

Definition conn_Write (p : list byte) : M conn unit := fun c =>
  match c_fail c with
  | Some k :: rest => (Err (ErrEnv "write"), Conn (c_in c) (c_out c ++ take k p) rest)
  | None :: rest => (Ok tt, Conn (c_in c) (c_out c ++ p) rest)
  | [] => (Ok tt, Conn (c_in c) (c_out c ++ p) [])
  end.

(** [io.ReadFull(conn, buf)] with [len(buf) = n]. *)
Definition conn_ReadFull (n : Z) : M conn (list byte) := fun c =>
  if n <=? len (c_in c) then
    (Ok (sub (c_in c) 0 n), Conn (sub (c_in c) n (len (c_in c))) (c_out c) (c_fail c))
  else
    (Err (ErrEnv (if len (c_in c) =? 0 then "EOF" else "unexpected EOF")),
     Conn [] (c_out c) (c_fail c)).

Definition abridgedInit : M conn unit := conn_Write [xef].

Definition abridgedWrite (payload : list byte) : M conn unit :=
  guard (len payload mod 4 =? 0) (ErrNew "abridged packet length must be divisible by 4") ;;
  let length := len payload / 4 in
  header <- (if length <? 127 then ret [z2b length]
             else guard (negb (0xFFFFFF <? length)) (ErrNew "abridged packet too large") ;;
                  ret [x7f; z2b length; z2b (Z.shiftr length 8); z2b (Z.shiftr length 16)]) ;;
  conn_Write header ;;
  conn_Write payload.

Definition abridgedRead : M conn (list byte) :=
  first <- conn_ReadFull 1 ;;
  b <- lift (index first 0) ;;
  length <- (if b2z b =? 0x7f then
               ext <- conn_ReadFull 3 ;;
               e0 <- lift (index ext 0) ;; e1 <- lift (index ext 1) ;; e2 <- lift (index ext 2) ;;
               ret (Z.lor (Z.lor (b2z e0) (Z.shiftl (b2z e1) 8)) (Z.shiftl (b2z e2) 16))
             else ret (b2z b)) ;;
  guard (negb (length <=? 0)) (ErrNew "abridged invalid length") ;;
  conn_ReadFull (length * 4).

(** [for len(out)%4 != 0 { out = append(out, 0) }] *)
Fixpoint pad4_loop (fuel : nat) (out : list byte) : list byte :=
  match fuel with
  | O => out
  | S fuel' => if len out mod 4 =? 0 then out else pad4_loop fuel' (out ++ [x00])
  end.

Definition buildUnencryptedMessage (msgID : Z) (body : list byte) : list byte :=
  pad4_loop 4 (le_bytes 8 0 ++ le_bytes 8 (u64 msgID) ++ le_bytes 4 (u32 (len body)) ++ body).

(** The parser as a reader computation, and the function on a payload. *)
Definition readUnencryptedMessage : M tlReader (list byte) :=
  authKeyID <- tl_long ;;
  guard (authKeyID =? 0) (ErrNew "mtproto: expected unencrypted auth key id 0") ;;
  _msg_id <- tl_long ;;
  length <- tl_int ;;
  tl_raw length.

Definition parseUnencryptedMessage (payload : list byte) : outcome (list byte) :=
  if len payload <? 20 then Err (ErrNew "mtproto: short unencrypted message")
  else eval readUnencryptedMessage (newTLReader payload).

(** [time.Now().UnixNano()] is [now]; Go's [/] and [%] truncate, shifts wrap at
    64 bits. *)
Definition second : Z := 1000000000.

Definition nextMessageID (now : Z) : Z :=
  let seconds := Z.quot now second in
  let nanos := Z.rem now second in
  let msgID := Z.lor (i64 (Z.shiftl seconds 32)) (Z.quot (i64 (Z.shiftl nanos 32)) second) in
  Z.land msgID (Z.lnot 3).

Definition sendUnencrypted (now : Z) (body : list byte) : M conn (list byte) :=
  abridgedWrite (buildUnencryptedMessage (nextMessageID now) body) ;;
  payload <- abridgedRead ;;
  lift (parseUnencryptedMessage payload).

(** ** Framing *)

(** The bytes of one packet. *)
Definition frame (payload : list byte) : list byte :=
  let length := len payload / 4 in
  (if length <? 127 then [z2b length]
   else [x7f; z2b length; z2b (Z.shiftr length 8); z2b (Z.shiftr length 16)]) ++ payload.

Definition framable (payload : list byte) : Prop :=
  len payload mod 4 = 0 /\ 0 < len payload <= 4 * 0xFFFFFF.

Lemma conn_ReadFull_app n bs rest out fl :
  n = len bs ->
  conn_ReadFull n (Conn (bs ++ rest) out fl) = (Ok bs, Conn rest out fl).
Proof.
  intros ->. unfold conn_ReadFull. cbn [c_in c_out c_fail].
  rewrite (proj2 (Z.leb_le _ _)) by len_lia.
  rewrite sub_app_head by done. by rewrite sub_app_tail by len_lia.
Qed.

Lemma abridgedWrite_frame payload inp out :
  len payload mod 4 = 0 -> len payload <= 4 * 0xFFFFFF ->
  abridgedWrite payload (Conn inp out []) = (Ok tt, Conn inp (out ++ frame payload) []).
Proof.
  intros H4 Hmax. unfold abridgedWrite, frame.
  rewrite H4. cbn [Z.eqb guard]. unfold bind at 1, ret at 1.
  destruct (len payload / 4 <? 127) eqn:E.
  - unfold bind, ret, conn_Write. simpl. by rewrite <- app_assoc.
  - rewrite (proj2 (Z.ltb_ge 0xFFFFFF _)) by zlia.
    unfold bind, ret, conn_Write. simpl. by rewrite <- app_assoc.
Qed.

Lemma index_cons_0 {A} (x : A) l : index (x :: l) 0 = Ok x.
Proof. by apply (index_app_mid [] l). Qed.
Lemma index_cons_1 {A} (x y : A) l : index (x :: y :: l) 1 = Ok y.
Proof. by apply (index_app_mid [x] l). Qed.
Lemma index_cons_2 {A} (x y z : A) l : index (x :: y :: z :: l) 2 = Ok z.
Proof. by apply (index_app_mid [x; y] l). Qed.

Lemma bind_lift_ok {S A B} (o : outcome A) a (k : A -> M S B) s :
  o = Ok a -> (x <- lift o ;; k x) s = k a s.
Proof. by intros ->. Qed.

Lemma abridgedRead_frame payload rest out fl :
  framable payload ->
  abridgedRead (Conn (frame payload ++ rest) out fl) = (Ok payload, Conn rest out fl).
Proof.
  intros [H4 Hlen]. unfold abridgedRead, frame.
  assert (Hq : 4 * (len payload / 4) = len payload) by zlia.
  destruct (Z.ltb_spec (len payload / 4) 127) as [Hs|Hs]; rewrite <- app_assoc; cbn [app];
    erewrite bind_ok by (by apply (conn_ReadFull_app 1 [_]));
    rewrite (bind_lift_ok _ _ _ _ (index_cons_0 _ _)).
  - rewrite b2z_z2b, Z.mod_small, (proj2 (Z.eqb_neq _ 0x7f)) by zlia.
    unfold bind at 1, ret. rewrite (proj2 (Z.leb_gt _ 0)) by zlia.
    apply conn_ReadFull_app. lia.
  - change (b2z x7f =? 0x7f) with true. cbn iota.
    erewrite bind_ok.
    2: { erewrite bind_ok by (by apply (conn_ReadFull_app 3 [_; _; _])).
         rewrite (bind_lift_ok _ _ _ _ (index_cons_0 _ _)).
         rewrite (bind_lift_ok _ _ _ _ (index_cons_1 _ _ _)).
         rewrite (bind_lift_ok _ _ _ _ (index_cons_2 _ _ _ _)).
         rewrite lor_three_bytes, Z.mod_small by zlia. reflexivity. }
    rewrite (proj2 (Z.leb_gt _ 0)) by zlia.
    apply conn_ReadFull_app. lia.
Qed.

(** Sending and receiving a sequence of packets. *)
Fixpoint write_all (ps : list (list byte)) : M conn unit :=
  match ps with [] => ret tt | p :: ps' => abridgedWrite p ;; write_all ps' end.

Fixpoint read_n (n : nat) : M conn (list (list byte)) :=
  match n with
  | O => ret []
  | S n' => p <- abridgedRead ;; ps <- read_n n' ;; ret (p :: ps)
  end.

Lemma write_all_frames ps inp out :
  Forall framable ps ->
  write_all ps (Conn inp out []) = (Ok tt, Conn inp (out ++ concat (map frame ps)) []).
Proof.
  intros Hall. revert out. induction Hall as [|p ps [H4 Hp] Hps IH]; intros out; simpl.
  { unfold ret. by rewrite app_nil_r. }
  erewrite bind_ok by (apply abridgedWrite_frame; lia). rewrite IH. by rewrite <- app_assoc.
Qed.

Lemma read_n_frames ps rest out fl :
  Forall framable ps ->
  read_n (length ps) (Conn (concat (map frame ps) ++ rest) out fl) = (Ok ps, Conn rest out fl).
Proof.
  intros Hall. induction Hall as [|p ps Hp Hps IH]; [done|]. simpl.
  rewrite <- app_assoc. erewrite bind_ok by (by apply abridgedRead_frame).
  by erewrite bind_ok by (apply IH).
Qed.

(** Abridged framing (abridged.go): any sequence of non-empty, four-byte
    aligned packets of at most 4 * 0xFFFFFF bytes, written one after the other
    with [abridgedWrite] on a connection whose writes succeed, is recovered
    packet by packet, in order, by as many calls of [abridgedRead] on the bytes
    that were put on the wire, whatever bytes come after them. *)
Theorem abridged_stream_roundtrip (ps : list (list byte)) (inp rest : list byte) :
  Forall framable ps ->
  exists wire,
    write_all ps (Conn inp [] []) = (Ok tt, Conn inp wire []) /\
    read_n (length ps) (Conn (wire ++ rest) [] []) = (Ok ps, Conn rest [] []).
Proof.
  intros H. exists (concat (map frame ps)). split.
  - by rewrite write_all_frames.
  - by apply read_n_frames.
Qed.

Lemma abridged_stream_roundtrip_witness :
  exists wire,
    write_all [replicate 4 x2a; replicate 512 x11] (Conn [] [] []) = (Ok tt, Conn [] wire []) /\
    read_n 2 (Conn (wire ++ [x01]) [] []) =
      (Ok [replicate 4 x2a; replicate 512 x11], Conn [x01] [] []).
Proof.
  apply (abridged_stream_roundtrip [replicate 4 x2a; replicate 512 x11] [] [x01]).
  repeat constructor; rewrite len_replicate; vm_compute; congruence.
Defined.

(** What [abridgedWrite] rejects leaves the connection untouched. *)
Lemma abridgedWrite_rejects payload c :
  len payload mod 4 <> 0 \/ 4 * 0xFFFFFF < len payload ->
  exists text, abridgedWrite payload c = (Err (ErrNew text), c).
Proof.
  intros H. unfold abridgedWrite. case (Z.eqb_spec (len payload mod 4) 0); intros H4.
  - rewrite (proj2 (Z.ltb_ge (len payload / 4) 127)) by zlia.
    rewrite (proj2 (Z.ltb_lt 0xFFFFFF (len payload / 4))) by zlia. eexists. reflexivity.
  - eexists. reflexivity.
Qed.

(** ** Unencrypted messages *)

Lemma pad4_loop_spec fuel out :
  pad_len (len out) < Z.of_nat fuel ->
  pad4_loop fuel out = out ++ replicate (Z.to_nat (pad_len (len out))) x00.
Proof.
  revert out. induction fuel as [|fuel IH]; intros out Hf; simpl.
  { pose proof (pad_len_range (len out)). lia. }
  case (Z.eqb_spec (len out mod 4) 0); intros H0.
  - rewrite (pad_len_done _ H0). by rewrite app_nil_r.
  - pose proof (pad_len_step _ H0) as Hs. pose proof (pad_len_range (len out + 1)).
    assert (Hl : len (out ++ [x00]) = len out + 1) by len_lia.
    rewrite IH by (rewrite Hl; lia).
    by rewrite Hl, Hs, Z2Nat.inj_add, <- app_assoc by lia.
Qed.

Lemma reads_unencrypted msgID body :
  is_u32 (len body) ->
  reads readUnencryptedMessage
    (le_bytes 8 0 ++ le_bytes 8 (u64 msgID) ++ le_bytes 4 (u32 (len body)) ++ body) body.
Proof.
  intros H. unfold readUnencryptedMessage.
  eapply reads_bind; [apply reads_long|]. rewrite <- (app_nil_l (le_bytes 8 (u64 msgID) ++ _)).
  eapply reads_bind; [by apply reads_guard|].
  eapply reads_bind; [apply reads_long|].
  eapply reads_bind; [apply reads_int|]. apply reads_raw. autorewrite with words. done.
Qed.

Lemma len_buildUnencryptedMessage msgID body :
  len (buildUnencryptedMessage msgID body) mod 4 = 0 /\
  20 + len body <= len (buildUnencryptedMessage msgID body) <= 23 + len body.
Proof.
  unfold buildUnencryptedMessage. set (msg := le_bytes 8 0 ++ _).
  assert (Hm : len msg = 20 + len body) by (unfold msg; len_lia).
  rewrite (pad4_loop_spec 4 msg) by apply pad_len_range.
  pose proof (pad_len_range (len msg)) as Hp. rewrite len_app, len_replicate.
  unfold pad_len in *. zlia.
Qed.

Lemma parse_buildUnencryptedMessage msgID body :
  is_u32 (len body) -> parseUnencryptedMessage (buildUnencryptedMessage msgID body) = Ok body.
Proof.
  intros H. destruct (len_buildUnencryptedMessage msgID body) as [_ Hl].
  unfold parseUnencryptedMessage. rewrite (proj2 (Z.ltb_ge _ 20)) by len_lia.
  unfold buildUnencryptedMessage. rewrite pad4_loop_spec by apply pad_len_range.
  by apply reads_eval, reads_unencrypted.
Qed.

(** Unencrypted envelope (abridged.go): for every body shorter than 2{^32}
    bytes and every message id, [buildUnencryptedMessage] yields a packet whose
    length is a multiple of four and [parseUnencryptedMessage] recovers exactly
    the body from it, the zero padding dropped. *)
Theorem unencrypted_roundtrip (msgID : Z) (body : list byte) :
  is_u32 (len body) ->
  len (buildUnencryptedMessage msgID body) mod 4 = 0 /\
  parseUnencryptedMessage (buildUnencryptedMessage msgID body) = Ok body.
Proof.
  intros H. split; [apply len_buildUnencryptedMessage|by apply parse_buildUnencryptedMessage].
Qed.

Lemma unencrypted_roundtrip_witness :
  len (buildUnencryptedMessage 77 [x01; x02; x03]) mod 4 = 0 /\
  parseUnencryptedMessage (buildUnencryptedMessage 77 [x01; x02; x03]) = Ok [x01; x02; x03].
Proof. apply (unencrypted_roundtrip 77 [x01; x02; x03]). vm_compute. intuition congruence. Defined.
