(* ===== verification/Hash.v ===== *)
(** * Hash: the digests the program takes from the Go standard library
    ([crypto/sha1], [crypto/sha256]) and the helpers [sha1Bytes],
    [sha256Bytes] of src/mtproto/crypto.go

    Both digests are the executable FIPS 180-4 functions on byte strings; the
    test vectors at the end evaluate them. *)

From S2P Require Import Prelude.

(** ** 32-bit words *)

Definition wadd (a b : Z) : Z := u32 (a + b).
Definition wnot (a : Z) : Z := Z.lxor a 0xffffffff.
Definition rotl (n x : Z) : Z := u32 (Z.lor (Z.shiftl x n) (Z.shiftr x (32 - n))).
Definition rotr (n x : Z) : Z := rotl (32 - n) x.

(** [n] bytes of [z], most significant first ([binary.BigEndian]). *)
Definition be_bytes (n : nat) (z : Z) : list byte := rev (le_bytes n z).

Lemma length_be_bytes n z : length (be_bytes n z) = n.
Proof. unfold be_bytes. by rewrite length_rev, length_le_bytes. Qed.

(** Message padding: one bit, zeros, the length in bits. *)
Definition md_padding (n : Z) : list byte :=
  x80 :: replicate (Z.to_nat ((55 - n) mod 64)) x00 ++ be_bytes 8 (8 * n).

Definition words_be (l : list byte) : list Z :=
  let fix go (l : list byte) : list Z :=
    match l with
    | a :: b :: c :: d :: l' => be_value [a; b; c; d] :: go l'
    | _ => []
    end in go l.

(** The sixteen words of each 64-byte block. *)
Fixpoint blocks16 (n : nat) (ws : list Z) : list (list Z) :=
  match n with O => [] | S n' => take 16 ws :: blocks16 n' (drop 16 ws) end.

Definition md_blocks (msg : list byte) : list (list Z) :=
  let padded := msg ++ md_padding (len msg) in
  blocks16 (Z.to_nat (len padded / 64)) (words_be padded).

(** ** SHA-256 *)

(** FIPS 180-4 defines the constants by a rule, which is what is evaluated here:
    the first 32 bits of the fractional parts of the cube roots (round
    constants) and of the square roots (initial state) of the first primes. *)
Definition is_prime (n : Z) : bool :=
  forallb (fun d => negb (n mod Z.of_nat d =? 0)) (seq 2 (Z.to_nat (Z.sqrt n) - 1)).

Definition first_primes (k : nat) : list Z :=
  take k (List.filter is_prime (map Z.of_nat (seq 2 400))).

(** The integer cube root, one bit at a time from bit [n] down. *)
Fixpoint cube_root (n : nat) (x acc : Z) : Z :=
  match n with
  | O => acc
  | S n' => let c := acc + 2 ^ Z.of_nat n' in
            cube_root n' x (if c * c * c <=? x then c else acc)
  end.

Definition sha256_k : list Z :=
  Eval vm_compute in map (fun p => u32 (cube_root 40 (Z.shiftl p 96) 0)) (first_primes 64).

Record h8 := H8 { ha : Z; hb : Z; hc : Z; hd : Z; he : Z; hf : Z; hg : Z; hh : Z }.

Definition sha256_init : h8 :=
  Eval vm_compute in
  match map (fun p => u32 (Z.sqrt (Z.shiftl p 64))) (first_primes 8) with
  | [a; b; c; d; e; f; g; h] => H8 a b c d e f g h
  | _ => H8 0 0 0 0 0 0 0 0
  end.

(** One more word of the message schedule; the list is kept newest first. *)
Definition sha256_expand (w : list Z) : list Z :=
  let w15 := nth 14 w 0 in let w2 := nth 1 w 0 in
  let s0 := Z.lxor (Z.lxor (rotr 7 w15) (rotr 18 w15)) (Z.shiftr w15 3) in
  let s1 := Z.lxor (Z.lxor (rotr 17 w2) (rotr 19 w2)) (Z.shiftr w2 10) in
  wadd (wadd (nth 15 w 0) s0) (wadd (nth 6 w 0) s1) :: w.

Definition sha256_round (s : h8) (kw : Z * Z) : h8 :=
  let '(k, w) := kw in
  let s1 := Z.lxor (Z.lxor (rotr 6 (he s)) (rotr 11 (he s))) (rotr 25 (he s)) in
  let ch := Z.lxor (Z.land (he s) (hf s)) (Z.land (wnot (he s)) (hg s)) in
  let t1 := wadd (wadd (wadd (hh s) s1) (wadd ch k)) w in
  let s0 := Z.lxor (Z.lxor (rotr 2 (ha s)) (rotr 13 (ha s))) (rotr 22 (ha s)) in
  let maj := Z.lxor (Z.lxor (Z.land (ha s) (hb s)) (Z.land (ha s) (hc s))) (Z.land (hb s) (hc s)) in
  let t2 := wadd s0 maj in
  H8 (wadd t1 t2) (ha s) (hb s) (hc s) (wadd (hd s) t1) (he s) (hf s) (hg s).

Definition sha256_block (s : h8) (block : list Z) : h8 :=
  let w := rev (Nat.iter 48 sha256_expand (rev block)) in
  let t := fold_left sha256_round (combine sha256_k w) s in
  H8 (wadd (ha s) (ha t)) (wadd (hb s) (hb t)) (wadd (hc s) (hc t)) (wadd (hd s) (hd t))
     (wadd (he s) (he t)) (wadd (hf s) (hf t)) (wadd (hg s) (hg t)) (wadd (hh s) (hh t)).

Definition sha256_Sum (msg : list byte) : list byte :=
  let s := fold_left sha256_block (md_blocks msg) sha256_init in
  be_bytes 4 (ha s) ++ be_bytes 4 (hb s) ++ be_bytes 4 (hc s) ++ be_bytes 4 (hd s) ++
  be_bytes 4 (he s) ++ be_bytes 4 (hf s) ++ be_bytes 4 (hg s) ++ be_bytes 4 (hh s).

(** ** SHA-1 *)

Record h5 := H5 { ga : Z; gb : Z; gc : Z; gd : Z; ge : Z }.

Definition sha1_init : h5 := H5 0x67452301 0xefcdab89 0x98badcfe 0x10325476 0xc3d2e1f0.

Definition sha1_expand (w : list Z) : list Z :=
  rotl 1 (Z.lxor (Z.lxor (nth 2 w 0) (nth 7 w 0)) (Z.lxor (nth 13 w 0) (nth 15 w 0))) :: w.

(** Round function and constant of round [t]. *)
Definition sha1_fk (t : Z) (s : h5) : Z * Z :=
  let b := gb s in let c := gc s in let d := gd s in
  if t <? 20 then (Z.lxor (Z.land b c) (Z.land (wnot b) d), 0x5a827999)
  else if t <? 40 then (Z.lxor (Z.lxor b c) d, 0x6ed9eba1)
  else if t <? 60 then
    (Z.lxor (Z.lxor (Z.land b c) (Z.land b d)) (Z.land c d), 0x8f1bbcdc)
  else (Z.lxor (Z.lxor b c) d, 0xca62c1d6).

Definition sha1_round (ts : Z * h5) (w : Z) : Z * h5 :=
  let '(t, s) := ts in
  let '(f, k) := sha1_fk t s in
  let temp := wadd (wadd (rotl 5 (ga s)) f) (wadd (ge s) (wadd k w)) in
  (t + 1, H5 temp (ga s) (rotl 30 (gb s)) (gc s) (gd s)).

Definition sha1_block (s : h5) (block : list Z) : h5 :=
  let w := rev (Nat.iter 64 sha1_expand (rev block)) in
  let t := snd (fold_left sha1_round w (0, s)) in
  H5 (wadd (ga s) (ga t)) (wadd (gb s) (gb t)) (wadd (gc s) (gc t))
     (wadd (gd s) (gd t)) (wadd (ge s) (ge t)).

Definition sha1_Sum (msg : list byte) : list byte :=
  let s := fold_left sha1_block (md_blocks msg) sha1_init in
  be_bytes 4 (ga s) ++ be_bytes 4 (gb s) ++ be_bytes 4 (gc s) ++
  be_bytes 4 (gd s) ++ be_bytes 4 (ge s).

(** ** The program's helpers: a digest of several parts *)

Definition sha1Bytes (parts : list (list byte)) : list byte := sha1_Sum (concat parts).
Definition sha256Bytes (parts : list (list byte)) : list byte := sha256_Sum (concat parts).

Lemma len_sha1Bytes parts : len (sha1Bytes parts) = 20.
Proof. unfold len, sha1Bytes, sha1_Sum. cbv zeta. by rewrite !length_app, !length_be_bytes. Qed.
Lemma len_sha256Bytes parts : len (sha256Bytes parts) = 32.
Proof. unfold len, sha256Bytes, sha256_Sum. cbv zeta. by rewrite !length_app, !length_be_bytes. Qed.
#[export] Hint Rewrite len_sha1Bytes len_sha256Bytes : lens.

#[global] Opaque sha1_Sum sha256_Sum.

(** FIPS 180 test vectors. *)
Example sha256_abc :
  sha256Bytes [bytes_of "a"; bytes_of "bc"] =
  be_bytes 32 0xba7816bf8f01cfea414140de5dae2223b00361a396177a9cb410ff61f20015ad.
Proof. vm_compute. reflexivity. Qed.
Example sha256_two_blocks :
  sha256_Sum (bytes_of "abcdbcdecdefdefgefghfghighijhijkijkljklmklmnlmnomnopnopq") =
  be_bytes 32 0x248d6a61d20638b8e5c026930c3e6039a33ce45964ff2167f6ecedd419db06c1.
Proof. vm_compute. reflexivity. Qed.
Example sha1_abc : sha1_Sum (bytes_of "abc") = be_bytes 20 0xa9993e364706816aba3e25717850c26c9cd0d89d.
Proof. vm_compute. reflexivity. Qed.
Example sha1_two_blocks :
  sha1_Sum (bytes_of "abcdbcdecdefdefgefghfghighijhijkijkljklmklmnlmnomnopnopq") =
  be_bytes 20 0x84983e441c3bd26ebaae4aa1f95129e5e54670f1.
Proof. vm_compute. reflexivity. Qed.
