(* ===== verification/AES.v ===== *)
(** * AES: the block cipher behind [crypto/aes] (FIPS 197)

    The program reaches it through [aes.NewCipher], [block.Encrypt] and
    [block.Decrypt].  The cipher is executable for the three key sizes Go
    accepts; the instance [aes_cipher] discharges the [BlockCipher] interface,
    which is all the IGE mode in Crypto.v knows about it. *)

From S2P Require Import Prelude Hash.
From Stdlib Require Import Btauto.

(** What a mode of operation needs from a block cipher: on 16-byte blocks the
    two directions are inverse bijections. *)
Class BlockCipher (K : Type) := {
  bc_encrypt : K -> list byte -> list byte;
  bc_decrypt : K -> list byte -> list byte;
  bc_encrypt_length : forall k b, length b = 16%nat -> length (bc_encrypt k b) = 16%nat;
  bc_decrypt_length : forall k b, length b = 16%nat -> length (bc_decrypt k b) = 16%nat;
  bc_decrypt_encrypt : forall k b, length b = 16%nat -> bc_decrypt k (bc_encrypt k b) = b;
  bc_encrypt_decrypt : forall k b, length b = 16%nat -> bc_encrypt k (bc_decrypt k b) = b;
}.

(** ** The field GF(2{^8}) *)

Definition xtime (b : byte) : byte :=
  let d := 2 * b2z b in z2b (if d <? 256 then d else Z.lxor d 0x11b).

Definition mul3 b := bxor (xtime b) b.
Definition mul4 b := xtime (xtime b).
Definition mul8 b := xtime (mul4 b).
Definition mul9 b := bxor (mul8 b) b.
Definition mul11 b := bxor (mul8 b) (mul3 b).
Definition mul13 b := bxor (mul8 b) (bxor (mul4 b) b).
Definition mul14 b := bxor (mul8 b) (bxor (mul4 b) (xtime b)).

(** General product, used to build the S-box only. *)
Fixpoint gmul_bits (n : nat) (a : byte) (b : Z) : byte :=
  match n with
  | O => x00
  | S n' => bxor (if Z.odd b then a else x00) (gmul_bits n' (xtime a) (b / 2))
  end.
Definition gmul (a b : byte) : byte := gmul_bits 8 a (b2z b).
Definition ginv (a : byte) : byte :=
  let a2 := gmul a a in let a4 := gmul a2 a2 in let a8 := gmul a4 a4 in
  let a16 := gmul a8 a8 in let a32 := gmul a16 a16 in let a64 := gmul a32 a32 in
  let a128 := gmul a64 a64 in
  gmul a2 (gmul a4 (gmul a8 (gmul a16 (gmul a32 (gmul a64 a128))))).

Definition rotl8 (n x : Z) : Z := (Z.lor (Z.shiftl x n) (Z.shiftr x (8 - n))) mod 256.
Definition affine (b : byte) : byte :=
  let x := b2z b in
  z2b (Z.lxor (Z.lxor (Z.lxor x (rotl8 1 x)) (Z.lxor (rotl8 2 x) (rotl8 3 x)))
              (Z.lxor (rotl8 4 x) 0x63)).

Definition all_bytes : list byte := (fun n => z2b (Z.of_nat n)) <$> seq 0 256.
Definition sbox_table : list byte := Eval vm_compute in (fun b => affine (ginv b)) <$> all_bytes.
Definition sbox (b : byte) : byte := nth (Z.to_nat (b2z b)) sbox_table x00.

Fixpoint find_index (x : byte) (l : list byte) (i : Z) : Z :=
  match l with [] => 0 | y :: l' => if Byte.eqb x y then i else find_index x l' (i + 1) end.
Definition isbox_table : list byte :=
  Eval vm_compute in (fun b => z2b (find_index b sbox_table 0)) <$> all_bytes.
Definition isbox (b : byte) : byte := nth (Z.to_nat (b2z b)) isbox_table x00.

(** ** The round transformations on the 16-byte state, column after column *)

Fixpoint xorState (s k : list byte) : list byte :=
  match s, k with x :: s', y :: k' => bxor x y :: xorState s' k' | _, _ => s end.
Definition subBytes (s : list byte) : list byte := sbox <$> s.
Definition invSubBytes (s : list byte) : list byte := isbox <$> s.

Definition permute (p : list nat) (s : list byte) : list byte := (fun i => nth i s x00) <$> p.
Definition shiftRows : list byte -> list byte :=
  permute [0; 5; 10; 15; 4; 9; 14; 3; 8; 13; 2; 7; 12; 1; 6; 11]%nat.
Definition invShiftRows : list byte -> list byte :=
  permute [0; 13; 10; 7; 4; 1; 14; 11; 8; 5; 2; 15; 12; 9; 6; 3]%nat.

Definition bxor4 (a b c d : byte) : byte := bxor (bxor a b) (bxor c d).

Fixpoint mixColumns (s : list byte) : list byte :=
  match s with
  | a :: b :: c :: d :: s' =>
      bxor4 (xtime a) (mul3 b) c d :: bxor4 a (xtime b) (mul3 c) d ::
      bxor4 a b (xtime c) (mul3 d) :: bxor4 (mul3 a) b c (xtime d) :: mixColumns s'
  | _ => []
  end.

Fixpoint invMixColumns (s : list byte) : list byte :=
  match s with
  | a :: b :: c :: d :: s' =>
      bxor4 (mul14 a) (mul11 b) (mul13 c) (mul9 d) :: bxor4 (mul9 a) (mul14 b) (mul11 c) (mul13 d) ::
      bxor4 (mul13 a) (mul9 b) (mul14 c) (mul11 d) :: bxor4 (mul11 a) (mul13 b) (mul9 c) (mul14 d) ::
      invMixColumns s'
  | _ => []
  end.

(** ** Key expansion *)

Definition rotWord (w : list byte) : list byte := drop 1 w ++ take 1 w.
Definition rcon (i : nat) : byte := Nat.iter (i - 1) xtime x01.

(** The words so far, newest first; [nk] words of key. *)
Fixpoint expand_words (n : nat) (nk i : nat) (ws : list (list byte)) : list (list byte) :=
  match n with
  | O => ws
  | S n' =>
      let temp := nth 0 ws [] in
      let temp :=
        if (i mod nk =? 0)%nat then xorState (subBytes (rotWord temp)) [rcon (i / nk); x00; x00; x00]
        else if (6 <? nk)%nat && (i mod nk =? 4)%nat then subBytes temp else temp in
      expand_words n' nk (S i) (xorState (nth (nk - 1) ws []) temp :: ws)
  end.

Fixpoint chunks (n k : nat) (l : list byte) : list (list byte) :=
  match n with O => [] | S n' => take k l :: chunks n' k (drop k l) end.

Definition key_schedule (key : list byte) : list (list byte) :=
  let nk := (length key / 4)%nat in
  let total := (4 * (nk + 7))%nat in
  let words := rev (expand_words (total - nk) nk nk (rev (chunks nk 4 key))) in
  chunks (nk + 7) 16 (concat words).

(** [aes.NewCipher]: 16, 24 or 32 bytes of key. *)
Record aesKey := AesKey { ak_rounds : list (list byte) }.

Definition aes_NewCipher (key : list byte) : outcome aesKey :=
  if (len key =? 16) || (len key =? 24) || (len key =? 32)
  then Ok (AesKey (key_schedule key))
  else Err (ErrFmt "crypto/aes: invalid key size %d" [FZ (len key)]).

(** ** The cipher and its inverse *)

Fixpoint enc_rounds (s : list byte) (rks : list (list byte)) : list byte :=
  match rks with
  | [] => s
  | [rk] => xorState (shiftRows (subBytes s)) rk
  | rk :: rks' => enc_rounds (xorState (mixColumns (shiftRows (subBytes s))) rk) rks'
  end.

Definition aes_encrypt (k : aesKey) (b : list byte) : list byte :=
  match ak_rounds k with
  | [] => b
  | rk :: rks => enc_rounds (xorState b rk) rks
  end.

Fixpoint dec_rounds (s : list byte) (rks : list (list byte)) : list byte :=
  match rks with
  | [] => s
  | [rk] => invSubBytes (invShiftRows (xorState s rk))
  | rk :: rks' => invSubBytes (invShiftRows (invMixColumns (xorState (dec_rounds s rks') rk)))
  end.

Definition aes_decrypt (k : aesKey) (b : list byte) : list byte :=
  match ak_rounds k with
  | [] => b
  | rk :: rks => xorState (dec_rounds b rks) rk
  end.

(** FIPS 197, appendix C.3. *)
Example aes256_vector :
  match aes_NewCipher (z2b <$> [0;1;2;3;4;5;6;7;8;9;10;11;12;13;14;15;16;17;18;19;20;21;22;23;24;25;26;27;28;29;30;31]) with
  | Ok k => aes_encrypt k (be_bytes 16 0x00112233445566778899aabbccddeeff)
  | _ => []
  end = be_bytes 16 0x8ea2b7ca516745bfeafc49904b496089.
Proof. vm_compute. reflexivity. Qed.
Example aes128_vector :
  match aes_NewCipher (be_bytes 16 0x2b7e151628aed2a6abf7158809cf4f3c) with
  | Ok k => aes_encrypt k (be_bytes 16 0x3243f6a8885a308d313198a2e0370734)
  | _ => []
  end = be_bytes 16 0x3925841d02dc09fbdc118597196a0b32.
Proof. vm_compute. reflexivity. Qed.

(** ** The inverse laws *)

Lemma xorState_length s k : length (xorState s k) = length s.
Proof. revert k. induction s as [|x s IH]; intros [|y k]; simpl; auto. Qed.

Lemma xorState_cancel s k : xorState (xorState s k) k = s.
Proof.
  revert k. induction s as [|x s IH]; intros [|y k]; simpl; [done..|].
  by rewrite bxor_cancel, IH.
Qed.

Lemma isbox_sbox b : isbox (sbox b) = b.
Proof. destruct b; vm_compute; reflexivity. Qed.
Lemma sbox_isbox b : sbox (isbox b) = b.
Proof. destruct b; vm_compute; reflexivity. Qed.

Lemma invSub_sub s : invSubBytes (subBytes s) = s.
Proof. induction s; simpl; [done|]. rewrite isbox_sbox. by f_equal. Qed.
Lemma sub_invSub s : subBytes (invSubBytes s) = s.
Proof. induction s; simpl; [done|]. rewrite sbox_isbox. by f_equal. Qed.

(** Name the sixteen bytes of a state. *)
Ltac explode s H :=
  do 16 (destruct s as [|? s]; [discriminate H|]); destruct s; [|discriminate H].

Lemma invShift_shift s : length s = 16%nat -> invShiftRows (shiftRows s) = s.
Proof. intros H. explode s H. reflexivity. Qed.
Lemma shift_invShift s : length s = 16%nat -> shiftRows (invShiftRows s) = s.
Proof. intros H. explode s H. reflexivity. Qed.

(** [xtime] is linear, checked on all pairs of bytes. *)
Lemma all_bytes_complete b : In b all_bytes.
Proof.
  unfold all_bytes. apply list_elem_of_In, list_elem_of_fmap.
  exists (Z.to_nat (b2z b)). pose proof (b2z_range b).
  rewrite Z2Nat.id, z2b_b2z by lia. split; [done|]. apply elem_of_seq. lia.
Qed.

Lemma xtime_linear_check :
  forallb (fun a => forallb (fun b =>
    Byte.eqb (xtime (bxor a b)) (bxor (xtime a) (xtime b))) all_bytes) all_bytes = true.
Proof. vm_cast_no_check (eq_refl true). Qed.

Lemma xtime_bxor a b : xtime (bxor a b) = bxor (xtime a) (xtime b).
Proof.
  pose proof xtime_linear_check as H. rewrite forallb_forall in H.
  specialize (H a (all_bytes_complete a)). rewrite forallb_forall in H.
  specialize (H b (all_bytes_complete b)). by apply Byte.byte_dec_bl.
Qed.

(** Equality of xor sums, bit by bit. *)
Ltac xor_solve :=
  apply b2z_inj; rewrite ?b2z_bxor; apply Z.bits_inj'; intros ? ?;
  rewrite ?Z.lxor_spec; btauto.

Lemma bxor_assoc a b c : bxor a (bxor b c) = bxor (bxor a b) c.
Proof. xor_solve. Qed.
Lemma bxor_0_r a : bxor a x00 = a.
Proof. apply b2z_inj. rewrite b2z_bxor. apply Z.lxor_0_r. Qed.

(** Push [xtime] to the leaves and compare the xor sums of its powers: no
    reduction modulo the field polynomial is needed. *)
Ltac mix_solve :=
  unfold mul14, mul13, mul11, mul9, mul8, mul4, mul3, bxor4;
  rewrite ?xtime_bxor;
  repeat match goal with |- context [xtime ?x] => is_var x; generalize (xtime x); intros ? end;
  xor_solve.

Section MixColumn.
Variables a b c d : byte.

Let m0 := bxor4 (xtime a) (mul3 b) c d.
Let m1 := bxor4 a (xtime b) (mul3 c) d.
Let m2 := bxor4 a b (xtime c) (mul3 d).
Let m3 := bxor4 (mul3 a) b c (xtime d).
Lemma inv_mix_0 : bxor4 (mul14 m0) (mul11 m1) (mul13 m2) (mul9 m3) = a.
Proof. subst m0 m1 m2 m3. mix_solve. Qed.
Lemma inv_mix_1 : bxor4 (mul9 m0) (mul14 m1) (mul11 m2) (mul13 m3) = b.
Proof. subst m0 m1 m2 m3. mix_solve. Qed.
Lemma inv_mix_2 : bxor4 (mul13 m0) (mul9 m1) (mul14 m2) (mul11 m3) = c.
Proof. subst m0 m1 m2 m3. mix_solve. Qed.
Lemma inv_mix_3 : bxor4 (mul11 m0) (mul13 m1) (mul9 m2) (mul14 m3) = d.
Proof. subst m0 m1 m2 m3. mix_solve. Qed.

Let n0 := bxor4 (mul14 a) (mul11 b) (mul13 c) (mul9 d).
Let n1 := bxor4 (mul9 a) (mul14 b) (mul11 c) (mul13 d).
Let n2 := bxor4 (mul13 a) (mul9 b) (mul14 c) (mul11 d).
Let n3 := bxor4 (mul11 a) (mul13 b) (mul9 c) (mul14 d).
Lemma mix_inv_0 : bxor4 (xtime n0) (mul3 n1) n2 n3 = a.
Proof. subst n0 n1 n2 n3. mix_solve. Qed.
Lemma mix_inv_1 : bxor4 n0 (xtime n1) (mul3 n2) n3 = b.
Proof. subst n0 n1 n2 n3. mix_solve. Qed.
Lemma mix_inv_2 : bxor4 n0 n1 (xtime n2) (mul3 n3) = c.
Proof. subst n0 n1 n2 n3. mix_solve. Qed.
Lemma mix_inv_3 : bxor4 (mul3 n0) n1 n2 (xtime n3) = d.
Proof. subst n0 n1 n2 n3. mix_solve. Qed.
End MixColumn.

Lemma invMix_mix s : length s = 16%nat -> invMixColumns (mixColumns s) = s.
Proof.
  intros H. explode s H. cbn [mixColumns invMixColumns].
  by rewrite !inv_mix_0, !inv_mix_1, !inv_mix_2, !inv_mix_3.
Qed.
Lemma mix_invMix s : length s = 16%nat -> mixColumns (invMixColumns s) = s.
Proof.
  intros H. explode s H. cbn [mixColumns invMixColumns].
  by rewrite !mix_inv_0, !mix_inv_1, !mix_inv_2, !mix_inv_3.
Qed.

(** Lengths. *)
Lemma subBytes_length s : length (subBytes s) = length s.
Proof. apply length_fmap. Qed.
Lemma invSubBytes_length s : length (invSubBytes s) = length s.
Proof. apply length_fmap. Qed.
Lemma mixColumns_length s : length s = 16%nat -> length (mixColumns s) = 16%nat.
Proof. intros H. explode s H. reflexivity. Qed.
Lemma invMixColumns_length s : length s = 16%nat -> length (invMixColumns s) = 16%nat.
Proof. intros H. explode s H. reflexivity. Qed.
Lemma shiftRows_length s : length (shiftRows s) = 16%nat.
Proof. reflexivity. Qed.
Lemma invShiftRows_length s : length (invShiftRows s) = 16%nat.
Proof. reflexivity. Qed.

Create HintDb aes.
Create Rewrite HintDb aes.
#[export] Hint Rewrite xorState_length subBytes_length invSubBytes_length shiftRows_length
  invShiftRows_length : aes.
#[export] Hint Rewrite mixColumns_length invMixColumns_length using (autorewrite with aes; done) : aes.
#[export] Hint Rewrite xorState_cancel invSub_sub sub_invSub : aes.
#[export] Hint Rewrite invShift_shift shift_invShift invMix_mix mix_invMix
  using (autorewrite with aes; done) : aes.

Lemma enc_rounds_length s rks : length s = 16%nat -> length (enc_rounds s rks) = 16%nat.
Proof.
  revert s. induction rks as [|rk [|rk2 rks] IH]; intros s H; [done| |].
  - cbn [enc_rounds]. by autorewrite with aes.
  - cbn [enc_rounds]. apply IH. by autorewrite with aes.
Qed.

Lemma dec_rounds_length s rks : length s = 16%nat -> length (dec_rounds s rks) = 16%nat.
Proof. intros H. destruct rks as [|rk [|rk2 rks]]; [done|reflexivity..]. Qed.

Lemma dec_enc_rounds s rks : length s = 16%nat -> dec_rounds (enc_rounds s rks) rks = s.
Proof.
  revert s. induction rks as [|rk [|rk2 rks] IH]; intros s H; [done| |].
  - cbn [enc_rounds dec_rounds]. by autorewrite with aes.
  - cbn [enc_rounds dec_rounds] in *. rewrite IH by (by autorewrite with aes).
    by autorewrite with aes.
Qed.

Lemma enc_dec_rounds s rks : length s = 16%nat -> enc_rounds (dec_rounds s rks) rks = s.
Proof.
  revert s. induction rks as [|rk [|rk2 rks] IH]; intros s H; [done| |].
  - cbn [enc_rounds dec_rounds]. by autorewrite with aes.
  - change (dec_rounds s (rk :: rk2 :: rks)) with
      (invSubBytes (invShiftRows (invMixColumns (xorState (dec_rounds s (rk2 :: rks)) rk)))).
    pose proof (dec_rounds_length s (rk2 :: rks) H) as Hl. specialize (IH s H).
    set (t := dec_rounds s (rk2 :: rks)) in *. cbn [enc_rounds].
    rewrite sub_invSub, shift_invShift, mix_invMix
      by (rewrite ?invMixColumns_length; by rewrite ?xorState_length).
    by rewrite xorState_cancel.
Qed.

#[export] Program Instance aes_cipher : BlockCipher aesKey := {|
  bc_encrypt := aes_encrypt;
  bc_decrypt := aes_decrypt;
|}.
Next Obligation.
  intros [[|rk rks]] b H; [done|]. unfold aes_encrypt. cbn [ak_rounds].
  apply enc_rounds_length. by rewrite xorState_length.
Qed.
Next Obligation.
  intros [[|rk rks]] b H; [done|]. unfold aes_decrypt. cbn [ak_rounds].
  rewrite xorState_length. by apply dec_rounds_length.
Qed.
Next Obligation.
  intros [[|rk rks]] b H; [done|]. unfold aes_encrypt, aes_decrypt. cbn [ak_rounds].
  rewrite dec_enc_rounds by (by rewrite xorState_length). apply xorState_cancel.
Qed.
Next Obligation.
  intros [[|rk rks]] b H; [done|]. unfold aes_encrypt, aes_decrypt. cbn [ak_rounds].
  rewrite xorState_cancel. by apply enc_dec_rounds.
Qed.
