(* ===== verification/Crypto.v ===== *)
(** * Crypto: src/mtproto/crypto.go and padBigIntBytes of auth.go

    The AES-IGE mode (over any [BlockCipher]), the RSA_PAD envelope, the SHA-1
    protected data of the handshake and the key derivations.  Random bytes come
    from a stream that is consumed from the front and may run out
    ([rand.Read]/[io.ReadFull] then fail).  A Go array such as [[32]byte] is a
    byte list whose length is a hypothesis of the theorems. *)

From S2P Require Import Prelude TL Hash AES.

(** ** Big integers *)

Definition bitLen (z : Z) : Z := if z <=? 0 then 0 else Z.log2 z + 1.

(** [x.Bytes()]: big-endian, no leading zero. *)
Definition big_Bytes (z : Z) : list byte := be_bytes (Z.to_nat ((bitLen z + 7) / 8)) z.

(** [new(big.Int).Exp(b, e, m)] for positive [m], by repeated squaring. *)
Fixpoint powmod_pos (b : Z) (e : positive) (m : Z) : Z :=
  match e with
  | xH => b mod m
  | xO e' => let r := powmod_pos b e' m in (r * r) mod m
  | xI e' => let r := powmod_pos b e' m in (r * r mod m * b) mod m
  end.
Definition powmod (b e m : Z) : Z :=
  match e with Zpos p => powmod_pos b p m | _ => 1 mod m end.

Lemma powmod_spec b e m : 0 < m -> 0 <= e -> powmod b e m = b ^ e mod m.
Proof.
  intros Hm He. destruct e as [|p|p]; [done| |lia]. unfold powmod. clear He.
  assert (sq : forall r, (r mod m * (r mod m)) mod m = (r * r) mod m).
  { intros r. symmetry. apply Z.mul_mod. lia. }
  induction p as [p IH|p IH|]; cbn [powmod_pos].
  - rewrite IH, sq, Pos2Z.inj_xI, Z.pow_add_r, Z.pow_1_r, Z.pow_mul_r, Z.pow_2_r, Z.pow_mul_l by lia.
    by rewrite Z.mul_mod_idemp_l by lia.
  - by rewrite IH, sq, Pos2Z.inj_xO, Z.pow_mul_r, Z.pow_2_r, Z.pow_mul_l by lia.
  - by rewrite Z.pow_1_r.
Qed.

Lemma be_value_snoc l b : be_value (l ++ [b]) = be_value l * 256 + b2z b.
Proof. unfold be_value. by rewrite foldl_app. Qed.

Lemma be_value_rev l : be_value (rev l) = le_value l.
Proof.
  induction l as [|b l IH]; [done|]. cbn [rev le_value]. rewrite be_value_snoc, IH. lia.
Qed.

Lemma be_value_be_bytes n z : be_value (be_bytes n z) = z mod 256 ^ Z.of_nat n.
Proof. unfold be_bytes. by rewrite be_value_rev, le_value_le_bytes. Qed.

Lemma be_value_bound l : 0 <= be_value l < 256 ^ len l.
Proof.
  pose proof (le_value_bound (rev l)) as H. rewrite <- be_value_rev, rev_involutive in H.
  unfold len in *. by rewrite length_rev in H.
Qed.

Lemma len_be_bytes n z : len (be_bytes n z) = Z.of_nat n.
Proof. unfold len. by rewrite length_be_bytes. Qed.
#[export] Hint Rewrite len_be_bytes : lens.

Lemma bitLen_bound z : 0 <= z -> 0 <= bitLen z /\ z < 2 ^ bitLen z.
Proof.
  intros H. unfold bitLen. destruct (Z.leb_spec z 0).
  - simpl. lia.
  - pose proof (Z.log2_nonneg z). split; [lia|]. apply Z.log2_lt_pow2; lia.
Qed.

Lemma be_value_big_Bytes z : 0 <= z -> be_value (big_Bytes z) = z.
Proof.
  intros H. unfold big_Bytes. rewrite be_value_be_bytes.
  destruct (bitLen_bound z H) as [H0 H1]. rewrite Z2Nat.id by zlia.
  apply Z.mod_small. split; [done|]. eapply Z.lt_le_trans; [exact H1|].
  change 256 with (2 ^ 8). rewrite <- Z.pow_mul_r by zlia. apply Z.pow_le_mono_r; zlia.
Qed.

(** [padBigIntBytes(v, size)] (auth.go) *)
Definition padBigIntBytes (v size : Z) : list byte :=
  let b := big_Bytes v in
  if size <=? len b then b else replicate (Z.to_nat (size - len b)) x00 ++ b.

Lemma be_value_zeros n l : be_value (replicate n x00 ++ l) = be_value l.
Proof.
  unfold be_value. rewrite foldl_app. f_equal. by induction n as [|n IH].
Qed.

Lemma be_value_pad v size : 0 <= v -> be_value (padBigIntBytes v size) = v.
Proof.
  intros H. unfold padBigIntBytes. destruct (size <=? _); rewrite ?be_value_zeros;
    by apply be_value_big_Bytes.
Qed.

(** ** Small helpers *)

(** [xorBytes]: an index error when [b] is shorter than [a]. *)
Definition xorBytes (a b : list byte) : outcome (list byte) :=
  if len a <=? len b then Ok (zip_with bxor a b) else Panic.

Definition reverseBytes (b : list byte) : list byte := rev b.

(** [v |= a[i] ^ b[i]] over the whole length, then [v == 0]. *)
Definition equalBytes (a b : list byte) : bool :=
  if negb (len a =? len b) then false
  else foldl (fun v xy => Z.lor v (b2z (bxor xy.1 xy.2))) 0 (zip a b) =? 0.

Lemma lor_fold_zero (l : list (byte * byte)) v :
  0 <= v ->
  foldl (fun v xy => Z.lor v (b2z (bxor xy.1 xy.2))) v l = 0 <->
  v = 0 /\ Forall (fun xy => xy.1 = xy.2) l.
Proof.
  revert v. induction l as [|[x y] l IH]; intros v Hv; simpl.
  { intuition. }
  rewrite IH. 2: { apply Z.lor_nonneg. pose proof (b2z_range (bxor x y)). lia. }
  rewrite Z.lor_eq_0_iff, Forall_cons. simpl.
  assert (b2z (bxor x y) = 0 <-> x = y); [|tauto].
  rewrite <- bxor_zero. split; [intros E; by apply b2z_inj|by intros ->].
Qed.

Lemma equalBytes_spec a b : equalBytes a b = true <-> a = b.
Proof.
  unfold equalBytes. case (Z.eqb_spec (len a) (len b)); intros Hl; simpl.
  2: { split; [done|]. intros ->. done. }
  rewrite Z.eqb_eq, lor_fold_zero by done. unfold len in Hl. apply Nat2Z.inj in Hl.
  split; [intros [_ H]|intros ->; split; [done|]].
  - revert b Hl H. induction a as [|x a IH]; intros [|y b] Hl H; try done. simpl in *.
    inversion H; subst; simpl in *. f_equal; [done|]. apply IH; [lia|done].
  - clear Hl. induction b; simpl; by constructor.
Qed.

Lemma equalBytes_refl a : equalBytes a a = true.
Proof. by apply equalBytes_spec. Qed.

Lemma zip_bxor_length a b : length a = length b -> length (zip_with bxor a b) = length a.
Proof. intros. rewrite length_zip_with. lia. Qed.

Lemma zip_bxor_cancel a b : length a = length b -> zip_with bxor (zip_with bxor a b) b = a.
Proof.
  revert b. induction a as [|x a IH]; intros [|y b] H; try done. simpl in *.
  by rewrite bxor_cancel, IH by lia.
Qed.

(** ** IGE mode over a block cipher *)

Section IGE.
Context {K : Type} `{BlockCipher K}.

(** The encryption loop: [n] blocks left; [prevC], [prevP] as in the code. *)
Fixpoint ige_encrypt (n : nat) (k : K) (prevC prevP plain : list byte) : list byte :=
  match n with
  | O => []
  | S n' =>
      let p := take 16 plain in
      let c := zip_with bxor (bc_encrypt k (zip_with bxor p prevC)) prevP in
      c ++ ige_encrypt n' k c p (drop 16 plain)
  end.

Fixpoint ige_decrypt (n : nat) (k : K) (prevC prevP cipher : list byte) : list byte :=
  match n with
  | O => []
  | S n' =>
      let c := take 16 cipher in
      let p := zip_with bxor (bc_decrypt k (zip_with bxor c prevP)) prevC in
      p ++ ige_decrypt n' k c p (drop 16 cipher)
  end.

Let block (l : list byte) := length l = 16%nat.

Lemma xor_block a b : block a -> block b -> block (zip_with bxor a b).
Proof. unfold block. intros. rewrite zip_bxor_length; congruence. Qed.

Lemma first_block n l : length l = (16 * S n)%nat ->
  block (take 16 l) /\ length (drop 16 l) = (16 * n)%nat.
Proof. intros. unfold block. rewrite length_take, length_drop. lia. Qed.

Lemma ige_encrypt_length n k pc pp l :
  block pc -> block pp -> length l = (16 * n)%nat -> length (ige_encrypt n k pc pp l) = (16 * n)%nat.
Proof.
  revert pc pp l. induction n as [|n IH]; intros pc pp l Hc Hp Hl; [done|]. cbn [ige_encrypt].
  destruct (first_block n l Hl) as [H1 H2].
  assert (Hb : block (zip_with bxor (bc_encrypt k (zip_with bxor (take 16 l) pc)) pp)).
  { apply xor_block; [|done]. by apply bc_encrypt_length, xor_block. }
  rewrite length_app, Hb, IH by done. lia.
Qed.

Lemma ige_decrypt_length n k pc pp l :
  block pc -> block pp -> length l = (16 * n)%nat -> length (ige_decrypt n k pc pp l) = (16 * n)%nat.
Proof.
  revert pc pp l. induction n as [|n IH]; intros pc pp l Hc Hp Hl; [done|]. cbn [ige_decrypt].
  destruct (first_block n l Hl) as [H1 H2].
  assert (Hb : block (zip_with bxor (bc_decrypt k (zip_with bxor (take 16 l) pp)) pc)).
  { apply xor_block; [|done]. by apply bc_decrypt_length, xor_block. }
  rewrite length_app, Hb, IH by done. lia.
Qed.

Lemma ige_decrypt_encrypt n k pc pp l :
  block pc -> block pp -> length l = (16 * n)%nat ->
  ige_decrypt n k pc pp (ige_encrypt n k pc pp l) = l.
Proof.
  revert pc pp l. induction n as [|n IH]; intros pc pp l Hc Hp Hl.
  { by destruct l. }
  cbn [ige_decrypt ige_encrypt]. destruct (first_block n l Hl) as [H1 H2].
  set (p := take 16 l) in *.
  assert (He : block (bc_encrypt k (zip_with bxor p pc))) by by apply bc_encrypt_length, xor_block.
  set (c := zip_with bxor (bc_encrypt k (zip_with bxor p pc)) pp).
  assert (Hcb : block c) by by apply xor_block.
  rewrite take_app_length', drop_app_length' by done.
  assert (Hback : zip_with bxor (bc_decrypt k (zip_with bxor c pp)) pc = p).
  { unfold c. rewrite zip_bxor_cancel by (unfold block in *; congruence).
    rewrite bc_decrypt_encrypt by by apply xor_block.
    apply zip_bxor_cancel. unfold block in *. congruence. }
  rewrite Hback, IH by done. apply take_drop.
Qed.

Lemma ige_encrypt_decrypt n k pc pp l :
  block pc -> block pp -> length l = (16 * n)%nat ->
  ige_encrypt n k pc pp (ige_decrypt n k pc pp l) = l.
Proof.
  revert pc pp l. induction n as [|n IH]; intros pc pp l Hc Hp Hl.
  { by destruct l. }
  cbn [ige_decrypt ige_encrypt]. destruct (first_block n l Hl) as [H1 H2].
  set (c := take 16 l) in *.
  assert (He : block (bc_decrypt k (zip_with bxor c pp))) by by apply bc_decrypt_length, xor_block.
  set (p := zip_with bxor (bc_decrypt k (zip_with bxor c pp)) pc).
  assert (Hpb : block p) by by apply xor_block.
  rewrite take_app_length', drop_app_length' by done.
  assert (Hback : zip_with bxor (bc_encrypt k (zip_with bxor p pc)) pp = c).
  { unfold p. rewrite zip_bxor_cancel by (unfold block in *; congruence).
    rewrite bc_encrypt_decrypt by by apply xor_block.
    apply zip_bxor_cancel. unfold block in *. congruence. }
  rewrite Hback, IH by done. apply take_drop.
Qed.
End IGE.

(** ** aesIGEEncrypt and aesIGEDecrypt *)

Definition aesIGE (mode : nat -> aesKey -> list byte -> list byte -> list byte -> list byte)
    (what : string) (data key iv : list byte) : outcome (list byte) :=
  if negb (len data mod 16 =? 0) then
    Err (ErrNew ("aes-ige: " ++ what ++ " length must be a multiple of 16"))
  else if negb (len iv =? 32) then Err (ErrNew "aes-ige: iv must be 32 bytes")
  else match aes_NewCipher key with
       | Ok block => Ok (mode (Z.to_nat (len data / 16)) block (sub iv 0 16) (sub iv 16 (len iv)) data)
       | Err e => Err e
       | Panic => Panic
       end.

Definition aesIGEEncrypt (plain key iv : list byte) : outcome (list byte) :=
  aesIGE ige_encrypt "plaintext" plain key iv.
Definition aesIGEDecrypt (ciphertext key iv : list byte) : outcome (list byte) :=
  aesIGE ige_decrypt "ciphertext" ciphertext key iv.

Definition aes_key_ok (key : list byte) : Prop := len key = 16 \/ len key = 24 \/ len key = 32.

Lemma aes_NewCipher_ok key : aes_key_ok key -> aes_NewCipher key = Ok (AesKey (key_schedule key)).
Proof. unfold aes_NewCipher. by intros [-> | [-> | ->]]. Qed.

Lemma len_length {A} (l : list A) n : len l = Z.of_nat n -> length l = n.
Proof. unfold len. lia. Qed.

Lemma iv_halves (iv : list byte) :
  len iv = 32 -> length (sub iv 0 16) = 16%nat /\ length (sub iv 16 (len iv)) = 16%nat.
Proof. intros H. split; apply len_length; rewrite len_sub; lia. Qed.

Lemma aesIGE_ok mode what data key iv :
  len data mod 16 = 0 -> len iv = 32 -> aes_key_ok key ->
  aesIGE mode what data key iv =
    Ok (mode (Z.to_nat (len data / 16)) (AesKey (key_schedule key))
          (sub iv 0 16) (sub iv 16 (len iv)) data).
Proof.
  intros Hd Hi Hk. unfold aesIGE. rewrite Hd, Hi, aes_NewCipher_ok by done. reflexivity.
Qed.

Lemma len_ige_encrypt n k pc pp (l : list byte) :
  length pc = 16%nat -> length pp = 16%nat -> length l = (16 * n)%nat ->
  len (ige_encrypt (K := aesKey) n k pc pp l) = len l.
Proof. intros. unfold len. rewrite ige_encrypt_length by done. congruence. Qed.

Lemma blocks_of (data : list byte) :
  len data mod 16 = 0 -> length data = (16 * Z.to_nat (len data / 16))%nat.
Proof. unfold len. intros. zlia. Qed.

Lemma aesIGEEncrypt_total plain key iv :
  len plain mod 16 = 0 -> len iv = 32 -> aes_key_ok key ->
  exists cipher, aesIGEEncrypt plain key iv = Ok cipher /\ len cipher = len plain.
Proof.
  intros Hp Hi Hk. unfold aesIGEEncrypt. rewrite aesIGE_ok by done. eexists. split; [done|].
  destruct (iv_halves iv Hi). apply len_ige_encrypt; [done..|]. by apply blocks_of.
Qed.

(** Decryption undoes encryption. *)
Lemma aesIGEDecrypt_encrypt text key iv :
  len text mod 16 = 0 -> len iv = 32 -> aes_key_ok key ->
  exists c, aesIGEEncrypt text key iv = Ok c /\ len c = len text /\ aesIGEDecrypt c key iv = Ok text.
Proof.
  intros Ht Hi Hk. destruct (iv_halves iv Hi) as [H1 H2]. pose proof (blocks_of text Ht) as Hb.
  unfold aesIGEEncrypt, aesIGEDecrypt. rewrite !(aesIGE_ok _ _ text) by done.
  eexists; split; [reflexivity|].
  assert (Hl := len_ige_encrypt (Z.to_nat (len text / 16)) (AesKey (key_schedule key))
                  _ _ text H1 H2 Hb).
  split; [done|]. rewrite aesIGE_ok by (rewrite ?Hl; done). rewrite Hl. f_equal.
  by apply ige_decrypt_encrypt.
Qed.

(** Encryption undoes decryption. *)
Lemma aesIGEEncrypt_decrypt text key iv :
  len text mod 16 = 0 -> len iv = 32 -> aes_key_ok key ->
  exists p, aesIGEDecrypt text key iv = Ok p /\ len p = len text /\ aesIGEEncrypt p key iv = Ok text.
Proof.
  intros Ht Hi Hk. destruct (iv_halves iv Hi) as [H1 H2]. pose proof (blocks_of text Ht) as Hb.
  unfold aesIGEEncrypt, aesIGEDecrypt. rewrite !(aesIGE_ok _ _ text) by done.
  eexists; split; [reflexivity|].
  assert (Hl : len (ige_decrypt (Z.to_nat (len text / 16)) (AesKey (key_schedule key))
                 (sub iv 0 16) (sub iv 16 (len iv)) text) = len text).
  { unfold len. rewrite ige_decrypt_length by done. unfold len in Hb. congruence. }
  split; [done|]. rewrite aesIGE_ok by (rewrite ?Hl; done). rewrite Hl. f_equal.
  by apply ige_encrypt_decrypt.
Qed.

(** AES-IGE (crypto.go): for every key size Go's [aes.NewCipher] accepts and
    every 32-byte iv, encryption of a text of whole blocks succeeds with a text
    of the same length and decryption gives the original back; and conversely
    every ciphertext of whole blocks decrypts, to a text that encrypts back to
    it.  So the two functions are inverse bijections on each length. *)
Theorem aesIGE_inverse (text key iv : list byte) :
  len text mod 16 = 0 -> len iv = 32 -> aes_key_ok key ->
  (exists c, aesIGEEncrypt text key iv = Ok c /\ len c = len text /\
             aesIGEDecrypt c key iv = Ok text) /\
  (exists p, aesIGEDecrypt text key iv = Ok p /\ len p = len text /\
             aesIGEEncrypt p key iv = Ok text).
Proof. intros. split; [by apply aesIGEDecrypt_encrypt|by apply aesIGEEncrypt_decrypt]. Qed.

Lemma aesIGE_inverse_witness :
  (exists c, aesIGEEncrypt (replicate 64 x42) (replicate 32 x01) (replicate 32 x02) = Ok c /\
             len c = len (replicate 64 x42) /\
             aesIGEDecrypt c (replicate 32 x01) (replicate 32 x02) = Ok (replicate 64 x42)) /\
  (exists p, aesIGEDecrypt (replicate 64 x42) (replicate 32 x01) (replicate 32 x02) = Ok p /\
             len p = len (replicate 64 x42) /\
             aesIGEEncrypt p (replicate 32 x01) (replicate 32 x02) = Ok (replicate 64 x42)).
Proof.
  apply (aesIGE_inverse (replicate 64 x42) (replicate 32 x01) (replicate 32 x02));
    [reflexivity|reflexivity|right; right; reflexivity].
Defined.

(** ** Keys, salts and nonces of the handshake *)

Definition tempAESKeys (newNonce serverNonce : list byte) : list byte * list byte :=
  let sha1A := sha1Bytes [newNonce; serverNonce] in
  let sha1B := sha1Bytes [serverNonce; newNonce] in
  let sha1C := sha1Bytes [newNonce; newNonce] in
  (sha1A ++ sub sha1B 0 12, sub sha1B 12 20 ++ sha1C ++ sub newNonce 0 4).

Definition serverSalt (newNonce serverNonce : list byte) : Z :=
  i64 (le_value (zip_with bxor (sub newNonce 0 8) (sub serverNonce 0 8))).

Definition authKeyID (authKey : list byte) : Z := le_value (sub (sha1Bytes [authKey]) 12 20).
Definition authKeyAuxHash (authKey : list byte) : list byte := sub (sha1Bytes [authKey]) 0 8.

Definition newNonceHash (newNonce : list byte) (number : byte) (authKey : list byte) : list byte :=
  sub (sha1Bytes [newNonce ++ [number] ++ authKeyAuxHash authKey]) 4 20.

Lemma len_tempAESKeys newNonce serverNonce :
  4 <= len newNonce ->
  len (tempAESKeys newNonce serverNonce).1 = 32 /\ len (tempAESKeys newNonce serverNonce).2 = 32.
Proof.
  intros H. unfold tempAESKeys. cbn [fst snd].
  rewrite !len_app, !len_sub by (rewrite ?len_sha1Bytes; lia). rewrite !len_sha1Bytes. lia.
Qed.

Lemma authKeyID_range authKey : is_u64 (authKeyID authKey).
Proof. apply le_value_is_u64. rewrite len_sub by (rewrite ?len_sha1Bytes; lia). lia. Qed.

Lemma len_newNonceHash n b k : len (newNonceHash n b k) = 16.
Proof. unfold newNonceHash. rewrite len_sub by (rewrite ?len_sha1Bytes; lia). lia. Qed.

(** ** SHA-1 protected data *)

(** [rand.Read] / [io.ReadFull(rng, buf)] on the stream of random bytes. *)
Definition rng_Read (n : Z) : M (list byte) (list byte) := fun s =>
  if n <=? len s then (Ok (sub s 0 n), sub s n (len s)) else (Err (ErrEnv "rand"), []).

Definition addSHA1AndPad16 (data : list byte) : M (list byte) (list byte) :=
  let out := sha1Bytes [data] ++ data in
  let padding := 16 - len out mod 16 in
  let padding := if padding =? 16 then 0 else padding in
  if 0 <? padding then pad <- rng_Read padding ;; ret (out ++ pad) else ret out.

(** The search loop: [n] runs down from the length of the payload while fewer
    than sixteen bytes are dropped. *)
Fixpoint strip_loop (fuel : nat) (n : Z) (payload want : list byte) : outcome (list byte) :=
  match fuel with
  | O => Err (ErrNew "mtproto: SHA1 check failed")
  | S fuel' =>
      if (0 <=? n) && (len payload - n <=? 15) then
        let candidate := sub payload 0 n in
        if equalBytes (sha1Bytes [candidate]) want then Ok candidate
        else strip_loop fuel' (n - 1) payload want
      else Err (ErrNew "mtproto: SHA1 check failed")
  end.

Definition stripSHA1AndPadding (data : list byte) : outcome (list byte) :=
  if len data <? 20 then Err (ErrNew "mtproto: short SHA1 protected data")
  else
    let payload := sub data 20 (len data) in
    strip_loop 17 (len payload) payload (sub data 0 20).

(** The search finds the longest candidate with the wanted hash. *)
Lemma strip_loop_finds fuel n k payload want :
  0 <= k <= n -> len payload - k <= 15 -> n - k < Z.of_nat fuel ->
  sha1Bytes [sub payload 0 k] = want ->
  exists k', k <= k' <= n /\ strip_loop fuel n payload want = Ok (sub payload 0 k') /\
             sha1Bytes [sub payload 0 k'] = want.
Proof.
  revert n. induction fuel as [|fuel IH]; intros n Hk Hp Hf Hw; [lia|]. simpl.
  rewrite (proj2 (Z.leb_le 0 n)), (proj2 (Z.leb_le _ 15)) by lia. simpl.
  destruct (equalBytes _ want) eqn:Eq.
  { apply equalBytes_spec in Eq. exists n. auto with lia. }
  destruct (decide (n = k)) as [->|Hne].
  - rewrite Hw, equalBytes_refl in Eq. done.
  - destruct (IH (n - 1)) as (k' & ? & ? & ?); [lia..|done|]. exists k'. auto with lia.
Qed.

Lemma addSHA1AndPad16_ok data rng :
  16 <= len rng ->
  exists pad rng', addSHA1AndPad16 data rng = (Ok (sha1Bytes [data] ++ data ++ pad), rng') /\
    len pad <= 15 /\ len (sha1Bytes [data] ++ data ++ pad) mod 16 = 0.
Proof.
  intros Hr. unfold addSHA1AndPad16. set (out := sha1Bytes [data] ++ data).
  pose proof (Z.mod_pos_bound (len out) 16 ltac:(lia)).
  case (Z.eqb_spec (16 - len out mod 16) 16); intros Hp.
  - exists [], rng. rewrite app_nil_r. split; [done|]. rewrite len_nil. split; [lia|].
    fold out. lia.
  - rewrite (proj2 (Z.ltb_lt 0 _)) by lia. unfold bind, rng_Read.
    rewrite (proj2 (Z.leb_le _ (len rng))) by lia.
    assert (Hlp : len (sub rng 0 (16 - len out mod 16)) = 16 - len out mod 16) by (rewrite len_sub; lia).
    eexists _, _. unfold ret. unfold out at 1. rewrite <- app_assoc. split; [done|].
    rewrite (app_assoc _ data), len_app. fold out. rewrite Hlp. split; zlia.
Qed.

(** What comes back is the data, or the data with some of the padding that
    happens to have the same hash. *)
Lemma strip_protected data pad :
  len pad <= 15 ->
  exists tail, stripSHA1AndPadding (sha1Bytes [data] ++ data ++ pad) = Ok (data ++ tail) /\
               sha1Bytes [data ++ tail] = sha1Bytes [data].
Proof.
  intros Hpad. set (h := sha1Bytes [data]). assert (Hh : len h = 20) by apply len_sha1Bytes.
  pose proof (len_nonneg data). pose proof (len_nonneg pad).
  assert (Hsub : sub (h ++ data ++ pad) 20 (len (h ++ data ++ pad)) = data ++ pad).
  { apply sub_app_tail; [done|]. by rewrite len_app, Hh. }
  assert (Hd : sub (data ++ pad) 0 (len data) = data) by by apply sub_app_head.
  destruct (strip_loop_finds 17 (len (data ++ pad)) (len data) (data ++ pad) h)
    as (k & Hk & Hc & Hs); [rewrite len_app; lia..|by rewrite Hd|].
  exists (sub (data ++ pad) (len data) k).
  assert (Hk2 : data ++ sub (data ++ pad) (len data) k = sub (data ++ pad) 0 k).
  { rewrite (sub_cat _ 0 (len data) k) by lia. by rewrite Hd. }
  rewrite Hk2. split; [|done].
  unfold stripSHA1AndPadding. rewrite (proj2 (Z.ltb_ge _ 20)) by (rewrite !len_app; lia).
  by rewrite Hsub, sub_app_head.
Qed.

(** SHA-1 protected data of the handshake (crypto.go): whatever data is
    protected with [addSHA1AndPad16] is a whole number of AES blocks and is
    accepted by [stripSHA1AndPadding], which returns the data itself or, if it
    stops earlier, a longer prefix of data and padding with the same SHA-1
    (a collision). *)
Theorem sha1_padding_roundtrip (data rng : list byte) :
  16 <= len rng ->
  exists out rng' c,
    addSHA1AndPad16 data rng = (Ok out, rng') /\ len out mod 16 = 0 /\
    stripSHA1AndPadding out = Ok c /\
    (c = data \/ (c <> data /\ data `prefix_of` c /\ sha1Bytes [c] = sha1Bytes [data])).
Proof.
  intros Hr. destruct (addSHA1AndPad16_ok data rng Hr) as (pad & rng' & Ha & Hpad & Hmod).
  destruct (strip_protected data pad Hpad) as (tail & Hs & Hh).
  exists (sha1Bytes [data] ++ data ++ pad), rng', (data ++ tail). do 3 (split; [done|]).
  destruct tail as [|x tail]; [left; apply app_nil_r|right].
  split; [|split; [by eexists|done]].
  intros E. apply (f_equal length) in E. rewrite length_app in E. simpl in E. lia.
Qed.

Lemma sha1_padding_roundtrip_witness :
  exists out rng' c,
    addSHA1AndPad16 [x01; x02; x03] (replicate 16 xaa) = (Ok out, rng') /\ len out mod 16 = 0 /\
    stripSHA1AndPadding out = Ok c /\
    (c = [x01; x02; x03] \/
     (c <> [x01; x02; x03] /\ [x01; x02; x03] `prefix_of` c /\
      sha1Bytes [c] = sha1Bytes [[x01; x02; x03]])).
Proof. apply (sha1_padding_roundtrip [x01; x02; x03] (replicate 16 xaa)). done. Defined.

(** ** RSA *)

Record rsaPublicKey := RSAKey { rsa_N : Z; rsa_E : Z }.

(** [key.Size()] *)
Definition rsa_Size (key : rsaPublicKey) : Z := (bitLen (rsa_N key) + 7) / 8.

Definition rsaFingerprint (key : rsaPublicKey) : Z :=
  let bare := (tb_empty |> putBytes (big_Bytes (rsa_N key)) |> putBytes (big_Bytes (rsa_E key))) in
  le_value (sub (sha1_Sum (tb_buf bare)) 12 20).

Definition rsaRawEncrypt (key : rsaPublicKey) (plain : list byte) : list byte :=
  let c := powmod (be_value plain) (rsa_E key) (rsa_N key) in
  padBigIntBytes c (rsa_Size key).

Fixpoint rsaPad_loop (attempts : nat) (data : list byte) (key : rsaPublicKey)
    : M (list byte) (list byte) :=
  match attempts with
  | O => fail (ErrNew "mtproto: RSA_PAD failed after retries")
  | S attempts' =>
      pad <- rng_Read (192 - len data) ;;
      let dataWithPadding := data ++ pad in
      let dataPadReversed := reverseBytes dataWithPadding in
      tempKey <- rng_Read 32 ;;
      let dataWithHash := dataPadReversed ++ sha256Bytes [tempKey; dataWithPadding] in
      aesEncrypted <- lift (aesIGEEncrypt dataWithHash tempKey (replicate 32 x00)) ;;
      tempKeyXOR <- lift (xorBytes tempKey (sha256Bytes [aesEncrypted])) ;;
      let keyAESEncrypted := tempKeyXOR ++ aesEncrypted in
      guard (len keyAESEncrypted =? 256) (ErrNew "mtproto: invalid RSA_PAD length") ;;
      if rsa_N key <=? be_value keyAESEncrypted then rsaPad_loop attempts' data key
      else ret (rsaRawEncrypt key keyAESEncrypted)
  end.

Definition rsaPad (data : list byte) (key : rsaPublicKey) : M (list byte) (list byte) :=
  guard (negb (144 <? len data)) (ErrNew "mtproto: RSA_PAD data is longer than 144 bytes") ;;
  guard (rsa_Size key =? 256) (ErrNew "mtproto: expected 2048-bit RSA key") ;;
  rsaPad_loop 32 data key.

(** The receiver's side of RSA_PAD (the documented MTProto server procedure, not
    part of the program): undo the key wrapping, decrypt, check the hash. *)
Definition rsa_unpad_spec (kae : list byte) : option (list byte) :=
  let aesEncrypted := sub kae 32 (len kae) in
  let tempKey := zip_with bxor (sub kae 0 32) (sha256Bytes [aesEncrypted]) in
  match aesIGEDecrypt aesEncrypted tempKey (replicate 32 x00) with
  | Ok d =>
      let plain := rev (sub d 0 192) in
      if equalBytes (sub d 192 (len d)) (sha256Bytes [tempKey; plain]) then Some plain else None
  | _ => None
  end.

Lemma len_reverseBytes l : len (reverseBytes l) = len l.
Proof. unfold reverseBytes, len. by rewrite length_rev. Qed.
#[export] Hint Rewrite len_reverseBytes : lens.

Lemma rng_Read_inv n s v s' : rng_Read n s = (Ok v, s') -> 0 <= n -> len v = n.
Proof.
  unfold rng_Read. destruct (Z.leb_spec n (len s)); [|done]. intros [= <- <-] ?.
  by rewrite len_sub by lia; lia.
Qed.

Lemma xorBytes_ok a b : len a = len b -> xorBytes a b = Ok (zip_with bxor a b) /\ len (zip_with bxor a b) = len a.
Proof.
  intros H. unfold xorBytes. rewrite H, Z.leb_refl. split; [done|].
  unfold len in *. rewrite zip_bxor_length; lia.
Qed.

Lemma bitLen_mono a b : 0 <= a <= b -> bitLen a <= bitLen b.
Proof.
  intros H. unfold bitLen. destruct (Z.leb_spec a 0), (Z.leb_spec b 0); try lia.
  - pose proof (Z.log2_nonneg b). lia.
  - pose proof (Z.log2_le_mono a b). lia.
Qed.

Lemma len_big_Bytes z : 0 <= z -> len (big_Bytes z) = (bitLen z + 7) / 8.
Proof.
  intros H. unfold big_Bytes. rewrite len_be_bytes. destruct (bitLen_bound z H). zlia.
Qed.

Lemma len_padBigIntBytes v size :
  0 <= v -> (bitLen v + 7) / 8 <= size -> len (padBigIntBytes v size) = size.
Proof.
  intros Hv Hs. unfold padBigIntBytes. rewrite <- len_big_Bytes in Hs by done.
  destruct (Z.leb_spec size (len (big_Bytes v))); [lia|].
  rewrite len_app, len_replicate. lia.
Qed.

Lemma rsaRawEncrypt_spec key plain :
  0 < rsa_N key -> 0 <= rsa_E key ->
  len (rsaRawEncrypt key plain) = rsa_Size key /\
  be_value (rsaRawEncrypt key plain) = be_value plain ^ rsa_E key mod rsa_N key.
Proof.
  intros HN HE. unfold rsaRawEncrypt. rewrite powmod_spec by done.
  pose proof (Z.mod_pos_bound (be_value plain ^ rsa_E key) (rsa_N key) HN) as Hc.
  split; [|apply be_value_pad; lia].
  apply len_padBigIntBytes; [lia|]. unfold rsa_Size.
  apply Z.div_le_mono; [lia|]. apply Z.add_le_mono_r, bitLen_mono. lia.
Qed.

(** The wrapped key and ciphertext determine the padded data. *)
Lemma unpad_wrap (plain tempKey aes wrapped : list byte) :
  len plain = 192 -> len tempKey = 32 ->
  aesIGEEncrypt (reverseBytes plain ++ sha256Bytes [tempKey; plain]) tempKey (replicate 32 x00) = Ok aes ->
  xorBytes tempKey (sha256Bytes [aes]) = Ok wrapped ->
  rsa_unpad_spec (wrapped ++ aes) = Some plain.
Proof.
  intros Hp Hk He Hx.
  set (dwh := reverseBytes plain ++ sha256Bytes [tempKey; plain]) in *.
  assert (Hdwh : len dwh = 224) by (unfold dwh; rewrite len_app, len_reverseBytes, len_sha256Bytes; lia).
  destruct (aesIGE_inverse dwh tempKey (replicate 32 x00)) as [(c & Hc & _ & Hd) _].
  { by rewrite Hdwh. } { done. } { by right; right. }
  rewrite He in Hc. injection Hc as <-.
  destruct (xorBytes_ok tempKey (sha256Bytes [aes])) as [Hx2 Hxl]; [by rewrite len_sha256Bytes|].
  rewrite Hx in Hx2. injection Hx2 as ->.
  unfold rsa_unpad_spec. rewrite (sub_app_tail _ aes), sub_app_head by (rewrite ?len_app; lia).
  rewrite zip_bxor_cancel by (apply Nat2Z.inj; change (len tempKey = len (sha256Bytes [aes])); by rewrite len_sha256Bytes).
  rewrite Hd. unfold dwh. rewrite sub_app_head by (rewrite len_reverseBytes; lia).
  rewrite sub_app_tail by (rewrite ?len_app, ?len_reverseBytes, ?len_sha256Bytes; lia).
  unfold reverseBytes. by rewrite rev_involutive, equalBytes_refl.
Qed.

Lemma lift_inv {S A} (o : outcome A) (s s' : S) a : lift o s = (Ok a, s') -> o = Ok a /\ s' = s.
Proof. unfold lift. by injection 1. Qed.

Lemma guard_inv {S} c e (s s' : S) a : guard c e s = (Ok a, s') -> c = true /\ s' = s.
Proof. unfold guard, ret, fail. destruct c; [|done]. by injection 1. Qed.

Lemma rsaPad_loop_ok n data key rng ct rng' :
  len data <= 192 -> rsaPad_loop n data key rng = (Ok ct, rng') ->
  exists kae pad,
    len kae = 256 /\ be_value kae < rsa_N key /\ ct = rsaRawEncrypt key kae /\
    rsa_unpad_spec kae = Some (data ++ pad) /\ len (data ++ pad) = 192.
Proof.
  intros Hd. revert rng. induction n as [|n IH]; intros rng H; [done|]. simpl in H. run_inv.
  apply rng_Read_inv in Hrun; [|lia]. apply rng_Read_inv in Hrun0; [|lia].
  apply lift_inv in Hrun1 as [He _]. apply lift_inv in Hrun2 as [Hx _].
  apply guard_inv in Hrun3 as [Hl _]. apply Z.eqb_eq in Hl.
  destruct (Z.leb_spec (rsa_N key) (be_value (a2 ++ a1))); [by eapply IH|].
  apply ret_inv in H as [<- _].
  assert (Hpl : len (data ++ a) = 192) by (rewrite len_app; lia).
  exists (a2 ++ a1), a. repeat split; [done|done| |done]. by eapply unpad_wrap.
Qed.

(** RSA_PAD (crypto.go): every ciphertext [rsaPad] returns, for any data,
    2048-bit key and random stream, is 256 bytes long and is the RSA image, under
    that key, of a 256-byte block below the modulus from which the receiver's
    procedure recovers the data followed by random padding to 192 bytes, with a
    matching hash. *)
Theorem rsaPad_recoverable (data : list byte) (key : rsaPublicKey) (rng : list byte)
    (ct rng' : list byte) :
  0 <= rsa_E key -> rsaPad data key rng = (Ok ct, rng') ->
  len ct = 256 /\
  exists kae pad,
    len kae = 256 /\ be_value kae < rsa_N key /\
    be_value ct = be_value kae ^ rsa_E key mod rsa_N key /\
    rsa_unpad_spec kae = Some (data ++ pad) /\ len (data ++ pad) = 192.
Proof.
  intros HE H. unfold rsaPad in H. run_inv.
  apply guard_inv in Hrun as [Hd ->]. apply guard_inv in Hrun0 as [Hs ->].
  apply Z.eqb_eq in Hs. apply negb_true_iff, Z.ltb_ge in Hd.
  destruct (rsaPad_loop_ok 32 data key rng ct rng') as (kae & pad & Hl & Hb & -> & Hu & Hp); [lia|done|].
  pose proof (be_value_bound kae).
  destruct (rsaRawEncrypt_spec key kae) as [Hlen Hval]; [lia|done|].
  split; [by rewrite Hlen|]. by exists kae, pad.
Qed.

(** A 2048-bit modulus for evaluation (any modulus of that size works). *)
Definition demo_key : rsaPublicKey := RSAKey (2 ^ 2047 + 2 ^ 2046 + 12345) 3.

Lemma rsaPad_recoverable_witness :
  exists ct rng', rsaPad [x01; x02; x03] demo_key (replicate 221 x00) = (Ok ct, rng') /\
  (len ct = 256 /\
   exists kae pad,
    len kae = 256 /\ be_value kae < rsa_N demo_key /\
    be_value ct = be_value kae ^ rsa_E demo_key mod rsa_N demo_key /\
    rsa_unpad_spec kae = Some ([x01; x02; x03] ++ pad) /\ len ([x01; x02; x03] ++ pad) = 192).
Proof.
  destruct (rsaPad [x01; x02; x03] demo_key (replicate 221 x00)) as [o rng'] eqn:E.
  assert (Ho : is_ok o = true) by (change o with (o, rng').1; rewrite <- E; vm_compute; reflexivity).
  destruct o as [ct| |]; [|discriminate Ho..]. exists ct, rng'. split; [reflexivity|].
  apply (rsaPad_recoverable [x01; x02; x03] demo_key (replicate 221 x00) ct rng');
    [vm_compute; congruence|exact E].
Defined.

(** ** The built-in server keys (src/mtproto/rsa_keys.go)

    The PEM text of the source is a PKCS#1 public key; its modulus and exponent
    are written out here ([Keys] parses the text). *)

Record RSAPublicKey := RSAPub { rpk_Key : rsaPublicKey; rpk_Fingerprint : Z }.

Definition mainProductionRSAPublicKey : rsaPublicKey :=
  RSAKey
    0xe8bb3305c0b52c6cf2afdf7637313489e63e05268e5badb601af417786472e5f93b85438968e20e6729a301c0afc121bf7151f834436f7fda680847a66bf64accec78ee21c0b316f0edafe2f41908da7bd1f4a5107638eeb67040ace472a14f90d9f7c2b7def99688ba3073adb5750bb02964902a359fe745d8170e36876d4fd8a5d41b2a76cbff9a13267eb9580b2d06d10357448d20d9da2191cb5d8c93982961cdfdeda629e37f1fb09a0722027696032fe61ed663db7a37f6f263d370f69db53a0dc0a1748bdaaff6209d5645485e6e001d1953255757e4b8e42813347b11da6ab500fd0ace7e6dfa3736199ccaf9397ed0745a427dcfa6cd67bcb1acff3
    65537.

Definition ProductionRSAPublicKeys : list RSAPublicKey :=
  [RSAPub mainProductionRSAPublicKey (rsaFingerprint mainProductionRSAPublicKey)].

Definition fingerprint_error (fingerprints : list Z) : goerr :=
  ErrFmt "mtproto: no matching RSA public key for server fingerprints %x" (FZ <$> fingerprints).

(** The first fingerprint the client knows, in the server's order. *)
Fixpoint findRSAPublicKey_loop (keys : list RSAPublicKey) (fps : list Z) : option RSAPublicKey :=
  match fps with
  | [] => None
  | fp :: fps' =>
      match List.find (fun k => rpk_Fingerprint k =? fp) keys with
      | Some k => Some k
      | None => findRSAPublicKey_loop keys fps'
      end
  end.

Definition findRSAPublicKey (keys : list RSAPublicKey) (fps : list Z) : outcome RSAPublicKey :=
  match findRSAPublicKey_loop keys fps with
  | Some k => Ok k
  | None => Err (fingerprint_error fps)
  end.

(** The fingerprint the program's own test expects (crypto_test.go). *)
Example production_fingerprint :
  rpk_Fingerprint <$> ProductionRSAPublicKeys = [0xd09d1d85de64fd85].
Proof. vm_compute. reflexivity. Qed.

Lemma findRSAPublicKey_member keys fps k :
  findRSAPublicKey keys fps = Ok k -> In k keys /\ In (rpk_Fingerprint k) fps.
Proof.
  unfold findRSAPublicKey. induction fps as [|fp fps IH]; simpl; [done|].
  destruct (List.find _ keys) as [k'|] eqn:E.
  - intros [= <-]. apply List.find_some in E as [Hin Heq]. apply Z.eqb_eq in Heq.
    split; [done|]. left. done.
  - destruct (findRSAPublicKey_loop keys fps) as [k'|]; [|done].
    intros H. destruct (IH H). split; [done|]. by right.
Qed.
