(* ===== verification/Envelope.v ===== *)
(** * Envelope: the encrypted MTProto 2.0 session (src/mtproto/invoke.go)

    [encryptedState], its message ids and sequence numbers, and the encrypted
    packet: [buildEncryptedPacket], [parseEncryptedPacket], [mtproto2AESKeyIV].
    The clock and the random source are inputs: [world] holds the readings that
    [time.Now] will return and the bytes that [rand.Read] will deliver. *)

From Stdlib Require Import Sorting.Sorted.
From S2P Require Import Prelude TL Transport Hash AES Crypto.

(** ** The outside world *)

(** [w_clock n] is the [n]-th reading of the clock in nanoseconds, [w_deadline]
    the deadline last set on the connection. *)
Record world := World {
  w_conn : conn; w_rng : list byte; w_clock : nat -> Z; w_tick : nat; w_deadline : option Z }.

Definition set_conn (c : conn) (w : world) : world :=
  World c (w_rng w) (w_clock w) (w_tick w) (w_deadline w).
Definition set_rng (r : list byte) (w : world) : world :=
  World (w_conn w) r (w_clock w) (w_tick w) (w_deadline w).

(** [time.Now().UnixNano()] and [time.Now().Unix()]. *)
Definition time_Now : M world Z := fun w =>
  (Ok (w_clock w (w_tick w)),
   World (w_conn w) (w_rng w) (w_clock w) (S (w_tick w)) (w_deadline w)).
Definition unix (now : Z) : Z := i64 (now / second).

Lemma unix_range now : is_i64 (unix now).
Proof. apply i64_range. Qed.

Definition conn_SetDeadline (d : option Z) : M world unit :=
  modify (fun w => World (w_conn w) (w_rng w) (w_clock w) (w_tick w) d).

Definition on_conn {A} (m : M conn A) : M world A := zoom w_conn set_conn m.
Definition on_rng {A} (m : M (list byte) A) : M world A := zoom w_rng set_rng m.

(** ** The session *)

Record encryptedState := EncryptedState {
  es_authKey : list byte;
  es_authKeyID : Z;
  es_serverSalt : Z;
  es_sessionID : Z;
  es_timeOffset : Z;
  es_seq : Z;
  es_lastMsgID : Z }.

Definition set_salt (salt : Z) (s : encryptedState) : encryptedState :=
  EncryptedState (es_authKey s) (es_authKeyID s) salt (es_sessionID s) (es_timeOffset s)
    (es_seq s) (es_lastMsgID s).
Definition set_offset (off : Z) (s : encryptedState) : encryptedState :=
  EncryptedState (es_authKey s) (es_authKeyID s) (es_serverSalt s) (es_sessionID s) off
    (es_seq s) (es_lastMsgID s).
Definition set_seq (q : Z) (s : encryptedState) : encryptedState :=
  EncryptedState (es_authKey s) (es_authKeyID s) (es_serverSalt s) (es_sessionID s)
    (es_timeOffset s) q (es_lastMsgID s).
Definition set_lastMsgID (m : Z) (s : encryptedState) : encryptedState :=
  EncryptedState (es_authKey s) (es_authKeyID s) (es_serverSalt s) (es_sessionID s)
    (es_timeOffset s) (es_seq s) m.

(** The code's integers are in range: [uint64], [int64], [int32]. *)
Definition es_wf (s : encryptedState) : Prop :=
  128 <= len (es_authKey s) /\ is_u64 (es_authKeyID s) /\ is_i64 (es_serverSalt s) /\
  is_i64 (es_sessionID s) /\ is_i64 (es_timeOffset s) /\ is_i32 (es_seq s) /\
  is_i64 (es_lastMsgID s).

(** What the authorisation leaves behind (auth.go). *)
Record AuthKeyResult := AuthKey {
  ak_DCID : Z; ak_Address : string; ak_Nonce : list byte; ak_ServerNonce : list byte;
  ak_NewNonce : list byte; ak_PQ : list byte; ak_P : list byte; ak_Q : list byte;
  ak_RSAFingerprint : Z; ak_G : Z; ak_DHPrime : list byte; ak_GA : list byte; ak_GB : list byte;
  ak_AuthKey : list byte; ak_AuthKeyID : Z; ak_ServerSalt : Z; ak_ServerTime : Z;
  ak_TimeOffset : Z; ak_Message : string }.

(** [sid] is what [rand.Read] put into the eight bytes (zeros when it failed). *)
Definition newEncryptedState (sid : list byte) (auth : AuthKeyResult) : encryptedState :=
  EncryptedState (ak_AuthKey auth) (ak_AuthKeyID auth) (ak_ServerSalt auth)
    (i64 (le_value sid)) (ak_TimeOffset auth) 0 0.

Definition nextSeqNo (contentRelated : bool) : M encryptedState Z :=
  s <- get ;;
  if negb contentRelated then ret (i32 (es_seq s * 2))
  else let seq := i32 (i32 (es_seq s * 2) + 1) in
       put (set_seq (i32 (es_seq s + 1)) s) ;; ret seq.

(** [time.Now().Add(time.Duration(s.timeOffset) * time.Second).UnixNano()] *)
Definition server_nanos (now off : Z) : Z := i64 (now + i64 (off * second)).

(** Both branches of the loop's body return in the first round. *)
Definition nextMsgID (now : Z) : M encryptedState Z :=
  s <- get ;;
  let msgID := nextMessageID (server_nanos now (es_timeOffset s)) in
  if es_lastMsgID s <? msgID then put (set_lastMsgID msgID s) ;; ret msgID
  else let next := i64 (es_lastMsgID s + 4) in
       put (set_lastMsgID next s) ;; ret next.

Definition adjustTimeOffsetFromBadMessage (now badMsgID code : Z) (s : encryptedState) : encryptedState :=
  if (negb (code =? 16) && negb (code =? 17)) || (badMsgID =? 0) then s
  else let serverSeconds := i64 (Z.shiftr (u64 badMsgID) 32) in
       if serverSeconds =? 0 then s
       else set_offset (i64 (serverSeconds - unix now)) s.

(** ** Packets *)

Definition mtproto2AESKeyIV (authKey msgKey : list byte) (x : Z) : outcome (list byte * list byte) :=
  match slice authKey x (x + 36), slice authKey (40 + x) (76 + x) with
  | Ok ka, Ok kb =>
      let sha256A := sha256Bytes [msgKey; ka] in
      let sha256B := sha256Bytes [kb; msgKey] in
      Ok (sub sha256A 0 8 ++ sub sha256B 8 24 ++ sub sha256A 24 32,
          sub sha256B 0 8 ++ sub sha256A 8 24 ++ sub sha256B 24 32)
  | _, _ => Panic
  end.

Definition envelope_plain (salt sessionID msgID seqNo : Z) (body : list byte) : list byte :=
  le_bytes 8 (u64 salt) ++ le_bytes 8 (u64 sessionID) ++ le_bytes 8 (u64 msgID) ++
  le_bytes 4 (u32 seqNo) ++ le_bytes 4 (u32 (len body)) ++ body.

Definition paddingLen (n : Z) : Z := 12 + Z.rem (16 - Z.rem (n + 12) 16) 16.

(** The ciphertext of a padded plaintext: the client uses [x = 0] and key bytes
    88..120, the server [x = 8] and key bytes 96..128. *)
Definition seal_packet (authKey : list byte) (authKeyID x : Z) (plain : list byte) : outcome (list byte) :=
  match slice authKey (88 + x) (120 + x) with
  | Ok ak =>
      let msgKey := sub (sha256Bytes [ak; plain]) 8 24 in
      match mtproto2AESKeyIV authKey msgKey x with
      | Ok (key, iv) =>
          match aesIGEEncrypt plain key iv with
          | Ok ciphertext => Ok (le_bytes 8 authKeyID ++ msgKey ++ ciphertext)
          | Err e => Err e
          | Panic => Panic
          end
      | Err e => Err e
      | Panic => Panic
      end
  | _ => Panic
  end.

Definition buildEncryptedPacket (s : encryptedState) (msgID seqNo : Z) (body : list byte)
  : M (list byte) (list byte) :=
  let plain := envelope_plain (es_serverSalt s) (es_sessionID s) msgID seqNo body in
  padding <- rng_Read (paddingLen (len plain)) ;;
  lift (seal_packet (es_authKey s) (es_authKeyID s) 0 (plain ++ padding)).

Record encryptedMessage := EncryptedMessage {
  em_Salt : Z; em_SessionID : Z; em_MsgID : Z; em_SeqNo : Z; em_Body : list byte }.

(** The fields of the decrypted plaintext. *)
Definition read_envelope : M tlReader encryptedMessage :=
  salt <- tl_long ;; sessionID <- tl_long ;; msgID <- tl_long ;;
  seqNo <- tl_int ;; length <- tl_int ;;
  body <- tl_raw length ;;
  ret (EncryptedMessage (i64 salt) (i64 sessionID) (i64 msgID) (i32 seqNo) body).

Definition read_packet_head (keyID : Z) : M tlReader (list byte * list byte) :=
  authKeyID <- tl_long ;;
  guard (authKeyID =? keyID) (ErrFmt "mtproto: auth key id mismatch: got %x" [FZ authKeyID]) ;;
  msgKey <- tl_raw 16 ;;
  r <- get ;;
  ret (msgKey, tl_remaining r).

Definition open_packet (authKey msgKey ciphertext : list byte) (x : Z) : outcome (list byte) :=
  match mtproto2AESKeyIV authKey msgKey x with
  | Ok (key, iv) =>
      match aesIGEDecrypt ciphertext key iv with
      | Ok plain =>
          match slice authKey (88 + x) (120 + x) with
          | Ok ak =>
              if equalBytes msgKey (sub (sha256Bytes [ak; plain]) 8 24) then Ok plain
              else Err (ErrNew "mtproto: inbound msg_key verification failed")
          | _ => Panic
          end
      | Err e => Err e
      | Panic => Panic
      end
  | Err e => Err e
  | Panic => Panic
  end.

Definition parseEncryptedPacket (s : encryptedState) (payload : list byte) : outcome encryptedMessage :=
  if (len payload <? 24) || negb (Z.rem (len payload - 24) 16 =? 0) then
    Err (ErrNew "mtproto: invalid encrypted packet length")
  else
    match eval (read_packet_head (es_authKeyID s)) (newTLReader payload) with
    | Ok (msgKey, ciphertext) =>
        match open_packet (es_authKey s) msgKey ciphertext 8 with
        | Ok plain => eval read_envelope (newTLReader plain)
        | Err e => Err e
        | Panic => Panic
        end
    | Err e => Err e
    | Panic => Panic
    end.

(** ** Message ids *)

Lemma land_lnot_3 m : Z.land m (Z.lnot 3) = m - m mod 4.
Proof.
  change 3 with (Z.ones 2). rewrite <- Z.ldiff_land, Z.ldiff_ones_r by lia.
  rewrite Z.shiftl_mul_pow2, Z.shiftr_div_pow2 by lia. change (2 ^ 2) with 4.
  pose proof (Z.div_mod m 4). lia.
Qed.

(** The message id is the time in units of 2{^-30} seconds, times four. *)
Lemma nextMessageID_time now :
  0 <= now < two31 * second -> nextMessageID now = 4 * (now * 2 ^ 30 / second).
Proof.
  intros Hn. unfold nextMessageID. rewrite Z.quot_div_nonneg, Z.rem_mod_nonneg by (unfold second; lia).
  pose proof (Z.mod_pos_bound now second ltac:(done)) as Hm.
  pose proof (Z.div_mod now second ltac:(done)) as Hd.
  assert (Hs : 0 <= now / second < two31).
  { split; [apply Z.div_pos; [lia|done]|]. apply Z.div_lt_upper_bound; [done|]. lia. }
  set (s := now / second) in *. set (n := now mod second) in *.
  rewrite !Z.shiftl_mul_pow2 by lia. change (2 ^ 32) with two32.
  rewrite (i64_id (n * two32)) by (unfold_words; unfold second in *; lia).
  rewrite (i64_id (s * two32)) by (unfold_words; lia).
  rewrite Z.quot_div_nonneg by (unfold_words; unfold second in *; lia).
  set (q := n * two32 / second).
  assert (Hq : 0 <= q < two32).
  { split; [apply Z.div_pos; [unfold_words; lia|done]|].
    apply Z.div_lt_upper_bound; [done|]. unfold_words; lia. }
  rewrite Z.lor_comm. change two32 with (2 ^ 32). rewrite <- (Z.shiftl_mul_pow2 s) by lia.
  rewrite lor_shiftl_add by (try lia; apply Hq). change (2 ^ 32) with (4 * 2 ^ 30).
  rewrite land_lnot_3. subst q.
  assert (E : now * 2 ^ 30 / second = s * 2 ^ 30 + n * 2 ^ 30 / second).
  { rewrite Hd. replace ((second * s + n) * 2 ^ 30) with (n * 2 ^ 30 + s * 2 ^ 30 * second) by lia.
    rewrite Z.div_add by done. lia. }
  rewrite E.
  assert (E4 : n * 2 ^ 30 / second = n * two32 / second / 4).
  { rewrite Z.div_div by done. replace (n * two32) with (n * 2 ^ 30 * 4) by (unfold_words; lia).
    by rewrite Z.div_mul_cancel_r. }
  rewrite E4. change two32 with 4294967296. change (2 ^ 30) with 1073741824. zlia.
Qed.

Lemma nextMessageID_i64 now : is_i64 (nextMessageID now).
Proof.
  unfold nextMessageID. apply land_i64; [apply lor_i64|]; auto with words.
  - apply quot_i64; [auto with words|done].
  - vm_compute. intuition congruence.
Qed.

(** A clock whose readings, corrected by the offset, are before 2038. *)
Definition clock_ok (off now : Z) : Prop := 0 <= server_nanos now off < (two31 - 1) * second.

Lemma clock_ok_id off now :
  clock_ok off now -> 0 <= nextMessageID (server_nanos now off) <= two63 - two32.
Proof.
  unfold clock_ok. intros H. rewrite nextMessageID_time by (unfold_words; unfold second in *; lia).
  split; [apply Z.mul_nonneg_nonneg; [lia|apply Z.div_pos; [lia|done]]|].
  assert (server_nanos now off * 2 ^ 30 / second < (two31 - 1) * 2 ^ 30).
  { apply Z.div_lt_upper_bound; [done|]. lia. }
  unfold_words. lia.
Qed.

Lemma nextMsgID_step now s :
  clock_ok (es_timeOffset s) now ->
  0 <= es_lastMsgID s < two63 - 4 -> es_lastMsgID s mod 4 = 0 ->
  exists m, nextMsgID now s = (Ok m, set_lastMsgID m s) /\
            es_lastMsgID s < m <= Z.max (es_lastMsgID s + 4) (two63 - two32) /\ m mod 4 = 0.
Proof.
  intros Hc Hl H4. pose proof (clock_ok_id _ _ Hc) as Hid.
  assert (Hm : nextMessageID (server_nanos now (es_timeOffset s)) mod 4 = 0).
  { rewrite nextMessageID_time by (unfold clock_ok in Hc; unfold_words; unfold second in *; lia).
    rewrite Z.mul_comm. by apply Z.mod_mul. }
  unfold nextMsgID, bind, get. cbv zeta. set (id := nextMessageID _) in *.
  destruct (Z.ltb_spec (es_lastMsgID s) id).
  - exists id. split; [done|]. split; [lia|done].
  - rewrite i64_id by (unfold_words; lia). eexists. split; [done|]. split; [lia|zlia].
Qed.

(** The ids of consecutive requests, one clock reading each. *)
Fixpoint msg_ids (clocks : list Z) : M encryptedState (list Z) :=
  match clocks with
  | [] => ret []
  | now :: rest => m <- nextMsgID now ;; ms <- msg_ids rest ;; ret (m :: ms)
  end.

Lemma msg_ids_sorted clocks s bound :
  Forall (clock_ok (es_timeOffset s)) clocks ->
  0 <= es_lastMsgID s <= bound -> two63 - two32 <= bound -> es_lastMsgID s mod 4 = 0 ->
  bound + 4 * len clocks < two63 ->
  exists ids, eval (msg_ids clocks) s = Ok ids /\ length ids = length clocks /\
    StronglySorted Z.lt (es_lastMsgID s :: ids) /\ Forall (fun m => m mod 4 = 0) ids.
Proof.
  intros Hc. revert s bound Hc. induction clocks as [|now rest IH]; intros s bound Hc Hl Hb H4 Hn.
  { exists []. repeat split; repeat constructor. }
  inversion Hc as [|x y Hc1 Hc2]; subst. rewrite len_cons in Hn. len_nonneg_all.
  destruct (nextMsgID_step now s Hc1) as (m & E & Hm & Hm4); [lia|done|].
  destruct (IH (set_lastMsgID m s) (bound + 4)) as (ids & E2 & Hlen & Hs & H4s);
    simpl; [done|lia|lia|done|lia|].
  exists (m :: ids). simpl in Hs. unfold eval in *. simpl. erewrite bind_ok by exact E.
  destruct (msg_ids rest _) as [o s'] eqn:E3. simpl in E2. subst o.
  erewrite bind_ok by exact E3. simpl. split; [done|]. split; [congruence|]. split; [|by constructor].
  constructor; [done|]. constructor; [lia|]. inversion Hs as [|u v _ Hall]; subst.
  eapply Forall_impl; [exact Hall|]. simpl. lia.
Qed.

(** C23. Message ids (invoke.go, [nextMsgID]): whatever the clock readings are
    (standing still or running backwards included), as long as the corrected
    time is before 2038, up to 2{^29} consecutive requests of one session get
    strictly increasing ids, all greater than the last one used and all
    multiples of four, as the server requires. *)
Theorem msg_ids_increasing (clocks : list Z) (s : encryptedState) :
  Forall (clock_ok (es_timeOffset s)) clocks ->
  0 <= es_lastMsgID s <= two63 - two32 -> es_lastMsgID s mod 4 = 0 -> len clocks <= 2 ^ 29 ->
  exists ids, eval (msg_ids clocks) s = Ok ids /\ length ids = length clocks /\
    StronglySorted Z.lt (es_lastMsgID s :: ids) /\ Forall (fun m => m mod 4 = 0) ids.
Proof.
  intros Hc Hl H4 Hn. apply (msg_ids_sorted clocks s (two63 - two32)); try done.
  unfold_words. lia.
Qed.

Definition demo_state : encryptedState :=
  EncryptedState (replicate 256 x11) 42 7 9 3600 0 0.

Lemma msg_ids_increasing_witness :
  exists ids, eval (msg_ids [1700000000123456789; 1700000000123456789; 1600000000000000000]) demo_state = Ok ids
    /\ length ids = 3%nat /\ StronglySorted Z.lt (0 :: ids) /\ Forall (fun m => m mod 4 = 0) ids.
Proof.
  apply (msg_ids_increasing [1700000000123456789; 1700000000123456789; 1600000000000000000] demo_state).
  - repeat constructor; vm_compute; congruence.
  - vm_compute. intuition congruence.
  - reflexivity.
  - vm_compute. congruence.
Defined.

(** ** Sequence numbers *)

(** Content-related requests take odd numbers, two apart. *)
Lemma nextSeqNo_content s :
  0 <= es_seq s < 2 ^ 30 - 1 ->
  nextSeqNo true s = (Ok (2 * es_seq s + 1), set_seq (es_seq s + 1) s).
Proof.
  intros H. unfold nextSeqNo, bind, get, put, ret. simpl.
  rewrite (i32_id (es_seq s * 2)) by (unfold_words; lia).
  rewrite (i32_id (_ + 1)) by (unfold_words; lia).
  rewrite (i32_id (es_seq s + 1)) by (unfold_words; lia). do 2 f_equal. lia.
Qed.

(** ** Clock correction *)

(** With the server's message id the correction is exact: applied to the next
    reading, it gives the server's second. *)
Lemma adjust_server_id now badMsgID code s :
  code = 16 \/ code = 17 -> is_u64 badMsgID -> two32 <= badMsgID ->
  is_i64 (badMsgID / two32 - unix now) ->
  es_timeOffset (adjustTimeOffsetFromBadMessage now badMsgID code s) = badMsgID / two32 - unix now.
Proof.
  intros Hc Hu Hb Hi. unfold adjustTimeOffsetFromBadMessage.
  assert (Hz : badMsgID <> 0) by (clear -Hb; unfold_words; lia).
  assert (Hcode : negb (code =? 16) && negb (code =? 17) = false) by (destruct Hc as [-> | ->]; done).
  rewrite Hcode, (proj2 (Z.eqb_neq badMsgID 0)) by done. cbn [orb]. clear Hcode.
  rewrite (u64_id badMsgID) by done. rewrite Z.shiftr_div_pow2 by lia. change (2 ^ 32) with two32.
  assert (1 <= badMsgID / two32 < two32).
  { split; [apply Z.div_le_lower_bound; unfold_words; lia|].
    apply Z.div_lt_upper_bound; unfold_words; lia. }
  rewrite (i64_id (badMsgID / two32)) by (unfold_words; lia).
  rewrite (proj2 (Z.eqb_neq _ 0)) by lia. simpl. by apply i64_id.
Qed.

Lemma unix_reading now : 0 <= now < two63 -> unix now = now / second.
Proof.
  intros Hn. apply i64_id. assert (0 <= now / second) by (apply Z.div_pos; [lia|done]).
  assert (now / second <= now) by (apply Z.div_le_upper_bound; [done|unfold second; lia]). unfold_words. lia.
Qed.

Lemma unix_server_nanos now off :
  0 <= now < two63 -> 0 <= now + off * second < two63 -> is_i64 (off * second) ->
  server_nanos now off / second = unix now + off.
Proof.
  intros Hn Hr Ho. rewrite unix_reading by done. unfold server_nanos. rewrite (i64_id (off * second)) by done.
  rewrite i64_id by (unfold_words; lia). rewrite Z.div_add by done. lia.
Qed.

(** Clock correction (invoke.go, [adjustTimeOffsetFromBadMessage] as called
    by [invoke]): [invoke] passes the id of its own rejected request, which was
    computed from the local clock at [sent] with the current offset.  The new
    offset then is the old one minus the seconds that passed between sending
    and handling: it never depends on the server's time and never grows, so a
    client whose clock is behind is not corrected by the retry. *)
Theorem adjust_own_id_never_corrects (s : encryptedState) (sent now code : Z) :
  code = 16 \/ code = 17 ->
  0 <= sent <= now -> is_i64 (es_timeOffset s * second) ->
  0 < sent / second + es_timeOffset s -> clock_ok (es_timeOffset s) sent ->
  0 <= sent + es_timeOffset s * second < two63 -> now < two63 ->
  let requestMsgID := nextMessageID (server_nanos sent (es_timeOffset s)) in
  let s' := adjustTimeOffsetFromBadMessage now requestMsgID code s in
  es_timeOffset s' = es_timeOffset s - (unix now - unix sent) /\
  es_timeOffset s' <= es_timeOffset s.
Proof.
  intros Hcode Hsent Hoff Hpos Hclk Hr Hnow. cbv zeta.
  pose proof (clock_ok_id _ _ Hclk) as Hid.
  pose proof (unix_server_nanos sent (es_timeOffset s) ltac:(lia) Hr Hoff) as Hsec.
  rewrite nextMessageID_time in * by (unfold clock_ok in Hclk; unfold_words; unfold second in *; lia).
  set (t := server_nanos sent (es_timeOffset s)) in *.
  assert (Hdiv : 4 * (t * 2 ^ 30 / second) / two32 = unix sent + es_timeOffset s).
  { rewrite <- Hsec. change two32 with (4 * 2 ^ 30). rewrite Z.div_mul_cancel_l by lia.
    rewrite Z.div_div by (unfold second; lia). by rewrite Z.div_mul_cancel_r. }
  rewrite (unix_reading sent) in * by lia.
  assert (Hle : sent / second <= now / second) by (apply Z.div_le_mono; [done|lia]).
  assert (Hup : now / second <= now) by (apply Z.div_le_upper_bound; [done|unfold second; lia]).
  assert (0 <= sent / second) by (apply Z.div_pos; [lia|done]).
  assert (Hge : two32 <= 4 * (t * 2 ^ 30 / second)).
  { apply Z.nlt_ge. intros Hlt. rewrite Z.div_small in Hdiv by lia. lia. }
  rewrite adjust_server_id; rewrite ?(unix_reading now), ?Hdiv by lia; [lia|done|unfold_words; lia|done|].
  assert (sent / second + es_timeOffset s < two63).
  { rewrite <- Hdiv. apply Z.div_lt_upper_bound; unfold_words; lia. }
  unfold_words. lia.
Qed.

Lemma adjust_own_id_never_corrects_witness :
  let requestMsgID := nextMessageID (server_nanos 1700000000500000000 (-300)) in
  let s' := adjustTimeOffsetFromBadMessage 1700000002000000000 requestMsgID 16
              (set_offset (-300) demo_state) in
  es_timeOffset s' = -300 - (unix 1700000002000000000 - unix 1700000000500000000) /\
  es_timeOffset s' <= -300.
Proof.
  apply (adjust_own_id_never_corrects (set_offset (-300) demo_state)
           1700000000500000000 1700000002000000000 16); vm_compute; intuition congruence.
Defined.

(** ** Sealed packets *)

Lemma mtproto2AESKeyIV_ok authKey msgKey x :
  128 <= len authKey -> 0 <= x <= 8 ->
  exists key iv, mtproto2AESKeyIV authKey msgKey x = Ok (key, iv) /\ len key = 32 /\ len iv = 32.
Proof.
  intros Hk Hx. unfold mtproto2AESKeyIV. rewrite !slice_ok by lia. do 2 eexists. split; [reflexivity|].
  autorewrite with lens. rewrite !len_sub by (autorewrite with lens; lia). lia.
Qed.

Lemma len_msgKey parts : len (sub (sha256Bytes parts) 8 24) = 16.
Proof. rewrite len_sub; autorewrite with lens; lia. Qed.

Lemma key32_ok key : len key = 32 -> aes_key_ok key.
Proof. unfold aes_key_ok. auto. Qed.

(** Sealing whole blocks succeeds, and opening gives the plaintext back. *)
Lemma open_seal authKey keyID x plain :
  128 <= len authKey -> 0 <= x <= 8 -> len plain mod 16 = 0 ->
  exists msgKey c, seal_packet authKey keyID x plain = Ok (le_bytes 8 keyID ++ msgKey ++ c) /\
    len msgKey = 16 /\ len c = len plain /\ open_packet authKey msgKey c x = Ok plain.
Proof.
  intros Hk Hx Hp. unfold seal_packet, open_packet. rewrite slice_ok by lia.
  set (msgKey := sub _ 8 24).
  destruct (mtproto2AESKeyIV_ok authKey msgKey x Hk) as (key & iv & E & Hkey & Hiv); [lia|].
  destruct (aesIGEDecrypt_encrypt plain key iv Hp Hiv (key32_ok _ Hkey)) as (c & Ec & Hc & Ed).
  exists msgKey, c. rewrite E, Ec, Ed. fold msgKey. rewrite equalBytes_refl.
  split; [done|]. split; [apply len_msgKey|done].
Qed.

(** Whatever opens was sealed with the same key. *)
Lemma seal_open authKey keyID x msgKey c plain :
  128 <= len authKey -> 0 <= x <= 8 -> len c mod 16 = 0 ->
  open_packet authKey msgKey c x = Ok plain ->
  seal_packet authKey keyID x plain = Ok (le_bytes 8 keyID ++ msgKey ++ c) /\ len plain = len c.
Proof.
  intros Hk Hx Hc. unfold seal_packet, open_packet.
  destruct (mtproto2AESKeyIV_ok authKey msgKey x Hk) as (key & iv & E & Hkey & Hiv); [lia|].
  rewrite E, !slice_ok by lia.
  destruct (aesIGEEncrypt_decrypt c key iv Hc Hiv (key32_ok _ Hkey)) as (p & Ep & Hp & Ee).
  rewrite Ep. destruct (equalBytes _ _) eqn:Eq; [|done]. intros [= ->].
  apply equalBytes_spec in Eq. rewrite <- Eq, E, Ee. done.
Qed.

Lemma open_packet_no_panic authKey msgKey c x :
  128 <= len authKey -> 0 <= x <= 8 -> len c mod 16 = 0 -> open_packet authKey msgKey c x <> Panic.
Proof.
  intros Hk Hx Hc. unfold open_packet.
  destruct (mtproto2AESKeyIV_ok authKey msgKey x Hk) as (key & iv & E & Hkey & Hiv); [lia|].
  rewrite E, slice_ok by lia.
  destruct (aesIGEEncrypt_decrypt c key iv Hc Hiv (key32_ok _ Hkey)) as (p & Ep & _).
  rewrite Ep. by destruct (equalBytes _ _).
Qed.

(** The head of a packet, for any payload long enough. *)
Lemma read_packet_head_spec keyID payload :
  24 <= len payload -> is_u64 keyID ->
  eval (read_packet_head keyID) (newTLReader payload) =
  (if le_value (sub payload 0 8) =? keyID
   then Ok (sub payload 8 24, sub payload 24 (len payload))
   else Err (ErrFmt "mtproto: auth key id mismatch: got %x" [FZ (le_value (sub payload 0 8))])).
Proof.
  intros Hl Hk.
  assert (Hp : payload = sub payload 0 8 ++ sub payload 8 24 ++ sub payload 24 (len payload)).
  { rewrite (sub_split payload 8) at 1 by lia. f_equal. apply sub_cat; lia. }
  assert (L8 : len (sub payload 0 8) = 8) by (rewrite len_sub; lia).
  assert (L16 : len (sub payload 8 24) = 16) by (rewrite len_sub; lia).
  set (a := sub payload 0 8) in *. set (b := sub payload 8 24) in *.
  set (c := sub payload 24 (len payload)) in *. rewrite Hp. clearbody a b c. clear Hp.
  assert (R8 : reads tl_long a (le_value a)).
  { pose proof (reads_long (le_value a)) as R.
    rewrite le_bytes_le_value, u64_id in R; [done|by apply le_value_is_u64|].
    unfold len in L8. lia. }
  unfold eval, read_packet_head.
  specialize (R8 [] (b ++ c)). simpl in R8. erewrite bind_ok by exact R8.
  destruct (le_value a =? keyID); [|done]. unfold guard. rewrite bind_ret.
  pose proof (reads_raw 16 b (eq_sym L16) a c) as R16. rewrite len_nil, Z.add_0_l.
  erewrite bind_ok by exact R16. unfold bind, get, ret, tl_remaining. cbn [r_buf r_off fst].
  destruct (Z.leb_spec (len (a ++ b ++ c)) (len a + len b)) as [Hle|Hle].
  - autorewrite with lens in Hle. len_nonneg_all. rewrite (len_zero c) by lia. done.
  - rewrite app_assoc. by rewrite sub_app_tail by len_lia.
Qed.

Lemma sealed_parts keyID msgKey c :
  len msgKey = 16 -> is_u64 keyID ->
  let payload := le_bytes 8 keyID ++ msgKey ++ c in
  len payload = 24 + len c /\ le_value (sub payload 0 8) = keyID /\
  sub payload 8 24 = msgKey /\ sub payload 24 (len payload) = c.
Proof.
  intros Hm Hk. cbv zeta. split; [len_lia|]. split; [|split].
  - rewrite sub_app_head by len_lia. by rewrite le_value_8, u64_id.
  - apply sub_app_mid; len_lia.
  - rewrite app_assoc. apply sub_app_tail; len_lia.
Qed.

Lemma reads_envelope salt sessionID msgID seqNo body :
  is_i64 salt -> is_i64 sessionID -> is_i64 msgID -> is_i32 seqNo -> is_u32 (len body) ->
  reads read_envelope (envelope_plain salt sessionID msgID seqNo body)
    (EncryptedMessage salt sessionID msgID seqNo body).
Proof.
  intros Hs He Hm Hq Hl. unfold read_envelope, envelope_plain.
  eapply reads_bind; [apply reads_long|]. eapply reads_bind; [apply reads_long|].
  eapply reads_bind; [apply reads_long|]. eapply reads_bind; [apply reads_int|].
  eapply reads_bind; [apply reads_int|]. autorewrite with words.
  pose proof (reads_map (tl_raw (len body)) (EncryptedMessage salt sessionID msgID seqNo) body body
                (reads_raw _ _ eq_refl)) as R.
  exact R.
Qed.

Lemma rsafe_read_envelope : rsafe read_envelope.
Proof. unfold read_envelope. rsafe_auto. Qed.

Lemma rsafe_read_packet_head keyID : rsafe (read_packet_head keyID).
Proof. unfold read_packet_head. rsafe_auto. Qed.
#[export] Hint Resolve rsafe_read_envelope rsafe_read_packet_head : tl.

(** The length check of [parseEncryptedPacket]. *)
Lemma packet_length_check (payload : list byte) :
  (len payload <? 24) || negb (Z.rem (len payload - 24) 16 =? 0) = false <->
  24 <= len payload /\ (len payload - 24) mod 16 = 0.
Proof.
  destruct (Z.ltb_spec (len payload) 24); simpl; [split; [done|lia]|].
  rewrite Z.rem_mod_nonneg by lia. destruct (Z.eqb_spec ((len payload - 24) mod 16) 0); simpl;
    split; try done; lia.
Qed.

Lemma parseEncryptedPacket_eq s payload :
  is_u64 (es_authKeyID s) -> 24 <= len payload -> (len payload - 24) mod 16 = 0 ->
  parseEncryptedPacket s payload =
  (if le_value (sub payload 0 8) =? es_authKeyID s then
     match open_packet (es_authKey s) (sub payload 8 24) (sub payload 24 (len payload)) 8 with
     | Ok plain => eval read_envelope (newTLReader plain)
     | Err e => Err e
     | Panic => Panic
     end
   else Err (ErrFmt "mtproto: auth key id mismatch: got %x" [FZ (le_value (sub payload 0 8))])).
Proof.
  intros Hk Hl Hm. unfold parseEncryptedPacket.
  rewrite (proj2 (packet_length_check payload)) by done. rewrite read_packet_head_spec by done.
  by destruct (_ =? _).
Qed.

(** C17. Inbound packets (invoke.go, [parseEncryptedPacket]): for a session with
    a key of at least 128 bytes, a payload is accepted exactly when it is what the server's
    side of the protocol (key offset 8) produces from some padded plaintext
    under this key, and then the message is the one that plaintext spells.
    Nothing that fails the msg_key check, the key id check or the block length
    check is accepted. *)
Theorem parseEncryptedPacket_accepts (s : encryptedState) (payload : list byte) (m : encryptedMessage) :
  es_wf s ->
  parseEncryptedPacket s payload = Ok m <->
  exists plain, len plain mod 16 = 0 /\
    seal_packet (es_authKey s) (es_authKeyID s) 8 plain = Ok payload /\
    eval read_envelope (newTLReader plain) = Ok m.
Proof.
  intros (Hk & Hid & _). split.
  - intros H. destruct ((len payload <? 24) || negb (Z.rem (len payload - 24) 16 =? 0)) eqn:E.
    { unfold parseEncryptedPacket in H. by rewrite E in H. }
    apply packet_length_check in E as [Hl Hm]. rewrite parseEncryptedPacket_eq in H by done.
    destruct (Z.eqb_spec (le_value (sub payload 0 8)) (es_authKeyID s)) as [Hkey|]; [|done].
    destruct (open_packet _ _ _ 8) as [plain| |] eqn:Eo; [|done|done].
    assert (Hc : len (sub payload 24 (len payload)) mod 16 = 0) by (by rewrite len_sub by lia).
    destruct (seal_open _ (es_authKeyID s) 8 _ _ _ Hk ltac:(lia) Hc Eo) as [Hs Hlen].
    exists plain. split; [congruence|]. split; [|done]. rewrite Hs. f_equal.
    rewrite <- Hkey, le_bytes_le_value by (pose proof (len_sub payload 0 8); unfold len in *; lia).
    rewrite <- (sub_cat payload 8 24) by lia. rewrite <- sub_cat by lia. by apply sub_all.
  - intros (plain & Hp & Hs & Hr).
    destruct (open_seal (es_authKey s) (es_authKeyID s) 8 plain Hk ltac:(lia) Hp)
      as (msgKey & c & Es & Hmk & Hc & Eo).
    assert (payload = le_bytes 8 (es_authKeyID s) ++ msgKey ++ c) as -> by congruence.
    destruct (sealed_parts (es_authKeyID s) msgKey c Hmk Hid) as (H0 & H1 & H2 & H3).
    pose proof (len_nonneg c).
    assert (H4 : (len (le_bytes 8 (es_authKeyID s) ++ msgKey ++ c) - 24) mod 16 = 0)
      by (by rewrite H0, Z.add_simpl_l, Hc).
    rewrite parseEncryptedPacket_eq by (done || (rewrite H0; lia)).
    by rewrite H1, H2, H3, Z.eqb_refl, Eo.
Qed.

Definition demo_plain : list byte := envelope_plain 7 9 5 1 [x01; x02] ++ replicate 14 x00.
Definition demo_packet : list byte :=
  match seal_packet (es_authKey demo_state) 42 8 demo_plain with Ok p => p | _ => [] end.

Lemma parseEncryptedPacket_accepts_witness :
  es_wf demo_state /\
  parseEncryptedPacket demo_state demo_packet = Ok (EncryptedMessage 7 9 5 1 [x01; x02]).
Proof.
  assert (W : es_wf demo_state) by (vm_compute; intuition congruence).
  split; [exact W|]. apply (parseEncryptedPacket_accepts demo_state demo_packet _ W).
  exists demo_plain. vm_compute. auto.
Defined.

(** With a key of at least 128 bytes no payload whatsoever makes [parseEncryptedPacket]
    panic. *)
Lemma parseEncryptedPacket_returns (s : encryptedState) (payload : list byte) :
  es_wf s -> parseEncryptedPacket s payload <> Panic.
Proof.
  intros (Hk & Hid & _).
  destruct ((len payload <? 24) || negb (Z.rem (len payload - 24) 16 =? 0)) eqn:E.
  { unfold parseEncryptedPacket. by rewrite E. }
  apply packet_length_check in E as [Hl Hm]. rewrite parseEncryptedPacket_eq by done.
  destruct (_ =? _); [|done].
  pose proof (open_packet_no_panic (es_authKey s) (sub payload 8 24) (sub payload 24 (len payload)) 8
                Hk ltac:(lia)) as Hnp.
  rewrite len_sub in Hnp by lia. specialize (Hnp Hm).
  destruct (open_packet _ _ _ 8); [|done|done]. apply rsafe_eval. auto with tl.
Qed.

(** The padding: 12 to 27 bytes, to a multiple of the block length. *)
Lemma paddingLen_spec n : 0 <= n -> 12 <= paddingLen n <= 27 /\ (n + paddingLen n) mod 16 = 0.
Proof.
  intros. unfold paddingLen. rewrite (Z.rem_mod_nonneg (n + 12)) by lia.
  pose proof (Z.mod_pos_bound (n + 12) 16 ltac:(lia)).
  rewrite Z.rem_mod_nonneg by lia. zlia.
Qed.

(** C18. Outbound packets (invoke.go, [buildEncryptedPacket]): with a key of
    at least 128 bytes and enough randomness the packet is built, it opens on the server's side
    (key offset 0) to a plaintext that spells exactly salt, session, message id,
    sequence number and body, and the padding after the body is between 12 and
    27 bytes, so that the plaintext is whole blocks. *)
Theorem buildEncryptedPacket_opens (s : encryptedState) (msgID seqNo : Z) (body rng : list byte) :
  es_wf s -> is_i64 msgID -> is_i32 seqNo -> is_u32 (len body) -> 27 <= len rng ->
  exists payload rng' msgKey c padding,
    buildEncryptedPacket s msgID seqNo body rng = (Ok payload, rng') /\
    payload = le_bytes 8 (es_authKeyID s) ++ msgKey ++ c /\ len msgKey = 16 /\
    12 <= len padding <= 27 /\
    open_packet (es_authKey s) msgKey c 0 =
      Ok (envelope_plain (es_serverSalt s) (es_sessionID s) msgID seqNo body ++ padding) /\
    eval read_envelope (newTLReader
        (envelope_plain (es_serverSalt s) (es_sessionID s) msgID seqNo body ++ padding)) =
      Ok (EncryptedMessage (es_serverSalt s) (es_sessionID s) msgID seqNo body).
Proof.
  intros (Hk & Hid & Hsalt & Hses & _) Hm Hq Hl Hrng. unfold buildEncryptedPacket.
  set (plain := envelope_plain _ _ _ _ _).
  destruct (paddingLen_spec (len plain) (len_nonneg plain)) as [Hpad Hmod].
  destruct (rng_Read (paddingLen (len plain)) rng) as [[padding|e|] rng'] eqn:Er.
  2, 3: unfold rng_Read in Er; rewrite (proj2 (Z.leb_le _ (len rng))) in Er by lia; discriminate.
  erewrite bind_ok by exact Er. apply rng_Read_inv in Er; [|lia].
  destruct (open_seal (es_authKey s) (es_authKeyID s) 0 (plain ++ padding) Hk ltac:(lia))
    as (msgKey & c & Es & Hmk & Hc & Eo); [by rewrite len_app, Er|].
  unfold lift. rewrite Es. do 5 eexists. split; [reflexivity|].
  split; [done|]. split; [done|]. split; [|split; [exact Eo|]]; [lia|].
  apply reads_eval. by apply reads_envelope.
Qed.

Lemma buildEncryptedPacket_opens_witness :
  exists payload rng' msgKey c padding,
    buildEncryptedPacket demo_state 4 1 [x01; x02] (replicate 40 x07) = (Ok payload, rng') /\
    payload = le_bytes 8 42 ++ msgKey ++ c /\ len msgKey = 16 /\ 12 <= len padding <= 27 /\
    open_packet (es_authKey demo_state) msgKey c 0 =
      Ok (envelope_plain 7 9 4 1 [x01; x02] ++ padding) /\
    eval read_envelope (newTLReader (envelope_plain 7 9 4 1 [x01; x02] ++ padding)) =
      Ok (EncryptedMessage 7 9 4 1 [x01; x02]).
Proof.
  apply (buildEncryptedPacket_opens demo_state 4 1 [x01; x02] (replicate 40 x07));
    vm_compute; intuition congruence.
Defined.
