(* ===== verification/Auth.v ===== *)
(** * Auth: the authorization key handshake (src/mtproto/auth.go, probe.go)

    req_pq_multi, the factorisation of pq, req_DH_params, set_client_DH_params
    and the checks between them, over one connection with a clock and a random
    source.  [big.Int.ProbablyPrime] is a parameter; what its documentation
    promises about it is a hypothesis where a theorem needs it. *)

From Stdlib Require Import ListDec.
From S2P Require Import Prelude TL Transport Hash AES Crypto Envelope.

Record DCOption := DC { dc_ID : Z; dc_Address : string }.

Definition DefaultDCOptions : list DCOption :=
  [DC 1 "149.154.175.53:443"; DC 1 "149.154.175.50:443"; DC 2 "149.154.167.51:443";
   DC 2 "149.154.167.50:443"; DC 3 "149.154.175.100:443"; DC 4 "149.154.167.91:443";
   DC 5 "91.108.56.130:443"; DC 5 "149.154.171.5:443"].

(** ** The factorisation of pq *)

Definition rhoStep (x c n : Z) : Z := (x * x + c) mod n.

(** One round of [for d.Cmp(one) == 0]: the early return carries [d <> 1]. *)
Definition rho_round (c n : Z) (xy : Z * Z) : M unit ((Z * Z) + Z) :=
  let x := rhoStep (fst xy) c n in
  let y := rhoStep (rhoStep (snd xy) c n) c n in
  let d := Z.gcd (Z.abs (x - y)) n in
  if d =? 1 then ret (inl (x, y)) else ret (inr d).

(** The loop, at most [rounds] times; [None] while it still runs. *)
Definition rho_loop (rounds c n : Z) : option Z :=
  match eval (for_n rounds (rho_round c n) (2, 2)) tt with
  | Ok (inr d) => Some d
  | _ => None
  end.

(** [for c := int64(1); c < 20; c++]: [k] values of [c] are left. *)
Fixpoint rho_search (k : nat) (c n : Z) : outcome (option Z) :=
  match k with
  | O => Ok None
  | S k' =>
      match rho_loop n c n with
      | None => Err out_of_fuel
      | Some d => if d =? n then rho_search k' (c + 1) n else Ok (Some d)
      end
  end.

Record ProbeResult := Probed {
  pr_Address : string; pr_Nonce : list byte; pr_ServerNonce : list byte; pr_PQ : list byte;
  pr_P : list byte; pr_Q : list byte; pr_RSAFingerprints : list Z }.

(** The fields of resPQ as they are read. *)
Record resPQ_fields := ResPQ {
  rq_Nonce : list byte; rq_ServerNonce : list byte; rq_PQ : list byte; rq_Fingerprints : list Z }.

Definition read_resPQ : M tlReader resPQ_fields :=
  constructor <- tl_int ;;
  guard (constructor =? constructorResPQ)
    (ErrFmt "mtproto: expected resPQ constructor, got 0x%08x" [FZ constructor]) ;;
  nonce <- tl_raw 16 ;;
  serverNonce <- tl_raw 16 ;;
  pq <- tl_bytes ;;
  vectorConstructor <- tl_int ;;
  guard (vectorConstructor =? constructorVector)
    (ErrFmt "mtproto: expected vector constructor, got 0x%08x" [FZ vectorConstructor]) ;;
  count <- tl_int ;;
  fps <- for_each count (fun fps => fingerprint <- tl_long ;; ret (fps ++ [fingerprint])) [] ;;
  ret (ResPQ nonce serverNonce pq fps).

(** [Uint64FromBytes]: the slice bound is negative for more than eight bytes. *)
Definition Uint64FromBytes (b : list byte) : outcome Z :=
  if 8 <? len b then Panic else Ok (be_value (replicate (Z.to_nat (8 - len b)) x00 ++ b)).

Section Auth.

Variable ProbablyPrime : Z -> bool.

Definition pollardRho (n : Z) : outcome (option Z) :=
  if ProbablyPrime n then Ok (Some n)
  else if n mod 2 =? 0 then Ok (Some 2)
  else rho_search 19 1 n.

Definition factorPQ (pqBytes : list byte) : outcome (list byte * list byte) :=
  let n := be_value pqBytes in
  if n <=? 0 then Ok ([], [])
  else
    match pollardRho n with
    | Ok None => Ok ([], [])
    | Ok (Some factor) =>
        if (factor =? 0) || (factor =? n) then Ok ([], [])
        else
          let other := n / factor in
          if other <? factor then Ok (big_Bytes other, big_Bytes factor)
          else Ok (big_Bytes factor, big_Bytes other)
    | Err e => Err e
    | Panic => Panic
    end.

Definition parseResPQ (body : list byte) : outcome ProbeResult :=
  match eval read_resPQ (newTLReader body) with
  | Ok f =>
      match factorPQ (rq_PQ f) with
      | Ok (p, q) =>
          Ok (Probed EmptyString (rq_Nonce f) (rq_ServerNonce f) (rq_PQ f) p q (rq_Fingerprints f))
      | Err e => Err e
      | Panic => Panic
      end
  | Err e => Err e
  | Panic => Panic
  end.

(** ** The three exchanges *)

(** [sendUnencrypted] takes its message id from the clock. *)
Definition exchange (body : list byte) : M world (list byte) :=
  now <- time_Now ;; on_conn (sendUnencrypted now body).

Definition req_pq_query (nonce : list byte) : list byte :=
  tb_buf (tb_empty |> putInt constructorReqPQMulti |> putRaw nonce).

Definition sendReqPQ (nonce : list byte) : M world ProbeResult :=
  body <- exchange (req_pq_query nonce) ;;
  lift (parseResPQ body).

Record serverDHInnerData := ServerDH {
  sd_Nonce : list byte; sd_ServerNonce : list byte; sd_G : Z;
  sd_DHPrime : list byte; sd_GA : list byte; sd_ServerTime : Z }.

(** server_DH_params_ok up to the encrypted answer. *)
Definition read_DH_answer (result : AuthKeyResult) : M tlReader (list byte) :=
  constructor <- tl_int ;;
  guard (negb (constructor =? constructorServerDHParamsBad)) (ErrNew "mtproto: server_DH_params_fail") ;;
  guard (constructor =? constructorServerDHParamsOK)
    (ErrFmt "mtproto: expected server_DH_params_ok, got 0x%08x" [FZ constructor]) ;;
  nonce <- tl_raw 16 ;;
  guard (equalBytes nonce (ak_Nonce result)) (ErrNew "mtproto: nonce mismatch in server_DH_params_ok") ;;
  serverNonce <- tl_raw 16 ;;
  guard (equalBytes serverNonce (ak_ServerNonce result))
    (ErrNew "mtproto: server_nonce mismatch in server_DH_params_ok") ;;
  tl_bytes.

Definition read_DH_inner (result : AuthKeyResult) : M tlReader serverDHInnerData :=
  innerConstructor <- tl_int ;;
  guard (innerConstructor =? constructorServerDHInnerData)
    (ErrFmt "mtproto: expected server_DH_inner_data, got 0x%08x" [FZ innerConstructor]) ;;
  nonce <- tl_raw 16 ;;
  guard (equalBytes nonce (ak_Nonce result)) (ErrNew "mtproto: nonce mismatch in server_DH_inner_data") ;;
  serverNonce <- tl_raw 16 ;;
  guard (equalBytes serverNonce (ak_ServerNonce result))
    (ErrNew "mtproto: server_nonce mismatch in server_DH_inner_data") ;;
  g <- tl_int ;;
  dhPrime <- tl_bytes ;;
  ga <- tl_bytes ;;
  serverTime <- tl_int ;;
  ret (ServerDH nonce serverNonce (i32 g) dhPrime ga (i32 serverTime)).

Definition parseServerDHParams (body : list byte) (result : AuthKeyResult) : outcome serverDHInnerData :=
  let keys := tempAESKeys (ak_NewNonce result) (ak_ServerNonce result) in
  eval (encryptedAnswer <- lift (eval (read_DH_answer result) (newTLReader body)) ;;
        answerWithHash <- lift (aesIGEDecrypt encryptedAnswer (fst keys) (snd keys)) ;;
        answer <- lift (stripSHA1AndPadding answerWithHash) ;;
        lift (eval (read_DH_inner result) (newTLReader answer))) tt.

Definition pq_inner_data (dcID : Z) (result : AuthKeyResult) : list byte :=
  tb_buf (tb_empty |> putInt constructorPQInnerDataDC |> putBytes (ak_PQ result)
    |> putBytes (ak_P result) |> putBytes (ak_Q result) |> putRaw (ak_Nonce result)
    |> putRaw (ak_ServerNonce result) |> putRaw (ak_NewNonce result) |> putInt (u32 (i32 dcID))).

Definition req_DH_query (result : AuthKeyResult) (key : RSAPublicKey) (encryptedData : list byte) : list byte :=
  tb_buf (tb_empty |> putInt constructorReqDHParams |> putRaw (ak_Nonce result)
    |> putRaw (ak_ServerNonce result) |> putBytes (ak_P result) |> putBytes (ak_Q result)
    |> putLong (rpk_Fingerprint key) |> putBytes encryptedData).

Definition sendReqDHParams (dcID : Z) (result : AuthKeyResult) (key : RSAPublicKey)
    : M world serverDHInnerData :=
  encryptedData <- on_rng (rsaPad (pq_inner_data dcID result) (rpk_Key key)) ;;
  body <- exchange (req_DH_query result key encryptedData) ;;
  lift (parseServerDHParams body result).

Definition validateDHParams (g : Z) (dhPrimeBytes gaBytes : list byte) : outcome unit :=
  let dhPrime := be_value dhPrimeBytes in
  let ga := be_value gaBytes in
  if (g <? 2) || (7 <? g) then Err (ErrFmt "mtproto: unsupported generator %d" [FZ g])
  else if (dhPrime <=? 0) || (ga <=? 0) then Err (ErrNew "mtproto: invalid DH values")
  else if (ga <=? 1) || (dhPrime - 1 <=? ga) then Err (ErrNew "mtproto: g_a outside valid range")
  else if bitLen dhPrime <? 2040 then Err (ErrNew "mtproto: dh_prime is too small")
  else Ok tt.

Definition read_DH_gen (result : AuthKeyResult) (authKey : list byte) : M tlReader unit :=
  constructor <- tl_int ;;
  nonce <- tl_raw 16 ;;
  guard (equalBytes nonce (ak_Nonce result)) (ErrNew "mtproto: nonce mismatch in dh_gen response") ;;
  serverNonce <- tl_raw 16 ;;
  guard (equalBytes serverNonce (ak_ServerNonce result))
    (ErrNew "mtproto: server_nonce mismatch in dh_gen response") ;;
  hashBytes <- tl_raw 16 ;;
  let check number text := guard (equalBytes hashBytes (newNonceHash (ak_NewNonce result) number authKey))
                             (ErrNew text) in
  if constructor =? constructorDHGenOK then
    check x01 "mtproto: new_nonce_hash1 mismatch"%string
  else if constructor =? constructorDHGenRetry then
    check x02 "mtproto: new_nonce_hash2 mismatch"%string ;; fail (ErrNew "mtproto: dh_gen_retry")
  else if constructor =? constructorDHGenFail then
    check x03 "mtproto: new_nonce_hash3 mismatch"%string ;; fail (ErrNew "mtproto: dh_gen_fail")
  else fail (ErrFmt "mtproto: unknown dh_gen response 0x%08x" [FZ constructor]).

Definition parseDHGenAnswer (body : list byte) (result : AuthKeyResult) (authKey : list byte) : outcome unit :=
  eval (read_DH_gen result authKey) (newTLReader body).

Definition client_DH_inner (result : AuthKeyResult) (gb : list byte) : list byte :=
  tb_buf (tb_empty |> putInt constructorClientDHInnerData |> putRaw (ak_Nonce result)
    |> putRaw (ak_ServerNonce result) |> putLong 0 |> putBytes gb).

Definition set_client_DH_query (result : AuthKeyResult) (encrypted : list byte) : list byte :=
  tb_buf (tb_empty |> putInt constructorSetClientDHParams |> putRaw (ak_Nonce result)
    |> putRaw (ak_ServerNonce result) |> putBytes encrypted).

Definition sendSetClientDHParams (result : AuthKeyResult) (serverDH : serverDHInnerData)
    : M world (list byte * list byte) :=
  let dhPrime := be_value (sd_DHPrime serverDH) in
  let ga := be_value (sd_GA serverDH) in
  bBytes <- on_rng (rng_Read 256) ;;
  let b := be_value bBytes in
  let gb := padBigIntBytes (powmod (sd_G serverDH) b dhPrime) (len (sd_DHPrime serverDH)) in
  let authKey := padBigIntBytes (powmod ga b dhPrime) (len (sd_DHPrime serverDH)) in
  dataWithHash <- on_rng (addSHA1AndPad16 (client_DH_inner result gb)) ;;
  let keys := tempAESKeys (ak_NewNonce result) (ak_ServerNonce result) in
  encrypted <- lift (aesIGEEncrypt dataWithHash (fst keys) (snd keys)) ;;
  body <- exchange (set_client_DH_query result encrypted) ;;
  lift (parseDHGenAnswer body result authKey) ;;
  ret (authKey, gb).

(** ** The handshake *)

(** The result as far as it is filled in at each stage. *)
Definition result_nonces (dc : DCOption) (nonce newNonce : list byte) : AuthKeyResult :=
  AuthKey (dc_ID dc) (dc_Address dc) nonce [] newNonce [] [] [] 0 0 [] [] [] [] 0 0 0 0 EmptyString.
Definition result_pq (res : ProbeResult) (r : AuthKeyResult) : AuthKeyResult :=
  AuthKey (ak_DCID r) (ak_Address r) (ak_Nonce r) (pr_ServerNonce res) (ak_NewNonce r)
    (pr_PQ res) (pr_P res) (pr_Q res) 0 0 [] [] [] [] 0 0 0 0 EmptyString.
Definition result_rsa (fp : Z) (r : AuthKeyResult) : AuthKeyResult :=
  AuthKey (ak_DCID r) (ak_Address r) (ak_Nonce r) (ak_ServerNonce r) (ak_NewNonce r)
    (ak_PQ r) (ak_P r) (ak_Q r) fp 0 [] [] [] [] 0 0 0 0 EmptyString.
Definition result_dh (sd : serverDHInnerData) (timeOffset : Z) (r : AuthKeyResult) : AuthKeyResult :=
  AuthKey (ak_DCID r) (ak_Address r) (ak_Nonce r) (ak_ServerNonce r) (ak_NewNonce r)
    (ak_PQ r) (ak_P r) (ak_Q r) (ak_RSAFingerprint r) (sd_G sd) (sd_DHPrime sd) (sd_GA sd)
    [] [] 0 0 (sd_ServerTime sd) timeOffset EmptyString.
Definition result_key (authKey gb : list byte) (r : AuthKeyResult) : AuthKeyResult :=
  AuthKey (ak_DCID r) (ak_Address r) (ak_Nonce r) (ak_ServerNonce r) (ak_NewNonce r)
    (ak_PQ r) (ak_P r) (ak_Q r) (ak_RSAFingerprint r) (ak_G r) (ak_DHPrime r) (ak_GA r)
    gb authKey (authKeyID authKey) (serverSalt (ak_NewNonce r) (ak_ServerNonce r))
    (ak_ServerTime r) (ak_TimeOffset r) "auth key generated".

(** [keys] is the package variable [ProductionRSAPublicKeys]. *)
Definition authKeyOnConn (keys : list RSAPublicKey) (dc : DCOption) : M world AuthKeyResult :=
  nonce <- on_rng (rng_Read 16) ;;
  newNonce <- on_rng (rng_Read 32) ;;
  let result := result_nonces dc nonce newNonce in
  resPQ <- sendReqPQ nonce ;;
  guard (bool_decide (pr_Nonce resPQ = nonce)) (ErrNew "mtproto: nonce mismatch in resPQ") ;;
  let result := result_pq resPQ result in
  rsaKey <- lift (findRSAPublicKey keys (pr_RSAFingerprints resPQ)) ;;
  let result := result_rsa (rpk_Fingerprint rsaKey) result in
  serverDH <- sendReqDHParams (dc_ID dc) result rsaKey ;;
  now <- time_Now ;;
  let result := result_dh serverDH (i64 (sd_ServerTime serverDH - unix now)) result in
  lift (validateDHParams (sd_G serverDH) (sd_DHPrime serverDH) (sd_GA serverDH)) ;;
  kg <- sendSetClientDHParams result serverDH ;;
  ret (result_key (fst kg) (snd kg) result).

(** [Probe] after the connection is open. *)
Definition probeOnConn (address : string) : M world ProbeResult :=
  nonce <- on_rng (rng_Read 16) ;;
  body <- exchange (req_pq_query nonce) ;;
  result <- lift (parseResPQ body) ;;
  guard (bool_decide (pr_Nonce result = nonce)) (ErrNew "mtproto: nonce mismatch") ;;
  ret (Probed address (pr_Nonce result) (pr_ServerNonce result) (pr_PQ result) (pr_P result)
         (pr_Q result) (pr_RSAFingerprints result)).

End Auth.

(** ** Floyd's cycle finding *)

Section Floyd.
Variables (f : Z -> Z) (n : Z).
Hypothesis f_range : forall x, 0 <= f x < n.

Lemma iter_range k x : 0 <= x < n -> 0 <= Nat.iter k f x < n.
Proof. destruct k; [done|]. intros _. apply f_range. Qed.

(** Among [n + 1] values below [n] two agree. *)
Lemma iter_collision x : 0 <= x < n ->
  exists i j, (i < j <= Z.to_nat n)%nat /\ Nat.iter i f x = Nat.iter j f x.
Proof.
  intros Hx. set (l := map (fun k => Z.to_nat (Nat.iter k f x)) (seq 0 (S (Z.to_nat n)))).
  assert (Hd : ~ List.NoDup l).
  { intros Hd. assert (Hl : (length l <= length (seq 0 (Z.to_nat n)))%nat).
    2: { unfold l in Hl. rewrite length_map, !length_seq in Hl. lia. }
    apply NoDup_incl_length; [done|]. intros v Hv. apply in_map_iff in Hv as (k & <- & _). apply in_seq.
    pose proof (iter_range k x Hx). lia. }
  apply ListDec.not_NoDup in Hd as (v & l1 & l2 & l3 & E); [|intros a b; destruct (Nat.eq_dec a b); [by left|by right]].
  assert (G : forall k w, l !! k = Some w -> (k <= Z.to_nat n)%nat /\ w = Z.to_nat (Nat.iter k f x)).
  { intros k w Hk. unfold l in Hk. apply list_lookup_fmap_Some in Hk as (a & -> & Ha).
    apply lookup_seq in Ha as [-> Ha]. simpl. lia. }
  destruct (G (length l1) v) as [_ G1]; [rewrite E; by apply list_lookup_middle|].
  destruct (G (S (length l1 + length l2)) v) as [Hj G2].
  { rewrite E. replace (l1 ++ v :: l2 ++ v :: l3) with ((l1 ++ v :: l2) ++ v :: l3)
      by (by rewrite <- app_assoc). apply list_lookup_middle. rewrite length_app. simpl. lia. }
  exists (length l1), (S (length l1 + length l2)). split; [lia|].
  pose proof (iter_range (length l1) x Hx). pose proof (iter_range (S (length l1 + length l2)) x Hx).
  lia.
Qed.

(** The value [m] steps on is met again [m] steps later, for some [m] in
    [1..n]. *)
Lemma floyd x : 0 <= x < n ->
  exists m, (1 <= m <= Z.to_nat n)%nat /\ Nat.iter m f x = Nat.iter (m + m) f x.
Proof.
  intros Hx. destruct (iter_collision x Hx) as (i & j & Hij & E). set (p := (j - i)%nat).
  assert (Hper : forall t k, (i <= k)%nat -> Nat.iter (k + t * p) f x = Nat.iter k f x).
  { assert (H1 : forall k, (i <= k)%nat -> Nat.iter (k + p) f x = Nat.iter k f x).
    { intros k Hk. replace (k + p)%nat with ((k - i) + j)%nat by lia.
      rewrite Nat.iter_add, <- E, <- Nat.iter_add. f_equal. lia. }
    induction t as [|t IH]; intros k Hk; [by rewrite Nat.add_0_r|].
    replace (k + S t * p)%nat with ((k + t * p) + p)%nat by lia. rewrite H1 by lia. by apply IH. }
  assert (Hm : exists q, (i <= q * p)%nat /\ (1 <= q * p <= j)%nat).
  { exists (S ((i - 1) / p)). pose proof (Nat.div_mod (i - 1) p ltac:(lia)).
    pose proof (Nat.mod_upper_bound (i - 1) p ltac:(lia)). nia. }
  destruct Hm as (q & Hq1 & Hq2). exists (q * p)%nat. split; [lia|].
  symmetry. by apply Hper.
Qed.
End Floyd.

Lemma rhoStep_range c n : 0 < n -> forall x, 0 <= rhoStep x c n < n.
Proof. intros Hn x. by apply Z.mod_pos_bound. Qed.

(** If the difference [m] rounds on is zero modulo a divisor, the loop leaves
    within [m] rounds. *)
Lemma rho_loop_leaves c n m x y :
  0 < n -> n <> 1 ->
  Nat.iter (S m) (fun z => rhoStep z c n) x = Nat.iter (S m + S m) (fun z => rhoStep z c n) y ->
  forall k, (S m <= k)%nat ->
  exists d, eval (for_n (Z.of_nat k) (rho_round c n) (x, y)) tt = Ok (inr d) /\ d <> 1 /\ 0 < d /\ (d | n).
Proof.
  intros Hn Hn1. revert x y. induction m as [|m IH]; intros x y E k Hk;
    (destruct k as [|k]; [lia|]); rewrite Nat2Z.inj_succ, <- Z.add_1_l;
    unfold eval; rewrite for_n_succ by lia; unfold rounds, bind, rho_round at 1; cbn [fst snd];
    set (d := Z.gcd _ n);
    assert (Hd : 0 < d /\ (d | n)) by
      (pose proof (Z.gcd_nonneg (Z.abs (rhoStep x c n - rhoStep (rhoStep y c n) c n)) n);
       pose proof (Z.gcd_divide_r (Z.abs (rhoStep x c n - rhoStep (rhoStep y c n) c n)) n) as Hg;
       fold d in Hg; split; [|done]; destruct (decide (d = 0)) as [E0|]; [|fold d in H; lia];
       rewrite E0 in Hg; apply Z.divide_0_l in Hg; lia);
    destruct (Z.eqb_spec d 1) as [E1|E1]; [|by exists d| |by exists d].
  - cbn in E. unfold d in E1. rewrite E, Z.sub_diag in E1. cbn [Z.abs] in E1.
    rewrite Z.gcd_0_l in E1. lia.
  - apply IH; [|lia]. set (F := fun z => rhoStep z c n) in *.
    change (Nat.iter (S m) F (F x) = Nat.iter (S m + S m) F (F (F y))).
    rewrite <- !Nat.iter_succ_r, E. f_equal. lia.
Qed.

Lemma rho_loop_terminates c n :
  2 < n -> exists d, rho_loop n c n = Some d /\ 1 < d /\ (d | n).
Proof.
  intros Hn. destruct (floyd (fun z => rhoStep z c n) n (rhoStep_range c n ltac:(lia)) 2 ltac:(lia))
    as (m & Hm & E). destruct m as [|m]; [lia|].
  destruct (rho_loop_leaves c n m 2 2 ltac:(lia) ltac:(lia) E (Z.to_nat n) ltac:(lia))
    as (d & Ed & Hd1 & Hd0 & Hdiv).
  rewrite Z2Nat.id in Ed by lia. unfold rho_loop. rewrite Ed. exists d. split; [done|]. split; [lia|done].
Qed.

Lemma rho_search_spec k c n :
  2 < n ->
  rho_search k c n = Ok None \/
  exists d, rho_search k c n = Ok (Some d) /\ 1 < d < n /\ (d | n).
Proof.
  intros Hn. revert c. induction k as [|k IH]; intros c; [by left|]. cbn [rho_search].
  destruct (rho_loop_terminates c n Hn) as (d & -> & Hd & Hdiv).
  destruct (Z.eqb_spec d n); [apply IH|]. right. exists d. split; [done|]. split; [|done].
  apply Z.divide_pos_le in Hdiv; lia.
Qed.

(** With [n = 1] the greatest common divisor is one in every round. *)
Lemma rho_loop_one k c : rho_loop k c 1 = None.
Proof.
  unfold rho_loop, eval.
  assert (G : forall (p : positive) xy s, exists xy', for_pos p (rho_round c 1) xy s = (Ok (inl xy'), s)).
  { assert (Hb : forall xy s, exists xy', rho_round c 1 xy s = (Ok (inl xy'), s)).
    { intros xy s. unfold rho_round. rewrite Z.gcd_1_r. eexists. reflexivity. }
    assert (Hr : forall f g : Z * Z -> M unit (Z * Z + Z),
      (forall xy s, exists xy', f xy s = (Ok (inl xy'), s)) ->
      (forall xy s, exists xy', g xy s = (Ok (inl xy'), s)) ->
      forall xy s, exists xy', rounds f g xy s = (Ok (inl xy'), s)).
    { intros f g Hf Hg xy s. destruct (Hf xy s) as (xy1 & E1). destruct (Hg xy1 s) as (xy2 & E2).
      exists xy2. unfold rounds, bind. by rewrite E1. }
    induction p; simpl; auto. }
  destruct k as [|p|p]; [done| |done]. simpl. by destruct (G p (2, 2) tt) as (xy' & ->).
Qed.

(** C36. Factorisation (probe.go, [factorPQ] and [pollardRho]), for any primality
    test that never calls 1 prime and never calls a prime composite: for every
    value of pq except 1 the search ends, within [n] rounds of its inner loop per
    constant, and gives either nothing or two factors above one, in order, whose
    product is pq.  For pq = 1 the inner loop never ends, however many rounds it
    runs. *)
Theorem factorPQ_spec (ProbablyPrime : Z -> bool) (pqBytes : list byte) :
  (forall n, Z.prime n -> ProbablyPrime n = true) -> ProbablyPrime 1 = false ->
  let n := be_value pqBytes in
  (n <> 1 ->
   factorPQ ProbablyPrime pqBytes = Ok ([], []) \/
   exists p q, factorPQ ProbablyPrime pqBytes = Ok (big_Bytes p, big_Bytes q) /\
     1 < p <= q /\ p * q = n) /\
  (n = 1 -> factorPQ ProbablyPrime pqBytes = Err out_of_fuel /\
            forall rounds c, rho_loop rounds c n = None).
Proof.
  intros Hprime Hone n. unfold factorPQ. fold n.
  pose proof (be_value_bound pqBytes) as [Hn _]. fold n in Hn. split.
  - intros H1. destruct (Z.leb_spec n 0); [by left|].
    assert (Hp : pollardRho ProbablyPrime n = Ok None \/
                 exists d, pollardRho ProbablyPrime n = Ok (Some d) /\ 1 < d <= n /\ (d | n)).
    { unfold pollardRho. destruct (ProbablyPrime n) eqn:Ep.
      { right. exists n. split; [done|]. split; [lia|done]. }
      assert (n <> 2) by (intros ->; by rewrite (Hprime 2 Z.prime_2) in Ep).
      destruct (Z.eqb_spec (n mod 2) 0) as [E2|E2].
      { right. exists 2. split; [done|]. split; [lia|]. by apply Z.mod_divide. }
      destruct (rho_search_spec 19 1 n) as [E|(d & E & Hd & Hdiv)]; [lia|by left|].
      right. exists d. split; [done|]. split; [lia|done]. }
    destruct Hp as [-> |(d & -> & Hd & q & Hq)]; [by left|].
    destruct (Z.eqb_spec d n); [rewrite orb_true_r; by left|].
    rewrite (proj2 (Z.eqb_neq d 0)) by lia. cbn [orb]. right.
    rewrite Hq, Z.div_mul by lia.
    assert (1 < q) by nia. destruct (Z.ltb_spec q d); [exists q, d|exists d, q]; (split; [done|]); lia.
  - intros ->. split; [|by intros; apply rho_loop_one]. cbn [Z.leb Z.compare].
    unfold pollardRho. rewrite Hone. change (1 mod 2 =? 0) with false.
    cbn [rho_search]. by rewrite rho_loop_one.
Qed.

(** Trial division, as a primality test for evaluation. *)
Definition trial_division (n : Z) : bool := (1 <? n) && is_prime n.

Lemma trial_division_prime n : Z.prime n -> trial_division n = true.
Proof.
  intros [H1 Hp]. unfold trial_division, is_prime. rewrite (proj2 (Z.ltb_lt 1 n)) by done. cbn [andb].
  apply forallb_forall. intros d Hd. apply in_seq in Hd. apply negb_true_iff, Z.eqb_neq.
  pose proof (Z.sqrt_lt_lin n ltac:(lia)).
  rewrite Z.mod_divide by lia. apply Hp. lia.
Qed.

Lemma factorPQ_spec_witness :
  (factorPQ trial_division [x27; x0b] = Ok ([], []) \/
   exists p q, factorPQ trial_division [x27; x0b] = Ok (big_Bytes p, big_Bytes q) /\
     1 < p <= q /\ p * q = be_value [x27; x0b]) /\
  factorPQ trial_division [x27; x0b] = Ok ([x05], [x07; xcf]) /\
  (factorPQ trial_division [x01] = Err out_of_fuel /\ forall rounds c, rho_loop rounds c (be_value [x01]) = None).
Proof.
  split; [|split; [vm_compute; reflexivity|]].
  - apply (factorPQ_spec trial_division [x27; x0b] trial_division_prime eq_refl). vm_compute. congruence.
  - apply (factorPQ_spec trial_division [x01] trial_division_prime eq_refl). reflexivity.
Defined.

(** ** The handshake cannot panic *)

Lemma nopanic_rng_Read n : nopanic (rng_Read n).
Proof. intros s _. unfold rng_Read. by destruct (_ <=? _). Qed.

Lemma nopanic_on_rng {A} (m : M (list byte) A) : nopanic m -> nopanic (on_rng m).
Proof. apply nopanic_zoom. Qed.
#[export] Hint Resolve nopanic_rng_Read nopanic_on_rng : nopanic.

Lemma nopanic_conn_ReadFull n : nopanic (conn_ReadFull n).
Proof. intros c _. unfold conn_ReadFull. by destruct (_ <=? _). Qed.
Lemma nopanic_conn_Write p : nopanic (conn_Write p).
Proof. intros c _. unfold conn_Write. by destruct (c_fail c) as [|[k|] fl]. Qed.
#[export] Hint Resolve nopanic_conn_ReadFull nopanic_conn_Write : nopanic.

Lemma nopanic_abridgedWrite p : nopanic (abridgedWrite p).
Proof.
  unfold abridgedWrite. apply nopanic_bind; [auto with nopanic|intros _]. cbv zeta.
  apply nopanic_bind; [|intros h; apply nopanic_bind; auto with nopanic].
  destruct (_ <? _); [auto with nopanic|]. apply nopanic_bind; auto with nopanic.
Qed.

Lemma conn_ReadFull_len n s a s' : 0 <= n -> conn_ReadFull n s = (Ok a, s') -> len a = n.
Proof.
  intros Hn. unfold conn_ReadFull. destruct (Z.leb_spec n (len (c_in s))); [|done].
  intros [= <- <-]. rewrite len_sub; lia.
Qed.

Lemma nopanic_index {S A} (l : list A) i : 0 <= i < len l -> nopanic (S := S) (lift (index l i)).
Proof. intros H. apply nopanic_lift. by destruct (index_ok l i H) as (x & -> & _). Qed.

Lemma nopanic_abridgedRead : nopanic abridgedRead.
Proof.
  unfold abridgedRead.
  apply (nopanic_bind_post (fun l => len l = 1)); [auto with nopanic|intros s a s'; by apply conn_ReadFull_len|].
  intros first H1. apply nopanic_bind; [apply nopanic_index; lia|intros b].
  apply nopanic_bind; [|intros n; apply nopanic_bind; auto with nopanic].
  destruct (_ =? _); [|auto with nopanic].
  apply (nopanic_bind_post (fun l => len l = 3)); [auto with nopanic|intros s a s'; by apply conn_ReadFull_len|].
  intros ext H3. repeat (apply nopanic_bind; [apply nopanic_index; lia|intros ?]). auto with nopanic.
Qed.

Lemma rsafe_readUnencrypted : rsafe readUnencryptedMessage.
Proof. unfold readUnencryptedMessage. rsafe_auto. Qed.

Lemma parseUnencryptedMessage_returns payload : parseUnencryptedMessage payload <> Panic.
Proof.
  unfold parseUnencryptedMessage. destruct (_ <? _); [done|]. apply rsafe_eval, rsafe_readUnencrypted.
Qed.

Lemma nopanic_exchange body : nopanic (exchange body).
Proof.
  unfold exchange. apply nopanic_bind; [done|intros now]. apply nopanic_zoom. unfold sendUnencrypted.
  apply nopanic_bind; [apply nopanic_abridgedWrite|intros _].
  apply nopanic_bind; [apply nopanic_abridgedRead|intros payload].
  apply nopanic_lift, parseUnencryptedMessage_returns.
Qed.
#[export] Hint Resolve nopanic_exchange : nopanic.

Lemma aesIGE_returns mode what data key iv : aesIGE mode what data key iv <> Panic.
Proof.
  unfold aesIGE, aes_NewCipher. destruct (negb _); [done|]. destruct (negb _); [done|].
  by destruct (_ || _).
Qed.

Lemma strip_loop_returns fuel n payload want : strip_loop fuel n payload want <> Panic.
Proof.
  revert n. induction fuel as [|fuel IH]; intros n; simpl; [done|].
  destruct (_ && _); [|done]. by destruct (equalBytes _ _).
Qed.

Lemma stripSHA1_returns data : stripSHA1AndPadding data <> Panic.
Proof. unfold stripSHA1AndPadding. destruct (_ <? _); [done|]. apply strip_loop_returns. Qed.

Lemma nopanic_rsaPad_loop n data key : nopanic (rsaPad_loop n data key).
Proof.
  induction n as [|n IH]; cbn [rsaPad_loop]; [auto with nopanic|].
  apply nopanic_bind; [auto with nopanic|intros pad].
  apply (nopanic_bind_post (fun k => len k = 32)); [auto with nopanic| |intros tempKey Hk].
  { intros s a s' H. by apply rng_Read_inv in H. }
  apply nopanic_bind; [apply nopanic_lift, aesIGE_returns|intros aes].
  apply nopanic_bind.
  { apply nopanic_lift. destruct (xorBytes_ok tempKey (sha256Bytes [aes])) as [-> _]; [|done].
    by rewrite len_sha256Bytes. }
  intros x. apply nopanic_bind; [auto with nopanic|intros _].
  destruct (_ <=? _); [apply IH|auto with nopanic].
Qed.

Lemma nopanic_rsaPad data key : nopanic (rsaPad data key).
Proof.
  unfold rsaPad. repeat (apply nopanic_bind; [auto with nopanic|intros _]). apply nopanic_rsaPad_loop.
Qed.

Lemma nopanic_addSHA1 data : nopanic (addSHA1AndPad16 data).
Proof.
  unfold addSHA1AndPad16. cbv zeta. destruct (0 <? _); [|auto with nopanic].
  apply nopanic_bind; auto with nopanic.
Qed.
#[export] Hint Resolve nopanic_rsaPad nopanic_addSHA1 : nopanic.

Lemma rsafe_read_resPQ : rsafe read_resPQ.
Proof. unfold read_resPQ. rsafe_auto. Qed.
Lemma rsafe_read_DH_answer r : rsafe (read_DH_answer r).
Proof. unfold read_DH_answer. rsafe_auto. Qed.
Lemma rsafe_read_DH_inner r : rsafe (read_DH_inner r).
Proof. unfold read_DH_inner. rsafe_auto. Qed.
Lemma rsafe_read_DH_gen r k : rsafe (read_DH_gen r k).
Proof. unfold read_DH_gen. rsafe_auto. Qed.

Lemma rho_search_returns k c n : rho_search k c n <> Panic.
Proof.
  revert c. induction k as [|k IH]; intros c; simpl; [done|].
  destruct (rho_loop n c n); [|done]. destruct (_ =? _); [apply IH|done].
Qed.

Section AuthSafety.
Variable ProbablyPrime : Z -> bool.

Lemma factorPQ_returns pq : factorPQ ProbablyPrime pq <> Panic.
Proof.
  unfold factorPQ, pollardRho. destruct (_ <=? _); [done|].
  destruct (ProbablyPrime _).
  { destruct (_ || _); [done|]. by destruct (_ <? _). }
  destruct (_ =? 0).
  { destruct (_ || _); [done|]. by destruct (_ <? _). }
  pose proof (rho_search_returns 19 1 (be_value pq)) as H.
  destruct (rho_search _ _ _) as [[d|]|e|]; [|done|done|done].
  destruct (_ || _); [done|]. by destruct (_ <? _).
Qed.

Lemma parseResPQ_returns body : parseResPQ ProbablyPrime body <> Panic.
Proof.
  unfold parseResPQ. pose proof (rsafe_eval _ body rsafe_read_resPQ) as H.
  destruct (eval _ _) as [f|e|]; [|done|done].
  pose proof (factorPQ_returns (rq_PQ f)). by destruct (factorPQ _ _) as [[p q]|e|].
Qed.

Lemma parseServerDHParams_returns body r : parseServerDHParams body r <> Panic.
Proof.
  unfold parseServerDHParams. apply nopanic_eval.
  apply nopanic_bind; [apply nopanic_lift, rsafe_eval, rsafe_read_DH_answer|intros a].
  apply nopanic_bind; [apply nopanic_lift, aesIGE_returns|intros b].
  apply nopanic_bind; [apply nopanic_lift, stripSHA1_returns|intros c].
  apply nopanic_lift, rsafe_eval, rsafe_read_DH_inner.
Qed.

Lemma parseDHGenAnswer_returns body r k : parseDHGenAnswer body r k <> Panic.
Proof. apply rsafe_eval, rsafe_read_DH_gen. Qed.

Lemma validateDHParams_returns g p a : validateDHParams g p a <> Panic.
Proof. unfold validateDHParams. by repeat destruct (_ || _); [..|destruct (_ <? _)]. Qed.

Lemma nopanic_sendSetClientDHParams r sd : nopanic (sendSetClientDHParams r sd).
Proof.
  unfold sendSetClientDHParams. cbv zeta.
  apply nopanic_bind; [apply nopanic_zoom; auto with nopanic|intros b].
  apply nopanic_bind; [apply nopanic_zoom; auto with nopanic|intros d].
  apply nopanic_bind; [apply nopanic_lift, aesIGE_returns|intros e].
  apply nopanic_bind; [auto with nopanic|intros body].
  apply nopanic_bind; [apply nopanic_lift, parseDHGenAnswer_returns|auto with nopanic].
Qed.

Lemma nopanic_sendReqDHParams dc r key : nopanic (sendReqDHParams dc r key).
Proof.
  unfold sendReqDHParams. apply nopanic_bind; [apply nopanic_zoom; auto with nopanic|intros e].
  apply nopanic_bind; [auto with nopanic|intros body]. apply nopanic_lift, parseServerDHParams_returns.
Qed.

Lemma nopanic_probeOnConn address : nopanic (probeOnConn ProbablyPrime address).
Proof.
  unfold probeOnConn. apply nopanic_bind; [apply nopanic_zoom; auto with nopanic|intros nonce].
  apply nopanic_bind; [auto with nopanic|intros body].
  apply nopanic_bind; [apply nopanic_lift, parseResPQ_returns|intros res].
  apply nopanic_bind; auto with nopanic.
Qed.

Lemma findRSAPublicKey_returns keys fps : findRSAPublicKey keys fps <> Panic.
Proof. unfold findRSAPublicKey. by destruct (findRSAPublicKey_loop _ _). Qed.

Lemma nopanic_authKeyOnConn keys dc : nopanic (authKeyOnConn ProbablyPrime keys dc).
Proof.
  unfold authKeyOnConn. cbv zeta.
  apply nopanic_bind; [apply nopanic_zoom; auto with nopanic|intros nonce].
  apply nopanic_bind; [apply nopanic_zoom; auto with nopanic|intros newNonce].
  apply nopanic_bind; [|intros res].
  { unfold sendReqPQ. apply nopanic_bind; [auto with nopanic|intros body].
    apply nopanic_lift, parseResPQ_returns. }
  apply nopanic_bind; [auto with nopanic|intros _].
  apply nopanic_bind; [apply nopanic_lift, findRSAPublicKey_returns|intros key].
  apply nopanic_bind; [apply nopanic_sendReqDHParams|intros sd].
  apply nopanic_bind; [done|intros now].
  apply nopanic_bind; [apply nopanic_lift, validateDHParams_returns|intros _].
  apply nopanic_bind; [apply nopanic_sendSetClientDHParams|auto with nopanic].
Qed.
End AuthSafety.

(** ** What a successful handshake establishes *)

Lemma zoom_inv {S T A} (g : S -> T) u (m : M T A) s a s' :
  zoom g u m s = (Ok a, s') -> exists t, m (g s) = (Ok a, t).
Proof. unfold zoom. destruct (m (g s)) as [o t]. intros [= -> _]. by exists t. Qed.

Lemma validateDHParams_ok g pb gab :
  validateDHParams g pb gab = Ok tt ->
  2 <= g <= 7 /\ 2 ^ 2039 <= be_value pb /\ 1 < be_value gab < be_value pb - 1.
Proof.
  unfold validateDHParams. set (p := be_value pb). set (ga := be_value gab).
  destruct (Z.ltb_spec g 2), (Z.ltb_spec 7 g); try done.
  destruct (Z.leb_spec p 0), (Z.leb_spec ga 0); try done.
  destruct (Z.leb_spec ga 1), (Z.leb_spec (p - 1) ga); try done. cbn [orb].
  destruct (Z.ltb_spec (bitLen p) 2040) as [|Hb]; [done|]. intros _. split; [lia|]. split; [|lia].
  unfold bitLen in Hb. destruct (Z.leb_spec p 0); [lia|].
  apply (Z.log2_le_pow2 p 2039); lia.
Qed.

(** The bytes of a number are enough for the numbers below it. *)
Lemma len_pad_below v bs :
  0 <= v < be_value bs -> len (padBigIntBytes v (len bs)) = len bs.
Proof.
  intros Hv. apply len_padBigIntBytes; [lia|].
  pose proof (be_value_bound bs) as [_ Hb]. pose proof (len_nonneg bs).
  assert (bitLen v <= 8 * len bs).
  { unfold bitLen. destruct (Z.leb_spec v 0); [lia|].
    enough (Z.log2 v < 8 * len bs) by lia. apply Z.log2_lt_pow2; [lia|].
    rewrite Z.pow_mul_r by lia. change (2 ^ 8) with 256. lia. }
  zlia.
Qed.

(** More than 2{^2039} takes at least 255 bytes. *)
Lemma len_of_large bs : 2 ^ 2039 <= be_value bs -> 255 <= len bs.
Proof.
  intros H. pose proof (be_value_bound bs) as [_ Hb]. pose proof (len_nonneg bs).
  apply Z.nlt_ge. intros Hl.
  assert (256 ^ len bs <= 2 ^ 2032).
  { change 256 with (2 ^ 8). rewrite <- Z.pow_mul_r by lia. apply Z.pow_le_mono_r; lia. }
  assert (2 ^ 2032 < 2 ^ 2039) by (apply Z.pow_lt_mono_r; lia). lia.
Qed.

(** Both sides raise to their secret, in either order. *)
Lemma dh_commute g p a b : 0 < p -> 0 <= a -> 0 <= b -> (g ^ a mod p) ^ b mod p = (g ^ b mod p) ^ a mod p.
Proof.
  intros Hp Ha Hb. rewrite !Z.mod_pow_l, <- !Z.pow_mul_r by lia. by rewrite Z.mul_comm.
Qed.

Lemma sendSetClientDHParams_ok r sd w k gb w' :
  0 < be_value (sd_DHPrime sd) ->
  sendSetClientDHParams r sd w = (Ok (k, gb), w') ->
  exists b body, 0 <= b /\
    gb = padBigIntBytes (sd_G sd ^ b mod be_value (sd_DHPrime sd)) (len (sd_DHPrime sd)) /\
    k = padBigIntBytes (be_value (sd_GA sd) ^ b mod be_value (sd_DHPrime sd)) (len (sd_DHPrime sd)) /\
    parseDHGenAnswer body r k = Ok tt.
Proof.
  intros Hp H. unfold sendSetClientDHParams in H. cbv zeta in H. run_inv.
  apply lift_inv in Hrun3 as [Hans _]. injection H as <- <-.
  pose proof (be_value_bound a) as [Hb _]. exists (be_value a), a2.
  rewrite <- !powmod_spec by done. by destruct a3.
Qed.

#[local] Arguments be_value : simpl never.
#[local] Arguments Z.pow : simpl never.

Lemma newEncryptedState_wf sid r :
  128 <= len (ak_AuthKey r) -> is_u64 (ak_AuthKeyID r) -> is_i64 (ak_ServerSalt r) ->
  is_i64 (ak_TimeOffset r) -> es_wf (newEncryptedState sid r).
Proof.
  intros. unfold es_wf, newEncryptedState. cbn. do 3 (split; [done|]).
  split; [apply i64_range|]. done.
Qed.

(** What [authKeyOnConn] promises about its result. *)
Record agreed (keys : list RSAPublicKey) (r : AuthKeyResult) : Prop := {
  (** the server's key is one the client knows *)
  ag_rsa : exists k, In k keys /\ rpk_Fingerprint k = ak_RSAFingerprint r;
  (** the group parameters are in the ranges the code requires *)
  ag_g : 2 <= ak_G r <= 7;
  ag_p : 2 ^ 2039 <= be_value (ak_DHPrime r);
  ag_ga : 1 < be_value (ak_GA r) < be_value (ak_DHPrime r) - 1;
  (** one secret exponent gives both g_b and the key *)
  ag_b : exists b, 0 <= b /\ be_value (ak_GB r) = ak_G r ^ b mod be_value (ak_DHPrime r) /\
                   be_value (ak_AuthKey r) = be_value (ak_GA r) ^ b mod be_value (ak_DHPrime r);
  (** the server, whose secret is [a], computes the same key from g_b *)
  ag_key : forall a, 0 <= a -> be_value (ak_GA r) = ak_G r ^ a mod be_value (ak_DHPrime r) ->
                     be_value (ak_AuthKey r) = be_value (ak_GB r) ^ a mod be_value (ak_DHPrime r);
  (** the server has confirmed the key *)
  ag_confirmed : exists body, parseDHGenAnswer body r (ak_AuthKey r) = Ok tt;
  ag_len : len (ak_AuthKey r) = len (ak_DHPrime r);
  ag_id : ak_AuthKeyID r = authKeyID (ak_AuthKey r);
  (** and a session made from the result is well formed *)
  ag_wf : forall sid, es_wf (newEncryptedState sid r) }.

Lemma authKeyOnConn_agreed PP keys dc w r w' :
  authKeyOnConn PP keys dc w = (Ok r, w') -> agreed keys r.
Proof.
  intros H. unfold authKeyOnConn in H. cbv zeta in H. run_inv.
  apply lift_inv in Hrun3 as [Hk _]. apply findRSAPublicKey_member in Hk as [Hin _].
  apply lift_inv in Hrun6 as [Hv _]. destruct a6. apply validateDHParams_ok in Hv as (Hg & Hp & Hga).
  destruct a7 as [key gb].
  assert (Hpos : 0 < be_value (sd_DHPrime a4)) by (eapply Z.lt_le_trans; [|exact Hp]; done).
  apply sendSetClientDHParams_ok in Hrun7 as (b & body & Hb & -> & -> & Hans); [|done].
  pose proof (Z.mod_pos_bound (sd_G a4 ^ b) _ Hpos) as Hgb.
  pose proof (Z.mod_pos_bound (be_value (sd_GA a4) ^ b) _ Hpos) as Hgab.
  pose proof (len_pad_below _ _ Hgab) as Hlen.
  split; cbn; rewrite ?be_value_pad by lia; try done.
  - by exists a3.
  - by exists b.
  - intros secret Ha Hga'. rewrite Hga' at 1. by apply dh_commute.
  - by exists body.
  - intros sid. apply newEncryptedState_wf; cbn; [|apply authKeyID_range|apply i64_range..].
    rewrite Hlen. pose proof (len_of_large _ Hp). lia.
Qed.

(** C2. Key agreement (auth.go, [authKeyOnConn]): whatever the peer sends and
    whatever clock, random source and writes do, the handshake does not panic
    (the model ends it with an error for pq = 1, where the code's search for
    factors never ends), and if it succeeds the result is as agreed: a known server key, parameters in
    range, a key that is g_a to the client's secret and equally g_b to the
    server's, confirmed by the server, named by its id, and fit for a session. *)
Theorem authKeyOnConn_sound (ProbablyPrime : Z -> bool) (keys : list RSAPublicKey)
    (dc : DCOption) (w : world) :
  match fst (authKeyOnConn ProbablyPrime keys dc w) with
  | Ok r => agreed keys r
  | Err _ => True
  | Panic => False
  end.
Proof.
  pose proof (nopanic_authKeyOnConn ProbablyPrime keys dc w I) as Hn.
  destruct (authKeyOnConn _ _ _ w) as [[r|e|] w'] eqn:E; [|done|done].
  by eapply authKeyOnConn_agreed.
Qed.

(** ** An honest server

    The replies of the protocol's server, not part of the program. *)

Definition server_resPQ (nonce serverNonce pq : list byte) (fps : list Z) : list byte :=
  le_bytes 4 constructorResPQ ++ nonce ++ serverNonce ++ tl_encoding pq ++
  le_bytes 4 constructorVector ++ le_bytes 4 (len fps) ++ concat (map (le_bytes 8) fps).

Definition server_DH_inner (nonce serverNonce : list byte) (g : Z) (dhPrime ga : list byte) (time : Z) : list byte :=
  le_bytes 4 constructorServerDHInnerData ++ nonce ++ serverNonce ++ le_bytes 4 (u32 g) ++
  tl_encoding dhPrime ++ tl_encoding ga ++ le_bytes 4 (u32 time).

(** The answer under the temporary keys, with [pad] to whole blocks. *)
Definition server_DH_answer (newNonce serverNonce inner pad : list byte) : outcome (list byte) :=
  let keys := tempAESKeys newNonce serverNonce in
  aesIGEEncrypt (sha1Bytes [inner] ++ inner ++ pad) (fst keys) (snd keys).

Definition server_DH_params (nonce serverNonce encrypted : list byte) : list byte :=
  le_bytes 4 constructorServerDHParamsOK ++ nonce ++ serverNonce ++ tl_encoding encrypted.

Definition server_DH_gen (nonce serverNonce newNonce authKey : list byte) : list byte :=
  le_bytes 4 constructorDHGenOK ++ nonce ++ serverNonce ++ newNonceHash newNonce x01 authKey.

(** One reply waiting in the stream. *)
Definition packet (reply : Z * list byte) : list byte :=
  frame (buildUnencryptedMessage (fst reply) (snd reply)).

(** Between two exchanges: nothing fails, the replies [inp] are to come. *)
Definition ready (inp rng : list byte) (w : world) : Prop :=
  c_fail (w_conn w) = [] /\ c_in (w_conn w) = inp /\ w_rng w = rng.

Lemma exchange_ready body id m inp rng w :
  ready (packet (id, m) ++ inp) rng w -> len body <= two24 -> len m <= two24 ->
  exists w', exchange body w = (Ok m, w') /\ ready inp rng w'.
Proof.
  intros (Hf & Hin & Hr) Hb Hm. destruct w as [[cin cout cfl] wr wc wt wd]. cbn in *. subst.
  unfold on_conn, zoom, sendUnencrypted. cbn [w_conn]. unfold two24 in *.
  destruct (len_buildUnencryptedMessage (nextMessageID (wc wt)) body) as [H4 Hl].
  erewrite bind_ok by (apply abridgedWrite_frame; lia).
  unfold packet. cbn [fst snd].
  destruct (len_buildUnencryptedMessage id m) as [H4' Hl'].
  pose proof (len_nonneg m).
  erewrite bind_ok by (apply abridgedRead_frame; split; lia).
  unfold lift. rewrite parse_buildUnencryptedMessage by (unfold_words; lia).
  eexists. split; [reflexivity|]. done.
Qed.

Lemma ready_rng_Read n bs inp rng w :
  ready inp (bs ++ rng) w -> n = len bs ->
  exists w', on_rng (rng_Read n) w = (Ok bs, w') /\ ready inp rng w'.
Proof.
  intros (Hf & Hin & Hr) ->. unfold on_rng, zoom, rng_Read. rewrite Hr.
  rewrite (proj2 (Z.leb_le _ _)) by len_lia.
  rewrite sub_app_head by done. rewrite sub_app_tail by (rewrite ?len_app; lia).
  eexists. split; [reflexivity|]. done.
Qed.

Lemma ready_rng {A} (m : M (list byte) A) a inp rng rng' w :
  ready inp rng w -> m rng = (Ok a, rng') ->
  exists w', on_rng m w = (Ok a, w') /\ ready inp rng' w'.
Proof.
  intros (Hf & Hin & Hr) E. unfold on_rng, zoom. rewrite Hr, E. eexists. split; [reflexivity|]. done.
Qed.

Lemma ready_now inp rng w : ready inp rng w -> exists now w', time_Now w = (Ok now, w') /\ ready inp rng w'.
Proof. intros (Hf & Hin & Hr). do 2 eexists. split; [reflexivity|]. done. Qed.

Lemma foldl_snoc_map {A B} (g : A -> B) xs (acc : list B) :
  foldl (fun acc x => acc ++ [g x]) acc xs = acc ++ map g xs.
Proof.
  revert acc. induction xs as [|x xs IH]; intros acc; simpl; [by rewrite app_nil_r|].
  by rewrite IH, <- app_assoc.
Qed.

Lemma map_u64_id fps : Forall is_u64 fps -> map u64 fps = fps.
Proof. induction 1 as [|x l Hx Hl IH]; [done|]. simpl. by rewrite IH, u64_id. Qed.

Lemma reads_resPQ nonce serverNonce pq fps :
  len nonce = 16 -> len serverNonce = 16 -> len pq < two24 -> Forall is_u64 fps -> is_u32 (len fps) ->
  reads read_resPQ (server_resPQ nonce serverNonce pq fps) (ResPQ nonce serverNonce pq fps).
Proof.
  intros Hn Hs Hpq Hf Hl. unfold read_resPQ, server_resPQ.
  eapply reads_bind; [apply reads_int|]. eapply reads_bind0; [by apply reads_guard|].
  eapply reads_bind; [by apply reads_raw|]. eapply reads_bind; [by apply reads_raw|].
  eapply reads_bind; [by apply reads_bytes|]. eapply reads_bind; [apply reads_int|].
  eapply reads_bind0; [by apply reads_guard|].
  eapply reads_bind; [apply reads_int|]. rewrite u32_id by done.
  eapply reads_last.
  - apply (reads_for_each _ (le_bytes 8) (fun acc fp => acc ++ [u64 fp])).
    intros a x _. eapply reads_last; [apply reads_long|apply reads_ret].
  - rewrite foldl_snoc_map, map_u64_id by done. apply reads_ret.
Qed.

Lemma guard_equal_refl a text : reads (guard (equalBytes a a) (ErrNew text)) [] tt.
Proof. apply reads_guard, equalBytes_refl. Qed.

Lemma reads_DH_answer r encrypted :
  len (ak_Nonce r) = 16 -> len (ak_ServerNonce r) = 16 -> len encrypted < two24 ->
  reads (read_DH_answer r) (server_DH_params (ak_Nonce r) (ak_ServerNonce r) encrypted) encrypted.
Proof.
  intros Hn Hs He. unfold read_DH_answer, server_DH_params.
  eapply reads_bind; [apply reads_int|]. do 2 (eapply reads_bind0; [by apply reads_guard|]).
  eapply reads_bind; [by apply reads_raw|]. eapply reads_bind0; [apply guard_equal_refl|].
  eapply reads_bind; [by apply reads_raw|]. eapply reads_bind0; [apply guard_equal_refl|].
  by apply reads_bytes.
Qed.

Lemma reads_DH_inner r g dhPrime ga time :
  len (ak_Nonce r) = 16 -> len (ak_ServerNonce r) = 16 -> len dhPrime < two24 -> len ga < two24 ->
  is_i32 g -> is_i32 time ->
  reads (read_DH_inner r) (server_DH_inner (ak_Nonce r) (ak_ServerNonce r) g dhPrime ga time)
    (ServerDH (ak_Nonce r) (ak_ServerNonce r) g dhPrime ga time).
Proof.
  intros Hn Hs Hp Hga Hg Ht. unfold read_DH_inner, server_DH_inner.
  eapply reads_bind; [apply reads_int|]. eapply reads_bind0; [by apply reads_guard|].
  eapply reads_bind; [by apply reads_raw|]. eapply reads_bind0; [apply guard_equal_refl|].
  eapply reads_bind; [by apply reads_raw|]. eapply reads_bind0; [apply guard_equal_refl|].
  eapply reads_bind; [apply reads_int|]. eapply reads_bind; [by apply reads_bytes|].
  eapply reads_bind; [by apply reads_bytes|]. eapply reads_last; [apply reads_int|].
  rewrite !(u32_id (u32 _)) by apply u32_range. rewrite !i32_u32 by done. apply reads_ret.
Qed.

Lemma reads_DH_gen r key :
  len (ak_Nonce r) = 16 -> len (ak_ServerNonce r) = 16 ->
  reads (read_DH_gen r key) (server_DH_gen (ak_Nonce r) (ak_ServerNonce r) (ak_NewNonce r) key) tt.
Proof.
  intros Hn Hs. unfold read_DH_gen, server_DH_gen.
  eapply reads_bind; [apply reads_int|].
  eapply reads_bind; [by apply reads_raw|]. eapply reads_bind0; [apply guard_equal_refl|].
  eapply reads_bind; [by apply reads_raw|]. eapply reads_bind0; [apply guard_equal_refl|].
  eapply reads_last; [apply reads_raw; by rewrite len_newNonceHash|].
  change (u32 constructorDHGenOK =? constructorDHGenOK) with true. apply guard_equal_refl.
Qed.

(** The client decrypts the honest server's parameters. *)
Lemma parseServerDHParams_honest r g dhPrime ga time pad enc :
  len (ak_Nonce r) = 16 -> len (ak_ServerNonce r) = 16 -> len (ak_NewNonce r) = 32 ->
  len dhPrime < two24 -> len ga < two24 -> is_i32 g -> is_i32 time -> len pad <= 15 ->
  let inner := server_DH_inner (ak_Nonce r) (ak_ServerNonce r) g dhPrime ga time in
  (20 + len inner + len pad) mod 16 = 0 -> len inner < 2 ^ 23 ->
  server_DH_answer (ak_NewNonce r) (ak_ServerNonce r) inner pad = Ok enc ->
  parseServerDHParams (server_DH_params (ak_Nonce r) (ak_ServerNonce r) enc) r =
    Ok (ServerDH (ak_Nonce r) (ak_ServerNonce r) g dhPrime ga time) /\
  len enc = 20 + len inner + len pad.
Proof.
  intros Hn Hs Hnn Hp Hga Hg Ht Hpad inner Hm Hin He. unfold server_DH_answer in He.
  destruct (len_tempAESKeys (ak_NewNonce r) (ak_ServerNonce r)) as [Hk Hiv]; [lia|].
  unfold parseServerDHParams. set (keys := tempAESKeys _ _) in *.
  set (text := sha1Bytes [inner] ++ inner ++ pad) in *.
  assert (Hlt : len text = 20 + len inner + len pad) by (unfold text; rewrite !len_app, len_sha1Bytes; lia).
  destruct (aesIGEDecrypt_encrypt text (fst keys) (snd keys)) as (c & Hc & Hlc & Hd);
    [by rewrite Hlt|done|by right; right|].
  rewrite He in Hc. injection Hc as <-. split; [|by rewrite Hlc].
  assert (Hle : len enc < two24) by (rewrite Hlc, Hlt; change (2 ^ 23) with 8388608 in Hin; unfold two24; lia).
  rewrite <- (app_nil_r (server_DH_params _ _ _)).
  rewrite (reads_eval _ _ _ _ (reads_DH_answer r enc Hn Hs Hle)).
  destruct (strip_protected inner pad Hpad) as (tail & Hst & _).
  unfold eval, bind, lift. rewrite Hd. cbn iota beta. fold text in Hst. rewrite Hst. cbn iota beta.
  apply (reads_eval _ _ tail _ (reads_DH_inner r g dhPrime ga time Hn Hs Hp Hga Hg Ht)).
Qed.

Lemma rsaPad_length data key rng ct rng' :
  0 <= rsa_E key -> rsaPad data key rng = (Ok ct, rng') -> len ct = 256.
Proof.
  intros HE H. unfold rsaPad in H. run_inv.
  apply guard_inv in Hrun as [Hd ->]. apply guard_inv in Hrun0 as [Hs ->]. apply Z.eqb_eq in Hs.
  apply negb_true_iff, Z.ltb_ge in Hd.
  destruct (rsaPad_loop_ok 32 data key rng ct rng') as (kae & pad & _ & Hb & -> & _); [lia|done|].
  pose proof (be_value_bound kae). destruct (rsaRawEncrypt_spec key kae) as [-> _]; [lia|done|done].
Qed.

(** The server's choices, and what it computes from them. *)
Record server := Server {
  sv_nonce : list byte; sv_pq : list byte; sv_fps : list Z; sv_g : Z; sv_p : list byte;
  sv_secret : Z; sv_time : Z; sv_pad : list byte }.

Definition sv_ga (sv : server) : list byte :=
  padBigIntBytes (powmod (sv_g sv) (sv_secret sv) (be_value (sv_p sv))) (len (sv_p sv)).
Definition sv_key (sv : server) (gb : list byte) : list byte :=
  padBigIntBytes (powmod (be_value gb) (sv_secret sv) (be_value (sv_p sv))) (len (sv_p sv)).
Definition sv_inner (sv : server) (nonce : list byte) : list byte :=
  server_DH_inner nonce (sv_nonce sv) (sv_g sv) (sv_p sv) (sv_ga sv) (sv_time sv).

(** Parameters the protocol allows. *)
Record honest (sv : server) (nonce : list byte) : Prop := {
  h_nonce : len (sv_nonce sv) = 16;
  h_pq : len (sv_pq sv) <= 64;
  h_fps : Forall is_u64 (sv_fps sv) /\ len (sv_fps sv) <= 1000;
  h_g : 2 <= sv_g sv <= 7;
  h_p : 2 ^ 2039 <= be_value (sv_p sv) /\ len (sv_p sv) <= 4096;
  h_secret : 0 <= sv_secret sv;
  h_ga : 1 < be_value (sv_ga sv) < be_value (sv_p sv) - 1;
  h_time : is_i32 (sv_time sv);
  h_pad : len (sv_pad sv) <= 15 /\ (20 + len (sv_inner sv nonce) + len (sv_pad sv)) mod 16 = 0 }.

Lemma validateDHParams_accepts g pb gab :
  2 <= g <= 7 -> 2 ^ 2039 <= be_value pb -> 1 < be_value gab < be_value pb - 1 ->
  validateDHParams g pb gab = Ok tt.
Proof.
  intros Hg Hp Ha. unfold validateDHParams. set (p := be_value pb) in *. set (ga := be_value gab) in *.
  destruct (Z.ltb_spec g 2), (Z.ltb_spec 7 g); try lia.
  destruct (Z.leb_spec p 0), (Z.leb_spec ga 0); try lia.
  destruct (Z.leb_spec ga 1), (Z.leb_spec (p - 1) ga); try lia. cbn [orb].
  destruct (Z.ltb_spec (bitLen p) 2040) as [Hb|]; [|done]. unfold bitLen in Hb.
  destruct (Z.leb_spec p 0); [lia|]. apply Z.log2_le_pow2 in Hp; lia.
Qed.

(** The encodings of short strings are short. *)
Lemma len_tl_encoding_le v : len (tl_encoding v) <= len v + 7.
Proof.
  unfold tl_encoding. pose proof (len_nonneg v).
  destruct (len v <? 254); autorewrite with lens;
    match goal with |- context [pad_len ?k] => pose proof (pad_len_range k) end; lia.
Qed.

Lemma len_concat_le8 fps : len (concat (map (le_bytes 8) fps)) = 8 * len fps.
Proof. induction fps as [|x l IH]; [done|]. cbn [map concat]. rewrite len_app, IH, len_cons, len_le_bytes. lia. Qed.

Section Honest.
Variables (sv : server) (nonce newNonce : list byte).
Hypothesis Hh : honest sv nonce.
Hypothesis Hnonce : len nonce = 16.
Hypothesis HnewNonce : len newNonce = 32.

Lemma sv_p_pos : 0 < be_value (sv_p sv).
Proof. eapply Z.lt_le_trans; [|apply (h_p _ _ Hh)]. done. Qed.

Lemma sv_ga_value : be_value (sv_ga sv) = sv_g sv ^ sv_secret sv mod be_value (sv_p sv).
Proof.
  pose proof sv_p_pos. unfold sv_ga. rewrite powmod_spec by (done || apply (h_secret _ _ Hh)).
  apply be_value_pad. by apply Z.mod_pos_bound.
Qed.

Lemma len_sv_ga : len (sv_ga sv) = len (sv_p sv).
Proof.
  pose proof sv_p_pos. unfold sv_ga. rewrite powmod_spec by (done || apply (h_secret _ _ Hh)).
  apply len_pad_below. by apply Z.mod_pos_bound.
Qed.

Lemma len_sv_inner : len (sv_inner sv nonce) < 2 ^ 23.
Proof.
  unfold sv_inner, server_DH_inner. rewrite !len_app, !len_le_bytes, Hnonce, (h_nonce _ _ Hh).
  pose proof (len_tl_encoding_le (sv_p sv)). pose proof (len_tl_encoding_le (sv_ga sv)).
  rewrite len_sv_ga in *. pose proof (proj2 (h_p _ _ Hh)). change (2 ^ 23) with 8388608. lia.
Qed.

(** Client and server compute the same key. *)
Lemma same_key b :
  0 <= b ->
  padBigIntBytes (powmod (be_value (sv_ga sv)) b (be_value (sv_p sv))) (len (sv_p sv)) =
  sv_key sv (padBigIntBytes (powmod (sv_g sv) b (be_value (sv_p sv))) (len (sv_p sv))).
Proof.
  intros Hb. pose proof sv_p_pos. pose proof (h_secret _ _ Hh). unfold sv_key.
  rewrite !powmod_spec by done.
  rewrite be_value_pad by (by apply Z.mod_pos_bound). by rewrite sv_ga_value, dh_commute.
Qed.
End Honest.

Lemma sendSetClientDHParams_honest r sd b rng id rest w :
  let p := be_value (sd_DHPrime sd) in
  let gb := padBigIntBytes (powmod (sd_G sd) (be_value b) p) (len (sd_DHPrime sd)) in
  let key := padBigIntBytes (powmod (be_value (sd_GA sd)) (be_value b) p) (len (sd_DHPrime sd)) in
  len (ak_Nonce r) = 16 -> len (ak_ServerNonce r) = 16 -> len (ak_NewNonce r) = 32 ->
  0 < p -> len (sd_DHPrime sd) <= 4096 -> len b = 256 -> 16 <= len rng ->
  ready (packet (id, server_DH_gen (ak_Nonce r) (ak_ServerNonce r) (ak_NewNonce r) key) ++ rest) (b ++ rng) w ->
  exists w' rng', sendSetClientDHParams r sd w = (Ok (key, gb), w') /\ ready rest rng' w'.
Proof.
  intros p gb key Hn Hs Hnn Hp Hlp Hb Hr Hw. unfold sendSetClientDHParams. cbv zeta.
  destruct (ready_rng_Read 256 b _ _ _ Hw ltac:(done)) as (w1 & E1 & Hw1).
  rewrite (bind_ok _ _ _ _ _ E1). fold p gb key.
  destruct (addSHA1AndPad16_ok (client_DH_inner r gb) rng Hr) as (pad & rng' & E2 & Hpad & Hmod).
  destruct (ready_rng _ _ _ _ _ _ Hw1 E2) as (w2 & E3 & Hw2). rewrite (bind_ok _ _ _ _ _ E3).
  set (text := sha1Bytes [_] ++ _ ++ pad) in *.
  destruct (len_tempAESKeys (ak_NewNonce r) (ak_ServerNonce r)) as [Hk Hiv]; [lia|].
  destruct (aesIGEEncrypt_total text _ _ Hmod Hiv (or_intror (or_intror Hk))) as (c & E4 & Hc).
  rewrite (bind_lift_ok _ _ _ _ E4).
  assert (Hgb : len gb = len (sd_DHPrime sd)).
  { unfold gb. pose proof (be_value_bound b) as [? _]. rewrite powmod_spec by done.
    apply len_pad_below. by apply Z.mod_pos_bound. }
  assert (Hlc : len c <= 5000).
  { rewrite Hc. unfold text, client_DH_inner. autorewrite with tl_buf.
    rewrite !len_app, len_sha1Bytes, !len_le_bytes, len_nil, Hn, Hs.
    pose proof (len_tl_encoding_le gb). lia. }
  assert (Hq : len (set_client_DH_query r c) <= two24).
  { unfold set_client_DH_query. autorewrite with tl_buf.
    rewrite !len_app, !len_le_bytes, len_nil, Hn, Hs. pose proof (len_tl_encoding_le c).
    unfold two24. lia. }
  destruct (exchange_ready _ _ _ _ _ _ Hw2 Hq) as (w3 & E5 & Hw3).
  { unfold server_DH_gen. rewrite !len_app, len_le_bytes, len_newNonceHash, Hn, Hs. done. }
  rewrite (bind_ok _ _ _ _ _ E5).
  assert (E6 : parseDHGenAnswer (server_DH_gen (ak_Nonce r) (ak_ServerNonce r) (ak_NewNonce r) key) r key = Ok tt).
  { unfold parseDHGenAnswer. rewrite <- (app_nil_r (server_DH_gen _ _ _ _)).
    by apply (reads_eval _ _ [] _ (reads_DH_gen r key Hn Hs)). }
  rewrite (bind_lift_ok _ _ _ _ E6). by exists w3, rng'.
Qed.

Lemma sendReqDHParams_honest sv dc r key enc answer rng rng' id rest w :
  honest sv (ak_Nonce r) -> len (ak_Nonce r) = 16 -> ak_ServerNonce r = sv_nonce sv ->
  len (ak_NewNonce r) = 32 -> len (ak_P r) <= 64 -> len (ak_Q r) <= 64 -> 0 <= rsa_E (rpk_Key key) ->
  rsaPad (pq_inner_data dc r) (rpk_Key key) rng = (Ok enc, rng') ->
  server_DH_answer (ak_NewNonce r) (sv_nonce sv) (sv_inner sv (ak_Nonce r)) (sv_pad sv) = Ok answer ->
  ready (packet (id, server_DH_params (ak_Nonce r) (sv_nonce sv) answer) ++ rest) rng w ->
  exists w', sendReqDHParams dc r key w =
    (Ok (ServerDH (ak_Nonce r) (sv_nonce sv) (sv_g sv) (sv_p sv) (sv_ga sv) (sv_time sv)), w') /\
    ready rest rng' w'.
Proof.
  intros Hh Hn Hs Hnn HP HQ HE Epad Eans Hw. unfold sendReqDHParams.
  destruct (ready_rng _ _ _ _ _ _ Hw Epad) as (w1 & E1 & Hw1). rewrite (bind_ok _ _ _ _ _ E1).
  pose proof (h_p _ _ Hh) as [_ Hlp]. pose proof (len_sv_ga sv _ Hh) as Hga.
  destruct (parseServerDHParams_honest r (sv_g sv) (sv_p sv) (sv_ga sv) (sv_time sv) (sv_pad sv) answer)
    as [Eparse Hla]; try done; try rewrite Hs; try apply Hh; try done.
  1, 2: unfold two24; lia.
  { pose proof (h_g _ _ Hh). unfold_words. lia. }
  { by apply len_sv_inner. }
  rewrite Hs in *. fold (sv_inner sv (ak_Nonce r)) in Hla.
  assert (Hq : len (req_DH_query r key enc) <= two24).
  { unfold req_DH_query. autorewrite with tl_buf. rewrite !len_app, !len_le_bytes, len_nil, Hn, Hs, (h_nonce _ _ Hh).
    pose proof (len_tl_encoding_le (ak_P r)). pose proof (len_tl_encoding_le (ak_Q r)).
    pose proof (len_tl_encoding_le enc). rewrite (rsaPad_length _ _ _ _ _ HE Epad) in *. unfold two24. lia. }
  destruct (exchange_ready _ _ _ _ _ _ Hw1 Hq) as (w2 & E2 & Hw2).
  { unfold server_DH_params. rewrite !len_app, len_le_bytes, Hn, (h_nonce _ _ Hh).
    pose proof (len_tl_encoding_le answer). pose proof (len_sv_inner sv _ Hh Hn) as Hi.
    pose proof (proj1 (h_pad _ _ Hh)). change (2 ^ 23) with 8388608 in Hi. unfold two24. lia. }
  rewrite (bind_ok _ _ _ _ _ E2). exists w2. unfold lift. by rewrite Eparse.
Qed.

(** What the client knows after resPQ and the choice of the key. *)
Definition after_resPQ (dc : DCOption) (nonce newNonce : list byte) (sv : server) (pq : list byte * list byte)
    (key : RSAPublicKey) : AuthKeyResult :=
  result_rsa (rpk_Fingerprint key)
    (result_pq (Probed EmptyString nonce (sv_nonce sv) (sv_pq sv) (fst pq) (snd pq) (sv_fps sv))
       (result_nonces dc nonce newNonce)).


(** ** A concrete handshake *)

Definition demo_server : server :=
  Server (replicate 16 x33) [x27; x0b] [7; 42] 3 (be_bytes 256 (2 ^ 2047 + 12345)) 5 1700000000 (replicate 8 x00).
(** The exponent is one to keep the evaluation short. *)
Definition demo_rsa : RSAPublicKey := RSAPub (RSAKey (rsa_N demo_key) 1) 42.
Definition demo_dc : DCOption := DC 2 "149.154.167.51:443".
Definition demo_nonce : list byte := replicate 16 x11.
Definition demo_newNonce : list byte := replicate 32 x22.
Definition demo_pq : list byte * list byte := ([x05], [x07; xcf]).
(** The client's secret. *)
Definition demo_b : list byte := replicate 255 x00 ++ [x07].
Definition demo_tail : list byte := replicate 40 x44.
Definition demo_rng : list byte := replicate 140 x55 ++ demo_b ++ demo_tail.
Definition demo_result : AuthKeyResult :=
  after_resPQ demo_dc demo_nonce demo_newNonce demo_server demo_pq demo_rsa.
Definition demo_enc : list byte := Eval vm_compute in
  ok_or [] (eval (rsaPad (pq_inner_data 2 demo_result) (rpk_Key demo_rsa)) demo_rng).
Definition demo_answer : list byte := Eval vm_compute in
  ok_or [] (server_DH_answer demo_newNonce (sv_nonce demo_server)
              (sv_inner demo_server demo_nonce) (sv_pad demo_server)).
Definition demo_gb : list byte :=
  padBigIntBytes (powmod (sv_g demo_server) (be_value demo_b) (be_value (sv_p demo_server))) (len (sv_p demo_server)).
Definition demo_stream : list byte :=
  packet (1, server_resPQ demo_nonce (sv_nonce demo_server) (sv_pq demo_server) (sv_fps demo_server)) ++
  packet (5, server_DH_params demo_nonce (sv_nonce demo_server) demo_answer) ++
  packet (9, server_DH_gen demo_nonce (sv_nonce demo_server) demo_newNonce (sv_key demo_server demo_gb)) ++ [].
Definition demo_conn : world :=
  World (Conn demo_stream [] []) (demo_nonce ++ demo_newNonce ++ demo_rng)
    (fun n => 1700000000000000000 + Z.of_nat n) 0 None.

Lemma demo_honest : honest demo_server demo_nonce.
Proof.
  split.
  - reflexivity.
  - vm_compute. congruence.
  - split; [repeat constructor; vm_compute; congruence|vm_compute; congruence].
  - split; vm_compute; congruence.
  - split; vm_compute; congruence.
  - vm_compute. congruence.
  - split; vm_compute; congruence.
  - split; vm_compute; congruence.
  - split; [vm_compute; congruence|vm_compute; reflexivity].
Qed.

