(* ===== verification/Invoke.v ===== *)
(** * Invoke: RPC results and the invocation loop (src/mtproto/invoke.go)

    [handleMessage] with nested containers, [parseRPCResultObject], the error
    types and their classification, and [invoke] itself: three attempts, each
    with a read loop that ends by a result, an error or the end of the stream. *)

From Stdlib Require Import Sorting.Sorted.
From S2P Require Import Prelude Strings TL Transport Hash AES Crypto Envelope.

Definition constructorRpcResult := 0xf35c6d01.
Definition constructorRpcError := 0x2144ca19.
Definition constructorMsgContainer := 0x73f1f8dc.
Definition constructorBadMsgNotification := 0xa7eff811.
Definition constructorBadServerSalt := 0xedab447b.
Definition constructorNewSessionCreated := 0x9ec20908.
Definition constructorMsgsAck := 0x62d6b459.
Definition constructorGzipPacked := 0x3072cfa1.
Definition constructorHelpGetConfig := 0xc4f9186b.
Definition constructorInvokeWithLayer := 0xda9b0d0d.
Definition constructorInitConnection := 0xc1cd5ea9.

Definition defaultAPILayer : Z := 214.

(** ** Errors the caller inspects *)

Definition cleanRPCErrorMessage (s : string) : string := TrimSpace (drop_nul s).

(** [time.Duration(seconds) * time.Second], in nanoseconds. *)
Definition FloodWaitDuration (err : goerr) : option Z :=
  match as_RPCError err with
  | None => None
  | Some (_, message) =>
      let msg := cleanRPCErrorMessage message in
      if negb (HasPrefix msg "FLOOD_WAIT_") then None
      else match Atoi (TrimPrefix msg "FLOOD_WAIT_") with
           | Ok seconds => if seconds <? 0 then None else Some (i64 (seconds * second))
           | _ => None
           end
  end.

Definition IsFloodWait (err : goerr) : bool :=
  match FloodWaitDuration err with Some _ => true | None => false end.

Definition migration_prefixes : list string :=
  ["USER_MIGRATE_"; "PHONE_MIGRATE_"; "NETWORK_MIGRATE_"; "FILE_MIGRATE_"]%string.

Fixpoint migration_loop (prefixes : list string) (msg : string) : option Z :=
  match prefixes with
  | [] => None
  | prefix :: rest =>
      if HasPrefix msg prefix then
        match Atoi (TrimPrefix msg prefix) with
        | Ok n => if 0 <? n then Some n else migration_loop rest msg
        | _ => migration_loop rest msg
        end
      else migration_loop rest msg
  end.

Definition MigrationDCID (err : goerr) : option Z :=
  match as_RPCError err with
  | None => None
  | Some (_, message) => migration_loop migration_prefixes (cleanRPCErrorMessage message)
  end.

Definition isRetriableBadMessageCode (code : Z) : bool :=
  (code =? 16) || (code =? 17) || (code =? 32) || (code =? 33) || (code =? 48).

(** ** Results *)

Record InvokeResult := Result {
  ir_DCID : Z; ir_Address : string; ir_AuthKeyID : Z; ir_ServerSalt : Z; ir_SessionID : Z;
  ir_RequestMessageID : Z; ir_ResponseMessageID : Z; ir_Constructor : Z;
  ir_Body : list byte; ir_GzipPacked : bool; ir_Message : string }.

Definition new_result (responseMsgID constructor : Z) (body : list byte) (gz : bool) : InvokeResult :=
  Result 0 EmptyString 0 0 0 0 responseMsgID constructor body gz EmptyString.

Definition set_request (id : Z) (r : InvokeResult) : InvokeResult :=
  Result (ir_DCID r) (ir_Address r) (ir_AuthKeyID r) (ir_ServerSalt r) (ir_SessionID r) id
    (ir_ResponseMessageID r) (ir_Constructor r) (ir_Body r) (ir_GzipPacked r) (ir_Message r).

Section Invoke.

(** The decompressor of [compress/gzip]. *)
Variable gunzip : list byte -> outcome (list byte).

Definition read_rpc_error : M tlReader (Z * string) :=
  code <- tl_int ;; message <- tl_string ;; ret (i32 code, cleanRPCErrorMessage message).

Definition parseRPCResultObject (responseMsgID : Z) (body : list byte) : outcome InvokeResult :=
  if len body <? 4 then Err (ErrNew "mtproto: empty rpc result")
  else eval
    (constructor <- tl_int ;;
     if constructor =? constructorRpcError then
       e <- read_rpc_error ;; fail (ErrRPC (fst e) (snd e))
     else if constructor =? constructorGzipPacked then
       packed <- tl_bytes ;;
       unpacked <- lift (gunzip packed) ;;
       guard (negb (len unpacked <? 4)) (ErrNew "mtproto: empty gzip unpacked rpc result") ;;
       head <- lift (slice unpacked 0 4) ;;
       ret (new_result responseMsgID (le_value head) unpacked true)
     else ret (new_result responseMsgID constructor body false))
    (newTLReader body).

(** ** Messages of the session

    A result of [Some r] is Go's [(r, true, nil)], [None] is [(nil, false, nil)]. *)

(** [for r.off%4 != 0 && r.off < len(r.buf) { r.off++ }] *)
Fixpoint align_loop (fuel : nat) : M tlReader unit :=
  match fuel with
  | O => ret tt
  | S fuel' =>
      r <- get ;;
      if negb (Z.rem (r_off r) 4 =? 0) && (r_off r <? len (r_buf r))
      then advance 1 ;; align_loop fuel' else ret tt
  end.

Definition read_child (msg : encryptedMessage) : M tlReader encryptedMessage :=
  childMsgID <- tl_long ;; childSeqNo <- tl_int ;; childLen <- tl_int ;;
  childBody <- tl_raw childLen ;;
  align_loop 4 ;;
  ret (EncryptedMessage (em_Salt msg) (em_SessionID msg) (i64 childMsgID) (i32 childSeqNo) childBody).

(** new_session_created: first_msg_id, unique_id, server_salt. *)
Definition read_new_session : M tlReader Z :=
  _first <- tl_long ;; _unique <- tl_long ;; newSalt <- tl_long ;; ret (i64 newSalt).

Definition read_bad_server_salt : M tlReader (Z * Z * Z * Z) :=
  badMsgID <- tl_long ;; badSeqNo <- tl_int ;; errorCode <- tl_int ;; newSalt <- tl_long ;;
  ret (i64 badMsgID, i32 badSeqNo, i32 errorCode, i64 newSalt).

Definition read_bad_msg_notification : M tlReader (Z * Z * Z) :=
  badMsgID <- tl_long ;; badSeqNo <- tl_int ;; errorCode <- tl_int ;;
  ret (i64 badMsgID, i32 badSeqNo, i32 errorCode).

(** One round of the container loop: read a child, handle it, stop on a result. *)
Definition container_round (handle : encryptedMessage -> M encryptedState (option InvokeResult))
    (msg : encryptedMessage) (r : tlReader) : M encryptedState (tlReader + InvokeResult) :=
  cr <- on r (read_child msg) ;;
  res <- handle (fst cr) ;;
  match res with Some x => ret (inr x) | None => ret (inl (snd cr)) end.

Fixpoint handleMessage (fuel : nat) (requestMsgID : Z) (msg : encryptedMessage)
  : M encryptedState (option InvokeResult) :=
  match fuel with
  | O => fail out_of_fuel
  | S fuel' =>
      guard (negb (len (em_Body msg) <? 4)) (ErrNew "mtproto: empty encrypted message body") ;;
      cr <- on (newTLReader (em_Body msg)) tl_int ;;
      let '(constructor, r) := cr in
      if constructor =? constructorMsgContainer then
        nr <- on r tl_int ;;
        let '(count, r) := nr in
        x <- for_n count (container_round (handleMessage fuel' requestMsgID) msg) r ;;
        match x with inl _ => ret None | inr res => ret (Some res) end
      else if constructor =? constructorRpcResult then
        qr <- on r tl_long ;;
        let '(reqID, r) := qr in
        let resultBody := tl_remaining r in
        if negb (i64 reqID =? requestMsgID) then ret None
        else res <- lift (parseRPCResultObject (em_MsgID msg) resultBody) ;; ret (Some res)
      else if constructor =? constructorNewSessionCreated then
        sr <- on r read_new_session ;;
        modify (set_salt (fst sr)) ;; ret None
      else if constructor =? constructorBadServerSalt then
        br <- on r read_bad_server_salt ;;
        let '(badMsgID, badSeqNo, errorCode, newSalt) := fst br in
        modify (set_salt newSalt) ;;
        fail (ErrBadServerSalt badMsgID badSeqNo errorCode newSalt)
      else if constructor =? constructorBadMsgNotification then
        br <- on r read_bad_msg_notification ;;
        let '(badMsgID, badSeqNo, errorCode) := fst br in
        fail (ErrBadMessage badMsgID badSeqNo errorCode)
      else (* msgs_ack and everything else *) ret None
  end.

(** The depth of nesting is below the length of the body. *)
Definition handle (requestMsgID : Z) (msg : encryptedMessage) : M encryptedState (option InvokeResult) :=
  handleMessage (S (length (em_Body msg))) requestMsgID msg.

(** ** Invocation *)

Definition IO (A : Type) : Type := M (encryptedState * world) A.
Definition on_es {A} (m : M encryptedState A) : IO A := zoom fst (fun e s => (e, snd s)) m.
Definition on_world {A} (m : M world A) : IO A := zoom snd (fun w s => (fst s, w)) m.

(** [if err != nil { _ = conn.SetDeadline(time.Time{}); return nil, err }] *)
Definition clearing {A} (m : IO A) : IO A :=
  r <- try m ;;
  match r with
  | inl a => ret a
  | inr err => on_world (conn_SetDeadline None) ;; fail err
  end.

(** How the read loop of one attempt ends: [break], or a result. *)
Inductive attempt_end :=
| Retry (lastErr : goerr)
| Finished (result : InvokeResult).

(** What follows an error of [handleMessage]. *)
Definition after_error (requestMsgID : Z) (err : goerr) : IO attempt_end :=
  on_world (conn_SetDeadline None) ;;
  match as_BadServerSalt err, as_BadMessage err with
  | Some _, _ => ret (Retry err)
  | None, Some (_, _, code) =>
      if isRetriableBadMessageCode code then
        when ((code =? 16) || (code =? 17))
          (now <- on_world time_Now ;;
           on_es (modify (adjustTimeOffsetFromBadMessage now requestMsgID code))) ;;
        ret (Retry err)
      else fail err
  | None, None => fail err
  end.

Definition read_message : IO encryptedMessage :=
  payload <- clearing (on_world (on_conn abridgedRead)) ;;
  clearing (s <- on_es get ;; lift (parseEncryptedPacket s payload)).

Fixpoint read_loop (fuel : nat) (requestMsgID : Z) : IO attempt_end :=
  match fuel with
  | O => fail out_of_fuel
  | S fuel' =>
      msg <- read_message ;;
      r <- try (on_es (handle requestMsgID msg)) ;;
      match r with
      | inr err => after_error requestMsgID err
      | inl (Some result) =>
          on_world (conn_SetDeadline None) ;; ret (Finished (set_request requestMsgID result))
      | inl None => read_loop fuel' requestMsgID
      end
  end.

Definition set_rpc_deadline (ctx_deadline : option Z) : IO unit :=
  match ctx_deadline with
  | Some d => on_world (conn_SetDeadline (Some d))
  | None => now <- on_world time_Now ;; on_world (conn_SetDeadline (Some (now + 30 * second)))
  end.

(** The read loop consumes the stream, so its length bounds the rounds. *)
Definition one_attempt (ctx_deadline : option Z) (body : list byte) : IO attempt_end :=
  now <- on_world time_Now ;;
  requestMsgID <- on_es (nextMsgID now) ;;
  seqNo <- on_es (nextSeqNo true) ;;
  s <- on_es get ;;
  packet <- on_world (on_rng (buildEncryptedPacket s requestMsgID seqNo body)) ;;
  set_rpc_deadline ctx_deadline ;;
  clearing (on_world (on_conn (abridgedWrite packet))) ;;
  w <- on_world get ;;
  read_loop (S (length (c_in (w_conn w)))) requestMsgID.

Fixpoint attempts (n : nat) (ctx_deadline : option Z) (body : list byte) (lastErr : option goerr)
  : IO InvokeResult :=
  match n with
  | O => fail (match lastErr with
               | Some err => err
               | None => ErrNew "mtproto: invoke retry limit reached"
               end)
  | S n' =>
      e <- one_attempt ctx_deadline body ;;
      match e with
      | Finished result => ret result
      | Retry err => attempts n' ctx_deadline body (Some err)
      end
  end.

Definition invoke (ctx_deadline : option Z) (body : list byte) : IO InvokeResult :=
  attempts 3 ctx_deadline body None.

End Invoke.

(** ** help.getConfig *)

Definition appVersionV12 : string := "v14.0.0-dev".

Definition makeHelpGetConfigQuery (apiID : Z) : list byte :=
  let help := tb_empty |> putInt constructorHelpGetConfig in
  if apiID <=? 0 then tb_buf help
  else
    let init := tb_empty |> putInt constructorInitConnection |> putInt 0
                |> putInt (u32 (i32 apiID)) |> putString "MtProGo" |> putString "Go"
                |> putString appVersionV12 |> putString "en" |> putString EmptyString
                |> putString "en" |> putRaw (tb_buf help) in
    let invoke := tb_empty |> putInt constructorInvokeWithLayer
                  |> putInt (u32 (i32 defaultAPILayer)) |> putRaw (tb_buf init) in
    tb_buf invoke.

(** ** Reading safely *)

Lemma rsafe_align_loop fuel : rsafe (align_loop fuel).
Proof.
  induction fuel as [|fuel IH]; simpl; [apply rsafe_ret|]. intros r Hr.
  rewrite (bind_ok _ _ _ r r) by done.
  destruct (negb _ && _) eqn:E; [|by apply safe_at_stay].
  apply andb_prop in E as [_ E]. apply Z.ltb_lt in E. destruct Hr as [H1 H2].
  apply (safe_at_advance r 1); [done|lia|apply IH].
Qed.
#[export] Hint Resolve rsafe_align_loop : tl.

Lemma rsafe_read_child msg : rsafe (read_child msg).
Proof. unfold read_child. rsafe_auto. Qed.
Lemma rsafe_read_new_session : rsafe read_new_session.
Proof. unfold read_new_session. rsafe_auto. Qed.
Lemma rsafe_read_bad_server_salt : rsafe read_bad_server_salt.
Proof. unfold read_bad_server_salt. rsafe_auto. Qed.
Lemma rsafe_read_bad_msg_notification : rsafe read_bad_msg_notification.
Proof. unfold read_bad_msg_notification. rsafe_auto. Qed.
Lemma rsafe_read_rpc_error : rsafe read_rpc_error.
Proof. unfold read_rpc_error. rsafe_auto. Qed.
#[export] Hint Resolve rsafe_read_child rsafe_read_new_session rsafe_read_bad_server_salt
  rsafe_read_bad_msg_notification rsafe_read_rpc_error : tl.

(** Everything but the salt stays as it was. *)
Definition salted (s0 s : encryptedState) : Prop := exists salt, is_i64 salt /\ s = set_salt salt s0.

Lemma salted_set s0 s salt : is_i64 salt -> salted s0 s -> salted s0 (set_salt salt s).
Proof. intros H (x & _ & ->). exists salt. done. Qed.

Lemma read_new_session_range : returns read_new_session is_i64.
Proof. intros r a r' H. unfold read_new_session in H. run_inv. apply i64_range. Qed.
Lemma read_bad_server_salt_range : returns read_bad_server_salt (fun x => is_i64 (snd x)).
Proof. intros r a r' H. unfold read_bad_server_salt in H. run_inv. apply i64_range. Qed.

Section Safety.
Variable gunzip : list byte -> outcome (list byte).
Hypothesis gunzip_returns : forall d, gunzip d <> Panic.

Lemma parseRPCResultObject_no_panic id body : parseRPCResultObject gunzip id body <> Panic.
Proof.
  unfold parseRPCResultObject. destruct (len body <? 4); [done|]. apply rsafe_eval.
  apply rsafe_bind; [auto with tl|intros c].
  destruct (c =? constructorRpcError); [rsafe_auto|].
  destruct (c =? constructorGzipPacked); [|auto with tl].
  apply rsafe_bind; [auto with tl|intros packed].
  apply rsafe_bind; [by apply rsafe_lift|intros unpacked].
  apply rsafe_guard_then. intros H. rewrite slice_ok; [rsafe_auto; by apply rsafe_lift|lia|lia|].
  destruct (Z.ltb_spec (len unpacked) 4); [done|lia].
Qed.

(** A read on a local reader keeps the session. *)
Lemma hoare_on_salted {A} s0 r (m : M tlReader A) :
  rsafe m -> rwf r ->
  hoare (salted s0) (on r m)
    (fun x s => (m r = (Ok (fst x), snd x) /\ rwf (snd x) /\ r_buf (snd x) = r_buf r) /\ salted s0 s)
    (salted s0).
Proof. apply hoare_on. Qed.

Lemma handleMessage_safe fuel req msg s0 :
  hoare (salted s0) (handleMessage gunzip fuel req msg) (fun _ => salted s0) (salted s0).
Proof.
  revert msg. induction fuel as [|fuel IH]; intros msg; simpl; [by apply hoare_fail|].
  eapply hoare_bind; [by apply hoare_guard|intros ?]. apply hoare_pure. intros _.
  eapply hoare_bind; [apply hoare_on; [auto with tl|apply rwf_new]|intros [constructor r]].
  apply hoare_pure. intros (_ & Hr & _). cbn [fst snd] in Hr.
  assert (Hret : forall A (a : A), hoare (salted s0) (ret a) (fun _ => salted s0) (salted s0))
    by (intros ? ? s Hs; exact Hs).
  destruct (_ =? _); [|destruct (_ =? _); [|destruct (_ =? _); [|destruct (_ =? _); [|destruct (_ =? _)]]]].
  - eapply hoare_bind; [apply hoare_on; auto with tl|intros [count r1]].
    apply hoare_pure. intros (_ & Hr1 & _). cbn [fst snd] in Hr1.
    eapply (hoare_bind _ _ _ (fun _ => salted s0)); [|intros [?|?]; apply Hret].
    eapply hoare_conseq; [apply (hoare_for_n _ _ _ (fun r s => rwf r /\ salted s0 s) (fun _ => salted s0) (salted s0))| | |];
      [|done|by intros [?|?] s; [intros [_ ?]|]|done].
    intros r2. apply hoare_pure. intros Hr2. unfold container_round.
    eapply hoare_bind; [apply hoare_on; auto with tl|intros [child r3]].
    apply hoare_pure. intros (_ & Hr3 & _).
    eapply hoare_bind; [apply IH|intros [res|]]; intros s Hs; [exact Hs|done].
  - eapply hoare_bind; [apply hoare_on; auto with tl|intros [reqID r1]].
    apply hoare_pure. intros _. destruct (negb _); [apply Hret|].
    eapply hoare_bind; [apply hoare_lift; [apply parseRPCResultObject_no_panic|done]|].
    intros res. apply hoare_pure. intros _. apply Hret.
  - eapply hoare_bind; [apply hoare_on; auto with tl|intros [salt r1]].
    apply hoare_pure. intros (H & _). apply read_new_session_range in H.
    eapply hoare_bind; [apply hoare_modify|intros ?; apply Hret]. intros s. by apply salted_set.
  - eapply hoare_bind; [apply hoare_on; auto with tl|intros [[[[id seq] code] salt] r1]].
    apply hoare_pure. intros (H & _). apply read_bad_server_salt_range in H.
    eapply (hoare_bind _ _ _ (fun _ => salted s0)); [apply hoare_modify|intros ?; by apply hoare_fail].
    intros s. by apply salted_set.
  - eapply hoare_bind; [apply hoare_on; auto with tl|intros [[[id seq] code] r1]].
    apply hoare_pure. intros _. by apply hoare_fail.
  - apply Hret.
Qed.

(** ** Nesting depth *)

Lemma read_child_shorter msg r child r' :
  rwf r -> read_child msg r = (Ok child, r') -> len (em_Body child) + 16 <= len (r_buf r).
Proof.
  intros [H0 H1] H. unfold read_child in H. run_inv.
  apply long_inv in Hrun as (L1 & _ & ->). apply int_inv in Hrun0 as (L2 & _ & ->).
  apply int_inv in Hrun1 as (L3 & _ & ->). apply raw_inv in Hrun2 as (L4 & -> & ->).
  simpl in *. rewrite len_sub; lia.
Qed.

(** Any fuel above the length of the body gives the same answer, so [handle]
    is the recursion of the code itself. *)
Lemma handleMessage_fuel f1 f2 req msg s :
  (length (em_Body msg) < f1)%nat -> (length (em_Body msg) < f2)%nat ->
  handleMessage gunzip f1 req msg s = handleMessage gunzip f2 req msg s.
Proof.
  revert f2 msg s. induction f1 as [|f1 IH]; intros f2 msg s H1 H2; [lia|].
  destruct f2 as [|f2]; [lia|]. simpl.
  apply bind_ext. intros _ s1. rewrite !on_bind.
  destruct (tl_int (newTLReader (em_Body msg))) as [[c|e|] r] eqn:E; [|done|done].
  apply int_inv in E as (Hl & _ & ->). simpl in Hl.
  destruct (_ =? _); [|done]. rewrite !on_bind.
  destruct (tl_int _) as [[n|e|] r1] eqn:E1; [|done|done].
  apply int_inv in E1 as (Hl1 & _ & ->). simpl in *.
  unfold bind at 1 2.
  erewrite (for_n_ext (fun r => rwf r /\ r_buf r = em_Body msg)); [done| | |].
  - intros r s2 [Hr Hb]. unfold container_round, bind, on.
    destruct (read_child msg r) as [[child|e|] r2] eqn:E2; [|done|done].
    apply read_child_shorter in E2; [|done]. rewrite Hb in E2. simpl.
    rewrite (IH f2); [done| |]; unfold len in *; lia.
  - intros r s2 r2 s3 [Hr Hb]. unfold container_round, bind, on.
    pose proof (rsafe_read_child msg r Hr) as Hs.
    destruct (read_child msg r) as [[child|e|] r3]; [|done|done].
    destruct Hs as (_ & Hb3 & _ & Hw3). simpl in *.
    destruct (handleMessage _ _ _ _ _) as [[[?|]|?|] ?]; try done.
    intros [= <- <-]. split; [done|]. by rewrite Hb3.
  - split; [|done]. split; simpl; lia.
Qed.
End Safety.

(** ** Containers *)

(** A message inside a container, as the server lays it out. *)
Definition child_bytes (m : encryptedMessage) : list byte :=
  le_bytes 8 (em_MsgID m) ++ le_bytes 4 (em_SeqNo m) ++ le_bytes 4 (len (em_Body m)) ++ em_Body m.
Definition child_ok (m : encryptedMessage) : Prop :=
  is_i64 (em_MsgID m) /\ is_i32 (em_SeqNo m) /\ is_u32 (len (em_Body m)) /\ len (em_Body m) mod 4 = 0.
Definition container_body (children : list encryptedMessage) : list byte :=
  le_bytes 4 constructorMsgContainer ++ le_bytes 4 (len children) ++ concat (map child_bytes children).

(** Children take salt and session from the container. *)
Definition adopt (msg c : encryptedMessage) : encryptedMessage :=
  EncryptedMessage (em_Salt msg) (em_SessionID msg) (em_MsgID c) (em_SeqNo c) (em_Body c).

(** The messages one after the other, until one gives the result. *)
Fixpoint run_children (handle : encryptedMessage -> M encryptedState (option InvokeResult))
    (children : list encryptedMessage) : M encryptedState (option InvokeResult) :=
  match children with
  | [] => ret None
  | c :: cs =>
      r <- handle c ;;
      match r with Some x => ret (Some x) | None => run_children handle cs end
  end.

Lemma len_child_bytes m : len (child_bytes m) = 16 + len (em_Body m).
Proof. unfold child_bytes. len_lia. Qed.

Lemma i64_u64_any z : i64 (u64 z) = i64 z.
Proof. unfold_words. f_equal. rewrite Z.add_mod_idemp_l by lia. done. Qed.
Lemma i32_u32_any z : i32 (u32 z) = i32 z.
Proof. unfold_words. f_equal. rewrite Z.add_mod_idemp_l by lia. done. Qed.

Lemma align_loop_done fuel r : r_off r mod 4 = 0 -> 0 <= r_off r -> align_loop fuel r = (Ok tt, r).
Proof.
  intros H H0. destruct fuel; [done|]. simpl. rewrite (bind_ok _ _ _ r r) by done.
  by rewrite Z.rem_mod_nonneg, H by lia.
Qed.

Lemma read_child_bytes msg c pre post :
  child_ok c -> len pre mod 4 = 0 ->
  read_child msg (TLReader (pre ++ child_bytes c ++ post) (len pre)) =
  (Ok (adopt msg c), TLReader (pre ++ child_bytes c ++ post) (len pre + len (child_bytes c))).
Proof.
  intros (Hid & Hseq & Hlen & H4) Hpre. unfold read_child.
  set (head := childMsgID <- tl_long ;; childSeqNo <- tl_int ;; childLen <- tl_int ;;
               childBody <- tl_raw childLen ;; ret (childMsgID, childSeqNo, childBody)).
  assert (R : reads head (child_bytes c)
                (u64 (em_MsgID c), u32 (em_SeqNo c), em_Body c)).
  { unfold head, child_bytes. eapply reads_bind; [apply reads_long|].
    eapply reads_bind; [apply reads_int|]. eapply reads_bind; [apply reads_int|].
    rewrite (u32_id (len _)) by done.
    apply (reads_map (tl_raw _) (fun b => (u64 (em_MsgID c), u32 (em_SeqNo c), b))).
    by apply reads_raw. }
  transitivity ((x <- head ;; align_loop 4 ;;
     ret (EncryptedMessage (em_Salt msg) (em_SessionID msg) (i64 (fst (fst x))) (i32 (snd (fst x))) (snd x)))
       (TLReader (pre ++ child_bytes c ++ post) (len pre))).
  { unfold head. rewrite !bind_assoc. apply bind_ext. intros a s1.
    rewrite !bind_assoc. apply bind_ext. intros b s2.
    rewrite !bind_assoc. apply bind_ext. intros d s3.
    rewrite !bind_assoc. apply bind_ext. intros e s4. done. }
  erewrite bind_ok by apply R.
  rewrite len_child_bytes.
  erewrite bind_ok by (apply align_loop_done; simpl; [zlia|len_lia]).
  unfold ret, adopt. simpl. by rewrite i64_u64, i32_u32.
Qed.

Lemma container_loop handle msg children pre post s :
  Forall child_ok children -> len pre mod 4 = 0 ->
  for_n (len children) (container_round handle msg)
    (TLReader (pre ++ concat (map child_bytes children) ++ post) (len pre)) s =
  (x <- run_children handle (map (adopt msg) children) ;;
   match x with
   | Some res => ret (inr res)
   | None => ret (inl (TLReader (pre ++ concat (map child_bytes children) ++ post)
                        (len pre + len (concat (map child_bytes children)))))
   end) s.
Proof.
  intros Hc. revert pre s. induction Hc as [|c cs Hc Hcs IH]; intros pre s Hpre.
  { simpl. rewrite len_nil, Z.add_0_r. done. }
  rewrite len_cons, for_n_succ by apply len_nonneg.
  cbn [map concat run_children]. rewrite <- app_assoc. unfold rounds. unfold container_round at 1.
  rewrite !bind_assoc, on_bind, read_child_bytes by done. rewrite !bind_assoc. cbn [fst snd].
  apply bind_ext. intros [res|] s1; [done|]. rewrite bind_ret.
  destruct Hc as (_ & _ & _ & H4).
  specialize (IH (pre ++ child_bytes c) s1). rewrite <- !app_assoc, !len_app in IH.
  rewrite IH by (rewrite len_child_bytes; zlia).
  apply bind_ext. intros [res|] s2; [done|]. rewrite len_app.
  by rewrite Z.add_assoc.
Qed.

Lemma run_children_ext h1 h2 children s :
  (forall c s, In c children -> h1 c s = h2 c s) -> run_children h1 children s = run_children h2 children s.
Proof.
  revert s. induction children as [|c cs IH]; intros s H; [done|]. simpl.
  unfold bind. rewrite H by (by left). destruct (h2 c s) as [[[x|]|?|] s']; try done.
  apply IH. intros. apply H. by right.
Qed.

(** C20. Containers (invoke.go, [handleMessage]): a msg_container of any number
    of well-formed messages is handled exactly as its messages one after the
    other: each sees the session as the previous ones left it (a new salt
    included), the first that gives the result or an error ends the sequence,
    and the messages after it are not looked at. *)
Theorem handle_container (gunzip : list byte -> outcome (list byte)) (req : Z)
    (msg : encryptedMessage) (children : list encryptedMessage) (s : encryptedState) :
  Forall child_ok children -> is_u32 (len children) -> em_Body msg = container_body children ->
  handle gunzip req msg s = run_children (handle gunzip req) (map (adopt msg) children) s.
Proof.
  intros Hc Hn Hb. unfold handle. rewrite Hb.
  assert (Hlen : len (container_body children) = 8 + len (concat (map child_bytes children)))
    by (unfold container_body; len_lia).
  cbn [handleMessage]. rewrite Hb.
  rewrite (proj2 (Z.ltb_ge _ 4)) by (rewrite Hlen; len_lia).
  change ((guard (negb false) ?e ;; ?k) s) with (k s).
  assert (E1 : tl_int (newTLReader (container_body children)) =
               (Ok constructorMsgContainer, TLReader (container_body children) 4)).
  { unfold container_body. by rewrite (reads_run _ _ _ _ (reads_int _)). }
  assert (E2 : tl_int (TLReader (container_body children) 4) =
               (Ok (len children), TLReader (container_body children) 8)).
  { pose proof (reads_int (len children) (le_bytes 4 constructorMsgContainer)
      (concat (map child_bytes children))) as R. by rewrite u32_id in R. }
  rewrite on_bind, E1. cbn iota beta zeta.
  change (constructorMsgContainer =? constructorMsgContainer) with true. cbn iota.
  rewrite on_bind, E2. cbn iota beta zeta. clear E1 E2.
  pose proof (container_loop (handleMessage gunzip (length (container_body children)) req) msg children
    (le_bytes 4 constructorMsgContainer ++ le_bytes 4 (len children)) [] s Hc) as L.
  rewrite app_nil_r, <- app_assoc in L.
  rewrite len_app in L. specialize (L eq_refl). fold (container_body children) in L.
  change (len (le_bytes 4 constructorMsgContainer) + len (le_bytes 4 (len children))) with 8 in L.
  unfold bind at 1. rewrite L. clear L. unfold bind.
  rewrite (run_children_ext (handleMessage gunzip (length (container_body children)) req)
             (handle gunzip req)).
  - unfold handle. by destruct (run_children _ _ s) as [[[x|]|?|] s'].
  - intros c s' Hin. unfold handle. apply handleMessage_fuel; [|lia].
    apply in_map_iff in Hin as (c0 & <- & Hin). simpl.
    assert (G : len (em_Body c0) <= len (concat (map child_bytes children))).
    { clear -Hin. induction children as [|c cs IH]; [done|]. cbn [map concat]. rewrite len_app, len_child_bytes.
      len_nonneg_all. destruct Hin as [->|Hin]; [lia|]. specialize (IH Hin). lia. }
    unfold len in *. lia.
Qed.

Definition demo_gunzip : list byte -> outcome (list byte) := fun _ => Err (ErrEnv "gzip").
Definition demo_children : list encryptedMessage :=
  [EncryptedMessage 0 0 1 0 (le_bytes 4 constructorNewSessionCreated ++ le_bytes 8 3 ++ le_bytes 8 4 ++ le_bytes 8 77);
   EncryptedMessage 0 0 5 1 (le_bytes 4 constructorRpcResult ++ le_bytes 8 44 ++ le_bytes 4 0x12345678);
   EncryptedMessage 0 0 9 1 (le_bytes 4 constructorBadMsgNotification)].

Lemma handle_container_witness :
  handle demo_gunzip 44 (EncryptedMessage 1 2 100 3 (container_body demo_children)) demo_state =
    run_children (handle demo_gunzip 44)
      (map (adopt (EncryptedMessage 1 2 100 3 (container_body demo_children))) demo_children) demo_state /\
  handle demo_gunzip 44 (EncryptedMessage 1 2 100 3 (container_body demo_children)) demo_state =
    (Ok (Some (new_result 5 0x12345678 (le_bytes 4 0x12345678) false)), set_salt 77 demo_state).
Proof.
  split; [|vm_compute; reflexivity].
  apply (handle_container demo_gunzip 44 (EncryptedMessage 1 2 100 3 (container_body demo_children))
           demo_children demo_state); [|vm_compute; intuition congruence|reflexivity].
  repeat constructor; vm_compute; congruence.
Defined.

(** ** The invocation loop is safe *)

Lemma conn_ReadFull_spec n (P : conn -> Prop) k :
  0 <= n ->
  hoare (fun c => len (c_in c) = k) (conn_ReadFull n)
    (fun bs c => len bs = n /\ len (c_in c) = k - n) (fun _ => True).
Proof.
  intros Hn c Hc. unfold conn_ReadFull. destruct (Z.leb_spec n (len (c_in c))); [|done].
  simpl. rewrite !len_sub by lia. lia.
Qed.

(** Reading a packet cannot panic and shortens the stream. *)
Lemma abridgedRead_spec k :
  hoare (fun c => len (c_in c) = k) abridgedRead (fun _ c => len (c_in c) < k) (fun _ => True).
Proof.
  unfold abridgedRead.
  eapply hoare_bind; [by apply (conn_ReadFull_spec 1 (fun _ => True) k)|intros first].
  apply hoare_pure. intros H1.
  eapply hoare_bind.
  { apply hoare_lift; [|done]. destruct (index_ok first 0) as (x & -> & _); [lia|done]. }
  intros b. apply hoare_pure. intros _.
  eapply (hoare_bind _ _ _ (fun _ c => len (c_in c) <= k - 1)).
  - destruct (b2z b =? 127); [|intros c Hc; simpl; lia].
    eapply hoare_bind; [by apply (conn_ReadFull_spec 3 (fun _ => True))|intros ext].
    apply hoare_pure. intros H3.
    destruct (index_ok ext 0) as (x & Ex & _); [lia|].
    destruct (index_ok ext 1) as (y & Ey & _); [lia|].
    destruct (index_ok ext 2) as (z & Ez & _); [lia|].
    intros c Hc. rewrite (bind_lift_ok _ _ _ _ Ex), (bind_lift_ok _ _ _ _ Ey), (bind_lift_ok _ _ _ _ Ez).
    simpl. lia.
  - intros length. eapply hoare_bind; [by apply hoare_guard|intros ?; apply hoare_pure; intros Hl].
    intros c Hc. destruct (Z.leb_spec length 0); [done|].
    pose proof (conn_ReadFull_spec (length * 4) (fun _ => True) (len (c_in c)) ltac:(lia) c eq_refl) as R.
    destruct (conn_ReadFull _ c) as [[bs|?|] c']; [|done|done]. lia.
Qed.

Lemma abridgedWrite_returns payload c : fst (abridgedWrite payload c) <> Panic.
Proof.
  unfold abridgedWrite, bind, guard, ret, fail, conn_Write.
  destruct (_ =? 0); [|done]. destruct (_ <? 127); [|destruct (negb _); [|done]];
    destruct (c_fail c) as [|[|] [|[|] ?]]; done.
Qed.

Section InvokeSafety.
Variable gunzip : list byte -> outcome (list byte).
Hypothesis gunzip_returns : forall d, gunzip d <> Panic.
Variable e0 : encryptedState.

(** The session after [k] more requests than [e0]: same key and session id. *)
Definition sess (k : Z) (e : encryptedState) : Prop :=
  es_wf e /\ es_authKey e = es_authKey e0 /\ es_authKeyID e = es_authKeyID e0 /\
  es_sessionID e = es_sessionID e0 /\ es_seq e = i32 (es_seq e0 + k).

Definition busy (k : Z) (s : encryptedState * world) : Prop := sess k (fst s).
Definition idle (k : Z) (s : encryptedState * world) : Prop :=
  sess k (fst s) /\ w_deadline (snd s) = None.
Definition pending (s : encryptedState * world) : Z := len (c_in (w_conn (snd s))).

(** Re-establish the ranges field by field. *)
Ltac wf_split :=
  unfold sess, es_wf, is_u64, is_i64, is_i32 in *; cbn; split_and!; tauto || lia.

Lemma sess_salted k e e' : sess k e -> salted e e' -> sess k e'.
Proof. intros ((H1 & H2 & H3 & H4 & H5 & H6 & H7) & K) (x & Hx & ->). wf_split. Qed.
Lemma sess_lastMsgID k e m : is_i64 m -> sess k e -> sess k (set_lastMsgID m e).
Proof. intros Hm ((H1 & H2 & H3 & H4 & H5 & H6 & H7) & K). wf_split. Qed.
Lemma sess_offset k e m : is_i64 m -> sess k e -> sess k (set_offset m e).
Proof. intros Hm ((H1 & H2 & H3 & H4 & H5 & H6 & H7) & K). wf_split. Qed.
Lemma sess_next k e : sess k e -> sess (k + 1) (set_seq (i32 (es_seq e + 1)) e).
Proof.
  intros ((H1 & H2 & H3 & H4 & H5 & H6 & H7) & K1 & K2 & K3 & K4).
  assert (Hs : i32 (es_seq e + 1) = i32 (es_seq e0 + (k + 1))) by (rewrite K4; clear; zlia).
  pose proof (i32_range (es_seq e + 1)). wf_split.
Qed.

(** Steps on one half of the state. *)
Lemma hoare_on_es {A} k (m : M encryptedState A) :
  (forall e, sess k e -> hoare (fun t => t = e) m (fun _ => sess k) (sess k)) ->
  hoare (busy k) (on_es m) (fun _ => busy k) (busy k).
Proof. intros H. apply hoare_zoom. intros s Hs. by apply H. Qed.

Lemma hoare_on_world {A} k (m : M world A) :
  (forall w, fst (m w) <> Panic) -> hoare (busy k) (on_world m) (fun _ => busy k) (busy k).
Proof.
  intros H s Hs. specialize (H (snd s)). unfold on_world, zoom.
  by destruct (m (snd s)) as [[a|e|] w].
Qed.

Lemma zoom_no_panic {S T A} (g : S -> T) (u : T -> S -> S) (m : M T A) s :
  fst (m (g s)) <> Panic -> fst (zoom g u m s) <> Panic.
Proof. unfold zoom. by destruct (m (g s)) as [o t]. Qed.

(** An error path that ran through [clearing] leaves no deadline. *)
Lemma hoare_clearing {A} k P (m : IO A) Q :
  hoare P m Q (busy k) -> hoare P (clearing m) Q (idle k).
Proof.
  intros Hm. unfold clearing. eapply hoare_bind; [by apply hoare_try|].
  intros [a|e]; [by intros s Hs|]. by intros s Hs.
Qed.

Lemma read_message_safe k n :
  hoare (fun s => busy k s /\ pending s = n) read_message
    (fun _ s => busy k s /\ pending s < n) (idle k).
Proof.
  unfold read_message. apply (hoare_bind _ _ _ (fun _ s => busy k s /\ pending s < n)).
  - apply hoare_clearing. intros [e w] [Hs Hn]. unfold on_world, on_conn, zoom. simpl.
    pose proof (abridgedRead_spec n (w_conn w) Hn) as R.
    destruct (abridgedRead (w_conn w)) as [[p|?|] c]; [|done|done]. done.
  - intros payload. apply hoare_clearing. intros [e w] [Hs Hn]. simpl.
    unfold on_es, zoom, bind, get, lift. simpl.
    pose proof (parseEncryptedPacket_returns e payload (proj1 Hs)).
    by destruct (parseEncryptedPacket e payload).
Qed.

Lemma handle_safe k n req msg :
  hoare (fun s => busy k s /\ pending s < n) (on_es (handle gunzip req msg))
    (fun _ s => busy k s /\ pending s < n) (busy k).
Proof.
  intros [e w] [Hs Hn]. unfold on_es, zoom. simpl in *.
  assert (H0 : salted e e) by (exists (es_serverSalt e); split; [apply Hs|by destruct e]).
  pose proof (handleMessage_safe gunzip gunzip_returns (S (length (em_Body msg))) req msg e e H0) as R.
  unfold handle. destruct (handleMessage _ _ _ _ e) as [[a|?|] e']; [| |done].
  - split; [|done]. by eapply sess_salted.
  - by eapply sess_salted.
Qed.

Lemma adjust_sess k now req code e :
  sess k e -> sess k (adjustTimeOffsetFromBadMessage now req code e).
Proof.
  intros H. unfold adjustTimeOffsetFromBadMessage.
  destruct (_ || _); [done|]. destruct (_ =? 0); [done|]. apply sess_offset; [apply i64_range|done].
Qed.

Lemma after_error_safe k req err :
  hoare (busy k) (after_error req err) (fun _ => idle k) (idle k).
Proof.
  intros [e w] Hs. unfold after_error, bind at 1, on_world at 1, zoom. simpl.
  destruct (as_BadServerSalt err) as [?|]; [done|].
  destruct (as_BadMessage err) as [[[id seq] code]|]; [|done].
  destruct (isRetriableBadMessageCode code); [|done].
  destruct (_ || _); [|done]. split; [|done]. simpl. by apply adjust_sess.
Qed.

Lemma read_loop_safe k fuel req :
  hoare (fun s => busy k s /\ pending s < Z.of_nat fuel) (read_loop gunzip fuel req)
    (fun _ => idle k) (idle k).
Proof.
  induction fuel as [|fuel IH]; simpl.
  { intros s [_ H]. unfold pending in H. len_lia. }
  intros s [Hs Hn].
  enough (G : hoare (fun s' => busy k s' /\ pending s' = pending s)
    (msg <- read_message ;; r <- try (on_es (handle gunzip req msg)) ;;
      match r with
      | inr err => after_error req err
      | inl (Some result) =>
          on_world (conn_SetDeadline None) ;; ret (Finished (set_request req result))
      | inl None => read_loop gunzip fuel req
      end) (fun _ => idle k) (idle k)) by (by apply G).
  eapply hoare_bind; [apply read_message_safe|intros msg].
  eapply hoare_bind; [eapply hoare_try, handle_safe|intros [[result|]|err]].
  - by intros [e w] [H _].
  - intros s' [H Hp]. apply IH. split; [done|lia].
  - apply after_error_safe.
Qed.

Lemma buildEncryptedPacket_returns e msgID seqNo body rng :
  es_wf e -> fst (buildEncryptedPacket e msgID seqNo body rng) <> Panic.
Proof.
  intros (Hk & _). unfold buildEncryptedPacket. set (plain := envelope_plain _ _ _ _ _).
  destruct (paddingLen_spec (len plain) (len_nonneg plain)) as [Hpad Hmod].
  unfold bind. destruct (rng_Read (paddingLen (len plain)) rng) as [[padding|?|] rng'] eqn:Er; [|done|].
  - apply rng_Read_inv in Er; [|lia].
    destruct (open_seal (es_authKey e) (es_authKeyID e) 0 (plain ++ padding) Hk ltac:(lia))
      as (msgKey & c & Es & _); [by rewrite len_app, Er|]. unfold lift. by rewrite Es.
  - unfold rng_Read in Er. by destruct (_ <=? _).
Qed.

Lemma nextMsgID_sess k now e :
  sess k e -> exists m e', nextMsgID now e = (Ok m, e') /\ sess k e'.
Proof.
  intros H. unfold nextMsgID, bind, get. cbv zeta. destruct (_ <? _).
  - do 2 eexists. split; [done|]. apply sess_lastMsgID; [apply nextMessageID_i64|done].
  - do 2 eexists. split; [done|]. apply sess_lastMsgID; [apply i64_range|done].
Qed.

(** The deadline before the attempt stays when nothing was sent. *)
Definition idle_but (d : option Z) (k : Z) (s : encryptedState * world) : Prop :=
  sess k (fst s) /\ (w_deadline (snd s) = None \/ w_deadline (snd s) = d).

Lemma one_attempt_safe d k ctx body :
  hoare (idle_but d k) (one_attempt gunzip ctx body) (fun _ => idle (k + 1)) (idle_but d (k + 1)).
Proof.
  intros [e w] [Hs Hd]. simpl in *. unfold one_attempt.
  unfold bind at 1, on_world at 1, zoom at 1, time_Now at 1. cbn [fst snd].
  set (w1 := World _ _ _ _ _).
  destruct (nextMsgID_sess k (w_clock w (w_tick w)) e Hs) as (m & e1 & E1 & H1).
  unfold bind at 1, on_es at 1, zoom at 1. cbn [fst snd]. rewrite E1. cbn [fst snd].
  unfold bind at 1, on_es at 1, zoom at 1. cbn [fst snd].
  assert (E2 : nextSeqNo true e1 = (Ok (i32 (i32 (es_seq e1 * 2) + 1)), set_seq (i32 (es_seq e1 + 1)) e1))
    by done.
  rewrite E2. clear E2. cbn [fst snd]. set (seqNo := i32 _). apply sess_next in H1. set (e2 := set_seq _ e1) in *.
  unfold bind at 1, on_es at 1, zoom at 1, get at 1. cbn [fst snd].
  pose proof (buildEncryptedPacket_returns e2 m seqNo body (w_rng w1) (proj1 H1)) as Hb.
  unfold bind at 1, on_world at 1, on_rng at 1, zoom. cbn [fst snd].
  destruct (buildEncryptedPacket e2 m seqNo body (w_rng w1)) as [[packet|err|] rng]; [|done|done].
  set (w2 := set_rng rng w1).
  enough (G : hoare (busy (k + 1)) (set_rpc_deadline ctx ;;
      clearing (on_world (on_conn (abridgedWrite packet))) ;;
      w <- on_world get ;; read_loop gunzip (S (length (c_in (w_conn w)))) m)
      (fun _ => idle (k + 1)) (idle (k + 1))).
  { specialize (G (e2, w2) H1). destruct ((_ ;; _) (e2, w2)) as [[r|err|] s']; [done| |done]. destruct G. split; [done|by left]. }
  eapply (hoare_bind _ _ _ (fun _ => busy (k + 1))).
  { unfold set_rpc_deadline. intros [e3 w3] H3. by destruct ctx. }
  intros ?. eapply (hoare_bind _ _ _ (fun _ => busy (k + 1))).
  { apply hoare_clearing, hoare_on_world. intros w3. apply zoom_no_panic, abridgedWrite_returns. }
  intros ? [e3 w3] H3. unfold bind, on_world at 1, zoom at 1, get at 1. cbn [fst snd].
  apply read_loop_safe. split; [done|]. unfold pending, len. cbn [fst snd]. lia.
Qed.

Lemma attempts_safe n k ctx body last :
  hoare (idle k) (attempts gunzip n ctx body last)
    (fun _ s => exists j, k < j <= k + Z.of_nat n /\ idle j s)
    (fun s => exists j, k <= j <= k + Z.of_nat n /\ idle j s).
Proof.
  revert k last. induction n as [|n IH]; intros k last; simpl.
  { apply hoare_fail. intros s Hs. exists k. split; [lia|done]. }
  eapply hoare_bind.
  - eapply hoare_conseq; [apply (one_attempt_safe None)| |intros a s H; exact H|]; simpl.
    + intros s [H1 H2]. split; [done|by left].
    + intros s [H1 H2]. exists (k + 1). split; [lia|]. split; [done|by destruct H2].
  - intros [err|result].
    + eapply hoare_conseq; [apply IH|done| |]; simpl; intros; destruct_and?;
        repeat match goal with H : exists _, _ |- _ => destruct H as (j & Hj & ?) end;
        exists j; (split; [lia|done]).
    + intros s H. exists (k + 1). split; [lia|done].
Qed.

(** Also with a deadline set on the connection. *)
Lemma attempts_returns d n k ctx body last :
  hoare (idle_but d k) (attempts gunzip n ctx body last) (fun _ _ => True) (fun _ => True).
Proof.
  revert k last. induction n as [|n IH]; intros k last; simpl; [by apply hoare_fail|].
  eapply hoare_bind; [eapply hoare_conseq; [apply (one_attempt_safe d)|done|intros a s H; exact H|done]|].
  intros [err|result]; [|done]. eapply hoare_conseq; [apply IH| |done|done].
  intros s [H1 H2]. split; [done|by left].
Qed.

(** Each round of the read loop shortens the stream, so any fuel above its
    length gives the same run. *)
Lemma read_loop_fuel k f1 f2 req s :
  busy k s -> pending s < Z.of_nat f1 -> pending s < Z.of_nat f2 ->
  read_loop gunzip f1 req s = read_loop gunzip f2 req s.
Proof.
  revert f2 s. induction f1 as [|f1 IH]; intros f2 s Hs H1 H2.
  { unfold pending in H1. len_lia. }
  destruct f2 as [|f2]; [unfold pending in H2; len_lia|]. simpl.
  pose proof (read_message_safe k (pending s) s (conj Hs eq_refl)) as R.
  apply bind_ext_ok. intros msg s1 E. rewrite E in R. clear E.
  pose proof (hoare_try _ _ _ _ (fun _ => True) (handle_safe k (pending s) req msg) s1 R) as T.
  apply bind_ext_ok. intros [[result|]|err] s2 E; [done| |done]. rewrite E in T.
  destruct T as [Hs2 Hp]. apply IH; [done|lia|lia].
Qed.
End InvokeSafety.



(** C11. Invocation (invoke.go, [invoke]): from a well-formed session on an idle
    connection, whatever bytes the peer sends, whatever writes fail and whatever
    the clock and the random source deliver, [invoke] returns without a panic;
    it used at most three sequence numbers (so at most three requests), changed
    neither key nor session id, left every session field in the range of its Go
    type, and on every path cleared the deadline it set on the connection. *)
Theorem invoke_safe (gunzip : list byte -> outcome (list byte)) (e : encryptedState) (w : world)
    (ctx_deadline : option Z) (body : list byte) :
  (forall d, gunzip d <> Panic) -> es_wf e -> w_deadline w = None ->
  let '(o, (e', w')) := invoke gunzip ctx_deadline body (e, w) in
  o <> Panic /\ es_wf e' /\ w_deadline w' = None /\
  es_authKey e' = es_authKey e /\ es_authKeyID e' = es_authKeyID e /\
  es_sessionID e' = es_sessionID e /\
  exists k, 0 <= k <= 3 /\ es_seq e' = i32 (es_seq e + k).
Proof.
  intros Hg He Hd.
  assert (H0 : idle e 0 (e, w)).
  { split; [|done]. split; [done|]. cbn. rewrite Z.add_0_r, i32_id by apply He. done. }
  pose proof (attempts_safe gunzip Hg e 3 0 ctx_deadline body None (e, w) H0) as R.
  unfold invoke. destruct (attempts _ _ _ _ _ _) as [[r|err|] [e' w']]; [| |done].
  all: destruct R as (j & Hj & ((Hwf & K1 & K2 & K3 & K4) & Hd')); cbn [fst snd] in *.
  all: do 6 (split; [done|]); exists j; split; [lia|done].
Qed.

Definition demo_world (inp : list byte) : world :=
  World (Conn inp [] []) (replicate 200 x5a) (fun n => 1700000000000000000 + Z.of_nat n) 0 None.

Lemma invoke_safe_witness :
  let '(o, (e', w')) := invoke demo_gunzip None [x01; x02; x03; x04] (demo_state, demo_world (xef :: replicate 30 x00)) in
  o <> Panic /\ es_wf e' /\ w_deadline w' = None /\
  es_authKey e' = es_authKey demo_state /\ es_authKeyID e' = es_authKeyID demo_state /\
  es_sessionID e' = es_sessionID demo_state /\
  exists k, 0 <= k <= 3 /\ es_seq e' = i32 (es_seq demo_state + k).
Proof.
  apply (invoke_safe demo_gunzip demo_state (demo_world (xef :: replicate 30 x00)) None [x01; x02; x03; x04]);
    [done|vm_compute; intuition congruence|reflexivity].
Defined.

(** ** Waiting and migration errors *)

Lemma clean_graphic s : forallb graphic (bytes_of s) = true -> cleanRPCErrorMessage s = s.
Proof.
  intros H. unfold cleanRPCErrorMessage, TrimSpace, drop_nul. rewrite bytes_of_string_of.
  by rewrite filter_nul_graphic, trim_graphic, string_of_bytes_of.
Qed.

Lemma graphic_app a b :
  forallb graphic (bytes_of a) = true -> forallb graphic (bytes_of b) = true ->
  forallb graphic (bytes_of (a ++ b)%string) = true.
Proof. intros. rewrite bytes_of_app, forallb_app. by apply andb_true_intro. Qed.

(** Two prefixes that differ within the shorter one exclude each other. *)
Lemma HasPrefix_other p q s :
  strip_prefix (bytes_of p) (bytes_of q ++ bytes_of s) = None -> HasPrefix (q ++ s)%string p = false.
Proof. unfold HasPrefix. rewrite bytes_of_app. by intros ->. Qed.

(** FLOOD_WAIT and migration errors (invoke.go, [FloodWaitDuration],
    [MigrationDCID]): whatever wraps it, an rpc_error FLOOD_WAIT_n yields a wait
    of exactly n seconds as long as that fits a [time.Duration], and an error
    X_MIGRATE_n of the four kinds, with n positive, yields exactly n. *)
Theorem wait_and_migration_parsed (err : goerr) (code n : Z) (p : string) :
  In p migration_prefixes -> 0 < n < two63 ->
  (as_RPCError err = Some (code, "FLOOD_WAIT_" ++ FormatInt n)%string -> n * second < two63 ->
     FloodWaitDuration err = Some (n * second) /\ MigrationDCID err = None) /\
  (as_RPCError err = Some (code, p ++ FormatInt n)%string ->
     MigrationDCID err = Some n /\ FloodWaitDuration err = None).
Proof.
  intros Hp Hn.
  assert (Ha : Atoi (FormatInt n) = Ok n) by (apply ParseInt64_FormatInt; unfold_words; lia).
  assert (Hg : forallb graphic (bytes_of p) = true).
  { simpl in Hp. by repeat destruct Hp as [<-|Hp]. }
  split; intros E.
  - intros Hs. unfold FloodWaitDuration, MigrationDCID. rewrite E.
    rewrite clean_graphic by (by apply graphic_app, graphic_FormatInt).
    rewrite HasPrefix_app, TrimPrefix_app, Ha. cbn [negb].
    rewrite (proj2 (Z.ltb_ge n 0)), i64_id by (unfold second in *; unfold_words; lia).
    split; [done|]. unfold migration_prefixes. cbn [migration_loop].
    by rewrite !HasPrefix_other by done.
  - unfold FloodWaitDuration, MigrationDCID. rewrite E.
    rewrite clean_graphic by (by apply graphic_app, graphic_FormatInt).
    assert (Hl : migration_loop migration_prefixes (p ++ FormatInt n) = Some n).
    { unfold migration_prefixes. simpl in Hp. repeat destruct Hp as [<-|Hp]; [..|done];
        cbn [migration_loop]; rewrite ?HasPrefix_other by done;
        by rewrite HasPrefix_app, TrimPrefix_app, Ha, (proj2 (Z.ltb_lt 0 n)) by lia. }
    rewrite Hl. split; [done|].
    assert (Hf : HasPrefix (p ++ FormatInt n)%string "FLOOD_WAIT_" = false).
    { simpl in Hp. by repeat destruct Hp as [<-|Hp]; [..|done]; apply HasPrefix_other. }
    by rewrite Hf.
Qed.

Lemma wait_and_migration_parsed_witness :
  let flood := ErrWrap "login: %w" [] (ErrRPC 420 "FLOOD_WAIT_30") in
  let migrate := ErrRPC 303 "PHONE_MIGRATE_4" in
  (FloodWaitDuration flood = Some 30000000000 /\ MigrationDCID flood = None) /\
  (MigrationDCID migrate = Some 4 /\ FloodWaitDuration migrate = None).
Proof.
  split.
  - apply (wait_and_migration_parsed (ErrWrap "login: %w" [] (ErrRPC 420 "FLOOD_WAIT_30")) 420 30
             "USER_MIGRATE_"); [by left|done|reflexivity|reflexivity].
  - apply (wait_and_migration_parsed (ErrRPC 303 "PHONE_MIGRATE_4") 303 4 "PHONE_MIGRATE_");
      [right; by left|done|reflexivity].
Defined.

(** A wait beyond the range of [time.Duration] wraps around, to a negative one
    for instance. *)
Example flood_wait_wraps :
  FloodWaitDuration (ErrRPC 420 "FLOOD_WAIT_9223372037") = Some (-9223372036709551616).
Proof. vm_compute. reflexivity. Qed.

