(* ===== verification/Queries.v ===== *)
(** * Queries: the TL functions the client sends
    (src/mtproto/client.go, highlevel.go, account.go)

    Input peers and users, and one builder per API method.  A builder that draws
    a random id runs in [M world].  [wire] specifications at the end say what
    the server reads from the built bytes. *)

From S2P Require Import Prelude Strings TL Transport Hash AES Crypto Envelope Invoke.

Definition constructorAuthImportBotAuthorization := 0x67a3ff2c.
Definition constructorMessagesSendMessage := 0xfe05dc9a.
Definition constructorMessagesEditMessage := 0xdfd14005.
Definition constructorMessagesDeleteMessages := 0xe58e95d2.
Definition constructorInputPeerEmpty := 0x7f3b18ea.
Definition constructorInputPeerSelf := 0x7da07ec9.
Definition constructorInputPeerChat := 0x35a95cb9.
Definition constructorInputPeerUser := 0xdde8a54c.
Definition constructorInputPeerChannel := 0x27bcbbfc.
Definition constructorUsersGetUsers := 0x0d91a548.
Definition constructorContactsResolveUser := 0x725afbbc.
Definition constructorContactsResolvedPeer := 0x7f077ad9.
Definition constructorInputUserSelf := 0xf7c1b13f.
Definition constructorInputUser := 0xf21158c6.
Definition constructorInputReplyToMessage := 0x869fbe10.
Definition constructorMessagesForward := 0x978928ca.
Definition constructorMessagesGetHistory := 0x4423e6c5.
Definition constructorChannelsDelete := 0x84c1fd4e.
Definition constructorInputChannel := 0xf35aec28.
Definition constructorAuthSendCode := 0xa677244f.
Definition constructorAuthSignIn := 0x8d52a951.
Definition constructorCodeSettings := 0xad253d78.

(** ** Input peers and users *)

Record InputPeer := MkInputPeer { ip_kind : string; ip_id : Z; ip_accessHash : Z }.

Definition InputPeerSelf : InputPeer := MkInputPeer "self" 0 0.
Definition InputPeerChat (chatID : Z) : InputPeer := MkInputPeer "chat" chatID 0.
Definition InputPeerUser (userID accessHash : Z) : InputPeer := MkInputPeer "user" userID accessHash.
Definition InputPeerChannel (channelID accessHash : Z) : InputPeer :=
  MkInputPeer "channel" channelID accessHash.

(** [p.encode(&b)] appends to the buffer or returns an error. *)
Definition InputPeer_encode (p : InputPeer) (b : tlBuffer) : outcome tlBuffer :=
  if (ip_kind p =? "self")%string then Ok (b |> putInt constructorInputPeerSelf)
  else if (ip_kind p =? "chat")%string then
    if ip_id p =? 0 then Err (ErrNew "inputPeerChat requires chat id")
    else Ok (b |> putInt constructorInputPeerChat |> putLong (u64 (ip_id p)))
  else if (ip_kind p =? "user")%string then
    if (ip_id p =? 0) || (ip_accessHash p =? 0)
    then Err (ErrNew "inputPeerUser requires user id and access hash")
    else Ok (b |> putInt constructorInputPeerUser |> putLong (u64 (ip_id p))
             |> putLong (u64 (ip_accessHash p)))
  else if (ip_kind p =? "channel")%string then
    if (ip_id p =? 0) || (ip_accessHash p =? 0)
    then Err (ErrNew "inputPeerChannel requires channel id and access hash")
    else Ok (b |> putInt constructorInputPeerChannel |> putLong (u64 (ip_id p))
             |> putLong (u64 (ip_accessHash p)))
  else Err (ErrNew "unknown input peer kind").

Record InputUser := MkInputUser { iu_kind : string; iu_id : Z; iu_accessHash : Z }.

Definition InputUserSelf : InputUser := MkInputUser "self" 0 0.
Definition InputUserID (userID accessHash : Z) : InputUser := MkInputUser "user" userID accessHash.

Definition InputUser_encode (u : InputUser) (b : tlBuffer) : outcome tlBuffer :=
  if (iu_kind u =? "self")%string then Ok (b |> putInt constructorInputUserSelf)
  else if (iu_kind u =? "user")%string then
    if (iu_id u =? 0) || (iu_accessHash u =? 0)
    then Err (ErrNew "inputUser requires user id and access hash")
    else Ok (b |> putInt constructorInputUser |> putLong (u64 (iu_id u))
             |> putLong (u64 (iu_accessHash u)))
  else Err (ErrNew "unknown input user kind").

(** A peer found in an update, with the data needed to address it
    (src/mtproto/peers.go). *)
Record PeerRef := MkPeerRef {
  pr_ID : Z; pr_AccessHash : Z; pr_Kind : string; pr_Title : string; pr_Username : string }.

(** ** Options *)

Record SendOptions := MkSendOptions {
  so_ReplyToMessageID : Z; so_Silent : bool; so_NoWebpage : bool; so_Background : bool }.
Record EditOptions := MkEditOptions { eo_NoWebpage : bool }.
Record ForwardOptions := MkForwardOptions {
  fo_Silent : bool; fo_DropAuthor : bool; fo_DropMediaCaptions : bool }.

(** [if cond { flags |= 1 << bit }] *)
Definition flag (cond : bool) (bit : Z) (flags : Z) : Z :=
  if cond then Z.lor flags (Z.shiftl 1 bit) else flags.

(** ** Builders *)

(** A random id that is never zero: the clock replaces a failed or zero draw. *)
Definition randomInt64 : M world Z :=
  r <- try (on_rng (rng_Read 8)) ;;
  match r with
  | inl b => let v := i64 (le_value b) in if v =? 0 then time_Now else ret v
  | inr _ => time_Now
  end.

Definition put_ids (ids : list Z) (b : tlBuffer) : tlBuffer :=
  fold_left (fun b id => putInt (u32 id) b) ids b.

Definition put_vector_header (n : Z) (b : tlBuffer) : tlBuffer :=
  b |> putInt constructorVector |> putInt (u32 n).

Definition wrapWithLayerAndInitConnection (apiID : Z) (appVersion : string) (query : list byte)
  : list byte :=
  let init := tb_empty |> putInt constructorInitConnection |> putInt 0
              |> putInt (u32 (i32 apiID)) |> putString "MtProGo" |> putString "Go"
              |> putString appVersion |> putString "en" |> putString EmptyString
              |> putString "en" |> putRaw query in
  let invoke := tb_empty |> putInt constructorInvokeWithLayer
                |> putInt (u32 (i32 defaultAPILayer)) |> putRaw (tb_buf init) in
  tb_buf invoke.

Definition makeImportBotAuthorizationQuery (apiID : Z) (apiHash botToken : string) : list byte :=
  let inner := tb_empty |> putInt constructorAuthImportBotAuthorization |> putInt 0
               |> putInt (u32 (i32 apiID)) |> putString apiHash |> putString botToken in
  wrapWithLayerAndInitConnection apiID appVersionV12 (tb_buf inner).

Definition makeMessagesSendMessageQuery (peer : InputPeer) (text : string) : M world (list byte) :=
  b <- lift (InputPeer_encode peer
               (tb_empty |> putInt constructorMessagesSendMessage |> putInt 0)) ;;
  let b := b |> putString text in
  random_id <- randomInt64 ;;
  ret (tb_buf (b |> putLong (u64 random_id))).

Definition makeMessagesEditMessageQuery (peer : InputPeer) (messageID : Z) (text : string)
  : outcome (list byte) :=
  match InputPeer_encode peer
          (tb_empty |> putInt constructorMessagesEditMessage |> putInt (Z.shiftl 1 11)) with
  | Ok b => Ok (tb_buf (b |> putInt (u32 messageID) |> putString text))
  | Err e => Err e
  | Panic => Panic
  end.

Definition makeMessagesDeleteMessagesQuery (revoke : bool) (ids : list Z) : list byte :=
  let flags := if revoke then Z.lor 0 1 else 0 in
  let b := tb_empty |> putInt constructorMessagesDeleteMessages |> putInt flags
           |> put_vector_header (len ids) in
  tb_buf (put_ids ids b).

(** [_ = user.encode(&b)]: an error is dropped and the user left out. *)
Definition makeUsersGetUsersQuery (users : list InputUser) : list byte :=
  let b := tb_empty |> putInt constructorUsersGetUsers |> put_vector_header (len users) in
  tb_buf (fold_left (fun b u => match InputUser_encode u b with Ok b' => b' | _ => b end) users b).

Definition makeContactsResolveUsernameQuery (username : string) : list byte :=
  tb_buf (tb_empty |> putInt constructorContactsResolveUser |> putInt 0 |> putString username).

Definition send_flags (opts : SendOptions) : Z :=
  flag (so_Background opts) 6 (flag (so_Silent opts) 5 (flag (so_NoWebpage opts) 1
    (flag (0 <? so_ReplyToMessageID opts) 0 0))).

Definition makeMessagesSendMessageQueryWithOptions (peer : InputPeer) (text : string)
    (opts : SendOptions) : M world (list byte) :=
  b <- lift (InputPeer_encode peer
         (tb_empty |> putInt constructorMessagesSendMessage |> putInt (send_flags opts))) ;;
  let b := if 0 <? so_ReplyToMessageID opts then
             b |> putInt constructorInputReplyToMessage |> putInt 0
               |> putInt (u32 (i32 (so_ReplyToMessageID opts)))
           else b in
  let b := b |> putString text in
  random_id <- randomInt64 ;;
  ret (tb_buf (b |> putLong (u64 random_id))).

Definition makeMessagesEditMessageQueryWithOptions (peer : InputPeer) (messageID : Z)
    (text : string) (opts : EditOptions) : outcome (list byte) :=
  let flags := flag (eo_NoWebpage opts) 1 (Z.shiftl 1 11) in
  match InputPeer_encode peer
          (tb_empty |> putInt constructorMessagesEditMessage |> putInt flags) with
  | Ok b => Ok (tb_buf (b |> putInt (u32 messageID) |> putString text))
  | Err e => Err e
  | Panic => Panic
  end.

(** [for range ids { b.putLong(uint64(randomInt64())) }] *)
Fixpoint put_random_ids (ids : list Z) (b : tlBuffer) : M world tlBuffer :=
  match ids with
  | [] => ret b
  | _ :: rest => random_id <- randomInt64 ;; put_random_ids rest (b |> putLong (u64 random_id))
  end.

Definition forward_flags (opts : ForwardOptions) : Z :=
  flag (fo_DropMediaCaptions opts) 12 (flag (fo_DropAuthor opts) 11 (flag (fo_Silent opts) 5 0)).

Definition makeMessagesForwardMessagesQuery (from to : InputPeer) (ids : list Z)
    (opts : ForwardOptions) : M world (list byte) :=
  b <- lift (InputPeer_encode from
         (tb_empty |> putInt constructorMessagesForward |> putInt (forward_flags opts))) ;;
  b <- put_random_ids ids
         (put_ids ids (b |> put_vector_header (len ids)) |> put_vector_header (len ids)) ;;
  b <- lift (InputPeer_encode to b) ;;
  ret (tb_buf b).

Definition makeChannelsDeleteMessagesQuery (channel : PeerRef) (ids : list Z)
  : outcome (list byte) :=
  if (pr_ID channel =? 0) || (pr_AccessHash channel =? 0)
  then Err (ErrFmt "mtproto: channel %d is missing access data" [FZ (pr_ID channel)])
  else
    let b := tb_empty |> putInt constructorChannelsDelete |> putInt constructorInputChannel
             |> putLong (u64 (pr_ID channel)) |> putLong (u64 (pr_AccessHash channel))
             |> put_vector_header (len ids) in
    Ok (tb_buf (put_ids ids b)).

Definition makeMessagesGetHistoryQuery (peer : InputPeer) (limit : Z) : outcome (list byte) :=
  match InputPeer_encode peer (tb_empty |> putInt constructorMessagesGetHistory) with
  | Ok b => Ok (tb_buf (b |> putInt 0 |> putInt 0 |> putInt 0 |> putInt (u32 limit)
                          |> putInt 0 |> putInt 0 |> putLong 0))
  | Err e => Err e
  | Panic => Panic
  end.

Definition makeAuthSendCodeQuery (apiID : Z) (apiHash phoneNumber : string) : list byte :=
  let inner := tb_empty |> putInt constructorAuthSendCode |> putString phoneNumber
               |> putInt (u32 (i32 apiID)) |> putString apiHash
               |> putInt constructorCodeSettings |> putInt 0 in
  wrapWithLayerAndInitConnection apiID appVersionV12 (tb_buf inner).

Definition makeAuthSignInQuery (apiID : Z) (phoneNumber phoneCodeHash phoneCode : string) : list byte :=
  let inner := tb_empty |> putInt constructorAuthSignIn |> putInt 1 |> putString phoneNumber
               |> putString phoneCodeHash |> putString phoneCode in
  wrapWithLayerAndInitConnection apiID appVersionV12 (tb_buf inner).

(** ** What the server reads *)

(** The schema's InputPeer, for the four constructors the client uses. *)
Definition wire_peer : M tlReader InputPeer :=
  c <- tl_int ;;
  if c =? constructorInputPeerSelf then ret InputPeerSelf
  else if c =? constructorInputPeerChat then
    id <- tl_long ;; ret (InputPeerChat (i64 id))
  else if c =? constructorInputPeerUser then
    id <- tl_long ;; hash <- tl_long ;; ret (InputPeerUser (i64 id) (i64 hash))
  else if c =? constructorInputPeerChannel then
    id <- tl_long ;; hash <- tl_long ;; ret (InputPeerChannel (i64 id) (i64 hash))
  else fail (ErrNew "wire").

(** The peers the exported constructors can build. *)
Inductive built_peer : InputPeer -> Prop :=
| built_self : built_peer InputPeerSelf
| built_chat id : is_i64 id -> built_peer (InputPeerChat id)
| built_user id hash : is_i64 id -> is_i64 hash -> built_peer (InputPeerUser id hash)
| built_channel id hash : is_i64 id -> is_i64 hash -> built_peer (InputPeerChannel id hash).

(** Encoding a built peer fails only for missing data, and never for a
    reason of its own; what is written reads back as the peer. *)
Lemma InputPeer_encode_wire p b b' :
  built_peer p -> InputPeer_encode p b = Ok b' ->
  exists bs, tb_buf b' = tb_buf b ++ bs /\ reads wire_peer bs p.
Proof.
  intros Hp. destruct Hp as [|id Hi|id h Hi Hh|id h Hi Hh]; unfold InputPeer_encode;
    cbn [ip_kind ip_id ip_accessHash InputPeerSelf InputPeerChat InputPeerUser InputPeerChannel
         String.eqb Ascii.eqb Bool.eqb];
    [|destruct (id =? 0)|destruct ((id =? 0) || (h =? 0))|destruct ((id =? 0) || (h =? 0))];
    intros [= <-]; eexists; (split; [autorewrite with tl_buf; by rewrite <- ?app_assoc|]).
  - eapply reads_last; [apply reads_int|apply reads_ret].
  - eapply reads_bind; [apply reads_int|]. eapply reads_last; [apply reads_long|].
    autorewrite with words. apply reads_ret.
  - eapply reads_bind; [apply reads_int|]. eapply reads_bind; [apply reads_long|].
    eapply reads_last; [apply reads_long|]. autorewrite with words. apply reads_ret.
  - eapply reads_bind; [apply reads_int|]. eapply reads_bind; [apply reads_long|].
    eapply reads_last; [apply reads_long|]. autorewrite with words. apply reads_ret.
Qed.

(** Whether encoding succeeds depends on the peer alone. *)
Lemma InputPeer_encode_ok p b b' : is_ok (InputPeer_encode p b) = is_ok (InputPeer_encode p b').
Proof.
  unfold InputPeer_encode.
  repeat match goal with |- context [if ?c then _ else _] => destruct c end; done.
Qed.
Lemma InputPeer_encode_no_panic p b : InputPeer_encode p b <> Panic.
Proof.
  unfold InputPeer_encode.
  repeat match goal with |- context [if ?c then _ else _] => destruct c end; done.
Qed.

(** messages.sendMessage as the schema reads it, for the flags the client sets. *)
Record SendRequest := MkSendRequest {
  sr_peer : InputPeer; sr_reply : option Z; sr_text : string; sr_random_id : Z;
  sr_no_webpage : bool; sr_silent : bool; sr_background : bool }.

Definition wire_reply (flags : Z) : M tlReader (option Z) :=
  if Z.testbit flags 0 then
    c <- tl_int ;; guard (c =? constructorInputReplyToMessage) (ErrNew "wire") ;;
    f <- tl_int ;; guard (f =? 0) (ErrNew "wire") ;;
    id <- tl_int ;; ret (Some (i32 id))
  else ret None.

Definition wire_sendMessage : M tlReader SendRequest :=
  c <- tl_int ;; guard (c =? constructorMessagesSendMessage) (ErrNew "wire") ;;
  flags <- tl_int ;;
  peer <- wire_peer ;;
  reply <- wire_reply flags ;;
  text <- tl_string ;;
  random_id <- tl_long ;;
  ret (MkSendRequest peer reply text (i64 random_id)
         (Z.testbit flags 1) (Z.testbit flags 5) (Z.testbit flags 6)).

Lemma send_flags_bits opts :
  is_u32 (send_flags opts) /\
  Z.testbit (send_flags opts) 0 = (0 <? so_ReplyToMessageID opts) /\
  Z.testbit (send_flags opts) 1 = so_NoWebpage opts /\
  Z.testbit (send_flags opts) 5 = so_Silent opts /\
  Z.testbit (send_flags opts) 6 = so_Background opts.
Proof.
  unfold send_flags, flag. destruct (0 <? so_ReplyToMessageID opts);
    destruct opts as [r [] [] []]; vm_compute; intuition congruence.
Qed.

Lemma randomInt64_ok w :
  (forall n, is_i64 (w_clock w n)) ->
  exists v w', randomInt64 w = (Ok v, w') /\ is_i64 v.
Proof.
  intros Hc. unfold randomInt64, bind at 1, try, on_rng, zoom.
  destruct (rng_Read 8 (w_rng w)) as [[b|e|] r] eqn:E.
  - destruct (_ =? 0) eqn:E0; simpl; rewrite ?E0; do 2 eexists; split; try reflexivity;
      [apply Hc|apply i64_range].
  - do 2 eexists. split; [reflexivity|apply Hc].
  - unfold rng_Read in E. by destruct (8 <=? _).
Qed.

Lemma reads_reply opts b :
  let flags := send_flags opts in
  let r := so_ReplyToMessageID opts in
  let b' := if 0 <? r then
              b |> putInt constructorInputReplyToMessage |> putInt 0 |> putInt (u32 (i32 r))
            else b in
  exists bs, tb_buf b' = tb_buf b ++ bs /\
    reads (wire_reply flags) bs (if 0 <? r then Some (i32 r) else None).
Proof.
  cbv zeta. destruct (send_flags_bits opts) as (_ & H0 & _). unfold wire_reply. rewrite H0.
  destruct (0 <? so_ReplyToMessageID opts).
  - eexists. split; [autorewrite with tl_buf; by rewrite <- !app_assoc|].
    eapply reads_bind; [apply reads_int|]. eapply reads_bind0; [by apply reads_guard|].
    eapply reads_bind; [apply reads_int|]. eapply reads_bind0; [by apply reads_guard|].
    eapply reads_last; [apply reads_int|].
    rewrite u32_id by apply u32_range. rewrite i32_u32 by apply i32_range. apply reads_ret.
  - exists []. split; [by rewrite app_nil_r|apply reads_ret].
Qed.

(** C39. messages.sendMessage on the wire (highlevel.go,
    [makeMessagesSendMessageQueryWithOptions]): for every peer the exported
    constructors build, every text shorter than 2{^24} bytes and all options, the
    builder fails exactly when the peer lacks its id or access hash, and
    otherwise the bytes parse under the TL schema to exactly that peer, the reply
    id (when positive), the text and the three flags, with a 64-bit random id;
    nothing is left over. *)
Theorem sendMessage_wire (peer : InputPeer) (text : string) (opts : SendOptions) (w : world) :
  built_peer peer -> len (bytes_of text) < two24 -> (forall n, is_i64 (w_clock w n)) ->
  match makeMessagesSendMessageQueryWithOptions peer text opts w with
  | (Ok q, _) => exists random_id,
      eval wire_sendMessage (newTLReader q) =
        Ok (MkSendRequest peer
              (if 0 <? so_ReplyToMessageID opts then Some (i32 (so_ReplyToMessageID opts)) else None)
              text random_id (so_NoWebpage opts) (so_Silent opts) (so_Background opts)) /\
      r_off (snd (wire_sendMessage (newTLReader q))) = len q
  | (Err _, _) => forall b, is_ok (InputPeer_encode peer b) = false
  | (Panic, _) => False
  end.
Proof.
  intros Hp Ht Hc. unfold makeMessagesSendMessageQueryWithOptions.
  set (b0 := putInt (send_flags opts) _).
  destruct (InputPeer_encode peer b0) as [b1|e|] eqn:E.
  3: by apply (InputPeer_encode_no_panic peer b0) in E.
  2: { intros b. by rewrite (InputPeer_encode_ok peer b b0), E. }
  destruct (InputPeer_encode_wire peer b0 b1 Hp E) as (bp & Eb & Rp).
  rewrite (bind_lift_ok _ b1) by done.
  destruct (reads_reply opts b1) as (br & Er & Rr). cbv zeta in *. 
  match type of Er with tb_buf ?x = _ => set (b2 := x) in * end.
  destruct (randomInt64_ok w Hc) as (v & w' & Ev & Hv). erewrite bind_ok by exact Ev.
  unfold ret. exists v.
  destruct (send_flags_bits opts) as (Hf & _ & H1 & H5 & H6).
  set (q := tb_buf _).
  assert (R : reads wire_sendMessage q
    (MkSendRequest peer
       (if 0 <? so_ReplyToMessageID opts then Some (i32 (so_ReplyToMessageID opts)) else None)
       text v (so_NoWebpage opts) (so_Silent opts) (so_Background opts))).
  { subst q. autorewrite with tl_buf. rewrite Er, Eb. subst b0. autorewrite with tl_buf.
    rewrite <- !app_assoc, app_nil_l. unfold wire_sendMessage.
    eapply reads_bind; [apply reads_int|]. eapply reads_bind0; [by apply reads_guard|].
    eapply reads_bind; [apply reads_int|]. rewrite (u32_id (send_flags opts)) by done.
    eapply reads_bind; [exact Rp|]. eapply reads_bind; [exact Rr|].
    eapply reads_bind; [by apply reads_string|]. eapply reads_last; [apply reads_long|].
    rewrite u64_id by apply u64_range. rewrite i64_u64 by done. rewrite H1, H5, H6. apply reads_ret. }
  pose proof (reads_run _ _ [] _ R) as Run. rewrite app_nil_r in Run.
  unfold eval. by rewrite Run.
Qed.

(** A world whose clock stands still. *)
Definition still_world : world :=
  World (Conn [] [] []) (replicate 200 x5a) (fun _ => 1700000000000000000) 0 None.

Lemma sendMessage_wire_witness :
  exists random_id,
    eval wire_sendMessage (newTLReader
      (match makeMessagesSendMessageQueryWithOptions (InputPeerUser 7 (-9)) "hi"
               (MkSendOptions 12 true false false) still_world with (Ok q, _) => q | _ => [] end)) =
    Ok (MkSendRequest (InputPeerUser 7 (-9)) (Some 12) "hi" random_id false true false).
Proof.
  pose proof (sendMessage_wire (InputPeerUser 7 (-9)) "hi" (MkSendOptions 12 true false false)
    still_world (built_user 7 (-9) ltac:(vm_compute; intuition congruence) ltac:(vm_compute; intuition congruence))
    eq_refl ltac:(intros n; vm_compute; intuition congruence)) as H.
  destruct H as (r & H & _). exists r. exact H.
Defined.
