(* ===== verification/Kdf.v ===== *)
(** * Kdf: SHA-512, HMAC and PBKDF2 (pbkdf2HMACSHA512 of src/mtproto/password.go,
    pbkdf2SHA256 of src/session_store.go)

    The digest and the MAC are the executable functions of [crypto/sha512] and
    [crypto/hmac]; the two key derivations are the program's own. *)

From S2P Require Import Prelude Hash Crypto.

(** ** 64-bit words *)

Definition wadd64 (a b : Z) : Z := u64 (a + b).
Definition wnot64 (a : Z) : Z := Z.lxor a 0xffffffffffffffff.
Definition rotr64 (n x : Z) : Z := u64 (Z.lor (Z.shiftr x n) (Z.shiftl x (64 - n))).

Definition md_padding128 (n : Z) : list byte :=
  x80 :: replicate (Z.to_nat ((111 - n) mod 128)) x00 ++ be_bytes 16 (8 * n).

Fixpoint words64 (n : nat) (l : list byte) : list Z :=
  match n with O => [] | S n' => be_value (take 8 l) :: words64 n' (drop 8 l) end.

Fixpoint blocks128 (n : nat) (l : list byte) : list (list Z) :=
  match n with O => [] | S n' => words64 16 (take 128 l) :: blocks128 n' (drop 128 l) end.

(** The eighty round constants and the initial state, by the same rule as for
    SHA-256 with 64 bits. *)
Definition primes80 : list Z :=
  Eval vm_compute in take 80 (List.filter is_prime (map Z.of_nat (seq 2 420))).

Definition sha512_k : list Z :=
  Eval vm_compute in map (fun p => u64 (cube_root 70 (Z.shiftl p 192) 0)) primes80.

Definition sha512_init : h8 :=
  Eval vm_compute in
  match map (fun p => u64 (Z.sqrt (Z.shiftl p 128))) (first_primes 8) with
  | [a; b; c; d; e; f; g; h] => H8 a b c d e f g h
  | _ => H8 0 0 0 0 0 0 0 0
  end.

Definition sha512_expand (w : list Z) : list Z :=
  let w15 := nth 14 w 0 in let w2 := nth 1 w 0 in
  let s0 := Z.lxor (Z.lxor (rotr64 1 w15) (rotr64 8 w15)) (Z.shiftr w15 7) in
  let s1 := Z.lxor (Z.lxor (rotr64 19 w2) (rotr64 61 w2)) (Z.shiftr w2 6) in
  wadd64 (wadd64 (nth 15 w 0) s0) (wadd64 (nth 6 w 0) s1) :: w.

Definition sha512_round (s : h8) (kw : Z * Z) : h8 :=
  let '(k, w) := kw in
  let s1 := Z.lxor (Z.lxor (rotr64 14 (he s)) (rotr64 18 (he s))) (rotr64 41 (he s)) in
  let ch := Z.lxor (Z.land (he s) (hf s)) (Z.land (wnot64 (he s)) (hg s)) in
  let t1 := wadd64 (wadd64 (wadd64 (hh s) s1) (wadd64 ch k)) w in
  let s0 := Z.lxor (Z.lxor (rotr64 28 (ha s)) (rotr64 34 (ha s))) (rotr64 39 (ha s)) in
  let maj := Z.lxor (Z.lxor (Z.land (ha s) (hb s)) (Z.land (ha s) (hc s))) (Z.land (hb s) (hc s)) in
  H8 (wadd64 t1 (wadd64 s0 maj)) (ha s) (hb s) (hc s) (wadd64 (hd s) t1) (he s) (hf s) (hg s).

Definition h8_list (s : h8) : list Z := [ha s; hb s; hc s; hd s; he s; hf s; hg s; hh s].

Definition sha512_block (s : h8) (block : list Z) : h8 :=
  let w := rev (Nat.iter 64 sha512_expand (rev block)) in
  let t := fold_left sha512_round (combine sha512_k w) s in
  H8 (wadd64 (ha s) (ha t)) (wadd64 (hb s) (hb t)) (wadd64 (hc s) (hc t)) (wadd64 (hd s) (hd t))
     (wadd64 (he s) (he t)) (wadd64 (hf s) (hf t)) (wadd64 (hg s) (hg t)) (wadd64 (hh s) (hh t)).

Definition sha512_Sum (msg : list byte) : list byte :=
  let padded := msg ++ md_padding128 (len msg) in
  let s := fold_left sha512_block (blocks128 (Z.to_nat (len padded / 128)) padded) sha512_init in
  concat (map (be_bytes 8) (h8_list s)).

Lemma len_sha512_Sum msg : len (sha512_Sum msg) = 64.
Proof.
  unfold sha512_Sum, h8_list. cbv zeta. cbn [map concat].
  rewrite !len_app, !len_be_bytes, len_nil. lia.
Qed.

(** ** HMAC (FIPS 198-1) with a block of [B] bytes *)

Section Hmac.
Variables (H : list byte -> list byte) (B : nat).

Definition hmac_key (key : list byte) : list byte :=
  let k := if len key <=? Z.of_nat B then key else H key in
  k ++ replicate (B - length k) x00.

Definition hmac (key msg : list byte) : list byte :=
  let k := hmac_key key in
  H (map (bxor x5c) k ++ H (map (bxor x36) k ++ msg)).

(** ** PBKDF2, as the program's two copies have it *)

(** [for i := 1; i < iter; i++]: one more MAC, and its bytes folded into [t]. *)
Definition pbkdf2_round (password : list byte) (ut : list byte * list byte) : list byte * list byte :=
  let u := hmac password (fst ut) in (u, zip_with bxor (snd ut) u).

Definition pbkdf2_block (password salt : list byte) (iter block : Z) : list byte :=
  let u := hmac password (salt ++ be_bytes 4 block) in
  snd (N.iter (Z.to_N (iter - 1)) (pbkdf2_round password) (u, u)).

(** Blocks [block], [block + 1], ... *)
Fixpoint pbkdf2_blocks (n : nat) (password salt : list byte) (iter block : Z) : list byte :=
  match n with
  | O => []
  | S n' => pbkdf2_block password salt iter block ++ pbkdf2_blocks n' password salt iter (block + 1)
  end.
End Hmac.

Definition hmac_sha512 := hmac sha512_Sum 128.
Definition hmac_sha256 := hmac sha256_Sum 64.

Definition pbkdf2HMACSHA512 (password salt : list byte) (iter keyLen : Z) : list byte :=
  if (iter <=? 0) || (keyLen <=? 0) then []
  else
    let numBlocks := (keyLen + 64 - 1) / 64 in
    sub (pbkdf2_blocks sha512_Sum 128 (Z.to_nat numBlocks) password salt iter 1) 0 keyLen.

Definition pbkdf2SHA256 (password salt : list byte) (iter keyLen : Z) : list byte :=
  let iter := if iter <=? 0 then 1 else iter in
  let numBlocks := (keyLen + 32 - 1) / 32 in
  sub (pbkdf2_blocks sha256_Sum 64 (Z.to_nat numBlocks) password salt iter 1) 0 keyLen.

Section Lengths.
Variables (H : list byte -> list byte) (B : nat) (hLen : Z).
Hypothesis len_H : forall m, len (H m) = hLen.
Hypothesis hLen_nonneg : 0 <= hLen.

Lemma len_hmac k m : len (hmac H B k m) = hLen.
Proof. apply len_H. Qed.

Lemma len_pbkdf2_block p s iter block : len (pbkdf2_block H B p s iter block) = hLen.
Proof.
  unfold pbkdf2_block. set (u := hmac _ _ _ _). generalize (Z.to_N (iter - 1)). intros n.
  induction n as [|n IH] using N.peano_ind; [apply len_hmac|]. rewrite N.iter_succ.
  unfold pbkdf2_round at 1. cbn [fst snd].
  pose proof (len_hmac p (fst (N.iter n (pbkdf2_round H B p) (u, u)))) as E.
  unfold len in *. rewrite length_zip_with. lia.
Qed.

Lemma len_pbkdf2_blocks n p s iter block :
  len (pbkdf2_blocks H B n p s iter block) = Z.of_nat n * hLen.
Proof.
  revert block. induction n as [|n IH]; intros block; [done|]. cbn [pbkdf2_blocks].
  rewrite len_app, len_pbkdf2_block, IH. lia.
Qed.
End Lengths.

Lemma len_pbkdf2HMACSHA512 p s iter keyLen :
  0 < iter -> 0 < keyLen -> len (pbkdf2HMACSHA512 p s iter keyLen) = keyLen.
Proof.
  intros Hi Hk. unfold pbkdf2HMACSHA512. rewrite !(proj2 (Z.leb_gt _ 0)) by done. cbn [orb].
  rewrite len_sub; [lia|lia|]. rewrite (len_pbkdf2_blocks _ _ 64) by apply len_sha512_Sum. zlia.
Qed.

Lemma len_pbkdf2SHA256 p s iter keyLen : 0 <= keyLen -> len (pbkdf2SHA256 p s iter keyLen) = keyLen.
Proof.
  intros Hk. unfold pbkdf2SHA256. rewrite len_sub; [lia|lia|].
  rewrite (len_pbkdf2_blocks _ _ 32) by (intros m; pose proof (len_sha256Bytes [m]) as E; unfold sha256Bytes in E;
    cbn [concat] in E; by rewrite app_nil_r in E). zlia.
Qed.

#[global] Opaque sha512_Sum.

(** FIPS 180-4, RFC 4231 and RFC 7914 test vectors. *)
Example sha512_abc :
  sha512_Sum (bytes_of "abc") = be_bytes 64
    0xddaf35a193617abacc417349ae20413112e6fa4e89a97ea20a9eeee64b55d39a2192992a274fc1a836ba3c23a3feebbd454d4423643ce80e2a9ac94fa54ca49f.
Proof. vm_compute. reflexivity. Qed.
Example hmac_sha512_vector :
  hmac_sha512 (replicate 20 x0b) (bytes_of "Hi There") = be_bytes 64
    0x87aa7cdea5ef619d4ff0b4241a1d6cb02379f4e2ce4ec2787ad0b30545e17cdedaa833b7d6b8a702038b274eaea3f4e4be9d914eeb61f1702e696c203a126854.
Proof. vm_compute. reflexivity. Qed.
Example pbkdf2_sha256_vector :
  pbkdf2SHA256 (bytes_of "passwd") (bytes_of "salt") 1 64 = be_bytes 64
    0x55ac046e56e3089fec1691c22544b605f94185216dde0465e68b9d57c20dacbc49ca9cccf179b645991664b39d77ef317c71b845b1e30bd509112041d3a19783.
Proof. vm_compute. reflexivity. Qed.
