(* ===== verification/Seal.v ===== *)
(** * Seal: base64 and AES-GCM, as the session store uses them
    ([encoding/base64], [crypto/cipher])

    [base64.RawURLEncoding] and [cipher.NewGCM] with its twelve-byte nonces, as
    executable functions, and their round trips. *)

From S2P Require Import Prelude Strings Hash AES Crypto.

(** ** Base64, URL alphabet, no padding *)

Definition b64_alphabet : list byte :=
  bytes_of "ABCDEFGHIJKLMNOPQRSTUVWXYZabcdefghijklmnopqrstuvwxyz0123456789-_".

Definition b64_char (d : Z) : byte := nth (Z.to_nat d) b64_alphabet x00.

(** The value of a character, by the ranges of the alphabet. *)
Definition b64_value (c : byte) : option Z :=
  let z := b2z c in
  if (65 <=? z) && (z <=? 90) then Some (z - 65)
  else if (97 <=? z) && (z <=? 122) then Some (z - 71)
  else if (48 <=? z) && (z <=? 57) then Some (z + 4)
  else if z =? 45 then Some 62
  else if z =? 95 then Some 63
  else None.

Fixpoint b64_encode (l : list byte) : list byte :=
  match l with
  | a :: b :: c :: l' =>
      b64_char (b2z a / 4) :: b64_char (b2z a mod 4 * 16 + b2z b / 16) ::
      b64_char (b2z b mod 16 * 4 + b2z c / 64) :: b64_char (b2z c mod 64) :: b64_encode l'
  | [a; b] => [b64_char (b2z a / 4); b64_char (b2z a mod 4 * 16 + b2z b / 16); b64_char (b2z b mod 16 * 4)]
  | [a] => [b64_char (b2z a / 4); b64_char (b2z a mod 4 * 16)]
  | [] => []
  end.

(** Four digits to three bytes; two or three digits at the end, whose spare bits
    are not looked at. *)
Fixpoint b64_bytes (l : list Z) : outcome (list byte) :=
  match l with
  | d0 :: d1 :: d2 :: d3 :: l' =>
      omap_outcome (fun r => z2b (d0 * 4 + d1 / 16) :: z2b (d1 mod 16 * 16 + d2 / 4) :: z2b (d2 mod 4 * 64 + d3) :: r)
        (b64_bytes l')
  | [d0; d1; d2] => Ok [z2b (d0 * 4 + d1 / 16); z2b (d1 mod 16 * 16 + d2 / 4)]
  | [d0; d1] => Ok [z2b (d0 * 4 + d1 / 16)]
  | [_] => Err (ErrNew "illegal base64 data")
  | [] => Ok []
  end.

Fixpoint b64_digits (l : list byte) : option (list Z) :=
  match l with
  | [] => Some []
  | c :: l' => match b64_value c, b64_digits l' with Some d, Some ds => Some (d :: ds) | _, _ => None end
  end.

(** [RawURLEncoding.DecodeString]: line breaks are skipped. *)
Definition b64_decode (l : list byte) : outcome (list byte) :=
  match b64_digits (List.filter (fun c => negb ((b2z c =? 10) || (b2z c =? 13))) l) with
  | Some ds => b64_bytes ds
  | None => Err (ErrNew "illegal base64 data")
  end.

Lemma b64_value_char d : 0 <= d < 64 -> b64_value (b64_char d) = Some d.
Proof.
  intros Hd. assert (H : forall i, (i < 64)%nat -> b64_value (b64_char (Z.of_nat i)) = Some (Z.of_nat i)).
  { intros i Hi. assert (C : forallb (fun i => bool_decide (b64_value (b64_char (Z.of_nat i)) = Some (Z.of_nat i))) (seq 0 64) = true)
      by (vm_compute; reflexivity).
    rewrite forallb_forall in C. specialize (C i). rewrite in_seq in C. by eapply bool_decide_eq_true_1, C; lia. }
  replace d with (Z.of_nat (Z.to_nat d)) by lia. apply H. lia.
Qed.

Lemma b64_char_graphic d : 0 <= d < 64 -> graphic (b64_char d) = true.
Proof.
  intros Hd. assert (C : forallb graphic b64_alphabet = true) by (vm_compute; reflexivity).
  rewrite forallb_forall in C. apply C, nth_In. unfold b64_alphabet. cbn. lia.
Qed.

(** Every digit of the encoding is in range. *)
Lemma b64_ranges a b c :
  (0 <= b2z a / 4 < 64) /\ (0 <= b2z a mod 4 * 16 + b2z b / 16 < 64) /\
  (0 <= b2z b mod 16 * 4 + b2z c / 64 < 64) /\ (0 <= b2z c mod 64 < 64) /\
  (0 <= b2z a mod 4 * 16 < 64) /\ (0 <= b2z b mod 16 * 4 < 64).
Proof. pose proof (b2z_range a). pose proof (b2z_range b). pose proof (b2z_range c). zlia. Qed.

(** Lists in steps of three. *)
Lemma list_ind3 {A} (P : list A -> Prop) :
  P [] -> (forall a, P [a]) -> (forall a b, P [a; b]) -> (forall a b c l, P l -> P (a :: b :: c :: l)) ->
  forall l, P l.
Proof.
  intros H0 H1 H2 H3. fix IH 1. intros [|a [|b [|c l]]]; [exact H0|apply H1|apply H2|apply H3, IH].
Qed.

Lemma b64_encode_graphic l : forallb graphic (b64_encode l) = true.
Proof.
  induction l as [|a|a b|a b c l IH] using list_ind3; [done|..].
  - destruct (b64_ranges a x00 x00) as (H1 & _ & _ & _ & H5 & _). cbn [b64_encode forallb]. by rewrite !b64_char_graphic.
  - destruct (b64_ranges a b x00) as (H1 & H2 & _ & _ & _ & H6). cbn [b64_encode forallb]. by rewrite !b64_char_graphic.
  - destruct (b64_ranges a b c) as (H1 & H2 & H3 & H4 & _). cbn [b64_encode forallb].
    by rewrite !b64_char_graphic, IH.
Qed.

Lemma graphic_filter l : forallb graphic l = true ->
  List.filter (fun c => negb ((b2z c =? 10) || (b2z c =? 13))) l = l.
Proof.
  induction l as [|c l IH]; [done|]. cbn [forallb List.filter]. rewrite andb_true_iff. intros [Hc Hl].
  unfold graphic in Hc. apply andb_true_iff in Hc as [H1%Z.leb_le _].
  rewrite !(proj2 (Z.eqb_neq _ _)) by lia. cbn. by rewrite IH.
Qed.

Lemma b64_digits_cons d ds l : 0 <= d < 64 -> b64_digits l = Some ds -> b64_digits (b64_char d :: l) = Some (d :: ds).
Proof. intros Hd Hl. cbn [b64_digits]. by rewrite b64_value_char, Hl. Qed.

Lemma byte_of_parts z b : z = b2z b -> z2b z = b.
Proof. intros ->. apply z2b_b2z. Qed.

Lemma b64_inverse l : exists ds, b64_digits (b64_encode l) = Some ds /\ b64_bytes ds = Ok l.
Proof.
  induction l as [|a|a b|a b c l IH] using list_ind3; [by exists []|..].
  - destruct (b64_ranges a x00 x00) as (H1 & _ & _ & _ & H5 & _). pose proof (b2z_range a).
    eexists. split; [cbn [b64_encode]; do 2 (apply b64_digits_cons; [done|]); reflexivity|].
    cbn. by rewrite (byte_of_parts _ a) by zlia.
  - destruct (b64_ranges a b x00) as (H1 & H2 & _ & _ & _ & H6). pose proof (b2z_range a). pose proof (b2z_range b).
    eexists. split; [cbn [b64_encode]; do 3 (apply b64_digits_cons; [done|]); reflexivity|].
    cbn. by rewrite (byte_of_parts _ a), (byte_of_parts _ b) by zlia.
  - destruct IH as (ds & E1 & E2). destruct (b64_ranges a b c) as (H1 & H2 & H3 & H4 & _).
    pose proof (b2z_range a). pose proof (b2z_range b). pose proof (b2z_range c).
    eexists. split; [cbn [b64_encode]; do 4 (apply b64_digits_cons; [done|]); exact E1|].
    cbn [b64_bytes]. rewrite E2. cbn [omap_outcome].
    by rewrite (byte_of_parts _ a), (byte_of_parts _ b), (byte_of_parts _ c) by zlia.
Qed.

Lemma b64_decode_encode l : b64_decode (b64_encode l) = Ok l.
Proof.
  unfold b64_decode. rewrite graphic_filter by apply b64_encode_graphic.
  by destruct (b64_inverse l) as (ds & -> & E).
Qed.

Lemma b64_decode_returns l : b64_decode l <> Panic.
Proof.
  unfold b64_decode. destruct (b64_digits _) as [ds|]; [|done]. revert ds.
  fix IH 1. intros [|d0 [|d1 [|d2 [|d3 ds]]]]; [discriminate..|]. cbn [b64_bytes]. specialize (IH ds).
  by destruct (b64_bytes ds).
Qed.

(** ** AES-GCM with twelve-byte nonces and no additional data *)

(** Multiplication in GF(2{^128}), the first bit of a block being the most
    significant one. *)
Fixpoint gf_mul_bits (n : nat) (x v z : Z) : Z :=
  match n with
  | O => z
  | S n' =>
      let z := if Z.testbit x (Z.of_nat n') then Z.lxor z v else z in
      let v := if Z.testbit v 0 then Z.lxor (Z.shiftr v 1) (Z.shiftl 0xe1 120) else Z.shiftr v 1 in
      gf_mul_bits n' x v z
  end.
Definition gf_mul (x y : Z) : Z := gf_mul_bits 128 x y 0.

(** Whole blocks, the last one filled with zeros. *)
Fixpoint gcm_blocks (n : nat) (l : list byte) : list Z :=
  match n with
  | O => []
  | S n' => be_value (take 16 (l ++ replicate 16 x00)) :: gcm_blocks n' (drop 16 l)
  end.
Definition block_count (l : list byte) : nat := Z.to_nat ((len l + 15) / 16).

Definition ghash (h : Z) (ct : list byte) : Z :=
  let blocks := gcm_blocks (block_count ct) ct ++ [8 * len ct] in
  fold_left (fun y b => gf_mul (Z.lxor y b) h) blocks 0.

(** The key stream from counter block [nonce || i]. *)
Definition counter_block (nonce : list byte) (i : Z) : list byte := nonce ++ be_bytes 4 (u32 i).
Fixpoint key_stream (n : nat) (k : aesKey) (nonce : list byte) (i : Z) : list byte :=
  match n with
  | O => []
  | S n' => aes_encrypt k (counter_block nonce i) ++ key_stream n' k nonce (i + 1)
  end.

Definition gcm_ctr (k : aesKey) (nonce data : list byte) : list byte :=
  zip_with bxor data (take (length data) (key_stream (block_count data) k nonce 2)).

Definition gcm_tag (k : aesKey) (nonce ct : list byte) : list byte :=
  let h := be_value (aes_encrypt k (replicate 16 x00)) in
  zip_with bxor (be_bytes 16 (ghash h ct)) (aes_encrypt k (counter_block nonce 1)).

Definition gcm_Seal (k : aesKey) (nonce plain : list byte) : list byte :=
  let ct := gcm_ctr k nonce plain in ct ++ gcm_tag k nonce ct.

Definition gcm_Open (k : aesKey) (nonce sealed : list byte) : outcome (list byte) :=
  let failed := Err (ErrNew "cipher: message authentication failed") in
  if len sealed <? 16 then failed
  else
    let ct := sub sealed 0 (len sealed - 16) in
    if bool_decide (gcm_tag k nonce ct = sub sealed (len sealed - 16) (len sealed))
    then Ok (gcm_ctr k nonce ct) else failed.

Lemma length_aes_encrypt k b : length b = 16%nat -> length (aes_encrypt k b) = 16%nat.
Proof. intros Hb. unfold aes_encrypt. destruct (ak_rounds k); [done|]. apply enc_rounds_length. by rewrite xorState_length. Qed.

Lemma length_key_stream n k nonce i : length nonce = 12%nat -> length (key_stream n k nonce i) = (16 * n)%nat.
Proof.
  intros Hn. revert i. induction n as [|n IH]; intros i; [done|]. cbn [key_stream].
  rewrite length_app, IH, length_aes_encrypt; [lia|]. unfold counter_block. by rewrite length_app, length_be_bytes, Hn.
Qed.

Lemma length_gcm_stream k nonce data : length nonce = 12%nat ->
  length (take (length data) (key_stream (block_count data) k nonce 2)) = length data.
Proof.
  intros Hn. rewrite length_take, length_key_stream by done. unfold block_count, len. zlia.
Qed.

Lemma length_gcm_ctr k nonce data : length nonce = 12%nat -> length (gcm_ctr k nonce data) = length data.
Proof. intros Hn. unfold gcm_ctr. rewrite length_zip_with, length_gcm_stream by done. lia. Qed.

Lemma gcm_ctr_involutive k nonce data : length nonce = 12%nat -> gcm_ctr k nonce (gcm_ctr k nonce data) = data.
Proof.
  intros Hn. unfold gcm_ctr at 1, block_count. unfold len. rewrite length_gcm_ctr by done. unfold gcm_ctr.
  apply zip_bxor_cancel. fold (len data). fold (block_count data). by rewrite length_gcm_stream.
Qed.

Lemma length_gcm_tag k nonce ct : length nonce = 12%nat -> length (gcm_tag k nonce ct) = 16%nat.
Proof.
  intros Hn. unfold gcm_tag. rewrite length_zip_with, length_be_bytes, length_aes_encrypt; [done|].
  unfold counter_block. by rewrite length_app, length_be_bytes, Hn.
Qed.

Lemma len_gcm_Seal k nonce plain : length nonce = 12%nat -> len (gcm_Seal k nonce plain) = len plain + 16.
Proof.
  intros Hn. unfold gcm_Seal, len. by rewrite length_app, length_gcm_tag, length_gcm_ctr, Nat2Z.inj_add.
Qed.

Lemma gcm_Open_Seal k nonce plain : length nonce = 12%nat -> gcm_Open k nonce (gcm_Seal k nonce plain) = Ok plain.
Proof.
  intros Hn. unfold gcm_Open, gcm_Seal. cbv zeta. set (ct := gcm_ctr k nonce plain).
  assert (Ht : len (gcm_tag k nonce ct) = 16) by (unfold len; by rewrite length_gcm_tag).
  pose proof (len_nonneg ct). rewrite len_app, Ht, (proj2 (Z.ltb_ge _ 16)) by lia.
  replace (len ct + 16 - 16) with (len ct) by lia.
  rewrite sub_app_head, sub_app_tail by (rewrite ?len_app; lia). rewrite bool_decide_true by done.
  f_equal. by apply gcm_ctr_involutive.
Qed.

Lemma gcm_Open_returns k nonce sealed : gcm_Open k nonce sealed <> Panic.
Proof. unfold gcm_Open. by repeat case_match. Qed.

(** Test cases 13 and 14 of the GCM specification (AES-256). *)
Definition zero_key : aesKey := ok_or (AesKey []) (aes_NewCipher (replicate 32 x00)).
Example gcm_empty : gcm_Seal zero_key (replicate 12 x00) [] = be_bytes 16 0x530f8afbc74536b9a963b4f1c4cb738b.
Proof. vm_compute. reflexivity. Qed.
Example gcm_one_block :
  gcm_Seal zero_key (replicate 12 x00) (replicate 16 x00) =
  be_bytes 32 0xcea7403d4d606b6e074ec5d3baf39d18d0d1c8a799996bf0265b98b5d48ab919.
Proof. vm_compute. reflexivity. Qed.
Example b64_vector : string_of (b64_encode (bytes_of "light work?")) = "bGlnaHQgd29yaz8"%string.
Proof. vm_compute. reflexivity. Qed.
