(* ===== verification/Md5.v ===== *)
(** * Md5: the digest of the upload descriptor ([crypto/md5], [encoding/hex])

    The executable function of RFC 1321, used by src/mtproto/media.go for the
    checksum of small files, and the hexadecimal text of a byte string. *)

From S2P Require Import Prelude Hash.

Definition words_le (l : list byte) : list Z :=
  let fix go (l : list byte) : list Z :=
    match l with
    | a :: b :: c :: d :: l' => le_value [a; b; c; d] :: go l'
    | _ => []
    end in go l.

Definition md5_blocks (msg : list byte) : list (list Z) :=
  let padded := msg ++ x80 :: replicate (Z.to_nat ((55 - len msg) mod 64)) x00 ++ le_bytes 8 (u64 (8 * len msg)) in
  blocks16 (Z.to_nat (len padded / 64)) (words_le padded).

(** The round constants are the first 32 bits of |sin i|, i = 1, ..., 64.  The
    sines are computed in fixed point: sin 1 and cos 1 from their series, the
    others by the addition formulas. *)
Definition fixed : Z := 2 ^ 160.

Fixpoint series (n : nat) (k : Z) (term : Z) : Z :=
  match n with
  | O => 0
  | S n' => term + series n' (k + 2) (- term / (k * (k + 1)))
  end.

Definition sin1 : Z := series 30 2 fixed.
Definition cos1 : Z := series 30 1 fixed.

Definition next_angle (sc : Z * Z) : Z * Z :=
  (Z.shiftr (fst sc * cos1 + snd sc * sin1) 160, Z.shiftr (snd sc * cos1 - fst sc * sin1) 160).

Fixpoint angles (n : nat) (sc : Z * Z) : list Z :=
  match n with O => [] | S n' => fst sc :: angles n' (next_angle sc) end.

Definition md5_k : list Z :=
  Eval vm_compute in map (fun z => Z.shiftr (Z.abs z) 128) (angles 64 (sin1, cos1)).

Definition md5_shifts : list Z :=
  concat (map (fun row => row ++ row ++ row ++ row)
    [[7; 12; 17; 22]; [5; 9; 14; 20]; [4; 11; 16; 23]; [6; 10; 15; 21]]).

Record h4 := H4 { da : Z; db : Z; dc4 : Z; dd : Z }.

Definition md5_init : h4 := H4 0x67452301 0xefcdab89 0x98badcfe 0x10325476.

(** The round function and the word it takes, in round [i]. *)
Definition md5_fg (i : Z) (s : h4) : Z * Z :=
  let b := db s in let c := dc4 s in let d := dd s in
  if i <? 16 then (Z.lxor d (Z.land b (Z.lxor c d)), i)
  else if i <? 32 then (Z.lxor c (Z.land d (Z.lxor b c)), (5 * i + 1) mod 16)
  else if i <? 48 then (Z.lxor (Z.lxor b c) d, (3 * i + 5) mod 16)
  else (Z.lxor c (Z.lor b (wnot d)), (7 * i) mod 16).

Definition md5_round (block : list Z) (st : Z * h4) (ks : Z * Z) : Z * h4 :=
  let '(i, s) := st in
  let '(f, g) := md5_fg i s in
  let f := wadd (wadd f (da s)) (wadd (fst ks) (nth (Z.to_nat g) block 0)) in
  (i + 1, H4 (dd s) (wadd (db s) (rotl (snd ks) f)) (db s) (dc4 s)).

Definition md5_block (s : h4) (block : list Z) : h4 :=
  let t := snd (fold_left (md5_round block) (combine md5_k md5_shifts) (0, s)) in
  H4 (wadd (da s) (da t)) (wadd (db s) (db t)) (wadd (dc4 s) (dc4 t)) (wadd (dd s) (dd t)).

Definition md5_Sum (msg : list byte) : list byte :=
  let s := fold_left md5_block (md5_blocks msg) md5_init in
  le_bytes 4 (da s) ++ le_bytes 4 (db s) ++ le_bytes 4 (dc4 s) ++ le_bytes 4 (dd s).

(** ** [hex.EncodeToString] *)

Definition hex_digit (d : Z) : byte := z2b (if d <? 10 then 48 + d else 87 + d).
Definition hex_bytes (l : list byte) : list byte :=
  concat (map (fun b => [hex_digit (b2z b / 16); hex_digit (b2z b mod 16)]) l).
Definition hex_EncodeToString (l : list byte) : string := string_of (hex_bytes l).

Lemma len_hex_bytes l : len (hex_bytes l) = 2 * len l.
Proof.
  unfold hex_bytes. induction l as [|b l IH]; [done|]. cbn [map concat]. rewrite len_app, IH, !len_cons, len_nil. lia.
Qed.

Lemma len_md5_Sum msg : len (md5_Sum msg) = 16.
Proof. unfold md5_Sum. by rewrite !len_app, !len_le_bytes. Qed.

#[global] Opaque md5_Sum.

(** RFC 1321, appendix A.5. *)
Example md5_empty : hex_EncodeToString (md5_Sum []) = "d41d8cd98f00b204e9800998ecf8427e"%string.
Proof. vm_compute. reflexivity. Qed.
Example md5_alphabet :
  hex_EncodeToString (md5_Sum (bytes_of "abcdefghijklmnopqrstuvwxyz")) = "c3fcd3d76192e4007dfb496cca67e13b"%string.
Proof. vm_compute. reflexivity. Qed.
Example md5_digits :
  hex_EncodeToString (md5_Sum (bytes_of "12345678901234567890123456789012345678901234567890123456789012345678901234567890"))
  = "57edf4a22be3c955ac49da2e2107b67a"%string.
Proof. vm_compute. reflexivity. Qed.
