(* ===== verification/Client.v ===== *)
(** * Client: connections and the encrypted client (src/mtproto/client.go,
    dialMTProto of auth.go, HelpGetConfig of invoke.go)

    Opening and closing connections, [Invoke] and the functions that log in with
    migration to another data centre.  The network is the list of the outcomes
    of the next dials, each connection bringing the bytes its peer will send. *)

From S2P Require Import Prelude Strings TL Transport Hash AES Crypto Envelope Auth Invoke Queries.

(** ** The environment of the process

    [e_dials]: the outcomes of the next dials ([None] for an error; past the end
    every dial fails); [e_open]: connections opened and not yet closed;
    [e_dialed]: the addresses dialed so far. *)
Record env := Env {
  e_rng : list byte; e_clock : nat -> Z; e_tick : nat;
  e_dials : list (option conn); e_open : Z; e_dialed : list string }.

Definition set_env_rng (r : list byte) (e : env) : env :=
  Env r (e_clock e) (e_tick e) (e_dials e) (e_open e) (e_dialed e).

Definition env_Now : M env Z := fun e =>
  (Ok (e_clock e (e_tick e)),
   Env (e_rng e) (e_clock e) (S (e_tick e)) (e_dials e) (e_open e) (e_dialed e)).

(** [dialer.DialContext(ctx, "tcp", address)] *)
Definition net_Dial (address : string) : M env conn := fun e =>
  match e_dials e with
  | Some c :: rest =>
      (Ok c, Env (e_rng e) (e_clock e) (e_tick e) rest (e_open e + 1) (e_dialed e ++ [address]))
  | None :: rest =>
      (Err (ErrEnv "dial"), Env (e_rng e) (e_clock e) (e_tick e) rest (e_open e) (e_dialed e ++ [address]))
  | [] =>
      (Err (ErrEnv "dial"), Env (e_rng e) (e_clock e) (e_tick e) [] (e_open e) (e_dialed e ++ [address]))
  end.

(** [conn.Close()] *)
Definition net_Close : M env unit := modify (fun e =>
  Env (e_rng e) (e_clock e) (e_tick e) (e_dials e) (e_open e - 1) (e_dialed e)).

(** A connection with its deadline. *)
Record link := Link { l_conn : conn; l_deadline : option Z }.

Definition world_of (l : link) (e : env) : world :=
  World (l_conn l) (e_rng e) (e_clock e) (e_tick e) (l_deadline l).
Definition link_of (w : world) : link := Link (w_conn w) (w_deadline w).
(** The clock and the random source as [w] leaves them. *)
Definition env_after (w : world) (e : env) : env :=
  Env (w_rng w) (w_clock w) (w_tick w) (e_dials e) (e_open e) (e_dialed e).

(** [v, err := m] on a connection that stays in the caller's hands. *)
Definition on_link {A} (l : link) (m : M world A) : M env ((A + goerr) * link) := fun e =>
  match m (world_of l e) with
  | (Ok a, w) => (Ok (inl a, link_of w), env_after w e)
  | (Err x, w) => (Ok (inr x, link_of w), env_after w e)
  | (Panic, w) => (Panic, env_after w e)
  end.

(** A context is its deadline. *)
Definition ctx := option Z.

(** The deadline that [dialMTProto] sets: the context's, or the fallback. *)
Definition dial_deadline (c : ctx) (fallback : Z) : M env (option Z) :=
  match c with
  | Some d => ret (Some d)
  | None => if 0 <? fallback then now <- env_Now ;; ret (Some (now + fallback)) else ret None
  end.

Definition dialMTProto (c : ctx) (dc : DCOption) (fallback : Z) : M env link :=
  guard (negb (dc_ID dc =? 0)) (ErrNew "mtproto: dc id is required") ;;
  guard (negb (dc_Address dc =? EmptyString)%string) (ErrNew "mtproto: dc address is required") ;;
  cn <- net_Dial (dc_Address dc) ;;
  deadline <- dial_deadline c fallback ;;
  rl <- on_link (Link cn deadline) (on_conn abridgedInit) ;;
  match fst rl with
  | inl _ => ret (snd rl)
  | inr err => net_Close ;; fail err
  end.

(** ** Trying a list of endpoints

    [for _, dc := range list { r, err := f(dc); if err == nil { return r };
    last = err }] and the error of an empty list. *)
Fixpoint first_success {D A} (f : D -> M env A) (none : goerr) (last : option goerr) (list : list D) : M env A :=
  match list with
  | [] => fail (match last with Some err => err | None => none end)
  | d :: rest =>
      r <- try (f d) ;;
      match r with inl a => ret a | inr err => first_success f none (Some err) rest end
  end.

Definition no_dcs : goerr := ErrNew "no default DCs configured".

(** ** The encrypted client

    A nil client is one without connection and state. *)
Record EncryptedClient := Client {
  ec_conn : option link; ec_dc : DCOption; ec_auth : AuthKeyResult; ec_state : option encryptedState }.

Definition Method (A : Type) : Type := M (EncryptedClient * env) A.

Definition on_env {A} (m : M env A) : Method A := zoom snd (fun e s => (fst s, e)) m.

(** Code that uses the client's connection and state. *)
Definition with_session {A} (m : IO A) : Method A := fun s =>
  let '(c, e) := s in
  match ec_conn c, ec_state c with
  | Some l, Some es =>
      let '(o, (es', w)) := m (es, world_of l e) in
      (o, (Client (Some (link_of w)) (ec_dc c) (ec_auth c) (Some es'), env_after w e))
  | _, _ => (Err (ErrNew "mtproto: nil encrypted client"), s)
  end.

(** Code that only draws on the clock and the random source. *)
Definition on_sources {A} (m : M world A) : Method A := fun s =>
  let '(c, e) := s in
  let '(o, w) := m (world_of (Link (Conn [] [] []) None) e) in (o, (c, env_after w e)).

Definition fill_result (c : EncryptedClient) (es : encryptedState) (r : InvokeResult) : InvokeResult :=
  Result (dc_ID (ec_dc c)) (dc_Address (ec_dc c)) (ak_AuthKeyID (ec_auth c)) (es_serverSalt es)
    (es_sessionID es) (ir_RequestMessageID r) (ir_ResponseMessageID r) (ir_Constructor r)
    (ir_Body r) (ir_GzipPacked r) (ir_Message r).

Definition set_message (text : string) (r : InvokeResult) : InvokeResult :=
  Result (ir_DCID r) (ir_Address r) (ir_AuthKeyID r) (ir_ServerSalt r) (ir_SessionID r)
    (ir_RequestMessageID r) (ir_ResponseMessageID r) (ir_Constructor r) (ir_Body r)
    (ir_GzipPacked r) text.

(** [Close]: nothing on a client without connection. *)
Definition Client_Close (c : EncryptedClient) : M env unit :=
  match ec_conn c with Some _ => net_Close | None => ret tt end.

Definition dcOptionsByID (dcID : Z) : list DCOption :=
  List.filter (fun dc => dc_ID dc =? dcID) DefaultDCOptions.

(** [strings.TrimSpace(s) == ""] *)
Definition blank (s : string) : bool := (TrimSpace s =? EmptyString)%string.

(** Eight random bytes, zeros when there are none. *)
Definition random_sid : M env (list byte) :=
  r <- try (zoom e_rng set_env_rng (rng_Read 8)) ;;
  match r with inl b => ret b | inr _ => ret (replicate 8 x00) end.

Section Client.

Variable ProbablyPrime : Z -> bool.
Variable keys : list RSAPublicKey.
Variable gunzip : list byte -> outcome (list byte).

Definition Client_Invoke (c : ctx) (body : list byte) : Method InvokeResult :=
  result <- with_session (invoke gunzip c body) ;;
  s <- get ;;
  match ec_state (fst s) with
  | Some es => ret (fill_result (fst s) es result)
  | None => ret result
  end.

Definition AuthKey_on (c : ctx) (dc : DCOption) : M env AuthKeyResult :=
  l <- dialMTProto c dc (25 * second) ;;
  rl <- on_link l (authKeyOnConn ProbablyPrime keys dc) ;;
  net_Close ;;
  match fst rl with inl r => ret r | inr err => fail err end.

Definition AuthKeyDefault (c : ctx) : M env AuthKeyResult :=
  first_success (AuthKey_on c) no_dcs None DefaultDCOptions.

Definition DialEncrypted (c : ctx) (dc : DCOption) : M env EncryptedClient :=
  l <- dialMTProto c dc (35 * second) ;;
  rl <- on_link l (authKeyOnConn ProbablyPrime keys dc) ;;
  match fst rl with
  | inr err => net_Close ;; fail err
  | inl auth =>
      sid <- random_sid ;;
      ret (Client (Some (Link (l_conn (snd rl)) None)) dc auth (Some (newEncryptedState sid auth)))
  end.

Definition DialEncryptedDefault (c : ctx) : M env EncryptedClient :=
  first_success (DialEncrypted c) no_dcs None DefaultDCOptions.

(** [HelpGetConfig]: the connection is closed on every path. *)
Definition HelpGetConfig (c : ctx) (dc : DCOption) (apiID : Z) : M env InvokeResult :=
  l <- dialMTProto c dc (35 * second) ;;
  rl <- on_link l (authKeyOnConn ProbablyPrime keys dc) ;;
  match fst rl with
  | inr err => net_Close ;; fail err
  | inl auth =>
      sid <- random_sid ;;
      r <- on_link (snd rl) (fun w =>
             let '(o, (es, w')) := invoke gunzip c (makeHelpGetConfigQuery apiID) (newEncryptedState sid auth, w) in
             (omap_outcome (fill_result (Client None dc auth None) es) o, w')) ;;
      net_Close ;;
      match fst r with
      | inl result => ret (set_message "help.getConfig received over encrypted MTProto" result)
      | inr err => fail err
      end
  end.

Definition HelpGetConfigDefault (c : ctx) (apiID : Z) : M env InvokeResult :=
  first_success (fun dc => HelpGetConfig c dc apiID) no_dcs None DefaultDCOptions.

(** ** Logging in, with migration

    A login attempt on an open client, with the client as the attempt leaves it. *)
Definition attempt {A} (login : Method A) (client : EncryptedClient) : M env ((A + goerr) * EncryptedClient) := fun e =>
  match login (client, e) with
  | (Ok a, (c', e')) => (Ok (inl a, c'), e')
  | (Err x, (c', e')) => (Ok (inr x, c'), e')
  | (Panic, (c', e')) => (Panic, e')
  end.

Fixpoint onDC_loop {A} (c : ctx) (login : Method A) (again : Z -> M env (EncryptedClient * A))
    (dcID : Z) (options : list DCOption) (last : option goerr) : M env (EncryptedClient * A) :=
  match options with
  | [] => fail (match last with
                | Some err => err
                | None => ErrFmt "mtproto: failed to connect to migrated DC %d" [FZ dcID]
                end)
  | dc :: rest =>
      d <- try (DialEncrypted c dc) ;;
      match d with
      | inr err => onDC_loop c login again dcID rest (Some err)
      | inl client =>
          r <- attempt login client ;;
          match fst r with
          | inl result => ret (snd r, result)
          | inr err =>
              Client_Close (snd r) ;;
              match MigrationDCID err with
              | Some nextDC =>
                  if negb (nextDC =? dcID) then again nextDC
                  else onDC_loop c login again dcID rest (Some err)
              | None => onDC_loop c login again dcID rest (Some err)
              end
          end
      end
  end.

(** [importBotAuthorizationOnDC] and [authSendCodeOnDC], which differ in the
    login they attempt; [fuel] bounds the migrations followed, [stuck] stands for
    what is left undone when it runs out. *)
Fixpoint loginOnDC {A} (stuck : M env (EncryptedClient * A)) (fuel : nat) (c : ctx) (login : Method A) (dcID : Z)
  : M env (EncryptedClient * A) :=
  match fuel with
  | O => stuck
  | S fuel' =>
      let options := dcOptionsByID dcID in
      if len options =? 0
      then fail (ErrFmt "mtproto: no default address configured for migrated DC %d" [FZ dcID])
      else onDC_loop c login (loginOnDC stuck fuel' c login) dcID options None
  end.

(** [ImportBotAuthorizationDefault] and [AuthSendCodeDefault]; every migration
    follows a dial, so the dials to come bound their number. *)
Definition loginDefault {A} (c : ctx) (login : Method A) (migrated : Z -> A -> A) : M env (EncryptedClient * A) :=
  client <- DialEncryptedDefault c ;;
  r <- attempt login client ;;
  match fst r with
  | inl result => ret (snd r, result)
  | inr err =>
      Client_Close (snd r) ;;
      match MigrationDCID err with
      | None => fail err
      | Some migrateTo =>
          e <- get ;;
          cr <- loginOnDC (fail out_of_fuel) (S (length (e_dials e))) c login migrateTo ;;
          ret (fst cr, migrated migrateTo (snd cr))
      end
  end.

Definition ImportBotAuthorization (c : ctx) (apiID : Z) (apiHash botToken : string) : Method InvokeResult :=
  guard (negb (apiID <=? 0)) (ErrNew "api id is required") ;;
  guard (negb (blank apiHash)) (ErrNew "api hash is required") ;;
  guard (negb (blank botToken)) (ErrNew "bot token is required") ;;
  result <- Client_Invoke c (makeImportBotAuthorizationQuery apiID apiHash botToken) ;;
  ret (set_message "auth.importBotAuthorization succeeded over encrypted MTProto" result).

Definition ImportBotAuthorizationDefault (c : ctx) (apiID : Z) (apiHash botToken : string)
  : M env (EncryptedClient * InvokeResult) :=
  loginDefault c (ImportBotAuthorization c apiID apiHash botToken)
    (fun dcID => set_message ("auth.importBotAuthorization succeeded after migrating to DC " ++ FormatInt dcID)).

End Client.

(** [Probe] and [ProbeDefault] (probe.go), which dial an address directly. *)
Definition DefaultDCs : list string :=
  ["149.154.167.50:443"; "149.154.167.51:443"; "149.154.175.100:443"; "149.154.167.91:443";
   "149.154.171.5:443"]%string.

Definition Probe (PP : Z -> bool) (c : ctx) (address : string) : M env ProbeResult :=
  guard (negb (address =? EmptyString)%string) (ErrNew "address is required") ;;
  cn <- net_Dial address ;;
  deadline <- dial_deadline c (15 * second) ;;
  rl <- on_link (Link cn deadline) (on_conn abridgedInit ;; probeOnConn PP address) ;;
  net_Close ;;
  match fst rl with inl r => ret r | inr err => fail err end.

Definition ProbeDefault (PP : Z -> bool) (c : ctx) : M env ProbeResult :=
  first_success (Probe PP c) no_dcs None DefaultDCs.

(** ** What a client keeps

    A working client: connected, without a deadline left over, its session well
    formed. *)
Definition client_wf (c : EncryptedClient) : Prop :=
  exists l es, ec_conn c = Some l /\ l_deadline l = None /\ ec_state c = Some es /\ es_wf es.

(** The parts of the session no call may change. *)
Definition identity (c : EncryptedClient) : option (list byte * Z * Z) :=
  (fun es => (es_authKey es, es_authKeyID es, es_sessionID es)) <$> ec_state c.

(** A call on a client leaves it working, with the same endpoint, key and
    session id, and neither opens nor closes a connection. *)
Record kept (s s' : EncryptedClient * env) : Prop := {
  k_wf : client_wf (fst s');
  k_dc : ec_dc (fst s') = ec_dc (fst s);
  k_auth : ec_auth (fst s') = ec_auth (fst s);
  k_identity : identity (fst s') = identity (fst s);
  k_open : e_open (snd s') = e_open (snd s);
  k_dials : e_dials (snd s') = e_dials (snd s);
  k_dialed : e_dialed (snd s') = e_dialed (snd s) }.

Lemma kept_refl s : client_wf (fst s) -> kept s s.
Proof. by split. Qed.

(** A method that never panics and keeps its client, error or not. *)
Definition method_ok {A} (m : Method A) : Prop := forall s0, hoare (kept s0) m (fun _ => kept s0) (kept s0).

Lemma method_ok_bind {A B} (m : Method A) (k : A -> Method B) :
  method_ok m -> (forall a, method_ok (k a)) -> method_ok (x <- m ;; k x).
Proof. intros Hm Hk s0. eapply hoare_bind; [apply Hm|]. intros a. apply Hk. Qed.

Lemma method_ok_ret {A} (a : A) : method_ok (ret a).
Proof. intros s0 s Hs. exact Hs. Qed.
Lemma method_ok_fail {A} e : method_ok (A := A) (fail e).
Proof. intros s0 s Hs. exact Hs. Qed.
Lemma method_ok_guard c e : method_ok (guard c e).
Proof. intros s0 s Hs. by destruct c. Qed.
Lemma method_ok_get : method_ok get.
Proof. intros s0 s Hs. exact Hs. Qed.
Lemma method_ok_lift {A} (o : outcome A) : o <> Panic -> method_ok (lift o).
Proof. intros Ho s0 s Hs. unfold lift. by destruct o. Qed.

Lemma method_ok_try {A} (m : Method A) : method_ok m -> method_ok (try m).
Proof.
  intros Hm s0. eapply hoare_conseq; [apply hoare_try, Hm|done| |done]. by intros [a|e] s.
Qed.

Lemma method_ok_sources {A} (m : M world A) : nopanic m -> method_ok (on_sources m).
Proof.
  intros Hm s0 [c e] Hs. unfold on_sources. specialize (Hm (world_of (Link (Conn [] [] []) None) e) I).
  destruct (m _) as [[a|x|] w]; [| |done]; destruct Hs; by split.
Qed.

Create HintDb methods.
#[export] Hint Resolve method_ok_ret method_ok_fail method_ok_guard method_ok_get : methods.

Section ClientSafety.
Variable ProbablyPrime : Z -> bool.
Variable keys : list RSAPublicKey.
Variable gunzip : list byte -> outcome (list byte).
Hypothesis gunzip_returns : forall d, gunzip d <> Panic.

Lemma invoke_kept c body : method_ok (with_session (invoke gunzip c body)).
Proof.
  intros s0 [cl e] [(l & es & Hc & Hd & Hs & Hwf) K1 K2 K3 K4 K5 K6]. unfold with_session. cbn [fst snd] in *.
  rewrite Hc, Hs.
  assert (H0 : idle es 0 (es, world_of l e)).
  { split; [|done]. split; [done|]. cbn. rewrite Z.add_0_r, i32_id by apply Hwf. done. }
  pose proof (attempts_safe gunzip gunzip_returns es 3 0 c body None (es, world_of l e) H0) as R.
  fold (invoke gunzip c body) in R.
  destruct (invoke gunzip c body _) as [[r|err|] [es' w']]; [| |done].
  all: destruct R as (j & _ & ((Hwf' & I1 & I2 & I3 & _) & Hd')); cbn [fst snd] in *;
    split; try done;
    [by exists (link_of w'), es'|rewrite <- K3; unfold identity; cbn; by rewrite Hs, I1, I2, I3].
Qed.

Lemma Client_Invoke_ok c body : method_ok (Client_Invoke gunzip c body).
Proof.
  unfold Client_Invoke. apply method_ok_bind; [apply invoke_kept|intros r].
  apply method_ok_bind; [apply method_ok_get|intros s]. destruct (ec_state (fst s)); apply method_ok_ret.
Qed.
#[local] Hint Resolve Client_Invoke_ok : methods.

Lemma ImportBotAuthorization_ok c apiID apiHash botToken :
  method_ok (ImportBotAuthorization gunzip c apiID apiHash botToken).
Proof.
  unfold ImportBotAuthorization. do 4 (apply method_ok_bind; [auto with methods|intros ?]).
  auto with methods.
Qed.

(** ** Opening connections *)

(** [k] connections open, fewer than [n] dial outcomes left. *)
Definition opened (k : Z) (n : nat) (e : env) : Prop := e_open e = k /\ (length (e_dials e) < n)%nat.

Lemma opened_pred k n e : opened k (pred n) e -> opened k n e.
Proof. intros [H1 H2]. split; [done|lia]. Qed.

(** What holds with fewer outcomes left holds with more. *)
Lemma hoare_pred {A} k n (m : M env A) (Q Q' : A -> env -> Prop) :
  hoare (opened k (pred n)) m Q' (opened k (pred n)) -> (forall a e, Q' a e -> Q a e) ->
  hoare (opened k (pred n)) m Q (opened k n).
Proof. intros Hm HQ. eapply hoare_conseq; [exact Hm|done|done|apply opened_pred]. Qed.


(** The steps that return no error of their own. *)
Lemma on_link_opened {A} l (m : M world A) k n E :
  nopanic m -> hoare (opened k n) (on_link l m) (fun _ => opened k n) E.
Proof.
  intros Hm e He. unfold on_link. specialize (Hm (world_of l e) I). by destruct (m _) as [[a|x|] w].
Qed.

Lemma close_opened k n E : hoare (opened (k + 1) n) net_Close (fun _ => opened k n) E.
Proof. intros e He. unfold opened in *. cbn. lia. Qed.

Lemma dial_deadline_opened c f k n E : hoare (opened k n) (dial_deadline c f) (fun _ => opened k n) E.
Proof. intros e He. unfold dial_deadline. destruct (c : option Z); [done|]. by destruct (0 <? f). Qed.

Lemma random_sid_opened k n E : hoare (opened k n) random_sid (fun _ => opened k n) E.
Proof.
  intros e He. unfold random_sid, bind, try, zoom, rng_Read. cbn. by destruct (8 <=? _).
Qed.

Lemma net_Dial_opened a k n : hoare (opened k n) (net_Dial a) (fun _ => opened (k + 1) (pred n)) (opened k n).
Proof.
  intros e He. unfold net_Dial, opened in *. destruct (e_dials e) as [|[cn|] rest]; cbn in *; lia.
Qed.

(** Closing on the way to an error. *)
Lemma close_fail {A} k n err (Q : A -> env -> Prop) :
  hoare (opened (k + 1) (pred n)) (net_Close ;; fail err) Q (opened k n).
Proof. eapply hoare_bind; [apply close_opened|intros ?; apply hoare_fail, opened_pred]. Qed.

Lemma dialMTProto_opened c dc f k n :
  hoare (opened k n) (dialMTProto c dc f) (fun _ => opened (k + 1) (pred n)) (opened k n).
Proof.
  unfold dialMTProto.
  do 2 (eapply hoare_bind; [by apply hoare_guard|intros ?; apply hoare_pure; intros _]).
  eapply hoare_bind; [apply net_Dial_opened|intros cn].
  eapply hoare_bind; [apply dial_deadline_opened|intros deadline].
  eapply hoare_bind; [apply on_link_opened, nopanic_zoom, nopanic_conn_Write|].
  intros [[u|err] l']; [by intros e He|apply close_fail].
Qed.

(** A handshake on a new link: no panic, and its key makes a session. *)
Lemma handshake_link l dc k n E :
  hoare (opened k n) (on_link l (authKeyOnConn ProbablyPrime keys dc))
    (fun rl e => match fst rl with inl r => agreed keys r | inr _ => True end /\ opened k n e) E.
Proof.
  intros e He. unfold on_link.
  pose proof (nopanic_authKeyOnConn ProbablyPrime keys dc (world_of l e) I) as Hn.
  destruct (authKeyOnConn _ _ _ _) as [[r|x|] w] eqn:E'; [|done|done].
  split; [|done]. by eapply authKeyOnConn_agreed.
Qed.

(** Opening a client either opens one connection, of a working client, or
    leaves none behind. *)
Lemma DialEncrypted_spec c dc k n :
  hoare (opened k n) (DialEncrypted ProbablyPrime keys c dc)
    (fun cl e => client_wf cl /\ opened (k + 1) (pred n) e) (opened k n).
Proof.
  unfold DialEncrypted. eapply hoare_bind; [apply dialMTProto_opened|intros l].
  eapply hoare_bind; [apply handshake_link|].
  intros [[auth|err] l']; [|apply hoare_pure; intros _; apply close_fail].
  apply hoare_pure. cbn [fst snd]. intros Hag.
  eapply hoare_bind; [apply random_sid_opened|intros sid e He]. split; [|done].
  do 2 eexists. split; [reflexivity|]. split; [done|]. split; [reflexivity|]. apply Hag.
Qed.

(** Connections for one call, closed on every path. *)
Lemma AuthKey_on_opened c dc k n :
  hoare (opened k n) (AuthKey_on ProbablyPrime keys c dc) (fun _ => opened k n) (opened k n).
Proof.
  unfold AuthKey_on. eapply hoare_bind; [apply dialMTProto_opened|intros l].
  eapply hoare_bind; [apply handshake_link|intros rl]. apply hoare_pure. intros _.
  eapply hoare_bind; [apply close_opened|intros ?]. destruct (fst rl); [|apply hoare_fail, opened_pred].
  intros e He. by apply opened_pred.
Qed.

Lemma Probe_opened c address k n :
  hoare (opened k n) (Probe ProbablyPrime c address) (fun _ => opened k n) (opened k n).
Proof.
  unfold Probe. eapply hoare_bind; [by apply hoare_guard|intros ?; apply hoare_pure; intros _].
  eapply hoare_bind; [apply net_Dial_opened|intros cn]. eapply hoare_bind; [apply dial_deadline_opened|intros deadline].
  eapply hoare_bind; [apply on_link_opened|intros rl].
  - apply nopanic_bind; [apply nopanic_zoom, nopanic_conn_Write|intros _]. apply nopanic_probeOnConn.
  - eapply hoare_bind; [apply close_opened|intros ?]. destruct (fst rl); [|apply hoare_fail, opened_pred].
    intros e He. by apply opened_pred.
Qed.

Lemma invoke_link c dc auth query sid : agreed keys auth ->
  nopanic (fun w => let '(o, (es, w')) := invoke gunzip c query (newEncryptedState sid auth, w) in
                    (omap_outcome (fill_result (Client None dc auth None) es) o, w')).
Proof.
  intros Ha w _. set (e0 := newEncryptedState sid auth). assert (Hw : es_wf e0) by apply Ha.
  assert (H0 : idle_but e0 (w_deadline w) 0 (e0, w)).
  { split; [|by right]. split; [done|]. by rewrite Z.add_0_r, i32_id by apply Hw. }
  pose proof (attempts_returns gunzip gunzip_returns e0 (w_deadline w) 3 0 c query None (e0, w) H0) as R.
  unfold invoke. by destruct (attempts _ _ _ _ _ _) as [[r|err|] [e' w']].
Qed.

Lemma HelpGetConfig_opened c dc apiID k n :
  hoare (opened k n) (HelpGetConfig ProbablyPrime keys gunzip c dc apiID) (fun _ => opened k n) (opened k n).
Proof.
  unfold HelpGetConfig. eapply hoare_bind; [apply dialMTProto_opened|intros l].
  eapply hoare_bind; [apply handshake_link|].
  intros [[auth|err] l']; [|apply hoare_pure; intros _; apply close_fail].
  apply hoare_pure. cbn [fst snd]. intros Hag. eapply hoare_bind; [apply random_sid_opened|intros sid].
  eapply hoare_bind; [by apply on_link_opened, invoke_link|intros r].
  eapply hoare_bind; [apply close_opened|intros ?]. destruct (fst r); [|apply hoare_fail, opened_pred].
  intros e He. by apply opened_pred.
Qed.

Lemma first_success_spec {D A} (f : D -> M env A) none last ds (P : env -> Prop) Q :
  (forall d, hoare P (f d) Q P) -> hoare P (first_success f none last ds) Q P.
Proof.
  intros Hf. revert last. induction ds as [|d ds IH]; intros last; cbn [first_success].
  { by apply hoare_fail. }
  eapply hoare_bind; [apply hoare_try, Hf|]. intros [a|err]; [by intros e He|apply IH].
Qed.

(** ** Logging in *)

Section Login.
Context {A : Type}.
Variable login : Method A.
Hypothesis login_ok : method_ok login.

Lemma attempt_spec client k n E :
  client_wf client ->
  hoare (opened k n) (attempt login client) (fun r e => client_wf (snd r) /\ opened k n e) E.
Proof.
  intros Hc e He. unfold attempt. pose proof (login_ok (client, e) (client, e) (kept_refl (client, e) Hc)) as R.
  destruct (login (client, e)) as [[a|x|] [c' e']]; [| |done]; destruct R; cbn in *;
    (split; [done|unfold opened in *; congruence]).
Qed.

Lemma Client_Close_opened c k n E :
  client_wf c -> hoare (opened (k + 1) n) (Client_Close c) (fun _ => opened k n) E.
Proof. intros (l & es & Hc & _). unfold Client_Close. rewrite Hc. apply close_opened. Qed.

Definition login_opened (k : Z) (n : nat) (r : EncryptedClient * A) (e : env) : Prop :=
  client_wf (fst r) /\ opened (k + 1) n e.

Lemma login_opened_pred k n r e : login_opened k (pred n) r e -> login_opened k n r e.
Proof. intros [H1 H2]. split; [done|by apply opened_pred]. Qed.

Lemma onDC_loop_spec c again dcID options last k n :
  (forall d n, hoare (opened k n) (again d) (login_opened k n) (opened k n)) ->
  hoare (opened k n) (onDC_loop ProbablyPrime keys c login again dcID options last) (login_opened k n) (opened k n).
Proof.
  intros Ha. revert last n. induction options as [|dc rest IH]; intros last n; cbn [onDC_loop].
  { by apply hoare_fail. }
  eapply hoare_bind; [apply hoare_try, DialEncrypted_spec|]. intros [client|err]; [|apply IH].
  apply hoare_pure. intros Hc.
  eapply hoare_bind; [by apply attempt_spec|]. intros [[a|err] client']; apply hoare_pure; cbn [fst snd]; intros Hc'.
  { intros e He. split; [done|by apply opened_pred]. }
  eapply hoare_bind; [by apply Client_Close_opened|intros ?].
  assert (Hl : hoare (opened k (pred n)) (onDC_loop ProbablyPrime keys c login again dcID rest (Some err))
                 (login_opened k n) (opened k n)) by apply (hoare_pred k n _ _ _ (IH _ _)), login_opened_pred.
  destruct (MigrationDCID err) as [d|]; [|done]. destruct (negb _); [|done].
  apply (hoare_pred k n _ _ _ (Ha _ _)), login_opened_pred.
Qed.

Lemma loginOnDC_spec fuel c dcID k n :
  hoare (opened k n) (loginOnDC ProbablyPrime keys (fail out_of_fuel) fuel c login dcID) (login_opened k n) (opened k n).
Proof.
  revert dcID n. induction fuel as [|fuel IH]; intros dcID n; cbn [loginOnDC]; [by apply hoare_fail|].
  destruct (_ =? 0); [by apply hoare_fail|]. apply onDC_loop_spec, IH.
Qed.

(** Each migration was preceded by a dial, so more fuel than there are dial
    outcomes is never used up: what would follow does not matter. *)
Lemma onDC_loop_ext c again1 again2 dcID options last k n e :
  (forall d e, opened k (pred n) e -> again1 d e = again2 d e) -> opened k n e ->
  onDC_loop ProbablyPrime keys c login again1 dcID options last e =
  onDC_loop ProbablyPrime keys c login again2 dcID options last e.
Proof.
  intros Ha. revert last e. induction options as [|dc rest IH]; intros last e He; [done|]. cbn [onDC_loop].
  pose proof (hoare_try _ _ _ _ (fun _ => True) (DialEncrypted_spec c dc k n) e He) as R.
  apply bind_ext_ok. intros [client|err] e1 E; rewrite E in R; [|by apply IH]. destruct R as [Hc He1].
  pose proof (attempt_spec client (k + 1) (pred n) (fun _ => True) Hc e1 He1) as R.
  apply bind_ext_ok. intros [[a|err] client'] e2 E2; [done|]. rewrite E2 in R. destruct R as [Hc' He2].
  cbn [fst snd] in *.
  pose proof (Client_Close_opened client' k (pred n) (fun _ => True) Hc' e2 He2) as R.
  apply bind_ext_ok. intros u e3 E3. rewrite E3 in R.
  destruct (MigrationDCID err) as [d|]; [|by apply IH, opened_pred].
  destruct (negb _); [by apply Ha|by apply IH, opened_pred].
Qed.

Lemma loginOnDC_fuel stuck1 stuck2 f1 f2 c dcID k n e :
  opened k n e -> (n <= f1)%nat -> (n <= f2)%nat ->
  loginOnDC ProbablyPrime keys stuck1 f1 c login dcID e = loginOnDC ProbablyPrime keys stuck2 f2 c login dcID e.
Proof.
  revert f2 dcID n e. induction f1 as [|f1 IH]; intros f2 dcID n e He H1 H2; [destruct He; lia|].
  destruct f2 as [|f2]; [destruct He; lia|]. cbn [loginOnDC]. destruct (_ =? 0); [done|].
  apply (onDC_loop_ext _ _ _ _ _ _ k n); [|done]. intros d e' He'.
  apply (IH f2 d (pred n)); [done|lia|lia].
Qed.

Lemma loginDefault_spec c migrated k n :
  hoare (opened k n) (loginDefault ProbablyPrime keys c login migrated) (login_opened k n) (opened k n).
Proof.
  unfold loginDefault.
  eapply hoare_bind; [apply first_success_spec; intros dc; apply DialEncrypted_spec|intros client].
  apply hoare_pure. intros Hc.
  eapply hoare_bind; [by apply attempt_spec|]. intros [[a|err] client']; apply hoare_pure; cbn [fst snd]; intros Hc'.
  { intros e He. split; [done|by apply opened_pred]. }
  eapply hoare_bind; [by apply Client_Close_opened|intros ?].
  destruct (MigrationDCID err) as [d|]; [|apply hoare_fail, opened_pred].
  intros e He. rewrite (bind_ok _ _ _ e e) by done. revert e He.
  enough (H : forall f, hoare (opened k (pred n)) (cr <- loginOnDC ProbablyPrime keys (fail out_of_fuel) f c login d ;;
                ret (fst cr, migrated d (snd cr))) (login_opened k n) (opened k n)).
  { intros e. apply (H (S (length (e_dials e)))). }
  intros f. eapply hoare_bind; [apply (hoare_pred k n _ _ _ (loginOnDC_spec f c d k (pred n))), login_opened_pred|].
  intros [c' a'] e' He'. exact He'.
Qed.
End Login.
End ClientSafety.

#[export] Hint Resolve Client_Invoke_ok method_ok_lift method_ok_try method_ok_sources : methods.

(** Discharge [method_ok] of a composed method. *)
Ltac method_auto :=
  repeat first
    [ solve [auto with methods nopanic]
    | match goal with
      | |- method_ok (bind ?m ?k) => apply (method_ok_bind m k); [|intros]
      | |- method_ok (if ?c then _ else _) => destruct c
      | |- method_ok (match ?x with _ => _ end) => destruct x
      end ].
