(* ===== verification/Account.v ===== *)
(** * Account: user login (src/mtproto/account.go)

    auth.sendCode and auth.signIn: the parser of auth.SentCode with its eleven
    kinds of code delivery, the client methods, and the login with migration. *)

From S2P Require Import Prelude Strings TL Transport Hash AES Crypto Envelope Auth Invoke Queries Client.

Definition constructorAuthSentCode := 0x5e002502.
Definition constructorAuthSentCodeSuccess := 0x2390fe44.
Definition constructorAuthSentCodePaymentRequired := 0xd7a2fcf9.
Definition constructorSentCodeTypeApp := 0x3dbb5986.
Definition constructorSentCodeTypeSMS := 0xc000bba2.
Definition constructorSentCodeTypeCall := 0x5353e5a7.
Definition constructorSentCodeTypeFlashCall := 0xab03c6d9.
Definition constructorSentCodeTypeMissedCall := 0x82006484.
Definition constructorSentCodeTypeEmailCode := 0xf450f59b.
Definition constructorSentCodeTypeSetUpEmailReq := 0xa5491dea.
Definition constructorSentCodeTypeFragmentSMS := 0xd9565c39.
Definition constructorSentCodeTypeFirebaseSMS := 0x009fd736.
Definition constructorSentCodeTypeSMSWord := 0xa416ac81.
Definition constructorSentCodeTypeSMSPhrase := 0xb37794af.

Record SentCodeResult := SentCode {
  sc_PhoneNumber : string; sc_PhoneCodeHash : string; sc_Constructor : Z;
  sc_CodeTypeConstructor : Z; sc_Timeout : Z; sc_Body : list byte; sc_Message : string }.

(** [if flags&(1<<bit) != 0 { m }] *)
Definition when_bit (flags bit : Z) (m : M tlReader unit) : M tlReader unit :=
  when (negb (Z.land flags (Z.shiftl 1 bit) =? 0)) m.

Definition skip_int : M tlReader unit := _x <- tl_int ;; ret tt.
Definition skip_long : M tlReader unit := _x <- tl_long ;; ret tt.
Definition skip_string : M tlReader unit := _x <- tl_string ;; ret tt.
Definition skip_bytes : M tlReader unit := _x <- tl_bytes ;; ret tt.

Definition skipSentCodeType (constructor : Z) : M tlReader unit :=
  let eq c := constructor =? c in
  if eq constructorSentCodeTypeApp || eq constructorSentCodeTypeSMS || eq constructorSentCodeTypeCall
  then skip_int
  else if eq constructorSentCodeTypeFlashCall then skip_string
  else if eq constructorSentCodeTypeMissedCall then skip_string ;; skip_int
  else if eq constructorSentCodeTypeEmailCode then
    flags <- tl_int ;; skip_string ;; skip_int ;;
    when_bit flags 3 skip_int ;; when_bit flags 4 skip_int
  else if eq constructorSentCodeTypeSetUpEmailReq then skip_int
  else if eq constructorSentCodeTypeFragmentSMS then skip_string ;; skip_int
  else if eq constructorSentCodeTypeFirebaseSMS then
    flags <- tl_int ;;
    when_bit flags 0 skip_bytes ;;
    when_bit flags 2 (skip_long ;; skip_bytes) ;;
    when_bit flags 1 (skip_string ;; skip_int) ;;
    skip_int
  else if eq constructorSentCodeTypeSMSWord || eq constructorSentCodeTypeSMSPhrase then
    flags <- tl_int ;; when_bit flags 0 skip_string
  else fail (ErrFmt "mtproto: unsupported sent code type 0x%08x" [FZ constructor]).

(** auth.sentCode after its constructor: code type, hash, timeout. *)
Definition read_sentCode : M tlReader (Z * string * Z) :=
  flags <- tl_int ;;
  codeType <- tl_int ;;
  skipSentCodeType codeType ;;
  hash <- tl_string ;;
  when_bit flags 1 skip_int ;;
  timeout <- (if negb (Z.land flags (Z.shiftl 1 2) =? 0) then t <- tl_int ;; ret (i32 t) else ret 0) ;;
  ret (codeType, hash, timeout).

Definition read_SentCode (phoneNumber : string) (body : list byte) : M tlReader SentCodeResult :=
  constructor <- tl_int ;;
  if constructor =? constructorAuthSentCode then
    x <- read_sentCode ;;
    ret (SentCode phoneNumber (snd (fst x)) constructor (fst (fst x)) (snd x) body EmptyString)
  else if constructor =? constructorAuthSentCodeSuccess then
    ret (SentCode phoneNumber EmptyString constructor 0 0 body
           "auth.sentCodeSuccess: already authorized by a future auth token")
  else if constructor =? constructorAuthSentCodePaymentRequired then
    skip_string ;;
    hash <- tl_string ;;
    ret (SentCode phoneNumber hash constructor 0 0 body EmptyString)
  else fail (ErrFmt "mtproto: expected auth.SentCode, got 0x%08x" [FZ constructor]).

Definition parseSentCodeResult (phoneNumber : string) (body : list byte) : outcome SentCodeResult :=
  eval (read_SentCode phoneNumber body) (newTLReader body).

Definition set_sent_message (text : string) (r : SentCodeResult) : SentCodeResult :=
  SentCode (sc_PhoneNumber r) (sc_PhoneCodeHash r) (sc_Constructor r) (sc_CodeTypeConstructor r)
    (sc_Timeout r) (sc_Body r) text.

(** ** Methods *)

Section Account.
Variable ProbablyPrime : Z -> bool.
Variable keys : list RSAPublicKey.
Variable gunzip : list byte -> outcome (list byte).

Definition AuthSendCode (c : ctx) (apiID : Z) (apiHash phoneNumber : string) : Method SentCodeResult :=
  guard (negb (apiID <=? 0)) (ErrNew "api id is required") ;;
  guard (negb (blank apiHash)) (ErrNew "api hash is required") ;;
  guard (negb (blank phoneNumber)) (ErrNew "phone number is required") ;;
  result <- Client_Invoke gunzip c (makeAuthSendCodeQuery apiID apiHash phoneNumber) ;;
  sent <- lift (parseSentCodeResult phoneNumber (ir_Body result)) ;;
  ret (set_sent_message "auth.sendCode succeeded over encrypted MTProto" sent).

Definition AuthSignIn (c : ctx) (apiID : Z) (phoneNumber phoneCodeHash phoneCode : string) : Method InvokeResult :=
  guard (negb (apiID <=? 0)) (ErrNew "api id is required") ;;
  guard (negb (blank phoneNumber)) (ErrNew "phone number is required") ;;
  guard (negb (blank phoneCodeHash)) (ErrNew "phone_code_hash is required") ;;
  guard (negb (blank phoneCode)) (ErrNew "phone code is required") ;;
  result <- Client_Invoke gunzip c (makeAuthSignInQuery apiID phoneNumber phoneCodeHash phoneCode) ;;
  ret (set_message "auth.signIn succeeded over encrypted MTProto" result).

Definition AuthSendCodeDefault (c : ctx) (apiID : Z) (apiHash phoneNumber : string)
  : M env (EncryptedClient * SentCodeResult) :=
  loginDefault ProbablyPrime keys c (AuthSendCode c apiID apiHash phoneNumber)
    (fun dcID => set_sent_message ("auth.sendCode succeeded after migrating to DC " ++ FormatInt dcID)).

End Account.

(** ** The wire format

    The kinds of code delivery of the schema, with their fields. *)
Inductive code_type :=
| TypeApp (length : Z) | TypeSMS (length : Z) | TypeCall (length : Z)
| TypeFlashCall (pattern : string)
| TypeMissedCall (prefix : string) (length : Z)
| TypeEmailCode (pattern : string) (length : Z) (reset_available reset_pending : option Z)
| TypeSetUpEmail (flags : Z)
| TypeFragment (url : string) (length : Z)
| TypeFirebase (nonce : option (list byte)) (receipt : option (string * Z))
               (integrity : option (Z * list byte)) (length : Z)
| TypeWord (beginning : option string) | TypePhrase (beginning : option string).

Definition opt_bit {A} (o : option A) (bit : Z) : Z := match o with Some _ => Z.shiftl 1 bit | None => 0 end.
Definition opt_bytes {A} (enc : A -> list byte) (o : option A) : list byte :=
  match o with Some a => enc a | None => [] end.

Definition enc_string (s : string) : list byte := tl_encoding (bytes_of s).
Definition enc_int (z : Z) : list byte := le_bytes 4 (u32 z).

Definition code_constructor (t : code_type) : Z :=
  match t with
  | TypeApp _ => constructorSentCodeTypeApp
  | TypeSMS _ => constructorSentCodeTypeSMS
  | TypeCall _ => constructorSentCodeTypeCall
  | TypeFlashCall _ => constructorSentCodeTypeFlashCall
  | TypeMissedCall _ _ => constructorSentCodeTypeMissedCall
  | TypeEmailCode _ _ _ _ => constructorSentCodeTypeEmailCode
  | TypeSetUpEmail _ => constructorSentCodeTypeSetUpEmailReq
  | TypeFragment _ _ => constructorSentCodeTypeFragmentSMS
  | TypeFirebase _ _ _ _ => constructorSentCodeTypeFirebaseSMS
  | TypeWord _ => constructorSentCodeTypeSMSWord
  | TypePhrase _ => constructorSentCodeTypeSMSPhrase
  end.

(** The fields after the constructor, in the order of the schema. *)
Definition code_fields (t : code_type) : list byte :=
  match t with
  | TypeApp n | TypeSMS n | TypeCall n => enc_int n
  | TypeFlashCall p => enc_string p
  | TypeMissedCall p n => enc_string p ++ enc_int n
  | TypeEmailCode p n a b =>
      enc_int (opt_bit a 3 + opt_bit b 4) ++ enc_string p ++ enc_int n ++
      opt_bytes enc_int a ++ opt_bytes enc_int b
  | TypeSetUpEmail f => enc_int f
  | TypeFragment u n => enc_string u ++ enc_int n
  | TypeFirebase nonce receipt integrity n =>
      enc_int (opt_bit nonce 0 + opt_bit receipt 1 + opt_bit integrity 2) ++
      opt_bytes tl_encoding nonce ++
      opt_bytes (fun x => le_bytes 8 (u64 (fst x)) ++ tl_encoding (snd x)) integrity ++
      opt_bytes (fun x => enc_string (fst x) ++ enc_int (snd x)) receipt ++
      enc_int n
  | TypeWord s | TypePhrase s => enc_int (opt_bit s 0) ++ opt_bytes enc_string s
  end.

Definition short (s : string) : Prop := len (bytes_of s) < two24.

Definition code_ok (t : code_type) : Prop :=
  match t with
  | TypeApp _ | TypeSMS _ | TypeCall _ | TypeSetUpEmail _ => True
  | TypeFlashCall p | TypeMissedCall p _ | TypeEmailCode p _ _ _ | TypeFragment p _ => short p
  | TypeFirebase nonce receipt integrity _ =>
      match nonce with Some b => len b < two24 | None => True end /\
      match receipt with Some r => short (fst r) | None => True end /\
      match integrity with Some i => len (snd i) < two24 | None => True end
  | TypeWord s | TypePhrase s => match s with Some s => short s | None => True end
  end.

Definition sentCode_body (t : code_type) (hash : string) (next : option Z) (timeout : option Z) : list byte :=
  le_bytes 4 constructorAuthSentCode ++ enc_int (opt_bit next 1 + opt_bit timeout 2) ++
  le_bytes 4 (code_constructor t) ++ code_fields t ++ enc_string hash ++
  opt_bytes enc_int next ++ opt_bytes enc_int timeout.

Lemma reads_skip {A} (m : M tlReader A) bs a : reads m bs a -> reads (_x <- m ;; ret tt) bs tt.
Proof. intros H. eapply reads_last; [exact H|apply reads_ret]. Qed.

Lemma reads_skip_int z : reads skip_int (enc_int z) tt.
Proof. eapply reads_skip, reads_int. Qed.
Lemma reads_skip_long z : reads skip_long (le_bytes 8 z) tt.
Proof. eapply reads_skip, reads_long. Qed.
Lemma reads_skip_string s : short s -> reads skip_string (enc_string s) tt.
Proof. intros H. eapply reads_skip. by apply reads_string. Qed.
Lemma reads_skip_bytes b : len b < two24 -> reads skip_bytes (tl_encoding b) tt.
Proof. intros H. eapply reads_skip. by apply reads_bytes. Qed.

(** An optional field whose flag is set exactly when it is present. *)
Lemma reads_when_bit {A} (o : option A) enc flags bit m :
  negb (Z.land flags (Z.shiftl 1 bit) =? 0) = bool_decide (is_Some o) ->
  (forall a, o = Some a -> reads m (enc a) tt) -> reads (when_bit flags bit m) (opt_bytes enc o) tt.
Proof.
  intros Hf Hm. unfold when_bit. rewrite Hf. destruct o as [a|]; cbn; [by apply Hm|apply reads_ret].
Qed.

Create HintDb wire.
#[export] Hint Resolve reads_skip_int reads_skip_long reads_skip_string reads_skip_bytes : wire.

Lemma reads_flags_int z : is_u32 z -> reads tl_int (enc_int z) z.
Proof. intros H. pose proof (reads_int (u32 z)) as R. rewrite (u32_id (u32 z) (u32_range z)) in R.
  by rewrite (u32_id z H) in R at 2. Qed.

#[local] Arguments enc_int : simpl never.
#[local] Arguments le_bytes : simpl never.

Lemma reads_code_type t : code_ok t -> reads (skipSentCodeType (code_constructor t)) (code_fields t) tt.
Proof.
  intros Ht. destruct t as [n|n|n|p|p n|p n a b|f|u n|nonce receipt integrity n|s|s];
    unfold skipSentCodeType; cbn in Ht |- *.
  1-4, 7: by auto with wire.
  - eapply reads_bind; auto with wire.
  - eapply reads_bind; [apply reads_flags_int; by destruct a, b|].
    eapply reads_bind; [by auto with wire|]. eapply reads_bind; [apply reads_skip_int|].
    eapply reads_bind; apply reads_when_bit; try (intros; apply reads_skip_int); by destruct a, b.
  - eapply reads_bind; auto with wire.
  - destruct Ht as (H1 & H2 & H3).
    eapply reads_bind; [apply reads_flags_int; by destruct nonce, receipt, integrity|].
    eapply reads_bind; [apply reads_when_bit; [by destruct nonce, receipt, integrity|]|].
    { intros x ->. auto with wire. }
    eapply reads_bind; [apply reads_when_bit; [by destruct nonce, receipt, integrity|]|].
    { intros x ->. eapply reads_bind; auto with wire. }
    eapply reads_bind; [apply reads_when_bit; [by destruct nonce, receipt, integrity|]|].
    { intros x ->. eapply reads_bind; auto with wire. }
    apply reads_skip_int.
  - eapply reads_bind; [apply reads_flags_int; by destruct s|].
    apply reads_when_bit; [by destruct s|]. intros x ->. auto with wire.
  - eapply reads_bind; [apply reads_flags_int; by destruct s|].
    apply reads_when_bit; [by destruct s|]. intros x ->. auto with wire.
Qed.

Lemma code_constructor_u32 t : u32 (code_constructor t) = code_constructor t.
Proof. by destruct t. Qed.

Lemma reads_sentCode t hash next timeout :
  code_ok t -> short hash -> (forall z, timeout = Some z -> is_i32 z) ->
  reads read_sentCode
    (enc_int (opt_bit next 1 + opt_bit timeout 2) ++ le_bytes 4 (code_constructor t) ++
     code_fields t ++ enc_string hash ++ opt_bytes enc_int next ++ opt_bytes enc_int timeout)
    (code_constructor t, hash, default 0 timeout).
Proof.
  intros Ht Hs Hto. unfold read_sentCode.
  eapply reads_bind; [apply reads_flags_int; by destruct next, timeout|].
  eapply reads_bind; [apply reads_int|]. rewrite code_constructor_u32.
  eapply reads_bind; [by apply reads_code_type|]. eapply reads_bind; [by apply reads_string|].
  eapply reads_bind.
  { apply (reads_when_bit next enc_int); [by destruct next, timeout|intros; apply reads_skip_int]. }
  eapply reads_last; [|apply reads_ret].
  assert (Hb : negb (Z.land (opt_bit next 1 + opt_bit timeout 2) (Z.shiftl 1 2) =? 0) = bool_decide (is_Some timeout))
    by (by destruct next, timeout).
  rewrite Hb. destruct timeout as [z|]; cbn; [|apply reads_ret].
  eapply reads_last; [apply reads_int|]. rewrite u32_id by apply u32_range.
  rewrite i32_u32 by (by apply Hto). apply reads_ret.
Qed.

(** auth.sentCode (account.go, [parseSentCodeResult], [skipSentCodeType]):
    for each of the eleven kinds of code delivery, with any combination of its
    optional fields, any next type and any timeout, the parser gets past the
    delivery's fields and returns exactly the phone_code_hash, the kind and the
    timeout that were sent. *)
Theorem sentCode_roundtrip (phone hash : string) (t : code_type) (next timeout : option Z) :
  code_ok t -> short hash -> (forall z, timeout = Some z -> is_i32 z) ->
  let body := sentCode_body t hash next timeout in
  parseSentCodeResult phone body =
    Ok (SentCode phone hash constructorAuthSentCode (code_constructor t) (default 0 timeout) body EmptyString).
Proof.
  intros Ht Hs Hto body. unfold parseSentCodeResult.
  assert (R : reads (read_SentCode phone body) body
    (SentCode phone hash constructorAuthSentCode (code_constructor t) (default 0 timeout) body EmptyString)).
  { unfold read_SentCode, body, sentCode_body. eapply reads_bind; [apply reads_int|].
    change (u32 constructorAuthSentCode =? constructorAuthSentCode) with true. cbn iota.
    eapply reads_last; [by apply reads_sentCode|]. apply reads_ret. }
  unfold newTLReader. rewrite <- (app_nil_r body) at 2. by apply (reads_eval _ body []).
Qed.

Lemma sentCode_roundtrip_witness :
  let t := TypeFirebase (Some [x01; x02]) (Some ("receipt"%string, 30)) None 5 in
  let body := sentCode_body t "hash" (Some 7) (Some 120) in
  parseSentCodeResult "+100" body =
    Ok (SentCode "+100" "hash" constructorAuthSentCode constructorSentCodeTypeFirebaseSMS 120 body EmptyString).
Proof.
  apply (sentCode_roundtrip "+100" "hash" (TypeFirebase (Some [x01; x02]) (Some ("receipt"%string, 30)) None 5)
           (Some 7) (Some 120)); [done|done|].
  intros z [= <-]. vm_compute. intuition congruence.
Defined.

(** ** Robustness *)

Lemma rsafe_skips : rsafe skip_int /\ rsafe skip_long /\ rsafe skip_string /\ rsafe skip_bytes.
Proof. unfold skip_int, skip_long, skip_string, skip_bytes. split_and!; rsafe_auto. Qed.

Lemma rsafe_skip_int : rsafe skip_int.
Proof. apply rsafe_skips. Qed.
Lemma rsafe_skip_long : rsafe skip_long.
Proof. apply rsafe_skips. Qed.
Lemma rsafe_skip_string : rsafe skip_string.
Proof. apply rsafe_skips. Qed.
Lemma rsafe_skip_bytes : rsafe skip_bytes.
Proof. apply rsafe_skips. Qed.
Lemma rsafe_when_bit f b m : rsafe m -> rsafe (when_bit f b m).
Proof. apply rsafe_when. Qed.
#[export] Hint Resolve rsafe_skip_int rsafe_skip_long rsafe_skip_string rsafe_skip_bytes rsafe_when_bit : tl.

Lemma rsafe_skipSentCodeType c : rsafe (skipSentCodeType c).
Proof. unfold skipSentCodeType. rsafe_auto; apply rsafe_when_bit; rsafe_auto. Qed.
#[export] Hint Resolve rsafe_skipSentCodeType : tl.

Lemma parseSentCodeResult_returns phone body : parseSentCodeResult phone body <> Panic.
Proof.
  apply rsafe_eval. unfold read_SentCode, read_sentCode. rsafe_auto.
Qed.

#[export] Hint Resolve parseSentCodeResult_returns : methods.

Section AccountSafety.
Variable gunzip : list byte -> outcome (list byte).
Hypothesis gunzip_returns : forall d, gunzip d <> Panic.

Lemma AuthSendCode_ok c apiID apiHash phone : method_ok (AuthSendCode gunzip c apiID apiHash phone).
Proof.
  unfold AuthSendCode. method_auto.
Qed.

Lemma AuthSignIn_ok c apiID phone hash code : method_ok (AuthSignIn gunzip c apiID phone hash code).
Proof. unfold AuthSignIn. method_auto. Qed.

End AccountSafety.

(** ** Connections and termination of the logins *)

(** A login that succeeds leaves one more connection open, of a working client;
    one that fails leaves none behind. *)
Definition settled {A} (k : Z) (r : outcome (EncryptedClient * A) * env) : Prop :=
  match fst r with
  | Ok (client, _) => client_wf client /\ e_open (snd r) = k + 1
  | Err _ => e_open (snd r) = k
  | Panic => False
  end.

Lemma loginDefault_settled {A} PP keys c (login : Method A) migrated e :
  method_ok login -> settled (e_open e) (loginDefault PP keys c login migrated e).
Proof.
  intros Hl.
  assert (He : opened (e_open e) (S (length (e_dials e))) e) by (split; [done|lia]).
  pose proof (loginDefault_spec PP keys login Hl c migrated _ _ e He) as R. unfold settled.
  destruct (loginDefault _ _ _ _ _ _) as [[[cl a]|err|] e']; [|apply R|done].
  destruct R as [R1 R2]. split; [done|apply R2].
Qed.

(** C4. Logins do not leak connections
    (client.go, [ImportBotAuthorizationDefault], [importBotAuthorizationOnDC];
    account.go, [AuthSendCodeDefault], [authSendCodeOnDC]; auth.go,
    [DialEncrypted], [dialMTProto]): whatever the servers send, whichever dials
    and writes fail and however often a login is migrated, the login does not
    panic; if it succeeds, exactly one more connection is open and the client
    returned works on it (key, session and no deadline left over); if it fails,
    every connection it opened is closed. *)
Theorem login_connections PP keys gunzip (c : ctx) (apiID : Z) (apiHash botToken phone : string) (e : env) :
  (forall d, gunzip d <> Panic) ->
  settled (e_open e) (ImportBotAuthorizationDefault PP keys gunzip c apiID apiHash botToken e) /\
  settled (e_open e) (AuthSendCodeDefault PP keys gunzip c apiID apiHash phone e).
Proof.
  intros Hg. split; apply loginDefault_settled.
  - by apply ImportBotAuthorization_ok.
  - by apply AuthSendCode_ok.
Qed.

(** Three servers: one unreachable, one closing the connection at once, one
    sending rubbish. *)
Definition demo_env : env :=
  Env (replicate 64 x07) (fun _ => 1700000000 * second) 0
    [None; Some (Conn [] [] []); Some (Conn (replicate 5 x01) [] [])] 2 [].

Lemma login_connections_witness :
  let gunzip d := (if len d =? 0 then Err (ErrNew "EOF") else Ok d) : outcome (list byte) in
  settled 2 (ImportBotAuthorizationDefault (fun _ => true) [] gunzip None 1 "hash" "token" demo_env) /\
  settled 2 (AuthSendCodeDefault (fun _ => true) [] gunzip None 1 "hash" "+100" demo_env).
Proof.
  apply (login_connections (fun _ => true) [] _ None 1 "hash" "token" "+100" demo_env).
  intros d. by destruct (len d =? 0).
Defined.

(** C22. Migration terminates (client.go, [importBotAuthorizationOnDC];
    account.go, [authSendCodeOnDC]), though the code puts no bound on it: each
    migration is preceded by a dial that succeeded, so with at least as many
    rounds as there are dial outcomes left (a dial past them fails) the rounds
    are never used up, whatever would happen after them. *)
Theorem migration_terminates {A} PP keys (c : ctx) (login : Method A) stuck1 stuck2 (f1 f2 : nat) (dcID : Z) (e : env) :
  method_ok login -> (length (e_dials e) < f1)%nat -> (length (e_dials e) < f2)%nat ->
  loginOnDC PP keys stuck1 f1 c login dcID e = loginOnDC PP keys stuck2 f2 c login dcID e.
Proof.
  intros Hl H1 H2. apply (loginOnDC_fuel PP keys login Hl _ _ _ _ _ _ (e_open e) (S (length (e_dials e)))); [|lia..].
  split; [done|lia].
Qed.

Lemma migration_terminates_witness :
  let login := ImportBotAuthorization (fun _ => Err (ErrNew "EOF")) None 1 "hash" "token" in
  loginOnDC (fun _ => true) [] (fail out_of_fuel) 4 None login 2 demo_env =
  loginOnDC (fun _ => true) [] (lift Panic) 7 None login 2 demo_env.
Proof.
  apply (migration_terminates (fun _ => true) [] None _ (fail out_of_fuel) (lift Panic) 4 7 2 demo_env);
    [by apply ImportBotAuthorization_ok|cbn; lia|cbn; lia].
Defined.
