(* ===== verification/Password.v ===== *)
(** * Password: two-factor login (src/mtproto/password.go)

    account.getPassword and auth.checkPassword: the parser of account.password
    and the client's side of SRP, with the server's side as a specification. *)

From S2P Require Import Prelude Strings TL Transport Hash AES Crypto Envelope Auth Invoke Queries Kdf Client Account.

Definition constructorAccountGetPassword := 0x548a30f5.
Definition constructorAccountPassword := 0x957b50fb.
Definition constructorPasswordKDFAlgoSHA256SHA256PBKDF2HMACSHA512Iter100000SHA256ModPow := 0x3a912d4a.
Definition constructorPasswordKDFAlgoUnknown := 0xd45ab096.
Definition constructorInputCheckPasswordSRP := 0xd27ff082.
Definition constructorAuthCheckPassword := 0xd18b4d16.

Record PasswordKDFAlgo := KDFAlgo {
  ka_Constructor : Z; ka_Salt1 : list byte; ka_Salt2 : list byte; ka_G : Z; ka_P : list byte }.

Record AccountPassword := AccountPw {
  ap_Flags : Z; ap_HasRecovery : bool; ap_HasPassword : bool; ap_Hint : string; ap_SRPID : Z;
  ap_SRPB : list byte; ap_CurrentAlgo : PasswordKDFAlgo; ap_Raw : list byte }.

Record SRPProof := Proof { sp_SRPID : Z; sp_A : list byte; sp_M1 : list byte }.

(** ** Parsing account.password *)

Definition no_algo : PasswordKDFAlgo := KDFAlgo 0 [] [] 0 [].

Definition parsePasswordKDFAlgo : M tlReader PasswordKDFAlgo :=
  constructor <- tl_int ;;
  if constructor =? constructorPasswordKDFAlgoUnknown then ret (KDFAlgo constructor [] [] 0 [])
  else if constructor =? constructorPasswordKDFAlgoSHA256SHA256PBKDF2HMACSHA512Iter100000SHA256ModPow then
    salt1 <- tl_bytes ;; salt2 <- tl_bytes ;; g <- tl_int ;; p <- tl_bytes ;;
    ret (KDFAlgo constructor salt1 salt2 (i32 g) p)
  else fail (ErrFmt "unsupported password KDF algorithm 0x%08x" [FZ constructor]).

Definition skipPasswordKDFAlgo : M tlReader unit := _algo <- parsePasswordKDFAlgo ;; ret tt.

Definition skipSecurePasswordKDFAlgo : M tlReader unit :=
  constructor <- tl_int ;;
  if constructor =? 0x004a8537 then ret tt
  else if constructor =? 0xbbf2dda0 then skip_bytes
  else if constructor =? 0x86471d92 then skip_bytes
  else fail (ErrFmt "unsupported secure password KDF algorithm 0x%08x" [FZ constructor]).

Definition has_bit (flags bit : Z) : bool := negb (Z.land flags (Z.shiftl 1 bit) =? 0).

(** A field that is there when its flag is set. *)
Definition read_if {A} (flags bit : Z) (m : M tlReader A) (absent : A) : M tlReader A :=
  if has_bit flags bit then m else ret absent.

Definition read_srp : M tlReader (PasswordKDFAlgo * list byte * Z) :=
  algo <- parsePasswordKDFAlgo ;; srpB <- tl_bytes ;; srpID <- tl_long ;;
  ret (algo, srpB, i64 srpID).

Definition read_AccountPassword (body : list byte) : M tlReader AccountPassword :=
  constructor <- tl_int ;;
  guard (constructor =? constructorAccountPassword)
        (ErrFmt "mtproto: expected account.password, got 0x%08x" [FZ constructor]) ;;
  flags <- tl_int ;;
  srp <- read_if flags 2 read_srp (no_algo, [], 0) ;;
  hint <- read_if flags 3 tl_string EmptyString ;;
  when_bit flags 4 skip_string ;;
  skipPasswordKDFAlgo ;;
  skipSecurePasswordKDFAlgo ;;
  skip_bytes ;;
  when_bit flags 5 skip_int ;;
  when_bit flags 6 skip_string ;;
  ret (AccountPw flags (has_bit flags 0) (has_bit flags 2) hint (snd srp) (snd (fst srp)) (fst (fst srp)) body).

Definition parseAccountPassword (body : list byte) : outcome AccountPassword :=
  eval (read_AccountPassword body) (newTLReader body).

(** ** The proof *)

Definition saltedHash (data salt : list byte) : list byte := sha256Bytes [salt; data; salt].

Definition passwordHashPH2 (password salt1 salt2 : list byte) : list byte :=
  let ph1 := saltedHash (saltedHash password salt1) salt2 in
  let pbkdf := pbkdf2HMACSHA512 ph1 salt1 100000 64 in
  saltedHash pbkdf salt2.

(** Each draw takes at least one byte of the random source. *)
Fixpoint random_loop (fuel : nat) (max : Z) : M (list byte) Z :=
  match fuel with
  | O => fail out_of_fuel
  | S fuel' =>
      b <- rng_Read (len (big_Bytes max)) ;;
      let n := be_value b in
      if (0 <? n) && (n <? max) then ret n else random_loop fuel' max
  end.

Definition randomBigIntLessThan (max : Z) : M (list byte) Z :=
  guard (0 <? max) (ErrNew "invalid max random integer") ;;
  r <- get ;;
  random_loop (S (length r)) max.

(** M1 of the two sides, from the values they share and the key. *)
Definition srp_M1 (pBytes gBytes salt1 salt2 gaBytes gbBytes ka : list byte) : outcome (list byte) :=
  match xorBytes (sha256Bytes [pBytes]) (sha256Bytes [gBytes]) with
  | Ok hxor =>
      Ok (sha256Bytes [hxor; sha256Bytes [salt1]; sha256Bytes [salt2]; gaBytes; gbBytes; ka])
  | Err e => Err e
  | Panic => Panic
  end.

Definition BuildSRPProof (passwordParams : option AccountPassword) (password : string) : M (list byte) SRPProof :=
  match passwordParams with
  | None => fail (ErrNew "account password parameters are required")
  | Some params =>
      guard (ap_HasPassword params) (ErrNew "account does not have a 2FA password") ;;
      let algo := ap_CurrentAlgo params in
      guard (ka_Constructor algo =? constructorPasswordKDFAlgoSHA256SHA256PBKDF2HMACSHA512Iter100000SHA256ModPow)
            (ErrFmt "unsupported password KDF algorithm 0x%08x" [FZ (ka_Constructor algo)]) ;;
      guard (negb ((len (ka_P algo) =? 0) || (len (ap_SRPB params) =? 0))) (ErrNew "missing SRP parameters") ;;
      guard (negb ((ka_G algo <? 2) || (7 <? ka_G algo)))
            (ErrFmt "unsupported SRP generator g=%d" [FZ (ka_G algo)]) ;;
      let p := be_value (ka_P algo) in
      let g := ka_G algo in
      let gb := be_value (ap_SRPB params) in
      guard (negb ((p <=? 0) || (gb <=? 0) || (p <=? gb))) (ErrNew "invalid SRP p or B parameter") ;;
      let padSize := len (ka_P algo) in
      let pBytes := padBigIntBytes p padSize in
      let gBytes := padBigIntBytes g padSize in
      let gbBytes := padBigIntBytes gb padSize in
      let k := be_value (sha256Bytes [pBytes; gBytes]) in
      let x := be_value (passwordHashPH2 (bytes_of password) (ka_Salt1 algo) (ka_Salt2 algo)) in
      let v := powmod g x p in
      let kv := (k * v) mod p in
      a <- randomBigIntLessThan p ;;
      let ga := powmod g a p in
      guard (negb (ga <=? 0)) (ErrNew "invalid generated SRP A parameter") ;;
      let gaBytes := padBigIntBytes ga padSize in
      let u := be_value (sha256Bytes [gaBytes; gbBytes]) in
      guard (negb (u =? 0)) (ErrNew "invalid SRP u parameter") ;;
      let t := (gb - kv) mod p in
      guard (negb (t <=? 0)) (ErrNew "invalid SRP t parameter") ;;
      let s := powmod t (u * x + a) p in
      let ka := sha256Bytes [padBigIntBytes s padSize] in
      m1 <- lift (srp_M1 pBytes gBytes (ka_Salt1 algo) (ka_Salt2 algo) gaBytes gbBytes ka) ;;
      ret (Proof (ap_SRPID params) gaBytes m1)
  end.

Definition makeAuthCheckPasswordQuery (proof : SRPProof) : list byte :=
  tb_buf (tb_empty |> putInt constructorAuthCheckPassword |> putInt constructorInputCheckPasswordSRP
          |> putLong (u64 (sp_SRPID proof)) |> putBytes (sp_A proof) |> putBytes (sp_M1 proof)).

(** ** Methods *)

Section Methods.
Variable gunzip : list byte -> outcome (list byte).

(** On a response that does not parse, the response is returned with the error. *)
Definition AccountGetPassword (c : ctx) : Method ((AccountPassword + goerr) * InvokeResult) :=
  result <- Client_Invoke gunzip c (tb_buf (tb_empty |> putInt constructorAccountGetPassword)) ;;
  password <- try (lift (parseAccountPassword (ir_Body result))) ;;
  match password with
  | inl password =>
      ret (inl password, set_message "account.getPassword succeeded over encrypted MTProto" result)
  | inr err => ret (inr err, result)
  end.

Definition AuthCheckPassword (c : ctx) (accountPassword : option AccountPassword) (password : string)
  : Method InvokeResult :=
  guard (bool_decide (is_Some accountPassword)) (ErrNew "account password parameters are required") ;;
  guard (negb (blank password)) (ErrNew "2FA password is required") ;;
  proof <- on_sources (on_rng (BuildSRPProof accountPassword password)) ;;
  result <- Client_Invoke gunzip c (makeAuthCheckPasswordQuery proof) ;;
  ret (set_message "auth.checkPassword succeeded over encrypted MTProto" result).

End Methods.

(** ** The random exponent *)

(** The loop ends with a number in range or with the source exhausted, never for
    want of fuel. *)
Lemma random_loop_spec fuel max rng :
  0 < max -> (length rng < fuel)%nat ->
  match fst (random_loop fuel max rng) with
  | Ok n => 0 < n < max
  | Err e => e = ErrEnv "rand"
  | Panic => False
  end.
Proof.
  intros Hm. revert rng. induction fuel as [|fuel IH]; intros rng Hf; [lia|]. cbn [random_loop].
  unfold bind at 1, rng_Read. destruct (Z.leb_spec (len (big_Bytes max)) (len rng)) as [Hl|Hl]; [|done].
  set (b := sub rng 0 _).
  destruct ((0 <? be_value b) && (be_value b <? max)) eqn:E.
  { apply andb_true_iff in E as [E1%Z.ltb_lt E2%Z.ltb_lt]. done. }
  apply IH. unfold sub. rewrite length_take, length_drop.
  pose proof (bitLen_bound max ltac:(lia)) as [H0 H1]. rewrite len_big_Bytes by lia.
  assert (0 < bitLen max) by (destruct (Z.eq_dec (bitLen max) 0) as [E0|]; [rewrite E0 in H1|]; lia).
  assert (len (big_Bytes max) <= len rng) by done. rewrite len_big_Bytes in * by lia.
  unfold len in *. zlia.
Qed.

Lemma randomBigIntLessThan_spec max rng :
  match fst (randomBigIntLessThan max rng) with
  | Ok n => 0 < n < max
  | Err _ => True
  | Panic => False
  end.
Proof.
  unfold randomBigIntLessThan. destruct (Z.ltb_spec 0 max) as [Hm|]; [|done].
  erewrite bind_ok by reflexivity. erewrite bind_ok by reflexivity.
  pose proof (random_loop_spec (S (length rng)) max rng Hm ltac:(lia)) as R. by destruct (fst _).
Qed.

Lemma rng_Read_app bs rng : rng_Read (len bs) (bs ++ rng) = (Ok bs, rng).
Proof.
  unfold rng_Read. pose proof (len_nonneg rng).
  rewrite (proj2 (Z.leb_le _ _)), sub_app_head, sub_app_tail by (rewrite ?len_app; lia). done.
Qed.

(** A draw in range is returned at once. *)
Lemma randomBigIntLessThan_draw max bs rng :
  0 < be_value bs < max -> len bs = len (big_Bytes max) ->
  randomBigIntLessThan max (bs ++ rng) = (Ok (be_value bs), rng).
Proof.
  intros Hb Hl. unfold randomBigIntLessThan. rewrite (proj2 (Z.ltb_lt 0 max)) by lia.
  erewrite bind_ok by reflexivity. erewrite bind_ok by reflexivity. cbn [random_loop].
  rewrite <- Hl. rewrite (bind_ok _ _ _ _ _ (rng_Read_app bs rng)).
  by rewrite (proj2 (Z.ltb_lt 0 _)), (proj2 (Z.ltb_lt _ max)) by lia.
Qed.

#[global] Opaque passwordHashPH2 sha256Bytes.

(** ** The server's side of SRP

    Not part of the program: the verifier, B and the check of M1 as the protocol
    has the server compute them. *)
Section Server.
Variables (algo : PasswordKDFAlgo) (password : string).

Definition srp_p : Z := be_value (ka_P algo).
Definition srp_pad (z : Z) : list byte := padBigIntBytes z (len (ka_P algo)).
Definition srp_k : Z := be_value (sha256Bytes [srp_pad srp_p; srp_pad (ka_G algo)]).
Definition srp_x : Z := be_value (passwordHashPH2 (bytes_of password) (ka_Salt1 algo) (ka_Salt2 algo)).
(** What the server stores when the password is set. *)
Definition srp_verifier : Z := ka_G algo ^ srp_x mod srp_p.
Definition server_B (verifier b : Z) : Z := (srp_k * verifier + ka_G algo ^ b) mod srp_p.
Definition srp_u (gaBytes gbBytes : list byte) : Z := be_value (sha256Bytes [gaBytes; gbBytes]).
(** The key and M1, from A, the stored verifier and the secret [b]. *)
Definition server_key (gaBytes : list byte) (verifier b : Z) : list byte :=
  let u := srp_u gaBytes (srp_pad (server_B verifier b)) in
  sha256Bytes [srp_pad ((be_value gaBytes * verifier ^ u) ^ b mod srp_p)].
Definition server_M1 (gaBytes : list byte) (verifier b : Z) : outcome (list byte) :=
  srp_M1 (srp_pad srp_p) (srp_pad (ka_G algo)) (ka_Salt1 algo) (ka_Salt2 algo) gaBytes
    (srp_pad (server_B verifier b)) (server_key gaBytes verifier b).
End Server.

Lemma srp_M1_total pb gb s1 s2 ga g2 ka :
  exists m, srp_M1 pb gb s1 s2 ga g2 ka = Ok m /\ len m = 32.
Proof.
  unfold srp_M1. destruct (xorBytes_ok (sha256Bytes [pb]) (sha256Bytes [gb])) as [-> _].
  { by rewrite !len_sha256Bytes. }
  eexists. split; [reflexivity|apply len_sha256Bytes].
Qed.

(** The client's base is g^b, and the two keys are g^(ab + uxb). *)
Lemma srp_base p k v g b : 0 < p -> ((k * v + g ^ b) mod p - (k * v) mod p) mod p = g ^ b mod p.
Proof.
  intros Hp. rewrite <- Zminus_mod. f_equal. lia.
Qed.

Lemma srp_keys p g a b u x : 0 < p -> 0 <= a -> 0 <= b -> 0 <= u -> 0 <= x ->
  (g ^ b mod p) ^ (u * x + a) mod p = ((g ^ a mod p) * (g ^ x mod p) ^ u) ^ b mod p.
Proof.
  intros Hp Ha Hb Hu Hx.
  transitivity ((g ^ a * (g ^ x) ^ u) ^ b mod p).
  { rewrite Z.mod_pow_l. f_equal. rewrite <- !Z.pow_mul_r, <- Z.pow_add_r, <- Z.pow_mul_r by nia. f_equal. lia. }
  rewrite <- (Z.mod_pow_l (g ^ a * _)), <- (Z.mod_pow_l (_ * (g ^ x mod p) ^ u)). f_equal. f_equal.
  rewrite Z.mul_mod_idemp_l by lia. by rewrite (Z.mul_mod (g ^ a) ((g ^ x mod p) ^ u)), Z.mod_pow_l, <- Z.mul_mod by lia.
Qed.

(** A guard that holds. *)
Lemma bind_guard {S A} c e (k : M S A) s : c = true -> (guard c e ;; k) s = k s.
Proof. by intros ->. Qed.

(** Parameters the client accepts. *)
Record srp_params (ap : AccountPassword) : Prop := {
  pw_has : ap_HasPassword ap = true;
  pw_algo : ka_Constructor (ap_CurrentAlgo ap) =
            constructorPasswordKDFAlgoSHA256SHA256PBKDF2HMACSHA512Iter100000SHA256ModPow;
  pw_g : 2 <= ka_G (ap_CurrentAlgo ap) <= 7;
  pw_gb : 0 < be_value (ap_SRPB ap) < be_value (ka_P (ap_CurrentAlgo ap)) }.

(** C3. The 2FA proof (password.go, [BuildSRPProof]).  Let the account's
    parameters be acceptable and its B the one the server computes from the
    password's verifier and a secret b.  With a draw a in range the client sends
    A = g^a mod p, padded to the length of p, and the M1 that the server computes
    from A, the stored verifier and b alone, without x or a: the password is
    accepted.  (The two guards on values that are zero are hypotheses; the digest
    that gives x has 100000 iterations of HMAC-SHA-512.) *)
Theorem srp_agreement (ap : AccountPassword) (password : string) (bs rng : list byte) (b : Z) :
  srp_params ap -> 0 <= b ->
  let algo := ap_CurrentAlgo ap in
  let v := srp_verifier algo password in
  be_value (ap_SRPB ap) = server_B algo v b ->
  0 < be_value bs < srp_p algo -> len bs = len (big_Bytes (srp_p algo)) ->
  let A := srp_pad algo (ka_G algo ^ be_value bs mod srp_p algo) in
  0 < be_value A -> 0 < ka_G algo ^ b mod srp_p algo -> srp_u A (srp_pad algo (server_B algo v b)) <> 0 ->
  exists M1, BuildSRPProof (Some ap) password (bs ++ rng) = (Ok (Proof (ap_SRPID ap) A M1), rng) /\
    server_M1 algo A v b = Ok M1.
Proof.
  intros [Hh Ha Hg Hgb] Hb algo v HB Hbs Hl A HA Ht Hu. unfold BuildSRPProof.
  assert (Hp : 0 < srp_p algo) by lia. fold algo in Ha, Hg, Hgb |- *.
  assert (HP : len (ka_P algo) <> 0) by (intros E%len_zero; unfold srp_p in Hp; by rewrite E in Hp).
  assert (HS : len (ap_SRPB ap) <> 0) by (intros E%len_zero; rewrite E in Hgb; by destruct Hgb).
  pose proof (be_value_bound (passwordHashPH2 (bytes_of password) (ka_Salt1 algo) (ka_Salt2 algo))) as [Hx _].
  fold (srp_x algo password) in Hx |- *. cbv zeta.
  rewrite !bind_guard by (rewrite ?Hh, ?Ha; solve [done | zify; lia]).
  fold (srp_p algo) in *. rewrite (bind_ok _ _ _ _ _ (randomBigIntLessThan_draw _ bs rng Hbs Hl)).
  rewrite !powmod_spec, HB by lia. fold (srp_pad algo (srp_p algo)) (srp_pad algo (ka_G algo)).
  fold (srp_k algo) (srp_verifier algo password) v.
  fold (srp_pad algo (ka_G algo ^ be_value bs mod srp_p algo)) (srp_pad algo (server_B algo v b)) A.
  fold (srp_u A (srp_pad algo (server_B algo v b))).
  assert (HAv : be_value A = ka_G algo ^ be_value bs mod srp_p algo)
    by (apply be_value_pad, Z.mod_pos_bound; lia).
  rewrite <- HAv. unfold server_B at 2 3 4. rewrite srp_base by done.
  rewrite !bind_guard by (zify; lia).
  assert (Hk : sha256Bytes [padBigIntBytes (powmod (ka_G algo ^ b mod srp_p algo)
                 (srp_u A (srp_pad algo (server_B algo v b)) * srp_x algo password + be_value bs) (srp_p algo))
                 (len (ka_P algo))] = server_key algo A v b).
  { pose proof (be_value_bound (sha256Bytes [A; srp_pad algo (server_B algo v b)])) as [Hu0 _].
    fold (srp_u A (srp_pad algo (server_B algo v b))) in Hu0.
    rewrite powmod_spec by nia. unfold server_key. cbv zeta. rewrite HAv, srp_keys by lia. done. }
  rewrite Hk. destruct (srp_M1_total (srp_pad algo (srp_p algo)) (srp_pad algo (ka_G algo))
    (ka_Salt1 algo) (ka_Salt2 algo) A (srp_pad algo (server_B algo v b)) (server_key algo A v b)) as (M1 & E & _).
  exists M1. split; [|exact E]. by rewrite (bind_lift_ok _ _ _ _ E).
Qed.

(** A group where the powers of the generator are known without the digest:
    7 is 1 modulo 6. *)
Definition demo_algo : PasswordKDFAlgo :=
  KDFAlgo constructorPasswordKDFAlgoSHA256SHA256PBKDF2HMACSHA512Iter100000SHA256ModPow
    (bytes_of "salt1") (bytes_of "salt2") 7 [x06].
Definition demo_password : AccountPassword := AccountPw 4 false true EmptyString 99 [x04] demo_algo [].

Lemma demo_verifier password : srp_verifier demo_algo password = 1.
Proof.
  unfold srp_verifier. pose proof (be_value_bound (passwordHashPH2 (bytes_of password) (ka_Salt1 demo_algo)
    (ka_Salt2 demo_algo))) as [Hx _]. fold (srp_x demo_algo password) in Hx.
  change (srp_p demo_algo) with 6. change (ka_G demo_algo) with 7.
  rewrite <- Z.mod_pow_l. change (7 mod 6) with 1. by rewrite Z.pow_1_l.
Qed.

Lemma srp_agreement_witness :
  let A := srp_pad demo_algo (ka_G demo_algo ^ be_value [x05] mod srp_p demo_algo) in
  exists M1, BuildSRPProof (Some demo_password) "secret" ([x05] ++ [x09]) = (Ok (Proof 99 A M1), [x09]) /\
    server_M1 demo_algo A (srp_verifier demo_algo "secret") 3 = Ok M1.
Proof.
  refine (srp_agreement demo_password "secret" [x05] [x09] 3 _ _ _ _ _ _ _ _);
    change (ap_CurrentAlgo demo_password) with demo_algo; rewrite ?demo_verifier.
  - by split.
  - done.
  - by vm_compute.
  - by vm_compute.
  - by vm_compute.
  - by vm_compute.
  - by vm_compute.
  - by vm_compute.
Defined.

(** ** Soundness of the proof for any parameters *)

Lemma nopanic_randomBigIntLessThan max : nopanic (randomBigIntLessThan max).
Proof.
  intros rng _. pose proof (randomBigIntLessThan_spec max rng). by destruct (randomBigIntLessThan max rng) as [[]].
Qed.
#[local] Hint Resolve nopanic_randomBigIntLessThan : nopanic.

Lemma nopanic_BuildSRPProof params password : nopanic (BuildSRPProof params password).
Proof.
  unfold BuildSRPProof. destruct params as [ap|]; [|auto with nopanic].
  nopanic_steps.
Qed.

(** A successful guard gives its condition. *)
Ltac guard_inv :=
  repeat match goal with
  | H : guard _ _ _ = (Ok _, _) |- _ => apply guard_inv in H as [? ->]
  end.

(** C37. Whatever parameters the server sends, and whatever the random source
    holds ([BuildSRPProof], [randomBigIntLessThan]), making a proof does not
    panic or run on, and a proof is made only from parameters in range: a
    supported algorithm, 2 <= g <= 7 and 0 < B < p.  Its A is a non-zero power of
    g with an exponent in (0, p), on as many bytes as p, and M1 has 32. *)
Theorem BuildSRPProof_sound (params : option AccountPassword) (password : string) (rng : list byte) :
  match fst (BuildSRPProof params password rng) with
  | Ok proof =>
      exists ap, params = Some ap /\ srp_params ap /\ sp_SRPID proof = ap_SRPID ap /\ len (sp_M1 proof) = 32 /\
        len (sp_A proof) = len (ka_P (ap_CurrentAlgo ap)) /\
        exists a, 0 < a < srp_p (ap_CurrentAlgo ap) /\ 0 < be_value (sp_A proof) /\
          be_value (sp_A proof) = ka_G (ap_CurrentAlgo ap) ^ a mod srp_p (ap_CurrentAlgo ap)
  | Err _ => True
  | Panic => False
  end.
Proof.
  pose proof (nopanic_BuildSRPProof params password rng I) as Hn.
  destruct (BuildSRPProof params password rng) as [[proof|err|] rng'] eqn:H; [|done|done]. clear Hn. cbn [fst].
  unfold BuildSRPProof in H. destruct params as [ap|]; [|done]. cbv zeta in H. run_inv. guard_inv.
  match goal with H : lift _ _ = (Ok _, _) |- _ => apply lift_inv in H as [Em _] end.
  edestruct srp_M1_total as (m & Em' & Hm). rewrite Em in Em'. injection Em' as ->.
  match goal with H : randomBigIntLessThan ?max ?s = (Ok ?a, _) |- _ =>
    pose proof (randomBigIntLessThan_spec max s) as Ha; rewrite H in Ha; cbn [fst] in Ha end.
  fold (srp_p (ap_CurrentAlgo ap)) in *.
  rewrite powmod_spec in * by lia.
  pose proof (Z.mod_pos_bound (ka_G (ap_CurrentAlgo ap) ^ a4) (srp_p (ap_CurrentAlgo ap)) ltac:(lia)) as HA.
  exists ap. split; [done|]. split; [split; [done|lia|lia|unfold srp_p in *; lia]|]. split; [done|]. split; [exact Hm|].
  cbn [sp_A]. split; [by apply len_pad_below|]. exists a4. rewrite be_value_pad by lia. split; [lia|]. split; [lia|done].
Qed.

(** ** The wire format of account.password *)

Inductive secure_algo := SecureUnknown | SecurePBKDF2 (salt : list byte) | SecureSHA512 (salt : list byte).

Record password_fields := PasswordFields {
  pf_has_recovery : bool; pf_has_secure_values : bool;
  pf_srp : option (PasswordKDFAlgo * list byte * Z);
  pf_hint : option string; pf_email : option string;
  pf_new_algo : PasswordKDFAlgo; pf_new_secure : secure_algo; pf_random : list byte;
  pf_reset : option Z; pf_login_email : option string }.

Definition enc_algo (a : PasswordKDFAlgo) : list byte :=
  le_bytes 4 (ka_Constructor a) ++
  (if ka_Constructor a =? constructorPasswordKDFAlgoUnknown then []
   else tl_encoding (ka_Salt1 a) ++ tl_encoding (ka_Salt2 a) ++ enc_int (ka_G a) ++ tl_encoding (ka_P a)).

Definition enc_secure (a : secure_algo) : list byte :=
  match a with
  | SecureUnknown => le_bytes 4 0x004a8537
  | SecurePBKDF2 salt => le_bytes 4 0xbbf2dda0 ++ tl_encoding salt
  | SecureSHA512 salt => le_bytes 4 0x86471d92 ++ tl_encoding salt
  end.

Definition enc_srp (x : PasswordKDFAlgo * list byte * Z) : list byte :=
  enc_algo (fst (fst x)) ++ tl_encoding (snd (fst x)) ++ le_bytes 8 (u64 (snd x)).

Definition bit_of (b : bool) (bit : Z) : Z := if b then Z.shiftl 1 bit else 0.

Definition pf_flags (f : password_fields) : Z :=
  bit_of (pf_has_recovery f) 0 + bit_of (pf_has_secure_values f) 1 + opt_bit (pf_srp f) 2 +
  opt_bit (pf_hint f) 3 + opt_bit (pf_email f) 4 + opt_bit (pf_reset f) 5 + opt_bit (pf_login_email f) 6.

Definition password_body (f : password_fields) : list byte :=
  le_bytes 4 constructorAccountPassword ++ enc_int (pf_flags f) ++ opt_bytes enc_srp (pf_srp f) ++
  opt_bytes enc_string (pf_hint f) ++ opt_bytes enc_string (pf_email f) ++ enc_algo (pf_new_algo f) ++
  enc_secure (pf_new_secure f) ++ tl_encoding (pf_random f) ++ opt_bytes enc_int (pf_reset f) ++
  opt_bytes enc_string (pf_login_email f).

Definition algo_ok (a : PasswordKDFAlgo) : Prop :=
  a = KDFAlgo constructorPasswordKDFAlgoUnknown [] [] 0 [] \/
  ka_Constructor a = constructorPasswordKDFAlgoSHA256SHA256PBKDF2HMACSHA512Iter100000SHA256ModPow /\
  len (ka_Salt1 a) < two24 /\ len (ka_Salt2 a) < two24 /\ is_i32 (ka_G a) /\ len (ka_P a) < two24.

Definition opt_all {A} (P : A -> Prop) (o : option A) : Prop := match o with Some a => P a | None => True end.

Record fields_ok (f : password_fields) : Prop := {
  fo_srp : opt_all (fun x => algo_ok (fst (fst x)) /\ len (snd (fst x)) < two24 /\ is_i64 (snd x)) (pf_srp f);
  fo_hint : opt_all short (pf_hint f);
  fo_email : opt_all short (pf_email f);
  fo_new : algo_ok (pf_new_algo f);
  fo_secure : match pf_new_secure f with SecureUnknown => True | SecurePBKDF2 s | SecureSHA512 s => len s < two24 end;
  fo_random : len (pf_random f) < two24;
  fo_login : opt_all short (pf_login_email f) }.

(** What the parser is to return. *)
Definition parsed_password (f : password_fields) : AccountPassword :=
  let srp := default (no_algo, [], 0) (pf_srp f) in
  AccountPw (pf_flags f) (pf_has_recovery f) (bool_decide (is_Some (pf_srp f))) (default EmptyString (pf_hint f))
    (snd srp) (snd (fst srp)) (fst (fst srp)) (password_body f).

Lemma reads_algo a : algo_ok a -> reads parsePasswordKDFAlgo (enc_algo a) a.
Proof.
  intros Ha. unfold parsePasswordKDFAlgo, enc_algo. eapply reads_bind; [apply reads_int|].
  destruct Ha as [-> |(Hc & H1 & H2 & Hg & HP)]; [apply reads_ret|]. rewrite Hc.
  do 2 (eapply reads_bind; [by apply reads_bytes|]). eapply reads_bind; [apply reads_int|].
  eapply reads_last; [by apply reads_bytes|]. rewrite (u32_id (u32 (ka_G a))), i32_u32 by (done || apply u32_range).
  destruct a; cbn in Hc |- *. subst. apply reads_ret.
Qed.

Lemma reads_secure a :
  match a with SecureUnknown => True | SecurePBKDF2 s | SecureSHA512 s => len s < two24 end ->
  reads skipSecurePasswordKDFAlgo (enc_secure a) tt.
Proof.
  intros Ha. unfold skipSecurePasswordKDFAlgo. destruct a; cbn [enc_secure].
  - rewrite <- (app_nil_r (le_bytes 4 _)). eapply reads_bind; [apply reads_int|]. apply reads_ret.
  - eapply reads_bind; [apply reads_int|]. by apply reads_skip_bytes.
  - eapply reads_bind; [apply reads_int|]. by apply reads_skip_bytes.
Qed.

Lemma reads_srp x :
  algo_ok (fst (fst x)) -> len (snd (fst x)) < two24 -> is_i64 (snd x) -> reads read_srp (enc_srp x) x.
Proof.
  destruct x as [[a b] i]. cbn [fst snd]. intros Ha Hb Hi. unfold read_srp, enc_srp. cbn [fst snd].
  eapply reads_bind; [by apply reads_algo|]. eapply reads_bind; [by apply reads_bytes|].
  eapply reads_last; [apply reads_long|]. rewrite u64_id by apply u64_range. rewrite i64_u64 by done. apply reads_ret.
Qed.

(** An optional field and its flag. *)
Lemma reads_if {A} (o : option A) enc flags bit m d :
  has_bit flags bit = bool_decide (is_Some o) -> (forall a, o = Some a -> reads m (enc a) a) ->
  reads (read_if flags bit m d) (opt_bytes enc o) (default d o).
Proof. intros Hf Hm. unfold read_if. rewrite Hf. destruct o; cbn; [by apply Hm|apply reads_ret]. Qed.

(** Each flag is set exactly when its field is there. *)
Lemma pf_flags_bits f :
  is_u32 (pf_flags f) /\ has_bit (pf_flags f) 0 = pf_has_recovery f /\
  has_bit (pf_flags f) 2 = bool_decide (is_Some (pf_srp f)) /\
  has_bit (pf_flags f) 3 = bool_decide (is_Some (pf_hint f)) /\
  has_bit (pf_flags f) 4 = bool_decide (is_Some (pf_email f)) /\
  has_bit (pf_flags f) 5 = bool_decide (is_Some (pf_reset f)) /\
  has_bit (pf_flags f) 6 = bool_decide (is_Some (pf_login_email f)).
Proof.
  unfold pf_flags. by destruct f as [[] [] [] [] [] ? ? ? [] []].
Qed.

(** account.password (password.go, [parseAccountPassword]): for any
    combination of the optional fields, any of the algorithms of the schema and
    any values, the parser returns exactly the flags, hint, SRP id, B and current
    algorithm that were sent, having gone past everything between them. *)
Theorem password_roundtrip (f : password_fields) :
  fields_ok f -> parseAccountPassword (password_body f) = Ok (parsed_password f).
Proof.
  intros [Hsrp Hhint Hemail Hnew Hsec Hrnd Hlogin]. unfold parseAccountPassword.
  destruct (pf_flags_bits f) as (Hu & B0 & B2 & B3 & B4 & B5 & B6).
  assert (R : reads (read_AccountPassword (password_body f)) (password_body f) (parsed_password f)).
  { unfold read_AccountPassword. unfold password_body at 2. eapply reads_bind; [apply reads_int|].
    change (u32 constructorAccountPassword =? constructorAccountPassword) with true.
    eapply reads_bind0; [by apply reads_guard|]. eapply reads_bind; [by apply reads_flags_int|].
    eapply reads_bind.
    { apply (reads_if (pf_srp f) enc_srp); [exact B2|]. intros x E. rewrite E in Hsrp. destruct Hsrp as (? & ? & ?).
      by apply reads_srp. }
    eapply reads_bind.
    { apply (reads_if (pf_hint f) enc_string); [exact B3|]. intros x E. rewrite E in Hhint. by apply reads_string. }
    eapply reads_bind.
    { apply (reads_when_bit (pf_email f) enc_string); [exact B4|]. intros x E. rewrite E in Hemail.
      by apply reads_skip_string. }
    eapply reads_bind; [by eapply reads_skip, reads_algo|].
    eapply reads_bind; [by apply reads_secure|]. eapply reads_bind; [by apply reads_skip_bytes|].
    eapply reads_bind.
    { apply (reads_when_bit (pf_reset f) enc_int); [exact B5|]. intros. apply reads_skip_int. }
    eapply reads_last; [|unfold parsed_password; rewrite <- B0, <- B2; apply reads_ret].
    apply (reads_when_bit (pf_login_email f) enc_string); [exact B6|]. intros x E. rewrite E in Hlogin.
    by apply reads_skip_string. }
  unfold newTLReader. rewrite <- (app_nil_r (password_body f)) at 2. by apply (reads_eval _ _ []).
Qed.

Definition demo_fields : password_fields :=
  PasswordFields true false (Some (demo_algo, [x04], -7)) (Some "pet"%string) None
    (KDFAlgo constructorPasswordKDFAlgoUnknown [] [] 0 []) (SecureSHA512 [x01; x02]) [x03] (Some 1700000000) None.

Lemma password_roundtrip_witness :
  parseAccountPassword (password_body demo_fields) =
  Ok (AccountPw 45 true true "pet" (-7) [x04] demo_algo (password_body demo_fields)).
Proof.
  apply (password_roundtrip demo_fields). split; cbn; try done.
  - split; [|done]. right. by split.
  - by left.
Defined.

(** ** Robustness *)

Lemma rsafe_parsePasswordKDFAlgo : rsafe parsePasswordKDFAlgo.
Proof. unfold parsePasswordKDFAlgo. rsafe_auto. Qed.
#[local] Hint Resolve rsafe_parsePasswordKDFAlgo : tl.

Lemma parseAccountPassword_returns body : parseAccountPassword body <> Panic.
Proof.
  apply rsafe_eval. unfold read_AccountPassword, read_if, read_srp, skipPasswordKDFAlgo, skipSecurePasswordKDFAlgo.
  rsafe_auto.
Qed.

#[export] Hint Resolve parseAccountPassword_returns : methods.
#[local] Hint Resolve nopanic_BuildSRPProof : nopanic.

Section PasswordSafety.
Variable gunzip : list byte -> outcome (list byte).
Hypothesis gunzip_returns : forall d, gunzip d <> Panic.

Lemma AccountGetPassword_ok c : method_ok (AccountGetPassword gunzip c).
Proof. unfold AccountGetPassword. method_auto. Qed.

Lemma AuthCheckPassword_ok c ap password : method_ok (AuthCheckPassword gunzip c ap password).
Proof. unfold AuthCheckPassword. method_auto. Qed.

End PasswordSafety.
