(* ===== verification/Peers.v ===== *)
(** * Peers: references found in raw responses (src/mtproto/peers.go, state.go,
    and the scanners of highlevel.go)

    The scanners walk a response in steps of four bytes and pick out whatever
    looks like a user, chat or channel.  The collecting map [seen] is a [gmap];
    Go's iteration order over it is a parameter of the development. *)

From S2P Require Import Prelude Strings TL Transport Hash AES Crypto Envelope Invoke Queries.

Definition constructorUser := 0x020b1422.
Definition constructorUserEmpty := 0xd3bc4b7a.
Definition constructorChat := 0x41cbf256.
Definition constructorChatForbidden := 0x6592a1a7.
Definition constructorChannel := 0xfe685355.
Definition constructorChannelLegacy := 0x7482147e.
Definition constructorChannelForbidden := 0x17d493d5.
Definition constructorPeerUser := 0x59511722.
Definition constructorPeerChat := 0x36c6019a.
Definition constructorPeerChannel := 0xa2a5371e.
Definition constructorUpdatesState := 0xa56c2a3e.

(** ** PeerRef *)

Definition one_of (s : string) (l : list string) : bool := existsb (String.eqb s) l.

Definition PeerRef_InputPeer (p : PeerRef) : option InputPeer :=
  if one_of (pr_Kind p) ["user"; "private"]%string then
    if (pr_ID p =? 0) || (pr_AccessHash p =? 0) then None
    else Some (InputPeerUser (pr_ID p) (pr_AccessHash p))
  else if one_of (pr_Kind p) ["chat"; "group"]%string then
    if pr_ID p =? 0 then None else Some (InputPeerChat (pr_ID p))
  else if one_of (pr_Kind p) ["channel"; "supergroup"]%string then
    if (pr_ID p =? 0) || (pr_AccessHash p =? 0) then None
    else Some (InputPeerChannel (pr_ID p) (pr_AccessHash p))
  else None.

(** [int64Key]: decimal text; [u = uint64(-v)] wraps for the smallest int64. *)
Definition int64Key (v : Z) : string :=
  if v =? 0 then "0"%string
  else let neg := v <? 0 in
       let u := if neg then u64 (i64 (- v)) else u64 v in
       let buf := dec_loop 20 u [] in
       string_of (if neg then x2d :: buf else buf).

(** ** Scanning *)

(** [binary.LittleEndian.Uint32(body[off:])] and [Uint64]: they panic when the
    slice is too short. *)
Definition u32_at (body : list byte) (off : Z) : outcome Z :=
  omap_outcome le_value (slice body off (off + 4)).
Definition u64_at (body : list byte) (off : Z) : outcome Z :=
  omap_outcome le_value (slice body off (off + 8)).

Abbreviation seen_map := (gmap string PeerRef).

Definition peer_key (p : PeerRef) : string := (pr_Kind p ++ ":" ++ int64Key (pr_ID p))%string.

(** An entry keeps its first non-empty hash, title and username. *)
Definition merge_peer (old peer : PeerRef) : PeerRef :=
  MkPeerRef (pr_ID old)
    (if (pr_AccessHash old =? 0) && negb (pr_AccessHash peer =? 0)
     then pr_AccessHash peer else pr_AccessHash old)
    (pr_Kind old)
    (if (pr_Title old =? EmptyString)%string && negb (pr_Title peer =? EmptyString)%string
     then pr_Title peer else pr_Title old)
    (if (pr_Username old =? EmptyString)%string && negb (pr_Username peer =? EmptyString)%string
     then pr_Username peer else pr_Username old).

Definition put_peer (peer : PeerRef) (seen : seen_map) : seen_map :=
  if (pr_ID peer =? 0) || (pr_Kind peer =? EmptyString)%string then seen
  else match seen !! peer_key peer with
       | Some old => <[peer_key peer := merge_peer old peer]> seen
       | None => <[peer_key peer := peer]> seen
       end.

Definition new_peer (id accessHash : Z) (kind : string) : PeerRef :=
  MkPeerRef id accessHash kind EmptyString EmptyString.

(** The body of the scanning loop at one offset: the peer found there. *)
Definition scan_at (body : list byte) (off : Z) : outcome (option PeerRef) :=
  let n := len body in
  eval (S := unit)
  (constructor <- lift (u32_at body off) ;;
   if constructor =? constructorUser then
     if n <? off + 20 then ret None
     else
       flags <- lift (u32_at body (off + 4)) ;;
       id <- lift (u64_at body (off + 12)) ;;
       accessHash <- (if negb (Z.land flags 1 =? 0) && (off + 28 <=? n)
                      then h <- lift (u64_at body (off + 20)) ;; ret (i64 h) else ret 0) ;;
       ret (Some (new_peer (i64 id) accessHash "user"))
   else if constructor =? constructorUserEmpty then
     if n <? off + 12 then ret None
     else id <- lift (u64_at body (off + 4)) ;; ret (Some (new_peer (i64 id) 0 "user"))
   else if constructor =? constructorChat then
     if n <? off + 16 then ret None
     else id <- lift (u64_at body (off + 8)) ;; ret (Some (new_peer (i64 id) 0 "chat"))
   else if constructor =? constructorChatForbidden then
     if n <? off + 12 then ret None
     else id <- lift (u64_at body (off + 4)) ;; ret (Some (new_peer (i64 id) 0 "chat"))
   else if (constructor =? constructorChannel) || (constructor =? constructorChannelLegacy) then
     if n <? off + 20 then ret None
     else
       flags <- lift (u32_at body (off + 4)) ;;
       id <- lift (u64_at body (off + 12)) ;;
       accessHash <- (if negb (Z.land flags (Z.shiftl 1 13) =? 0) && (off + 28 <=? n)
                      then h <- lift (u64_at body (off + 20)) ;; ret (i64 h) else ret 0) ;;
       let kind := if negb (Z.land flags (Z.shiftl 1 8) =? 0) then "supergroup" else "channel" in
       ret (Some (new_peer (i64 id) accessHash kind))
   else if constructor =? constructorChannelForbidden then
     if n <? off + 24 then ret None
     else
       flags <- lift (u32_at body (off + 4)) ;;
       id <- lift (u64_at body (off + 8)) ;;
       h <- lift (u64_at body (off + 16)) ;;
       let kind := if negb (Z.land flags (Z.shiftl 1 8) =? 0) then "supergroup" else "channel" in
       ret (Some (new_peer (i64 id) (i64 h) kind))
   else ret None) tt.

(** [for off := 0; off+12 <= len(body); off += 4] *)
Fixpoint scan_loop (fuel : nat) (body : list byte) (off : Z) (seen : seen_map) : outcome seen_map :=
  match fuel with
  | O => Ok seen
  | S fuel' =>
      if off + 12 <=? len body then
        match scan_at body off with
        | Ok found =>
            scan_loop fuel' body (off + 4)
              (match found with Some p => put_peer p seen | None => seen end)
        | Err e => Err e
        | Panic => Panic
        end
      else Ok seen
  end.

(** ** updates.State *)

Record UpdatesState := MkState {
  us_PTS : Z; us_QTS : Z; us_Date : Z; us_Seq : Z; us_UnreadCount : Z; us_Raw : list byte }.

(** [for off := len(body)-24; off >= 0; off -= 4] *)
Fixpoint state_loop (fuel : nat) (body : list byte) (off : Z) : outcome (option UpdatesState) :=
  match fuel with
  | O => Ok None
  | S fuel' =>
      if 0 <=? off then
        match u32_at body off with
        | Ok constructor =>
            if negb (constructor =? constructorUpdatesState) then state_loop fuel' body (off - 4)
            else if len body <? off + 24 then state_loop fuel' body (off - 4)
            else
              match u32_at body (off + 4), u32_at body (off + 8), u32_at body (off + 12),
                    u32_at body (off + 16), u32_at body (off + 20), slice body off (off + 24) with
              | Ok pts, Ok qts, Ok date, Ok seq, Ok unread, Ok raw =>
                  Ok (Some (MkState (i32 pts) (i32 qts) (i32 date) (i32 seq) (i32 unread) raw))
              | _, _, _, _, _, _ => Panic
              end
        | Err e => Err e
        | Panic => Panic
        end
      else Ok None
  end.

Definition scanUpdatesState (body : list byte) : outcome (option UpdatesState) :=
  if len body <? 24 then Ok None else state_loop (S (length body)) body (len body - 24).

Definition read_updatesState (body : list byte) : M tlReader UpdatesState :=
  constructor <- tl_int ;;
  guard (constructor =? constructorUpdatesState)
    (ErrFmt "mtproto: expected updates.state, got 0x%08x" [FZ constructor]) ;;
  pts <- tl_int ;; qts <- tl_int ;; date <- tl_int ;; seq <- tl_int ;; unread <- tl_int ;;
  ret (MkState (i32 pts) (i32 qts) (i32 date) (i32 seq) (i32 unread) body).

Definition parseUpdatesState (body : list byte) : outcome UpdatesState :=
  eval (read_updatesState body) (newTLReader body).

(** ** Results that depend on Go's map order *)

Section MapOrder.
(** The values of a map in the order [range] happens to visit them. *)
Variable range_values : seen_map -> list PeerRef.

Definition scanPeerRefs (body : list byte) : outcome (list PeerRef) :=
  if len body <? 12 then Ok []
  else omap_outcome range_values (scan_loop (S (length body)) body 0 ∅).

Definition scanUserRefs (body : list byte) : outcome (list PeerRef) :=
  omap_outcome (List.filter (fun p => (pr_Kind p =? "user")%string)) (scanPeerRefs body).

(** [body[off:]] at the constructor of a Peer. *)
Definition parsePeerAt (body : list byte) (off : Z) : outcome (option (string * Z)) :=
  if len body <? off + 12 then Ok None
  else match u32_at body off, u64_at body (off + 4) with
       | Ok constructor, Ok id =>
           Ok (if constructor =? constructorPeerUser then Some ("user"%string, i64 id)
               else if constructor =? constructorPeerChat then Some ("chat"%string, i64 id)
               else if constructor =? constructorPeerChannel then Some ("channel"%string, i64 id)
               else None)
       | _, _ => Panic
       end.

(** The first peer of the scan with the id and a compatible kind. *)
Definition resolved_match (peerKind : string) (peerID : Z) (p : PeerRef) : bool :=
  (pr_ID p =? peerID) &&
  ((peerKind =? EmptyString)%string || (pr_Kind p =? peerKind)%string ||
   ((peerKind =? "channel")%string && (pr_Kind p =? "supergroup")%string)).

(** [body[:4]] is looked at only when there are at least sixteen bytes. *)
Definition parseResolvedPeer (body : list byte) : outcome (option PeerRef) :=
  eval (S := unit)
  (resolved <- (if len body <? 16 then ret false
                else c <- lift (u32_at body 0) ;; ret (c =? constructorContactsResolvedPeer)) ;;
   if negb resolved then peers <- lift (scanPeerRefs body) ;; ret (head peers)
   else
     at4 <- lift (parsePeerAt body 4) ;;
     all <- lift (scanPeerRefs body) ;;
     match at4 with
     | None => ret (head all)
     | Some (peerKind, peerID) =>
         match List.find (resolved_match peerKind peerID) all with
         | Some p => ret (Some p)
         | None => ret (Some (MkPeerRef peerID 0 peerKind EmptyString EmptyString))
         end
     end) tt.
End MapOrder.

(** ** Keys *)

Lemma int64Key_FormatInt v : is_i64 v -> int64Key v = FormatInt v.
Proof.
  intros Hv. unfold int64Key, FormatInt. destruct (Z.eqb_spec v 0) as [|H0]; [done|].
  destruct (Z.ltb_spec v 0).
  - replace (u64 (i64 (- v))) with (- v) by (revert Hv; unfold_words; intros; zlia). done.
  - rewrite u64_id by (unfold_words; lia). done.
Qed.

Lemma int64Key_inj v w : is_i64 v -> is_i64 w -> int64Key v = int64Key w -> v = w.
Proof. intros Hv Hw. rewrite !int64Key_FormatInt by done. by apply FormatInt_inj. Qed.

Definition peer_kinds : list string := ["user"; "chat"; "channel"; "supergroup"]%string.

(** What the scanner puts into the map. *)
Definition scanned (p : PeerRef) : Prop :=
  In (pr_Kind p) peer_kinds /\ is_i64 (pr_ID p) /\ is_i64 (pr_AccessHash p).

Lemma peer_key_inj p q :
  scanned p -> scanned q -> peer_key p = peer_key q -> pr_Kind p = pr_Kind q /\ pr_ID p = pr_ID q.
Proof.
  intros (Hk & Hi & _) (Hk' & Hi' & _). unfold peer_key.
  assert (G : forall a b x y, In a peer_kinds -> In b peer_kinds ->
             (a ++ ":" ++ x)%string = (b ++ ":" ++ y)%string -> a = b /\ x = y).
  { clear. intros a b x y Ha Hb. simpl in Ha, Hb.
    repeat destruct Ha as [<-|Ha]; try done; repeat destruct Hb as [<-|Hb]; try done;
      cbn; intros H; repeat (injection H as H); done. }
  intros H. apply G in H as [Hkind Hkey]; [|done|done]. split; [done|]. by apply int64Key_inj.
Qed.

(** ** The loop as a fold *)

Lemma u32_at_ok body off : 0 <= off -> off + 4 <= len body ->
  u32_at body off = Ok (le_value (sub body off (off + 4))).
Proof. intros. unfold u32_at. by rewrite slice_ok by lia. Qed.
Lemma u64_at_ok body off : 0 <= off -> off + 8 <= len body ->
  u64_at body off = Ok (le_value (sub body off (off + 8))).
Proof. intros. unfold u64_at. by rewrite slice_ok by lia. Qed.

(** Take the next read, which is in bounds. *)
Ltac read_at :=
  (eapply hoare_lift_ok; [first [apply u32_at_ok; lia | apply u64_at_ok; lia]|]).

(** At an offset with twelve bytes ahead the loop body returns. *)
Lemma scan_at_ok body off :
  0 <= off -> off + 12 <= len body ->
  exists found, scan_at body off = Ok found /\ (forall p, found = Some p -> scanned p).
Proof.
  intros H0 H12. unfold scan_at, eval.
  match goal with |- exists found, fst (?m tt) = _ /\ _ =>
    enough (G : hoare (fun _ => True) m (fun found _ => forall p, found = Some p -> scanned p)
                  (fun _ => False)) by
      (specialize (G tt I); destruct (m tt) as [[found|?|] ?]; [by exists found|done|done]) end.
  assert (Hret : forall i h k, In k peer_kinds -> is_i64 h ->
     hoare (fun _ => True) (ret (Some (new_peer (i64 i) h k)))
       (fun found (_ : unit) => forall p, found = Some p -> scanned p) (fun _ => False)).
  { intros i h k Hk Hh s _ p [= <-]. split; [done|]. split; [apply i64_range|done]. }
  assert (Hnone : hoare (fun _ => True) (ret None)
     (fun found (_ : unit) => forall p, found = Some p -> scanned p) (fun _ => False)) by done.
  assert (Hk : forall c : bool, In (if c then "supergroup" else "channel")%string peer_kinds)
    by (intros []; simpl; auto).
  assert (H00 : is_i64 0) by (vm_compute; intuition congruence).
  assert (Hhash : forall c k, hoare (fun _ => True) (k 0)
       (fun found (_ : unit) => forall p, found = Some p -> scanned p) (fun _ => False) ->
     (forall h, hoare (fun _ => True) (k (i64 h))
       (fun found (_ : unit) => forall p, found = Some p -> scanned p) (fun _ => False)) ->
     hoare (fun _ => True)
       (x <- (if c && (off + 28 <=? len body) then h <- lift (u64_at body (off + 20)) ;; ret (i64 h)
              else ret 0) ;; k x)
       (fun found (_ : unit) => forall p, found = Some p -> scanned p) (fun _ => False)).
  { intros c k K0 K1. destruct (c && (off + 28 <=? len body)) eqn:E; [|exact K0].
    apply andb_prop in E as [_ E]. apply Z.leb_le in E.
    intros s Hs. rewrite bind_assoc. rewrite (bind_lift_ok _ _ _ _ (u64_at_ok body (off + 20) ltac:(lia) ltac:(lia))).
    by apply K1. }
  read_at. repeat match goal with |- hoare _ (if (_ =? _) then _ else _) _ _ => destruct (_ =? _) end.
  - destruct (Z.ltb_spec (len body) (off + 20)); [done|]. do 2 read_at.
    apply Hhash; intros; apply Hret; simpl; auto. apply i64_range.
  - destruct (Z.ltb_spec (len body) (off + 12)); [done|]. read_at. apply Hret; simpl; auto.
  - destruct (Z.ltb_spec (len body) (off + 16)); [done|]. read_at. apply Hret; simpl; auto.
  - destruct (Z.ltb_spec (len body) (off + 12)); [done|]. read_at. apply Hret; simpl; auto.
  - destruct (_ || _).
    + destruct (Z.ltb_spec (len body) (off + 20)); [done|]. do 2 read_at.
      apply Hhash; intros; apply Hret; auto. apply i64_range.
    + destruct (_ =? _); [|done].
      destruct (Z.ltb_spec (len body) (off + 24)); [done|]. do 3 read_at.
      apply Hret; [auto|apply i64_range].
Qed.

(** The peer spelled at an offset, and all of them in order. *)
Definition found_at (body : list byte) (off : Z) : option PeerRef :=
  match scan_at body off with Ok found => found | _ => None end.

Fixpoint records_from (fuel : nat) (body : list byte) (off : Z) : list PeerRef :=
  match fuel with
  | O => []
  | S fuel' =>
      if off + 12 <=? len body then
        match found_at body off with
        | Some p => p :: records_from fuel' body (off + 4)
        | None => records_from fuel' body (off + 4)
        end
      else []
  end.
Definition records (body : list byte) : list PeerRef := records_from (S (length body)) body 0.

Lemma scan_loop_records fuel body off seen :
  0 <= off ->
  scan_loop fuel body off seen =
  Ok (fold_left (fun m p => put_peer p m) (records_from fuel body off) seen).
Proof.
  revert off seen. induction fuel as [|fuel IH]; intros off seen H0; [done|]. simpl.
  destruct (Z.leb_spec (off + 12) (len body)); [|done].
  destruct (scan_at_ok body off H0 H) as (found & E & _). unfold found_at. rewrite E.
  destruct found as [p|]; simpl; apply IH; lia.
Qed.

Lemma records_from_spec fuel body off p :
  0 <= off -> off mod 4 = 0 ->
  In p (records_from fuel body off) ->
  scanned p /\ exists o, 0 <= o /\ o mod 4 = 0 /\ o + 12 <= len body /\ found_at body o = Some p.
Proof.
  revert off. induction fuel as [|fuel IH]; intros off H0 H4 Hin; [done|]. simpl in Hin.
  destruct (Z.leb_spec (off + 12) (len body)); [|done].
  assert (H4' : (off + 4) mod 4 = 0) by zlia.
  destruct (found_at body off) as [q|] eqn:E; [destruct Hin as [<-|Hin]|]; [|by apply (IH (off + 4)); [lia|..]..].
  split; [|exists off; done]. destruct (scan_at_ok body off H0 H) as (found & Ef & Hs).
  unfold found_at in E. rewrite Ef in E. by apply Hs.
Qed.

(** Every aligned record is met: the fuel suffices. *)
Lemma records_complete body o p :
  0 <= o -> o mod 4 = 0 -> o + 12 <= len body -> found_at body o = Some p -> In p (records body).
Proof.
  intros H0 H4 Hl Hf. unfold records.
  assert (G : forall fuel off, 0 <= off <= o -> off mod 4 = 0 -> len body < off + Z.of_nat fuel ->
                In p (records_from fuel body off)).
  { induction fuel as [|fuel IH]; intros off Ho Ho4 Hfuel; [lia|]. simpl.
    rewrite (proj2 (Z.leb_le _ _)) by lia.
    destruct (Z.eq_dec off o) as [->|Hne]; [rewrite Hf; by left|].
    assert (In p (records_from fuel body (off + 4))) by (apply IH; [clear -Ho Ho4 H4 Hne; zlia|clear -Ho4; zlia|lia]).
    destruct (found_at body off); [by right|done]. }
  apply G; [lia|done|unfold len in *; lia].
Qed.

(** ** The collected map *)

Definition same_peer (p q : PeerRef) : bool := (peer_key p =? peer_key q)%string.

(** The first access hash that is not zero. *)
Fixpoint first_hash (l : list PeerRef) : Z :=
  match l with
  | [] => 0
  | p :: l' => if pr_AccessHash p =? 0 then first_hash l' else pr_AccessHash p
  end.

(** The entry of a key is the merge of the records with that key, in order. *)
Definition entry_ok (l : list PeerRef) (k : string) (e : option PeerRef) : Prop :=
  let mine := List.filter (fun p => (peer_key p =? k)%string) l in
  match e with
  | None => mine = []
  | Some p => exists q, In q mine /\ pr_Kind p = pr_Kind q /\ pr_ID p = pr_ID q /\
                        pr_AccessHash p = first_hash mine
  end.

Lemma first_hash_snoc l p :
  first_hash (l ++ [p]) =
  (if (first_hash l =? 0) && negb (pr_AccessHash p =? 0) then pr_AccessHash p else first_hash l).
Proof.
  induction l as [|q l IH]; simpl.
  - by destruct (Z.eqb_spec (pr_AccessHash p) 0).
  - destruct (Z.eqb_spec (pr_AccessHash q) 0); [apply IH|].
    by rewrite (proj2 (Z.eqb_neq _ 0)) by done.
Qed.

Definition collect (l : list PeerRef) : seen_map := fold_left (fun m p => put_peer p m) l ∅.

Lemma filter_app_list {A} (f : A -> bool) l1 l2 :
  List.filter f (l1 ++ l2) = List.filter f l1 ++ List.filter f l2.
Proof. induction l1 as [|x l1 IH]; simpl; [done|]. rewrite IH. by destruct (f x). Qed.

Lemma collect_entries l k :
  Forall (fun p => pr_ID p <> 0 /\ pr_Kind p <> EmptyString) l -> entry_ok l k (collect l !! k).
Proof.
  intros Hl. unfold collect. induction l as [|p l IH] using rev_ind.
  { assert (E : (∅ : seen_map) !! k = None) by apply lookup_empty.
    unfold entry_ok. cbn [fold_left]. by rewrite E. }
  apply Forall_app in Hl as [Hl Hp]. specialize (IH Hl). inversion Hp as [|x y [Hid Hkind] _]; subst.
  rewrite fold_left_app. simpl. set (m := fold_left _ l ∅) in *.
  assert (Hput : put_peer p m !! k =
    if (peer_key p =? k)%string
    then Some (match m !! k with Some old => merge_peer old p | None => p end) else m !! k).
  { unfold put_peer. rewrite (proj2 (Z.eqb_neq _ 0)), (proj2 (String.eqb_neq _ _)) by done. simpl.
    destruct (String.eqb_spec (peer_key p) k) as [->|Hne].
    - destruct (m !! k); by rewrite lookup_insert_eq.
    - destruct (m !! peer_key p); by rewrite lookup_insert_ne. }
  rewrite Hput. unfold entry_ok in *. rewrite filter_app_list. simpl.
  destruct (String.eqb_spec (peer_key p) k) as [Hk|Hne]; [|by rewrite app_nil_r].
  destruct (m !! k) as [old|].
  - destruct IH as (q & Hq & Hqk & Hqi & Hh). exists q. rewrite in_app_iff, first_hash_snoc. simpl.
    rewrite <- Hh. auto.
  - rewrite IH. exists p. simpl. split; [by left|]. split; [done|]. split; [done|].
    by destruct (Z.eqb_spec (pr_AccessHash p) 0).
Qed.

Lemma put_peer_skip p m : pr_ID p = 0 -> put_peer p m = m.
Proof. intros H. unfold put_peer. by rewrite H. Qed.

Lemma collect_filter l :
  (forall p, In p l -> pr_Kind p <> EmptyString) ->
  collect l = collect (List.filter (fun p => negb (pr_ID p =? 0)) l).
Proof.
  unfold collect. generalize (∅ : seen_map). induction l as [|p l IH]; intros m Hk; [done|]. simpl.
  rewrite IH by (intros; apply Hk; by right).
  destruct (Z.eqb_spec (pr_ID p) 0) as [H0|H0]; simpl; [by rewrite put_peer_skip|done].
Qed.

Lemma scanned_kind p : scanned p -> pr_Kind p <> EmptyString.
Proof. intros (Hk & _) E. rewrite E in Hk. simpl in Hk. by repeat destruct Hk as [Hk|Hk]. Qed.

(** The records that count: those with an id. *)
Definition live_records (body : list byte) : list PeerRef :=
  List.filter (fun p => negb (pr_ID p =? 0)) (records body).

Lemma live_record_spec body p :
  In p (live_records body) <->
  pr_ID p <> 0 /\ exists o, 0 <= o /\ o mod 4 = 0 /\ o + 12 <= len body /\ found_at body o = Some p.
Proof.
  unfold live_records. rewrite filter_In. split.
  - intros [Hin Hid]. split; [by destruct (Z.eqb_spec (pr_ID p) 0)|].
    by apply records_from_spec in Hin as [_ Hin].
  - intros [Hid (o & H1 & H2 & H3 & H4)]. split; [by apply (records_complete body o)|].
    by rewrite (proj2 (Z.eqb_neq _ 0)).
Qed.

Lemma live_record_scanned body p : In p (live_records body) -> scanned p.
Proof. unfold live_records. rewrite filter_In. intros [Hin _]. by apply records_from_spec in Hin as [? _]. Qed.

Lemma live_records_nonzero body :
  Forall (fun p => pr_ID p <> 0 /\ pr_Kind p <> EmptyString) (live_records body).
Proof.
  apply Forall_forall. intros p Hp. apply list_elem_of_In in Hp.
  split; [by apply live_record_spec in Hp as [? _]|].
  apply scanned_kind. by eapply live_record_scanned.
Qed.

(** What an entry of the collected map is. *)
Lemma collect_spec body k p :
  let l := live_records body in
  collect l !! k = Some p ->
  exists q, In q l /\ peer_key q = k /\ peer_key p = k /\ pr_Kind p = pr_Kind q /\
            pr_ID p = pr_ID q /\ pr_AccessHash p = first_hash (List.filter (same_peer p) l).
Proof.
  intros l E. pose proof (collect_entries l k (live_records_nonzero body)) as H. rewrite E in H.
  destruct H as (q & Hq & Hk & Hi & Hh). apply filter_In in Hq as [Hq Hqk].
  apply String.eqb_eq in Hqk. assert (Hpk : peer_key p = k) by (unfold peer_key in *; by rewrite Hk, Hi).
  exists q. repeat split; try done. rewrite Hh. f_equal. apply filter_ext. intros x.
  unfold same_peer. rewrite Hpk. apply String.eqb_sym.
Qed.

(** Every live record has an entry. *)
Lemma collect_complete body q :
  In q (live_records body) -> exists p, collect (live_records body) !! peer_key q = Some p.
Proof.
  intros Hq. destruct (collect _ !! peer_key q) as [p|] eqn:E; [by exists p|].
  pose proof (collect_entries _ (peer_key q) (live_records_nonzero body)) as H. rewrite E in H.
  unfold entry_ok in H.
  assert (Hn : In q (List.filter (fun p => (peer_key p =? peer_key q)%string) (live_records body)))
    by (apply filter_In; split; [done|apply String.eqb_refl]).
  by rewrite H in Hn.
Qed.

(** The scan returns the values of the collected map. *)
Lemma scanPeerRefs_collect range_values body :
  12 <= len body -> scanPeerRefs range_values body = Ok (range_values (collect (live_records body))).
Proof.
  intros Hlen. unfold scanPeerRefs. rewrite (proj2 (Z.ltb_ge _ 12)) by done.
  rewrite scan_loop_records by lia. fold (records body). fold (collect (records body)).
  rewrite collect_filter; [done|].
  intros p Hp. apply scanned_kind. by apply records_from_spec in Hp as [? _].
Qed.

Lemma in_range_values range_values (m : seen_map) p :
  (forall m, range_values m ≡ₚ (map_to_list m).*2) ->
  In p (range_values m) <-> exists k, m !! k = Some p.
Proof.
  intros Hrange. rewrite <- list_elem_of_In, Hrange, list_elem_of_fmap. split.
  - intros ([k p'] & -> & H). exists k. by apply elem_of_map_to_list.
  - intros [k H]. exists (k, p). split; [done|]. by apply elem_of_map_to_list.
Qed.

(** Values with their own keys are pairwise different as peers. *)
Lemma range_values_NoDup range_values (m : seen_map) :
  (forall m, range_values m ≡ₚ (map_to_list m).*2) ->
  (forall k p, m !! k = Some p -> peer_key p = k) ->
  NoDup (map (fun p => (pr_Kind p, pr_ID p)) (range_values m)).
Proof.
  intros Hrange Hkey. apply (NoDup_fmap_1 (fun kp => (fst kp ++ ":" ++ int64Key (snd kp))%string)).
  change (_ <$> map ?f ?x) with (map (fun kp => (fst kp ++ ":" ++ int64Key (snd kp))%string) (map f x)).
  rewrite map_map. change (map ?f ?x) with (peer_key <$> x). rewrite Hrange, <- list_fmap_compose.
  assert (E : (peer_key ∘ snd) <$> map_to_list m = (map_to_list m).*1).
  { apply list_fmap_ext. intros i [k p] Hi. simpl. apply Hkey.
    apply elem_of_map_to_list. by eapply list_elem_of_lookup_2. }
  rewrite E. apply NoDup_fst_map_to_list.
Qed.

(** C35. Peer scan (peers.go, [scanPeerRefs]): whatever the body and whatever
    order the map is ranged over, the scan neither panics nor fails; the result
    lists each (kind, id) pair at most once; the pairs are exactly those of the
    records with a non-zero id that stand at four-byte steps in the body; and the
    access hash of each is the first non-zero one among its records, zero when
    there is none. *)
Theorem scanPeerRefs_spec (range_values : seen_map -> list PeerRef) (body : list byte) :
  (forall m, range_values m ≡ₚ (map_to_list m).*2) -> 12 <= len body ->
  exists ps, scanPeerRefs range_values body = Ok ps /\
    NoDup (map (fun p => (pr_Kind p, pr_ID p)) ps) /\
    (forall p, In p ps -> pr_ID p <> 0 /\ In (pr_Kind p) peer_kinds /\
       pr_AccessHash p = first_hash (List.filter (same_peer p) (live_records body))) /\
    (forall kind id, In (kind, id) (map (fun p => (pr_Kind p, pr_ID p)) ps) <->
       exists q, In q (live_records body) /\ pr_Kind q = kind /\ pr_ID q = id).
Proof.
  intros Hrange Hlen. rewrite scanPeerRefs_collect by done. set (l := live_records body).
  eexists. split; [reflexivity|]. split; [|split].
  - apply range_values_NoDup; [done|]. intros k p E.
    by destruct (collect_spec body k p E) as (q & _ & _ & ? & _).
  - intros p Hp. apply in_range_values in Hp as [k E]; [|done].
    destruct (collect_spec body k p E) as (q & Hq & _ & _ & Hk & Hi & Hh).
    split; [rewrite Hi; by apply live_record_spec in Hq as [? _]|]. split; [|done].
    rewrite Hk. by apply live_record_scanned in Hq as [? _].
  - intros kind id. rewrite in_map_iff. split.
    + intros (p & [= <- <-] & Hp). apply in_range_values in Hp as [k E]; [|done].
      destruct (collect_spec body k p E) as (q & Hq & _ & _ & Hk & Hi & _). by exists q.
    + intros (q & Hq & <- & <-). destruct (collect_complete body q Hq) as [p E].
      exists p. split; [|apply in_range_values; [done|by exists (peer_key q)]].
      destruct (collect_spec body _ p E) as (q' & Hq' & Hkey & _ & Hk & Hi & _).
      apply peer_key_inj in Hkey as [? ?]; [|by eapply live_record_scanned..]. congruence.
Qed.

Definition demo_values (m : seen_map) : list PeerRef := (map_to_list m).*2.
Definition demo_update : list byte :=
  le_bytes 4 constructorUser ++ le_bytes 4 1 ++ le_bytes 4 0 ++ le_bytes 8 555 ++ le_bytes 8 777.

Lemma scanPeerRefs_spec_witness :
  exists ps, scanPeerRefs demo_values demo_update = Ok ps /\
    NoDup (map (fun p => (pr_Kind p, pr_ID p)) ps) /\
    (forall p, In p ps -> pr_ID p <> 0 /\ In (pr_Kind p) peer_kinds /\
       pr_AccessHash p = first_hash (List.filter (same_peer p) (live_records demo_update))) /\
    (forall kind id, In (kind, id) (map (fun p => (pr_Kind p, pr_ID p)) ps) <->
       exists q, In q (live_records demo_update) /\ pr_Kind q = kind /\ pr_ID q = id).
Proof. apply (scanPeerRefs_spec demo_values demo_update); [done|vm_compute; congruence]. Defined.

Example scan_demo : scanPeerRefs demo_values demo_update = Ok [new_peer 555 777 "user"].
Proof. vm_compute. reflexivity. Qed.

(** ** updates.State *)

(** The state spelled at an offset. *)
Definition state_at (body : list byte) (off : Z) : UpdatesState :=
  let field k := i32 (le_value (sub body (off + k) (off + k + 4))) in
  MkState (field 4) (field 8) (field 12) (field 16) (field 20) (sub body off (off + 24)).
Definition is_state_at (body : list byte) (off : Z) : Prop :=
  le_value (sub body off (off + 4)) = constructorUpdatesState.

Lemma state_loop_spec fuel body off :
  off + 24 <= len body -> off < 4 * Z.of_nat fuel ->
  exists r, state_loop fuel body off = Ok r /\
    match r with
    | Some st => exists o, 0 <= o <= off /\ (off - o) mod 4 = 0 /\ is_state_at body o /\
                   st = state_at body o /\
                   forall o', o < o' <= off -> (off - o') mod 4 = 0 -> ~ is_state_at body o'
    | None => forall o', 0 <= o' <= off -> (off - o') mod 4 = 0 -> ~ is_state_at body o'
    end.
Proof.
  revert off. induction fuel as [|fuel IH]; intros off Hl Hf.
  { exists None. split; [done|]. intros. lia. }
  simpl. destruct (Z.leb_spec 0 off) as [H0|H0]; [|exists None; split; [done|intros; lia]].
  rewrite u32_at_ok by lia.
  destruct (Z.eqb_spec (le_value (sub body off (off + 4))) constructorUpdatesState) as [E|E]; simpl.
  - rewrite (proj2 (Z.ltb_ge (len body) (off + 24))) by lia.
    rewrite !u32_at_ok by lia. rewrite slice_ok by lia. eexists. split; [done|].
    exists off. split; [lia|]. split; [zlia|]. split; [done|]. split; [done|]. intros; lia.
  - destruct (IH (off - 4)) as (r & Er & Hr); [lia|lia|]. exists r. split; [done|].
    destruct r as [st|].
    + destruct Hr as (o & Ho & H4 & Hs & Hst & Hlast). exists o.
      split; [lia|]. split; [clear -H4; zlia|]. split; [done|]. split; [done|].
      intros o' Ho' H4'. destruct (Z.eq_dec o' off) as [->|Hne]; [done|].
      apply Hlast; clear -H4' Ho' Hne; zlia.
    + intros o' Ho' H4'. destruct (Z.eq_dec o' off) as [->|Hne]; [done|].
      apply Hr; clear -H4' Ho' Hne; zlia.
Qed.

(** State scan (peers.go, [scanUpdatesState]): on a body of at least 24 bytes
    the scan returns the last updates.State that stands a multiple of four bytes
    before position [len - 24], with its five fields and its 24 raw bytes, and
    [nil] exactly when there is none; it never panics. *)
Theorem scanUpdatesState_last (body : list byte) :
  24 <= len body ->
  let last := len body - 24 in
  exists r, scanUpdatesState body = Ok r /\
    match r with
    | Some st => exists o, 0 <= o <= last /\ (last - o) mod 4 = 0 /\ is_state_at body o /\
                   st = state_at body o /\
                   forall o', o < o' <= last -> (last - o') mod 4 = 0 -> ~ is_state_at body o'
    | None => forall o', 0 <= o' <= last -> (last - o') mod 4 = 0 -> ~ is_state_at body o'
    end.
Proof.
  intros H last. unfold scanUpdatesState. rewrite (proj2 (Z.ltb_ge _ 24)) by done.
  apply state_loop_spec; unfold last; [lia|]. unfold len in *. lia.
Qed.

Definition demo_state_body : list byte :=
  replicate 8 x01 ++ le_bytes 4 constructorUpdatesState ++ le_bytes 4 10 ++ le_bytes 4 11 ++
  le_bytes 4 12 ++ le_bytes 4 13 ++ le_bytes 4 14.

Lemma scanUpdatesState_last_witness :
  24 <= len demo_state_body /\
  exists r, scanUpdatesState demo_state_body = Ok r /\ (match r with
    | Some st => exists o, 0 <= o <= 8 /\ (8 - o) mod 4 = 0 /\ is_state_at demo_state_body o /\
                   st = state_at demo_state_body o /\
                   forall o', o < o' <= 8 -> (8 - o') mod 4 = 0 -> ~ is_state_at demo_state_body o'
    | None => forall o', 0 <= o' <= 8 -> (8 - o') mod 4 = 0 -> ~ is_state_at demo_state_body o'
    end).
Proof.
  split; [vm_compute; congruence|].
  apply (scanUpdatesState_last demo_state_body). vm_compute. congruence.
Defined.

(** ** User summaries (highlevel.go) *)

Record User := MkUser {
  u_ID : Z; u_AccessHash : Z; u_Username : string; u_FirstName : string; u_LastName : string;
  u_Phone : string; u_Bot : bool; u_Self : bool }.

Definition DisplayName (u : User) : string :=
  let name := TrimSpace (TrimSpace (u_FirstName u ++ " " ++ u_LastName u)) in
  if negb (name =? EmptyString)%string then name
  else if negb (u_Username u =? EmptyString)%string then ("@" ++ u_Username u)%string
  else if negb (u_ID u =? 0) then FormatInt (u_ID u)
  else EmptyString.

Definition user_hash (h : Z) (u : User) : User :=
  MkUser (u_ID u) h (u_Username u) (u_FirstName u) (u_LastName u) (u_Phone u) (u_Bot u) (u_Self u).
Definition user_first (s : string) (u : User) : User :=
  MkUser (u_ID u) (u_AccessHash u) (u_Username u) s (u_LastName u) (u_Phone u) (u_Bot u) (u_Self u).
Definition user_last (s : string) (u : User) : User :=
  MkUser (u_ID u) (u_AccessHash u) (u_Username u) (u_FirstName u) s (u_Phone u) (u_Bot u) (u_Self u).
Definition user_name (s : string) (u : User) : User :=
  MkUser (u_ID u) (u_AccessHash u) s (u_FirstName u) (u_LastName u) (u_Phone u) (u_Bot u) (u_Self u).
Definition user_phone (s : string) (u : User) : User :=
  MkUser (u_ID u) (u_AccessHash u) (u_Username u) (u_FirstName u) (u_LastName u) s (u_Bot u) (u_Self u).

(** An optional field: skipped when its flag is off; when it cannot be read, the
    user parsed so far is the answer. *)
Definition optional_field {A} (present : bool) (m : M tlReader A) (set : A -> User -> User)
    (u : User) (k : User -> M tlReader User) : M tlReader User :=
  if present then
    r <- try m ;;
    match r with inl v => k (set v u) | inr _ => ret u end
  else k u.

Definition bit_set (flags n : Z) : bool := negb (Z.land flags (Z.shiftl 1 n) =? 0).

Definition read_user : M tlReader User :=
  constructor <- tl_int ;;
  guard (constructor =? constructorUser) (ErrNew "not a user") ;;
  flags <- tl_int ;; _flags2 <- tl_int ;; id <- tl_long ;;
  let user := MkUser (i64 id) 0 EmptyString EmptyString EmptyString EmptyString
                (bit_set flags 14) (bit_set flags 10) in
  optional_field (bit_set flags 0) (h <- tl_long ;; ret (i64 h)) user_hash user (fun user =>
  optional_field (bit_set flags 1) tl_string user_first user (fun user =>
  optional_field (bit_set flags 2) tl_string user_last user (fun user =>
  optional_field (bit_set flags 3) tl_string user_name user (fun user =>
  optional_field (bit_set flags 4) tl_string user_phone user ret)))).

(** [parseUserAt]: [None] is Go's [(User{}, false)]. *)
Definition parseUserAt (body : list byte) (off : Z) : outcome (option User) :=
  match slice body off (len body) with
  | Ok rest => match eval read_user (newTLReader rest) with
               | Ok u => Ok (Some u)
               | Err _ => Ok None
               | Panic => Panic
               end
  | _ => Panic
  end.

(** [for off := 0; off+20 <= len(body); off += 4] *)
Fixpoint users_loop (fuel : nat) (body : list byte) (off : Z) (seen : gset Z) (out : list User)
  : outcome (list User) :=
  match fuel with
  | O => Ok out
  | S fuel' =>
      if off + 20 <=? len body then
        match u32_at body off with
        | Ok constructor =>
            if negb (constructor =? constructorUser) then users_loop fuel' body (off + 4) seen out
            else match parseUserAt body off with
                 | Ok (Some user) =>
                     if u_ID user =? 0 then users_loop fuel' body (off + 4) seen out
                     else if decide (u_ID user ∈ seen) then users_loop fuel' body (off + 4) seen out
                     else users_loop fuel' body (off + 4) ({[u_ID user]} ∪ seen) (out ++ [user])
                 | Ok None => users_loop fuel' body (off + 4) seen out
                 | Err e => Err e
                 | Panic => Panic
                 end
        | Err e => Err e
        | Panic => Panic
        end
      else Ok out
  end.

Definition ScanUsers (body : list byte) : outcome (list User) :=
  users_loop (S (length body)) body 0 ∅ [].

Lemma rsafe_optional_field {A} present (m : M tlReader A) set u k :
  rsafe m -> (forall u, rsafe (k u)) -> rsafe (optional_field present m set u k).
Proof.
  intros Hm Hk. unfold optional_field. destruct present; [|apply Hk].
  apply rsafe_bind; [by apply rsafe_try|]. intros [v|e]; [apply Hk|apply rsafe_ret].
Qed.

Lemma rsafe_read_user : rsafe read_user.
Proof.
  unfold read_user. repeat (apply rsafe_bind; [auto with tl|intros]).
  repeat (apply rsafe_optional_field; [rsafe_auto|intros]). apply rsafe_ret.
Qed.

Lemma parseUserAt_ok body off : 0 <= off <= len body -> exists r, parseUserAt body off = Ok r.
Proof.
  intros H. unfold parseUserAt. rewrite slice_ok by lia.
  pose proof (rsafe_eval read_user (sub body off (len body)) rsafe_read_user).
  destruct (eval _ _); eauto. done.
Qed.

Lemma users_loop_ok fuel body off seen out :
  0 <= off -> (forall u, In u out -> u_ID u <> 0 /\ u_ID u ∈ seen) -> NoDup (map u_ID out) ->
  exists us, users_loop fuel body off seen out = Ok us /\
    NoDup (map u_ID us) /\ forall u, In u us -> u_ID u <> 0.
Proof.
  revert off seen out. induction fuel as [|fuel IH]; intros off seen out H0 Hs Hn.
  { exists out. split; [done|]. split; [done|]. intros u Hu. by apply Hs. }
  simpl. destruct (Z.leb_spec (off + 20) (len body)).
  2: { exists out. split; [done|]. split; [done|]. intros u Hu. by apply Hs. }
  rewrite u32_at_ok by lia. destruct (negb _); [apply IH; auto with lia|].
  destruct (parseUserAt_ok body off) as [[u|] ->]; [lia| |apply IH; auto with lia].
  destruct (Z.eqb_spec (u_ID u) 0); [apply IH; auto with lia|].
  destruct (decide _) as [Hin|Hin]; [apply IH; auto with lia|].
  apply IH; [lia| |].
  - intros v. rewrite in_app_iff. intros [Hv|[<-|[]]]; [|set_solver].
    destruct (Hs v Hv). split; [done|set_solver].
  - rewrite map_app. apply NoDup_app. split; [done|]. split; [|apply NoDup_singleton].
    intros x Hx Hx'. apply list_elem_of_singleton in Hx' as ->.
    apply list_elem_of_In, in_map_iff in Hx as (v & Hv & Hvin). apply Hs in Hvin as [_ Hvin].
    rewrite Hv in Hvin. done.
Qed.

(** User scan (highlevel.go, [ScanUsers]): on any body whatsoever the scan
    returns (no panic, no error) a list of users with non-zero ids in which no
    id occurs twice. *)
Theorem ScanUsers_total (body : list byte) :
  exists us, ScanUsers body = Ok us /\ NoDup (map u_ID us) /\ forall u, In u us -> u_ID u <> 0.
Proof. apply users_loop_ok; [done|done|constructor]. Qed.
