(* ===== verification/Difference.v ===== *)
(** * Difference: updates.getDifference (src/mtproto/difference.go, state.go)

    The parsers of the update vectors.  A Go function that returns the messages
    gathered so far together with an error is a reader computation whose value is
    the list and an optional error. *)

From S2P Require Import Prelude Strings TL Transport Hash AES Crypto Envelope Invoke Queries Peers.

Definition constructorUpdatesGetState := 0xedd4882a.
Definition constructorUpdatesGetDifference := 0x19c2f763.
Definition constructorDifferenceEmpty := 0x5d75a138.
Definition constructorDifference := 0x00f49ca0.
Definition constructorDifferenceSlice := 0xa8fb1981.
Definition constructorDifferenceTooLong := 0x4afe8f6d.
Definition constructorMessageEmpty := 0x90a6ca84.
Definition constructorMessage := 0x9815cec8.
Definition constructorMessageEntityBotCommand := 0x6cef8ac7.
Definition constructorUpdateNewMessage := 0x1f2b0afd.
Definition constructorUpdateNewChannelMessage := 0x62ba04d9.

Record TextMessage := MkText {
  tm_ID : Z; tm_ChatID : Z; tm_FromID : Z; tm_ChatKind : string; tm_FromKind : string;
  tm_Date : Z; tm_Text : string; tm_Raw : list byte }.

Record DifferenceResult := MkDiff {
  df_Constructor : Z; df_State : option UpdatesState; df_Messages : list TextMessage;
  df_Peers : list PeerRef; df_Users : list PeerRef; df_Raw : list byte }.

(** [UserAccessHash]; the receiver is never nil in the model. *)
Definition UserAccessHash (d : DifferenceResult) (userID : Z) : option Z :=
  if userID =? 0 then None
  else match List.find (fun p => (pr_ID p =? userID) && negb (pr_AccessHash p =? 0) &&
                            (pr_Kind p =? "user")%string) (df_Peers d) with
       | Some peer => Some (pr_AccessHash peer)
       | None => None
       end.

Definition makeUpdatesGetStateQuery : list byte := tb_buf (tb_empty |> putInt constructorUpdatesGetState).

Definition makeUpdatesGetDifferenceQuery (state : UpdatesState) (ptsLimit : Z) : list byte :=
  let q := tb_empty |> putInt constructorUpdatesGetDifference in
  let flags := flag (0 <? ptsLimit) 1 0 in
  let q := q |> putInt flags |> putInt (u32 (us_PTS state)) in
  let q := if 0 <? ptsLimit then q |> putInt (u32 ptsLimit) else q in
  tb_buf (q |> putInt (u32 (us_Date state)) |> putInt (u32 (us_QTS state))).

(** ** Small parsers *)

Record parsedPeer := MkParsedPeer { pp_ID : Z; pp_Kind : string }.

Definition parsePeer : M tlReader parsedPeer :=
  constructor <- tl_int ;;
  id <- tl_long ;;
  let v := i64 id in
  if constructor =? constructorPeerUser then ret (MkParsedPeer v "user")
  else if constructor =? constructorPeerChat then ret (MkParsedPeer v "chat")
  else if constructor =? constructorPeerChannel then ret (MkParsedPeer v "channel")
  else fail (ErrFmt "mtproto: unsupported Peer constructor 0x%08x" [FZ constructor]).

Definition expect_vector (format : string) : M tlReader Z :=
  vector <- tl_int ;;
  guard (vector =? constructorVector) (ErrFmt format [FZ vector]) ;;
  tl_int.

Definition plain_entities : list Z :=
  [0xbb92ba95; 0xfa04579d; 0x6f635b0d; constructorMessageEntityBotCommand; 0x6ed02538; 0x64e475c2;
   0xbd610bc9; 0x826f8b60; 0x28a20571; 0x9b69e34b; 0x4c4e743f; 0x9c4e7e8b; 0xbf0693d4; 0x761e6af4;
   0x32ca960f].

Definition skip_entity : M tlReader unit :=
  constructor <- tl_int ;;
  if existsb (Z.eqb constructor) plain_entities then tl_int ;; tl_int ;; ret tt
  else if constructor =? 0x73924be0 then tl_int ;; tl_int ;; tl_string ;; ret tt
  else if constructor =? 0x76a6d327 then tl_int ;; tl_int ;; tl_string ;; ret tt
  else if constructor =? 0x352dca58 then tl_int ;; tl_int ;; tl_long ;; ret tt
  else if constructor =? 0xc8cf05f8 then tl_int ;; tl_int ;; tl_long ;; ret tt
  else if constructor =? 0x20df5d0 then tl_int ;; tl_int ;; tl_int ;; ret tt
  else fail (ErrFmt "mtproto: unsupported MessageEntity constructor 0x%08x" [FZ constructor]).

Definition skipMessageEntities : M tlReader unit :=
  count <- expect_vector "mtproto: expected entities vector, got 0x%08x" ;;
  for_each count (fun _ => skip_entity) tt.

Definition skipRawVector : M tlReader unit :=
  count <- expect_vector "mtproto: expected vector, got 0x%08x" ;;
  for_each count (fun _ => fail (ErrFmt
    "mtproto: raw vector with %d objects is not supported by the tiny V12 parser" [FZ count])) tt.

Definition skipEncryptedMessageVector : M tlReader unit :=
  count <- expect_vector "mtproto: expected encrypted messages vector, got 0x%08x" ;;
  guard (count =? 0)
    (ErrFmt "mtproto: encrypted message vector with %d items is not supported yet" [FZ count]).

(** ** Messages *)

(** A field present when a flag bit is set, read and dropped. *)
Definition skip_if {A} (c : bool) (m : M tlReader A) : M tlReader unit := when c (m ;; ret tt).

(** A flagged part of the schema the parser refuses. *)
Definition refuse_if (c : bool) (what : string) : M tlReader unit := guard (negb c) (ErrFmt what []).

Definition parse_messageEmpty : M tlReader unit :=
  flags <- tl_int ;; _id <- tl_int ;;
  skip_if (bit_set flags 0) parsePeer.

(** The optional fields between the peer and the date. *)
Definition skip_before_date (flags flags2 : Z) : M tlReader unit :=
  skip_if (bit_set flags 28) parsePeer ;;
  refuse_if (bit_set flags 2) "mtproto: message fwd_from parsing not implemented" ;;
  skip_if (bit_set flags 11) tl_long ;;
  skip_if (bit_set flags2 0) tl_long ;;
  refuse_if (bit_set flags 3) "mtproto: reply_to parsing not implemented".

(** The optional fields after the text. *)
Definition skip_after_text (flags flags2 : Z) : M tlReader unit :=
  refuse_if (bit_set flags 9) "mtproto: media parsing not implemented" ;;
  refuse_if (bit_set flags 6) "mtproto: reply_markup parsing not implemented" ;;
  when (bit_set flags 7) skipMessageEntities ;;
  skip_if (bit_set flags 10) (tl_int ;; tl_int) ;;
  refuse_if (bit_set flags 23) "mtproto: replies parsing not implemented" ;;
  skip_if (bit_set flags 15) tl_int ;;
  skip_if (bit_set flags 16) tl_string ;;
  skip_if (bit_set flags 17) tl_long ;;
  refuse_if (bit_set flags 20) "mtproto: reactions parsing not implemented" ;;
  when (bit_set flags 22) skipRawVector ;;
  skip_if (bit_set flags 25) tl_int ;;
  skip_if (bit_set flags 30) tl_int ;;
  skip_if (bit_set flags2 2) tl_long ;;
  refuse_if (bit_set flags2 3) "mtproto: factcheck parsing not implemented" ;;
  skip_if (bit_set flags2 5) tl_int ;;
  skip_if (bit_set flags2 6) tl_long ;;
  refuse_if (bit_set flags2 7) "mtproto: suggested_post parsing not implemented".

Definition parse_message : M tlReader TextMessage :=
  flags <- tl_int ;; flags2 <- tl_int ;; id <- tl_int ;;
  from <- (if bit_set flags 8 then parsePeer else ret (MkParsedPeer 0 EmptyString)) ;;
  skip_if (bit_set flags 29) tl_int ;;
  chatPeer <- parsePeer ;;
  skip_before_date flags flags2 ;;
  date <- tl_int ;;
  text <- tl_string ;;
  skip_after_text flags flags2 ;;
  ret (MkText (i32 id) (pp_ID chatPeer) (pp_ID from) (pp_Kind chatPeer) (pp_Kind from)
         (i32 date) text []).

(** [None] is Go's [(TextMessage{}, false, nil)]. *)
Definition parseTextMessage : M tlReader (option TextMessage) :=
  constructor <- tl_int ;;
  if constructor =? constructorMessageEmpty then parse_messageEmpty ;; ret None
  else if constructor =? constructorMessage then m <- parse_message ;; ret (Some m)
  else fail (ErrFmt "mtproto: unsupported Message constructor 0x%08x" [FZ constructor]).

Definition set_raw (raw : list byte) (m : TextMessage) : TextMessage :=
  MkText (tm_ID m) (tm_ChatID m) (tm_FromID m) (tm_ChatKind m) (tm_FromKind m) (tm_Date m)
    (tm_Text m) raw.

(** [r.buf[start:r.off]] *)
Definition raw_since (start : Z) : M tlReader (list byte) :=
  r <- get ;; lift (slice (r_buf r) start (r_off r)).

Definition append_message (start : Z) (msg : option TextMessage) (out : list TextMessage)
  : M tlReader (list TextMessage) :=
  match msg with
  | Some m => raw <- raw_since start ;; ret (out ++ [set_raw raw m])
  | None => ret out
  end.

(** The vectors return what was parsed and, possibly, the error that stopped
    them.  ([make(..., 0, count)] only reserves capacity.) *)
Definition gathered : Type := list TextMessage * option goerr.

Definition message_round (out : list TextMessage) : M tlReader (list TextMessage + gathered) :=
  r <- get ;;
  m <- try parseTextMessage ;;
  match m with
  | inr err => ret (inr (out, Some err))
  | inl msg => out' <- append_message (r_off r) msg out ;; ret (inl out')
  end.

Definition finish_loop (x : list TextMessage + gathered) : gathered :=
  match x with inl out => (out, None) | inr g => g end.

Definition parseMessageVector : M tlReader gathered :=
  count <- try (expect_vector "mtproto: expected vector, got 0x%08x") ;;
  match count with
  | inr err => ret ([], Some err)
  | inl count => x <- for_n count message_round [] ;; ret (finish_loop x)
  end.

Definition is_message_update (constructor : Z) : bool :=
  (constructor =? constructorUpdateNewMessage) || (constructor =? constructorUpdateNewChannelMessage).

Definition read_update_message : M tlReader (option TextMessage) :=
  msg <- parseTextMessage ;; _pts <- tl_int ;; _pts_count <- tl_int ;; ret msg.

Definition update_round (out : list TextMessage) : M tlReader (list TextMessage + gathered) :=
  c <- try tl_int ;;
  match c with
  | inr err => ret (inr (out, Some err))
  | inl constructor =>
      if is_message_update constructor then
        r <- get ;;
        m <- try read_update_message ;;
        match m with
        | inr err => ret (inr (out, Some err))
        | inl msg => out' <- append_message (r_off r) msg out ;; ret (inl out')
        end
      else ret (inr (out, None))
  end.

Definition parseUpdateVector : M tlReader gathered :=
  count <- try (expect_vector "mtproto: expected updates vector, got 0x%08x") ;;
  match count with
  | inr err => ret ([], Some err)
  | inl count => x <- for_n count update_round [] ;; ret (finish_loop x)
  end.

(** ** The result *)

Section Result.
Variable range_values : seen_map -> list PeerRef.

Definition diff_start (body : list byte) (constructor : Z) : outcome DifferenceResult :=
  match scanPeerRefs range_values body, scanUpdatesState body with
  | Ok peers, Ok scanned => Ok (MkDiff constructor scanned [] peers peers body)
  | _, _ => Panic
  end.

Definition with_state (st : UpdatesState) (d : DifferenceResult) : DifferenceResult :=
  MkDiff (df_Constructor d) (Some st) (df_Messages d) (df_Peers d) (df_Users d) (df_Raw d).
Definition add_messages (ms : list TextMessage) (d : DifferenceResult) : DifferenceResult :=
  MkDiff (df_Constructor d) (df_State d) (df_Messages d ++ ms) (df_Peers d) (df_Users d) (df_Raw d).

(** An error in one of the vectors keeps what was gathered before it: messages
    of the vector that failed are dropped by the [return out, nil]. *)
Definition diff_messages (out : DifferenceResult) : M tlReader DifferenceResult :=
  g <- parseMessageVector ;;
  match g with
  | (_, Some _) => ret out
  | (messages, None) =>
      let out := add_messages messages out in
      skipped <- try skipEncryptedMessageVector ;;
      match skipped with
      | inr _ => ret out
      | inl _ =>
          u <- parseUpdateVector ;;
          match u with
          | (_, Some _) => ret out
          | (updateMessages, None) => ret (add_messages updateMessages out)
          end
      end
  end.

Definition read_difference (body : list byte) : M tlReader DifferenceResult :=
  constructor <- tl_int ;;
  out <- lift (diff_start body constructor) ;;
  if constructor =? constructorDifferenceEmpty then
    date <- tl_int ;; seq <- tl_int ;;
    ret (with_state (MkState 0 0 (i32 date) (i32 seq) 0 []) out)
  else if constructor =? constructorDifferenceTooLong then
    pts <- tl_int ;;
    ret (with_state (MkState (i32 pts) 0 0 0 0 []) out)
  else if (constructor =? constructorDifference) || (constructor =? constructorDifferenceSlice) then
    diff_messages out
  else fail (ErrFmt "mtproto: expected updates.Difference, got 0x%08x" [FZ constructor]).

Definition parseDifferenceResult (body : list byte) : outcome DifferenceResult :=
  eval (read_difference body) (newTLReader body).
End Result.

(** The message the repository's tests build. *)
Definition encodeTestMessage (id fromID chatID : Z) (text : string) : list byte :=
  let b := le_bytes 4 constructorMessage ++ le_bytes 4 (Z.lor (Z.shiftl 1 8) (Z.shiftl 1 7)) ++
           le_bytes 4 0 ++ le_bytes 4 (u32 id) ++ le_bytes 4 constructorPeerUser ++
           le_bytes 8 (u64 fromID) ++ le_bytes 4 constructorPeerUser ++
           le_bytes 8 (u64 chatID) ++ le_bytes 4 123 in
  tb_buf (TLBuffer b |> putString text |> putInt constructorVector |> putInt 1
          |> putInt constructorMessageEntityBotCommand |> putInt 0
          |> putInt (u32 (len (bytes_of text)))).

(** ** No input makes the parsers panic *)

(** Safety of a computation that looks back to position [n]. *)
Definition rsafe_from {A} (n : Z) (m : M tlReader A) : Prop :=
  forall r, rwf r -> n <= r_off r -> safe_at r (m r).

Lemma rsafe_rsafe_from {A} n (m : M tlReader A) : rsafe m -> rsafe_from n m.
Proof. intros H r Hr _. by apply H. Qed.

Lemma rsafe_from_bind {A B} n (m : M tlReader A) (k : A -> M tlReader B) :
  rsafe_from n m -> (forall a, rsafe_from n (k a)) -> rsafe_from n (x <- m ;; k x).
Proof.
  intros Hm Hk r Hr Hn. specialize (Hm r Hr Hn). unfold bind.
  destruct (m r) as [[a|e|] r'] eqn:E; destruct Hm as (Hp & Hb & Ho & Hw); simpl in *.
  - eapply safe_at_later; [done|done|]. apply Hk; [done|lia].
  - by repeat split; try apply Hw.
  - done.
Qed.

Lemma rsafe_from_raw_since n : 0 <= n -> rsafe_from n (raw_since n).
Proof.
  intros H0 r Hr Hn. unfold raw_since, bind, get, lift. apply safe_at_stay; [done|].
  destruct Hr. rewrite slice_ok by lia. done.
Qed.

Lemma rsafe_mark {A} (k : tlReader -> M tlReader A) :
  (forall r, 0 <= r_off r -> rsafe_from (r_off r) (k r)) -> rsafe (r <- get ;; k r).
Proof. intros Hk r Hr. apply (Hk r); [apply Hr|done|lia]. Qed.

Lemma rsafe_from_append n msg out : 0 <= n -> rsafe_from n (append_message n msg out).
Proof.
  intros Hn. destruct msg; [|apply rsafe_rsafe_from, rsafe_ret].
  apply rsafe_from_bind; [by apply rsafe_from_raw_since|intros; apply rsafe_rsafe_from, rsafe_ret].
Qed.

Lemma rsafe_parsePeer : rsafe parsePeer.
Proof. unfold parsePeer. rsafe_auto. Qed.
#[export] Hint Resolve rsafe_parsePeer : tl.
Lemma rsafe_expect_vector f : rsafe (expect_vector f).
Proof. unfold expect_vector. rsafe_auto. Qed.
#[export] Hint Resolve rsafe_expect_vector : tl.
Lemma rsafe_skip_if {A} c (m : M tlReader A) : rsafe m -> rsafe (skip_if c m).
Proof. intros. apply rsafe_when, rsafe_bind; auto with tl. Qed.
Lemma rsafe_refuse_if c what : rsafe (refuse_if c what).
Proof. apply rsafe_guard. Qed.
#[export] Hint Resolve rsafe_skip_if rsafe_refuse_if : tl.
Lemma rsafe_skip_entity : rsafe skip_entity.
Proof. unfold skip_entity. rsafe_auto. Qed.
#[export] Hint Resolve rsafe_skip_entity : tl.
Lemma rsafe_skipMessageEntities : rsafe skipMessageEntities.
Proof. unfold skipMessageEntities. rsafe_auto. Qed.
Lemma rsafe_skipRawVector : rsafe skipRawVector.
Proof. unfold skipRawVector. rsafe_auto. Qed.
Lemma rsafe_skipEncrypted : rsafe skipEncryptedMessageVector.
Proof. unfold skipEncryptedMessageVector. rsafe_auto. Qed.
#[export] Hint Resolve rsafe_skipMessageEntities rsafe_skipRawVector rsafe_skipEncrypted : tl.

Lemma rsafe_two_ints : rsafe (tl_int ;; tl_int).
Proof. apply rsafe_bind; auto with tl. Qed.
#[export] Hint Resolve rsafe_two_ints : tl.

Lemma rsafe_skip_before_date f f2 : rsafe (skip_before_date f f2).
Proof. unfold skip_before_date. repeat (apply rsafe_bind; [auto with tl|intros _]). auto with tl. Qed.
Lemma rsafe_skip_after_text f f2 : rsafe (skip_after_text f f2).
Proof. unfold skip_after_text. repeat (apply rsafe_bind; [auto with tl|intros _]). auto with tl. Qed.
#[export] Hint Resolve rsafe_skip_before_date rsafe_skip_after_text : tl.

Lemma rsafe_parseTextMessage : rsafe parseTextMessage.
Proof.
  unfold parseTextMessage, parse_messageEmpty, parse_message.
  apply rsafe_bind; [auto with tl|intros c].
  destruct (c =? constructorMessageEmpty); [rsafe_auto|].
  destruct (c =? constructorMessage); [|auto with tl]. rsafe_auto.
Qed.
#[export] Hint Resolve rsafe_parseTextMessage : tl.

Lemma rsafe_read_update_message : rsafe read_update_message.
Proof. unfold read_update_message. rsafe_auto. Qed.
#[export] Hint Resolve rsafe_read_update_message : tl.

(** Parsing with a mark at the start of the message. *)
Lemma rsafe_marked (P : M tlReader (option TextMessage)) out :
  rsafe P ->
  rsafe (r <- get ;; m <- try P ;;
         match m with
         | inr err => ret (inr (out, Some err))
         | inl msg => out' <- append_message (r_off r) msg out ;;
                      ret (inl (B := gathered) out')
         end).
Proof.
  intros HP. apply rsafe_mark. intros r H0.
  apply rsafe_from_bind; [by apply rsafe_rsafe_from, rsafe_try|].
  intros [msg|err]; [|apply rsafe_rsafe_from, rsafe_ret].
  apply rsafe_from_bind; [by apply rsafe_from_append|intros; apply rsafe_rsafe_from, rsafe_ret].
Qed.

Lemma rsafe_parseMessageVector : rsafe parseMessageVector.
Proof.
  apply rsafe_bind; [auto with tl|]. intros [count|err]; [|auto with tl].
  apply rsafe_bind; [|auto with tl]. apply rsafe_for_n. intros out.
  apply rsafe_marked. auto with tl.
Qed.

Lemma rsafe_parseUpdateVector : rsafe parseUpdateVector.
Proof.
  apply rsafe_bind; [auto with tl|]. intros [count|err]; [|auto with tl].
  apply rsafe_bind; [|auto with tl]. apply rsafe_for_n. intros out.
  apply rsafe_bind; [auto with tl|]. intros [c|err]; [|auto with tl].
  destruct (is_message_update c); [|auto with tl]. apply rsafe_marked. auto with tl.
Qed.
#[export] Hint Resolve rsafe_parseMessageVector rsafe_parseUpdateVector : tl.

Lemma scanPeerRefs_returns range_values body : exists ps, scanPeerRefs range_values body = Ok ps.
Proof.
  unfold scanPeerRefs. destruct (_ <? _); [by eexists|].
  rewrite scan_loop_records by lia. by eexists.
Qed.

Lemma scanUpdatesState_returns body : exists st, scanUpdatesState body = Ok st.
Proof.
  unfold scanUpdatesState. destruct (Z.ltb_spec (len body) 24); [by eexists|].
  destruct (state_loop_spec (S (length body)) body (len body - 24)) as (r & -> & _);
    [lia|unfold len; lia|by eexists].
Qed.

Lemma diff_start_returns range_values body c : exists d, diff_start range_values body c = Ok d.
Proof.
  unfold diff_start. destruct (scanPeerRefs_returns range_values body) as [ps ->].
  destruct (scanUpdatesState_returns body) as [st ->]. by eexists.
Qed.

Lemma rsafe_read_difference range_values body : rsafe (read_difference range_values body).
Proof.
  unfold read_difference. apply rsafe_bind; [auto with tl|intros c].
  apply rsafe_bind; [apply rsafe_lift; by destruct (diff_start_returns range_values body c) as [d ->]|].
  intros out. destruct (c =? constructorDifferenceEmpty); [rsafe_auto|].
  destruct (c =? constructorDifferenceTooLong); [rsafe_auto|].
  destruct (_ || _); [|auto with tl]. unfold diff_messages.
  apply rsafe_bind; [auto with tl|]. intros [ms [e|]]; [auto with tl|].
  apply rsafe_bind; [auto with tl|]. intros [[]|e]; [|auto with tl].
  apply rsafe_bind; [auto with tl|]. intros [us [e|]]; auto with tl.
Qed.

(** Robustness (difference.go): whatever bytes a server sends, and in
    whatever order Go ranges over its map, [parseDifferenceResult] returns a
    result or an error: no slice or index it uses is out of range. *)
Theorem parseDifferenceResult_no_panic (range_values : seen_map -> list PeerRef) (body : list byte) :
  parseDifferenceResult range_values body <> Panic.
Proof. apply rsafe_eval, rsafe_read_difference. Qed.

(** ** A difference read back *)

(** Evaluate the flag tests on a concrete flag word. *)
Ltac eval_flags :=
  repeat match goal with
  | |- context [bit_set ?f ?n] =>
      let v := eval vm_compute in (bit_set f n) in change (bit_set f n) with v
  end.

(** One bot command entity over the whole text. *)
Definition entity_bytes (n : Z) : list byte :=
  le_bytes 4 constructorVector ++ le_bytes 4 1 ++
  le_bytes 4 constructorMessageEntityBotCommand ++ le_bytes 4 0 ++ le_bytes 4 n.

Lemma reads_entities n : reads skipMessageEntities (entity_bytes n) tt.
Proof.
  unfold skipMessageEntities, expect_vector, entity_bytes.
  rewrite (app_assoc (le_bytes 4 constructorVector)). eapply reads_bind.
  { eapply reads_bind; [apply reads_int|]. eapply reads_bind0; [by apply reads_guard|]. apply reads_int. }
  change (u32 1) with 1.
  assert (R : reads skip_entity
            (le_bytes 4 constructorMessageEntityBotCommand ++ le_bytes 4 0 ++ le_bytes 4 n) tt).
  { unfold skip_entity. eapply reads_bind; [apply reads_int|].
    change (existsb _ plain_entities) with true. cbn iota.
    eapply reads_bind; [apply reads_int|]. eapply reads_last; [apply reads_int|apply reads_ret]. }
  apply (reads_last _ _ _ (inl tt) tt); [|apply reads_ret].
  apply (reads_last _ _ _ tt (inl tt)); [exact R|apply reads_ret].
Qed.

Lemma reads_parsePeer_user id : is_i64 id ->
  reads parsePeer (le_bytes 4 constructorPeerUser ++ le_bytes 8 (u64 id)) (MkParsedPeer id "user").
Proof.
  intros H. unfold parsePeer. eapply reads_bind; [apply reads_int|].
  eapply reads_last; [apply reads_long|]. rewrite u64_id by apply u64_range.
  rewrite i64_u64 by done. apply reads_ret.
Qed.

Lemma reads_nothing {A} (m : M tlReader A) : reads (skip_if false m) [] tt.
Proof. apply reads_ret. Qed.
Lemma reads_refuse w : reads (refuse_if false w) [] tt.
Proof. apply reads_ret. Qed.
Lemma reads_when_false m : reads (when false m) [] tt.
Proof. apply reads_ret. Qed.
Create HintDb reads.
#[export] Hint Resolve @reads_nothing reads_refuse reads_when_false : reads.

Lemma reads_before_date : reads (skip_before_date 384 0) [] tt.
Proof. unfold skip_before_date. eval_flags. repeat (eapply reads_bind0; [auto with reads|]). auto with reads. Qed.

Lemma reads_after_text n : reads (skip_after_text 384 0) (entity_bytes n) tt.
Proof.
  unfold skip_after_text. eval_flags. do 2 (eapply reads_bind0; [auto with reads|]).
  eapply reads_last; [apply reads_entities|].
  repeat (eapply reads_bind0; [auto with reads|]). auto with reads.
Qed.

Definition test_message (id fromID chatID : Z) (text : string) : TextMessage :=
  MkText id chatID fromID "user" "user" 123 text [].

Lemma reads_test_message id fromID chatID text :
  is_i32 id -> is_i64 fromID -> is_i64 chatID -> len (bytes_of text) < two24 ->
  reads parseTextMessage (encodeTestMessage id fromID chatID text)
    (Some (test_message id fromID chatID text)).
Proof.
  intros Hid Hf Hc Ht. unfold encodeTestMessage. autorewrite with tl_buf. cbn [tb_buf].
  rewrite <- !app_assoc. unfold parseTextMessage.
  eapply reads_bind; [apply reads_int|].
  change (u32 constructorMessage =? constructorMessageEmpty) with false.
  change (u32 constructorMessage =? constructorMessage) with true. cbn iota.
  apply (reads_map parse_message Some). unfold parse_message.
  eapply reads_bind; [apply reads_int|].
  change (u32 (Z.lor (Z.shiftl 1 8) (Z.shiftl 1 7))) with 384.
  eapply reads_bind; [apply reads_int|]. change (u32 0) with 0.
  eapply reads_bind; [apply reads_int|]. eval_flags. cbn iota.
  rewrite (app_assoc (le_bytes 4 constructorPeerUser)).
  eapply reads_bind; [by apply reads_parsePeer_user|].
  eapply reads_bind0; [auto with reads|].
  rewrite (app_assoc (le_bytes 4 constructorPeerUser)).
  eapply reads_bind; [by apply reads_parsePeer_user|].
  eapply reads_bind0; [apply reads_before_date|].
  eapply reads_bind; [apply reads_int|].
  eapply reads_bind; [by apply reads_string|].
  eapply reads_last; [apply (reads_after_text (u32 (len (bytes_of text))))|].
  rewrite (u32_id (u32 id)) by apply u32_range. rewrite i32_u32 by done. apply reads_ret.
Qed.

(** A parser with its mark, on the bytes of one message. *)
Lemma marked_reads (P : M tlReader (option TextMessage)) bs m out pre post :
  reads P bs (Some m) ->
  (r <- get ;; x <- try P ;;
   match x with
   | inr err => ret (inr (out, Some err))
   | inl msg => out' <- append_message (r_off r) msg out ;; ret (inl (B := gathered) out')
   end) (TLReader (pre ++ bs ++ post) (len pre)) =
  (Ok (inl (out ++ [set_raw bs m])), TLReader (pre ++ bs ++ post) (len pre + len bs)).
Proof.
  intros H. specialize (H pre post).
  rewrite (bind_ok get _ _ _ _ eq_refl).
  assert (Ht : try P (TLReader (pre ++ bs ++ post) (len pre)) =
               (Ok (inl (Some m)), TLReader (pre ++ bs ++ post) (len pre + len bs)))
    by (unfold try; by rewrite H).
  erewrite bind_ok by exact Ht. unfold append_message, raw_since, bind, get, lift, ret. cbn [r_buf r_off].
  rewrite slice_ok by (autorewrite with lens; len_nonneg_all; lia).
  by rewrite sub_app_mid.
Qed.

(** A loop over rounds that each read one message. *)
Lemma rounds_read (round : list TextMessage -> M tlReader (list TextMessage + gathered))
    (items : list (list byte * TextMessage)) out pre post :
  (forall out pre post bs m, In (bs, m) items ->
     round out (TLReader (pre ++ bs ++ post) (len pre)) =
     (Ok (inl (out ++ [m])), TLReader (pre ++ bs ++ post) (len pre + len bs))) ->
  for_n (len items) round out (TLReader (pre ++ concat (map fst items) ++ post) (len pre)) =
  (Ok (inl (out ++ map snd items)),
   TLReader (pre ++ concat (map fst items) ++ post) (len pre + len (concat (map fst items)))).
Proof.
  revert out pre. induction items as [|[bs m] items IH]; intros out pre H.
  { cbn. by rewrite app_nil_r, Z.add_0_r. }
  rewrite len_cons, for_n_succ by apply len_nonneg. cbn [map concat fst snd]. unfold rounds.
  rewrite <- app_assoc. erewrite bind_ok by (apply H; by left). cbn beta iota.
  specialize (IH (out ++ [m]) (pre ++ bs)). rewrite <- !app_assoc, !len_app in IH.
  rewrite IH by (intros; apply H; by right). cbn [app].
  by rewrite len_app, Z.add_assoc.
Qed.

Definition vector_bytes (items : list (list byte)) : list byte :=
  le_bytes 4 constructorVector ++ le_bytes 4 (len items) ++ concat items.

Lemma reads_expect_vector f n : is_u32 n ->
  reads (expect_vector f) (le_bytes 4 constructorVector ++ le_bytes 4 n) n.
Proof.
  intros H. unfold expect_vector. eapply reads_bind; [apply reads_int|].
  eapply reads_bind0; [by apply reads_guard|]. rewrite <- (u32_id n) at 2 by done. apply reads_int.
Qed.

Lemma reads_try {A} (m : M tlReader A) bs a : reads m bs a -> reads (try m) bs (inl a).
Proof. intros H pre post. unfold try. by rewrite H. Qed.

(** A whole vector of messages. *)
Lemma reads_vector f round (items : list (list byte * TextMessage)) :
  is_u32 (len items) ->
  (forall out pre post bs m, In (bs, m) items ->
     round out (TLReader (pre ++ bs ++ post) (len pre)) =
     (Ok (inl (out ++ [m])), TLReader (pre ++ bs ++ post) (len pre + len bs))) ->
  reads (count <- try (expect_vector f) ;;
         match count with
         | inr err => ret ([], Some err)
         | inl count => x <- for_n count round [] ;; ret (finish_loop x)
         end) (vector_bytes (map fst items)) (map snd items, None).
Proof.
  intros Hn Hround. unfold vector_bytes. rewrite len_map_list, app_assoc.
  eapply reads_bind; [by apply reads_try, reads_expect_vector|]. cbn iota.
  apply (reads_map _ finish_loop _ (inl (map snd items))).
  intros pre post. apply (rounds_read round items [] pre post Hround).
Qed.

(** A new message as the server describes it, and as the client reports it. *)
Record NewMessage := MkNew { nm_id : Z; nm_from : Z; nm_chat : Z; nm_text : string }.

Definition new_ok (m : NewMessage) : Prop :=
  is_i32 (nm_id m) /\ is_i64 (nm_from m) /\ is_i64 (nm_chat m) /\ len (bytes_of (nm_text m)) < two24.
Definition new_bytes (m : NewMessage) : list byte :=
  encodeTestMessage (nm_id m) (nm_from m) (nm_chat m) (nm_text m).
Definition new_text (m : NewMessage) : TextMessage :=
  test_message (nm_id m) (nm_from m) (nm_chat m) (nm_text m).

(** An update: message, pts, pts_count.  Its raw bytes start at the message. *)
Definition update_tail (pts count : Z) : list byte := le_bytes 4 pts ++ le_bytes 4 count.
Definition update_bytes (c : Z) (m : NewMessage) : list byte :=
  le_bytes 4 c ++ new_bytes m ++ update_tail 1 1.

Definition new_items (ms : list NewMessage) : list (list byte * TextMessage) :=
  map (fun m => (new_bytes m, set_raw (new_bytes m) (new_text m))) ms.
Definition update_items (us : list (Z * NewMessage)) : list (list byte * TextMessage) :=
  map (fun cm => (update_bytes (fst cm) (snd cm),
                  set_raw (new_bytes (snd cm) ++ update_tail 1 1) (new_text (snd cm)))) us.

Lemma reads_new n : new_ok n -> reads parseTextMessage (new_bytes n) (Some (new_text n)).
Proof. intros (H1 & H2 & H3 & H4). exact (reads_test_message _ _ _ _ H1 H2 H3 H4). Qed.

Lemma new_round ms out pre post bs m :
  Forall new_ok ms -> In (bs, m) (new_items ms) ->
  message_round out (TLReader (pre ++ bs ++ post) (len pre)) =
  (Ok (inl (out ++ [m])), TLReader (pre ++ bs ++ post) (len pre + len bs)).
Proof.
  intros Hms Hin. unfold new_items in Hin. apply in_map_iff in Hin as (n & [= <- <-] & Hn).
  rewrite Forall_forall in Hms. apply list_elem_of_In in Hn.
  exact (marked_reads parseTextMessage _ _ out pre post (reads_new n (Hms n Hn))).
Qed.

Lemma update_round_reads us out pre post bs m :
  Forall (fun cm => is_message_update (fst cm) = true /\ is_u32 (fst cm) /\ new_ok (snd cm)) us ->
  In (bs, m) (update_items us) ->
  update_round out (TLReader (pre ++ bs ++ post) (len pre)) =
  (Ok (inl (out ++ [m])), TLReader (pre ++ bs ++ post) (len pre + len bs)).
Proof.
  intros Hus Hin. unfold update_items in Hin. apply in_map_iff in Hin as ([c n] & [= <- <-] & Hn).
  rewrite Forall_forall in Hus. apply list_elem_of_In in Hn.
  destruct (Hus _ Hn) as (Hc & Hu & Hok). cbn [fst snd] in *.
  unfold update_round, update_bytes. rewrite <- app_assoc.
  erewrite bind_ok by (apply (reads_try _ _ _ (reads_int c))). cbn iota beta.
  rewrite u32_id, Hc by done. cbn iota.
  assert (R : reads read_update_message (new_bytes n ++ update_tail 1 1) (Some (new_text n))).
  { unfold read_update_message, update_tail. eapply reads_bind; [exact (reads_new n Hok)|].
    eapply reads_bind; [apply reads_int|]. eapply reads_last; [apply reads_int|apply reads_ret]. }
  pose proof (marked_reads read_update_message _ _ out (pre ++ le_bytes 4 c) post R) as G.
  rewrite <- !app_assoc, len_app in G. rewrite <- !app_assoc. etransitivity; [exact G|].
  do 2 f_equal. rewrite !len_app. lia.
Qed.

Definition difference_body (ms : list NewMessage) (us : list (Z * NewMessage)) (rest : list byte)
  : list byte :=
  le_bytes 4 constructorDifference ++ vector_bytes (map new_bytes ms) ++ vector_bytes [] ++
  vector_bytes (map (fun cm => update_bytes (fst cm) (snd cm)) us) ++ rest.

Lemma reads_diff_messages ms us out :
  Forall new_ok ms -> is_u32 (len ms) ->
  Forall (fun cm => is_message_update (fst cm) = true /\ is_u32 (fst cm) /\ new_ok (snd cm)) us ->
  is_u32 (len us) ->
  reads (diff_messages out)
    (vector_bytes (map fst (new_items ms)) ++ vector_bytes [] ++ vector_bytes (map fst (update_items us)))
    (add_messages (map snd (update_items us)) (add_messages (map snd (new_items ms)) out)).
Proof.
  intros Hms Hn Hus Hu. unfold diff_messages.
  eapply reads_bind.
  { apply (reads_vector _ message_round); [unfold new_items; by rewrite len_map_list|].
    intros. by eapply new_round. }
  cbn iota beta. eapply reads_bind.
  { apply reads_try. unfold skipEncryptedMessageVector, vector_bytes.
    cbn [concat]. rewrite app_nil_r.
    apply (reads_last _ _ _ 0 tt); [apply reads_expect_vector; split; done|by apply reads_guard]. }
  cbn iota beta. eapply reads_last.
  { apply (reads_vector _ update_round); [unfold update_items; by rewrite len_map_list|].
    intros. by eapply update_round_reads. }
  apply reads_ret.
Qed.


