(* ===== verification/Api.v ===== *)
(** * Api: the methods of the encrypted client (src/mtproto/client.go,
    highlevel.go, state.go, difference.go)

    One definition per method of [EncryptedClient] that makes a request, and the
    life of a client as the sequence of the calls made on it.  Where a method
    returns its response together with an error, the result is a pair. *)

From S2P Require Import Prelude Strings TL Transport Hash Md5 AES Crypto Envelope Auth Invoke Queries Client Account Password Peers Difference.

(** [ConstructorName] *)
Definition constructor_names : list (Z * string) :=
  [ (0x2ea2c0d4, "auth.authorization"%string);
    (constructorRpcError, "rpc_error"%string);
    (constructorGzipPacked, "gzip_packed"%string);
    (constructorAccountPassword, "account.password"%string);
    (constructorPasswordKDFAlgoSHA256SHA256PBKDF2HMACSHA512Iter100000SHA256ModPow,
     "passwordKdfAlgoSHA256SHA256PBKDF2HMACSHA512iter100000SHA256ModPow"%string);
    (constructorInputCheckPasswordSRP, "inputCheckPasswordSRP"%string);
    (0x74ae4240, "updatesTooLong"%string);
    (0x9015e101, "updateShortMessage"%string);
    (0x313bc7f8, "updateShortChatMessage"%string);
    (0x78d4dec1, "updateShort"%string);
    (0x725b04c3, "updatesCombined"%string);
    (0x8dca6aa5, "updates"%string);
    (0xe317af7e, "updateShortSentMessage"%string) ].

(** [fmt.Sprintf("0x%08x", id)] *)
Definition format_0x08x (id : Z) : string :=
  string_of (bytes_of "0x" ++ map (fun i => hex_digit (Z.land (Z.shiftr id (4 * i)) 15)) [7; 6; 5; 4; 3; 2; 1; 0]).

Definition ConstructorName (id : Z) : string :=
  match List.find (fun p => fst p =? id) constructor_names with
  | Some p => snd p
  | None => format_0x08x id
  end.

(** ** Texts of results and errors; [None] is a nil error *)

(** [hex.EncodeToString] *)
Definition hex_encode (l : list byte) : string :=
  string_of (flat_map (fun b => [hex_digit (b2z b / 16); hex_digit (b2z b mod 16)]) l).

Definition AuthKeyResult_AuthKeyHex (r : AuthKeyResult) : string := hex_encode (ak_AuthKey r).
Definition AuthKeyResult_AuthKeyIDHex (r : AuthKeyResult) : string := hex_encode (le_bytes 8 (ak_AuthKeyID r)).
Definition ProbeResult_PQHex (r : ProbeResult) : string := hex_encode (pr_PQ r).
Definition ProbeResult_PHex (r : ProbeResult) : string := hex_encode (pr_P r).
Definition ProbeResult_QHex (r : ProbeResult) : string := hex_encode (pr_Q r).
Definition InvokeResult_AuthKeyIDHex (r : InvokeResult) : string := hex_encode (le_bytes 8 (ir_AuthKeyID r)).
Definition InvokeResult_ConstructorHex (r : InvokeResult) : string := format_0x08x (ir_Constructor r).
Definition SentCode_ConstructorHex (r : SentCodeResult) : string := format_0x08x (sc_Constructor r).
Definition SentCode_CodeTypeHex (r : SentCodeResult) : string := format_0x08x (sc_CodeTypeConstructor r).
Definition PasswordKDFAlgo_ConstructorHex (a : PasswordKDFAlgo) : string := format_0x08x (ka_Constructor a).

Definition RPCError_Error (e : option (Z * string)) : string :=
  (match e with
  | None => "mtproto rpc_error"
  | Some (code, message) => "mtproto rpc_error " ++ FormatInt code ++ ": " ++ message
  end)%string.
Definition BadServerSaltError_Error (e : option (Z * Z * Z * Z)) : string :=
  (match e with
  | None => "mtproto: bad_server_salt"
  | Some (id, seq, code, salt) =>
      "mtproto: bad_server_salt bad_msg_id=" ++ FormatInt id ++ " seq=" ++ FormatInt seq ++ " code=" ++ FormatInt code ++
      " new_salt=" ++ FormatInt salt
  end)%string.
Definition BadMessageError_Error (e : option (Z * Z * Z)) : string :=
  (match e with
  | None => "mtproto: bad_msg_notification"
  | Some (id, seq, code) =>
      "mtproto: bad_msg_notification bad_msg_id=" ++ FormatInt id ++ " seq=" ++ FormatInt seq ++ " code=" ++ FormatInt code
  end)%string.

Example texts_1 : (hex_encode [x0f; xa0], RPCError_Error (Some (420, "FLOOD_WAIT_3")), format_0x08x 0xab)%string =
  ("0fa0", "mtproto rpc_error 420: FLOOD_WAIT_3", "0x000000ab")%string.
Proof. vm_compute. reflexivity. Qed.

Section Api.
Variable gunzip : list byte -> outcome (list byte).
Variable range_values : seen_map -> list PeerRef.

Definition need_text (text : string) : Method unit :=
  guard (negb (blank text)) (ErrNew "message text is required").
Definition need_id (messageID : Z) : Method unit :=
  guard (negb (messageID <=? 0)) (ErrNew "message id is required").
Definition need_ids (ids : list Z) : Method unit :=
  guard (negb (len ids =? 0)) (ErrNew "at least one message id is required").

(** [result, err := c.Invoke(ctx, query)] and the message of a success. *)
Definition request (c : ctx) (query : list byte) (text : string) : Method InvokeResult :=
  result <- Client_Invoke gunzip c query ;;
  ret (set_message text result).

(** [peer.InputPeer()] and the error of a peer without access data. *)
Definition peer_input (format : string) (peer : PeerRef) : Method InputPeer :=
  match PeerRef_InputPeer peer with
  | Some input => ret input
  | None => fail (ErrFmt format [FZ (pr_ID peer); FS (pr_Kind peer)])
  end.
Definition missing_access : string := "mtproto: peer %d (%s) is missing access data".

Definition sent_text : string := "messages.sendMessage succeeded over encrypted MTProto".
Definition edited_text : string := "messages.editMessage succeeded over encrypted MTProto".

Definition MessagesSendMessage (c : ctx) (peer : InputPeer) (text : string) : Method InvokeResult :=
  need_text text ;;
  query <- on_sources (makeMessagesSendMessageQuery peer text) ;;
  request c query sent_text.

Definition MessagesSendMessageToPeer (c : ctx) (peer : PeerRef) (text : string) : Method InvokeResult :=
  input <- peer_input missing_access peer ;; MessagesSendMessage c input text.

Definition MessagesEditMessage (c : ctx) (peer : InputPeer) (messageID : Z) (text : string) : Method InvokeResult :=
  need_id messageID ;; need_text text ;;
  query <- lift (makeMessagesEditMessageQuery peer messageID text) ;;
  request c query edited_text.

Definition MessagesEditMessageToPeer (c : ctx) (peer : PeerRef) (messageID : Z) (text : string)
  : Method InvokeResult :=
  input <- peer_input missing_access peer ;; MessagesEditMessage c input messageID text.

Definition MessagesDeleteMessages (c : ctx) (revoke : bool) (ids : list Z) : Method InvokeResult :=
  need_ids ids ;;
  request c (makeMessagesDeleteMessagesQuery revoke ids)
    "messages.deleteMessages succeeded over encrypted MTProto".

(** A response that does not parse is returned with the error. *)
Definition parsed {A} (result : InvokeResult) (o : outcome (A + goerr)) (text : string)
  : Method ((A + goerr) * InvokeResult) :=
  r <- lift o ;;
  match r with
  | inl a => ret (inl a, set_message text result)
  | inr err => ret (inr err, result)
  end.

(** [v, err := f()] as a value. *)
Definition as_pair {A} (o : outcome A) : outcome (A + goerr) :=
  match o with Ok a => Ok (inl a) | Err e => Ok (inr e) | Panic => Panic end.

Definition GetMe (c : ctx) : Method ((User + goerr) * InvokeResult) :=
  result <- Client_Invoke gunzip c (makeUsersGetUsersQuery [InputUserSelf]) ;;
  parsed result
    (omap_outcome (fun users : list User => match users with
       | user :: _ => inl user
       | [] => inr (ErrNew "mtproto: users.getUsers returned no parsed users")
       end) (ScanUsers (ir_Body result)))
    "users.getUsers(inputUserSelf) succeeded over encrypted MTProto".

Definition with_username (username : string) (peer : PeerRef) : PeerRef :=
  if (pr_Username peer =? EmptyString)%string
  then MkPeerRef (pr_ID peer) (pr_AccessHash peer) (pr_Kind peer) (pr_Title peer) username
  else peer.

Definition ResolveUsername (c : ctx) (username : string) : Method ((PeerRef + goerr) * InvokeResult) :=
  let username := TrimPrefix (TrimSpace username) "@" in
  guard (negb (username =? EmptyString)%string) (ErrNew "username is required") ;;
  result <- Client_Invoke gunzip c (makeContactsResolveUsernameQuery username) ;;
  parsed result
    (omap_outcome (fun peer : option PeerRef => match peer with
       | Some peer => inl (with_username username peer)
       | None => inr (ErrNew "mtproto: unable to parse resolved peer")
       end) (parseResolvedPeer range_values (ir_Body result)))
    "contacts.resolveUsername succeeded over encrypted MTProto".

Definition MessagesSendMessageWithOptions (c : ctx) (peer : InputPeer) (text : string) (opts : SendOptions)
  : Method InvokeResult :=
  need_text text ;;
  query <- on_sources (makeMessagesSendMessageQueryWithOptions peer text opts) ;;
  request c query sent_text.

Definition MessagesSendMessageToPeerWithOptions (c : ctx) (peer : PeerRef) (text : string) (opts : SendOptions)
  : Method InvokeResult :=
  input <- peer_input missing_access peer ;; MessagesSendMessageWithOptions c input text opts.

Definition MessagesEditMessageWithOptions (c : ctx) (peer : InputPeer) (messageID : Z) (text : string)
    (opts : EditOptions) : Method InvokeResult :=
  need_id messageID ;; need_text text ;;
  query <- lift (makeMessagesEditMessageQueryWithOptions peer messageID text opts) ;;
  request c query edited_text.

Definition MessagesEditMessageToPeerWithOptions (c : ctx) (peer : PeerRef) (messageID : Z) (text : string)
    (opts : EditOptions) : Method InvokeResult :=
  input <- peer_input missing_access peer ;; MessagesEditMessageWithOptions c input messageID text opts.

Definition MessagesForwardMessages (c : ctx) (from to : InputPeer) (ids : list Z) (opts : ForwardOptions)
  : Method InvokeResult :=
  need_ids ids ;;
  query <- on_sources (makeMessagesForwardMessagesQuery from to ids opts) ;;
  request c query "messages.forwardMessages succeeded over encrypted MTProto".

Definition MessagesForwardMessagesToPeer (c : ctx) (from to : PeerRef) (ids : list Z) (opts : ForwardOptions)
  : Method InvokeResult :=
  fromInput <- peer_input "mtproto: from peer %d (%s) is missing access data" from ;;
  toInput <- peer_input "mtproto: to peer %d (%s) is missing access data" to ;;
  MessagesForwardMessages c fromInput toInput ids opts.

Definition ChannelsDeleteMessages (c : ctx) (channel : PeerRef) (ids : list Z) : Method InvokeResult :=
  need_ids ids ;;
  query <- lift (makeChannelsDeleteMessagesQuery channel ids) ;;
  request c query "channels.deleteMessages succeeded over encrypted MTProto".

Definition MessagesGetHistory (c : ctx) (peer : InputPeer) (limit : Z) : Method InvokeResult :=
  query <- lift (makeMessagesGetHistoryQuery peer (if limit <=? 0 then 20 else limit)) ;;
  request c query "messages.getHistory succeeded over encrypted MTProto".

Definition UpdatesGetState (c : ctx) : Method ((UpdatesState + goerr) * InvokeResult) :=
  result <- Client_Invoke gunzip c makeUpdatesGetStateQuery ;;
  parsed result (as_pair (parseUpdatesState (ir_Body result)))
    "updates.getState succeeded over encrypted MTProto".

Definition UpdatesGetDifference (c : ctx) (state : UpdatesState) (ptsLimit : Z)
  : Method ((DifferenceResult + goerr) * InvokeResult) :=
  result <- Client_Invoke gunzip c (makeUpdatesGetDifferenceQuery state ptsLimit) ;;
  parsed result (as_pair (parseDifferenceResult range_values (ir_Body result)))
    "updates.getDifference succeeded over encrypted MTProto".

End Api.

(** ** Examples *)

Example ConstructorName_known : ConstructorName 0x74ae4240 = "updatesTooLong"%string.
Proof. reflexivity. Qed.
Example ConstructorName_unknown : ConstructorName 0x00f49ca0 = "0x00f49ca0"%string.
Proof. reflexivity. Qed.

(** ** Robustness *)

#[export] Hint Resolve InputPeer_encode_no_panic scanPeerRefs_returns : methods.

Lemma nopanic_randomInt64 : nopanic randomInt64.
Proof.
  unfold randomInt64. apply nopanic_bind; [apply nopanic_try; auto with nopanic|]. intros [b|e].
  - cbv zeta. by destruct (_ =? 0).
  - done.
Qed.
#[export] Hint Resolve nopanic_randomInt64 : nopanic.

Lemma nopanic_encode {S} p b : nopanic (S := S) (lift (InputPeer_encode p b)).
Proof. apply nopanic_lift, InputPeer_encode_no_panic. Qed.
#[export] Hint Resolve nopanic_encode : nopanic.

Lemma nopanic_send peer text : nopanic (makeMessagesSendMessageQuery peer text).
Proof. unfold makeMessagesSendMessageQuery. nopanic_steps. apply InputPeer_encode_no_panic. Qed.

Lemma nopanic_send_options peer text opts : nopanic (makeMessagesSendMessageQueryWithOptions peer text opts).
Proof. unfold makeMessagesSendMessageQueryWithOptions. nopanic_steps. apply InputPeer_encode_no_panic. Qed.

Lemma nopanic_random_ids ids b : nopanic (put_random_ids ids b).
Proof. revert b. induction ids as [|id ids IH]; intros b; cbn [put_random_ids]; nopanic_steps. Qed.
#[local] Hint Resolve nopanic_random_ids : nopanic.

Lemma nopanic_forward from to ids opts : nopanic (makeMessagesForwardMessagesQuery from to ids opts).
Proof.
  unfold makeMessagesForwardMessagesQuery. nopanic_steps; apply InputPeer_encode_no_panic.
Qed.

Lemma edit_returns peer id text : makeMessagesEditMessageQuery peer id text <> Panic.
Proof.
  unfold makeMessagesEditMessageQuery. destruct (InputPeer_encode _ _) eqn:E; [done..|].
  by apply InputPeer_encode_no_panic in E.
Qed.
Lemma edit_options_returns peer id text opts : makeMessagesEditMessageQueryWithOptions peer id text opts <> Panic.
Proof.
  unfold makeMessagesEditMessageQueryWithOptions. cbv zeta. destruct (InputPeer_encode _ _) eqn:E; [done..|].
  by apply InputPeer_encode_no_panic in E.
Qed.
Lemma history_returns peer limit : makeMessagesGetHistoryQuery peer limit <> Panic.
Proof.
  unfold makeMessagesGetHistoryQuery. destruct (InputPeer_encode _ _) eqn:E; [done..|].
  by apply InputPeer_encode_no_panic in E.
Qed.
Lemma channels_returns channel ids : makeChannelsDeleteMessagesQuery channel ids <> Panic.
Proof. unfold makeChannelsDeleteMessagesQuery. by destruct (_ || _). Qed.

#[export] Hint Resolve nopanic_send nopanic_send_options nopanic_forward : nopanic.
#[export] Hint Resolve edit_returns edit_options_returns history_returns channels_returns : methods.

Lemma omap_returns {A B} (f : A -> B) o : o <> Panic -> omap_outcome f o <> Panic.
Proof. by destruct o. Qed.
Lemma as_pair_returns {A} (o : outcome A) : o <> Panic -> as_pair o <> Panic.
Proof. by destruct o. Qed.

Lemma ScanUsers_returns body : ScanUsers body <> Panic.
Proof.
  destruct (users_loop_ok (S (length body)) body 0 ∅ []) as (us & E & _); [done|done|constructor|].
  unfold ScanUsers. by rewrite E.
Qed.

Lemma parseResolvedPeer_returns values body : parseResolvedPeer values body <> Panic.
Proof.
  apply nopanic_eval. destruct (scanPeerRefs_returns values body) as [ps Eps].
  assert (Hp : nopanic (S := unit) (lift (scanPeerRefs values body))) by (apply nopanic_lift; by rewrite Eps).
  unfold parsePeerAt. destruct (Z.ltb_spec (len body) 16) as [Hs|Hl].
  { apply (nopanic_bind_post (fun b => b = false)); [done|by intros s a s' [= <- _]|]. intros a ->.
    apply nopanic_bind; [exact Hp|intros peers; apply nopanic_ret]. }
  rewrite !u32_at_ok, u64_at_ok, (proj2 (Z.ltb_ge _ _)) by lia.
  nopanic_steps; exact Hp || by rewrite Eps.
Qed.

Lemma parseUpdatesState_returns body : parseUpdatesState body <> Panic.
Proof. apply rsafe_eval. unfold read_updatesState. rsafe_auto. Qed.

Lemma parseDifferenceResult_returns values body : parseDifferenceResult values body <> Panic.
Proof. apply rsafe_eval, rsafe_read_difference. Qed.

#[export] Hint Resolve omap_returns as_pair_returns ScanUsers_returns parseResolvedPeer_returns
  parseUpdatesState_returns parseDifferenceResult_returns : methods.

Section ApiSafety.
Variable gunzip : list byte -> outcome (list byte).
Hypothesis gunzip_returns : forall d, gunzip d <> Panic.
Variable range_values : seen_map -> list PeerRef.

Lemma request_ok c query text : method_ok (request gunzip c query text).
Proof. unfold request. method_auto. Qed.

Lemma peer_input_ok format peer : method_ok (peer_input format peer).
Proof. unfold peer_input. method_auto. Qed.

Lemma parsed_ok {A} result (o : outcome (A + goerr)) text : o <> Panic -> method_ok (parsed result o text).
Proof. intros Ho. unfold parsed. method_auto. Qed.
#[local] Hint Resolve request_ok peer_input_ok parsed_ok : methods.

Lemma MessagesSendMessage_ok c peer text : method_ok (MessagesSendMessage gunzip c peer text).
Proof. unfold MessagesSendMessage, need_text. method_auto. Qed.
Lemma MessagesEditMessage_ok c peer id text : method_ok (MessagesEditMessage gunzip c peer id text).
Proof. unfold MessagesEditMessage, need_text, need_id. method_auto. Qed.
Lemma MessagesSendMessageWithOptions_ok c peer text opts :
  method_ok (MessagesSendMessageWithOptions gunzip c peer text opts).
Proof. unfold MessagesSendMessageWithOptions, need_text. method_auto. Qed.
Lemma MessagesEditMessageWithOptions_ok c peer id text opts :
  method_ok (MessagesEditMessageWithOptions gunzip c peer id text opts).
Proof. unfold MessagesEditMessageWithOptions, need_text, need_id. method_auto. Qed.
Lemma MessagesForwardMessages_ok c from to ids opts : method_ok (MessagesForwardMessages gunzip c from to ids opts).
Proof. unfold MessagesForwardMessages, need_ids. method_auto. Qed.
#[local] Hint Resolve MessagesSendMessage_ok MessagesEditMessage_ok MessagesSendMessageWithOptions_ok
  MessagesEditMessageWithOptions_ok MessagesForwardMessages_ok : methods.

Lemma MessagesSendMessageToPeer_ok c peer text : method_ok (MessagesSendMessageToPeer gunzip c peer text).
Proof. unfold MessagesSendMessageToPeer. method_auto. Qed.
Lemma MessagesEditMessageToPeer_ok c peer id text : method_ok (MessagesEditMessageToPeer gunzip c peer id text).
Proof. unfold MessagesEditMessageToPeer. method_auto. Qed.
Lemma MessagesSendMessageToPeerWithOptions_ok c peer text opts :
  method_ok (MessagesSendMessageToPeerWithOptions gunzip c peer text opts).
Proof. unfold MessagesSendMessageToPeerWithOptions. method_auto. Qed.
Lemma MessagesEditMessageToPeerWithOptions_ok c peer id text opts :
  method_ok (MessagesEditMessageToPeerWithOptions gunzip c peer id text opts).
Proof. unfold MessagesEditMessageToPeerWithOptions. method_auto. Qed.
Lemma MessagesForwardMessagesToPeer_ok c from to ids opts :
  method_ok (MessagesForwardMessagesToPeer gunzip c from to ids opts).
Proof. unfold MessagesForwardMessagesToPeer. method_auto. Qed.
Lemma MessagesDeleteMessages_ok c revoke ids : method_ok (MessagesDeleteMessages gunzip c revoke ids).
Proof. unfold MessagesDeleteMessages, need_ids. method_auto. Qed.
Lemma ChannelsDeleteMessages_ok c channel ids : method_ok (ChannelsDeleteMessages gunzip c channel ids).
Proof. unfold ChannelsDeleteMessages, need_ids. method_auto. Qed.
Lemma MessagesGetHistory_ok c peer limit : method_ok (MessagesGetHistory gunzip c peer limit).
Proof. unfold MessagesGetHistory. method_auto. Qed.
Lemma GetMe_ok c : method_ok (GetMe gunzip c).
Proof. unfold GetMe. method_auto. Qed.
Lemma ResolveUsername_ok c username : method_ok (ResolveUsername gunzip range_values c username).
Proof. unfold ResolveUsername. cbv zeta. method_auto. Qed.
Lemma UpdatesGetState_ok c : method_ok (UpdatesGetState gunzip c).
Proof. unfold UpdatesGetState. method_auto. Qed.
Lemma UpdatesGetDifference_ok c state limit : method_ok (UpdatesGetDifference gunzip range_values c state limit).
Proof. unfold UpdatesGetDifference. method_auto. Qed.

End ApiSafety.

#[export] Hint Resolve request_ok parsed_ok MessagesSendMessage_ok MessagesEditMessage_ok MessagesSendMessageWithOptions_ok
  MessagesEditMessageWithOptions_ok MessagesForwardMessages_ok MessagesSendMessageToPeer_ok
  MessagesEditMessageToPeer_ok MessagesSendMessageToPeerWithOptions_ok MessagesEditMessageToPeerWithOptions_ok
  MessagesForwardMessagesToPeer_ok MessagesDeleteMessages_ok ChannelsDeleteMessages_ok MessagesGetHistory_ok
  GetMe_ok ResolveUsername_ok UpdatesGetState_ok UpdatesGetDifference_ok : methods.
