(* ===== verification/Media.v ===== *)
(** * Media: uploads, downloads and sendMedia (src/mtproto/media.go)

    The transfer loops are written against the interface [Invoker] of what they
    need from a client: a request, and the clock and random source.  The client
    of Client.v is one implementation; a server that stores parts, which is not
    part of the program, is another, and specifies what the transfers do. *)

From S2P Require Import Prelude Strings TL Transport Hash Md5 AES Crypto Envelope Auth Invoke Queries Client Account Peers Difference Api.

Definition constructorBoolFalse := 0xbc799737.
Definition constructorBoolTrue := 0x997275b5.
Definition constructorUploadSaveFilePart := 0xb304a621.
Definition constructorUploadSaveBigFilePart := 0xde7b673d.
Definition constructorUploadGetFile := 0xbe5335be.
Definition constructorUploadFile := 0x096a18d5.
Definition constructorUploadFileCdnRedirect := 0xf18cda44.
Definition constructorInputFile := 0xf52ff27f.
Definition constructorInputFileBig := 0xfa4f0bb5.
Definition constructorInputMediaUploadedPhoto := 0x1e287d04.
Definition constructorInputMediaUploadedDocument := 0x037c9330.
Definition constructorDocumentAttributeFilename := 0x15590068.
Definition constructorMessagesSendMedia := 0xac55d9c1.
Definition constructorInputDocumentFileLocation := 0xbad07584.
Definition constructorInputPhotoFileLocation := 0x40181ffe.

Definition DefaultUploadPartSize : Z := 512 * 1024.
Definition minUploadPartSize : Z := 32 * 1024.
Definition maxUploadPartSize : Z := 512 * 1024.
Definition smallFileLimit : Z := 10 * 1024 * 1024.

(** A progress function only observes; [uo_Progress] says whether one is set,
    and its calls are recorded. *)
Record UploadOptions := MkUpload { uo_PartSize : Z; uo_Progress : bool }.

Record UploadedFile := MkUploaded {
  uf_ID : Z; uf_Parts : Z; uf_Name : string; uf_Size : Z; uf_MD5Checksum : string; uf_Big : bool }.

Record DownloadOptions := MkDownload {
  do_PartSize : Z; do_Precise : bool; do_CDNSupported : bool; do_Limit : Z; do_Progress : bool }.

Record DownloadedPart := MkPart {
  dp_FileTypeConstructor : Z; dp_MTime : Z; dp_Bytes : list byte; dp_CDNRedirect : bool }.

Inductive InputFileLocation :=
| DocumentFileLocation (ID AccessHash : Z) (FileReference : list byte) (ThumbSize : string)
| PhotoFileLocation (ID AccessHash : Z) (FileReference : list byte) (ThumbSize : string).

Record SendMediaOptions := MkSendMedia {
  sm_Caption : string; sm_ReplyToMessageID : Z; sm_Silent : bool; sm_Background : bool;
  sm_Spoiler : bool; sm_ForceFile : bool; sm_MIMEType : string; sm_FileName : string }.

(** ** Encoders *)

Definition encodeInputFileLocation (l : InputFileLocation) (b : tlBuffer) : outcome tlBuffer :=
  match l with
  | DocumentFileLocation id hash ref thumb =>
      if (id =? 0) || (hash =? 0) then Err (ErrNew "document location requires id and access hash")
      else Ok (b |> putInt constructorInputDocumentFileLocation |> putLong (u64 id) |> putLong (u64 hash)
                 |> putBytes ref |> putString thumb)
  | PhotoFileLocation id hash ref thumb =>
      if (id =? 0) || (hash =? 0) then Err (ErrNew "photo location requires id and access hash")
      else Ok (b |> putInt constructorInputPhotoFileLocation |> putLong (u64 id) |> putLong (u64 hash)
                 |> putBytes ref |> putString thumb)
  end.

Definition encodeInputFile (f : UploadedFile) (b : tlBuffer) : outcome tlBuffer :=
  if (uf_ID f =? 0) || (uf_Parts f <=? 0) then Err (ErrNew "input file requires id and parts")
  else if uf_Big f then
    Ok (b |> putInt constructorInputFileBig |> putLong (u64 (uf_ID f)) |> putInt (u32 (uf_Parts f))
          |> putString (uf_Name f))
  else
    Ok (b |> putInt constructorInputFile |> putLong (u64 (uf_ID f)) |> putInt (u32 (uf_Parts f))
          |> putString (uf_Name f) |> putString (uf_MD5Checksum f)).

(** [filepath.Base], with slashes as separators. *)
Fixpoint drop_slashes (l : list byte) : list byte :=
  match l with x2f :: l' => drop_slashes l' | _ => l end.
Fixpoint until_slash (l : list byte) : list byte :=
  match l with [] => [] | x2f :: _ => [] | c :: l' => c :: until_slash l' end.
Definition filepath_Base (path : string) : string :=
  if (path =? EmptyString)%string then "."%string
  else match rev (until_slash (drop_slashes (rev (bytes_of path)))) with
       | [] => "/"%string
       | name => string_of name
       end.

Definition or_default (s d : string) : string := if (s =? EmptyString)%string then d else s.

Inductive inputMedia :=
| inputMediaUploadedPhoto (file : UploadedFile) (opts : SendMediaOptions)
| inputMediaUploadedDocument (file : UploadedFile) (opts : SendMediaOptions).

Definition encodeInputMedia (m : inputMedia) (b : tlBuffer) : outcome tlBuffer :=
  match m with
  | inputMediaUploadedPhoto file opts =>
      let flags := flag (sm_Spoiler opts) 2 0 in
      encodeInputFile file (b |> putInt constructorInputMediaUploadedPhoto |> putInt flags)
  | inputMediaUploadedDocument file opts =>
      let flags := flag (sm_Spoiler opts) 5 (flag (sm_ForceFile opts) 4 0) in
      match encodeInputFile file (b |> putInt constructorInputMediaUploadedDocument |> putInt flags) with
      | Ok b =>
          let mimeType := or_default (TrimSpace (sm_MIMEType opts)) "application/octet-stream" in
          let name := or_default (or_default (TrimSpace (sm_FileName opts)) (uf_Name file)) "file" in
          Ok (b |> putString mimeType |> put_vector_header 1 |> putInt constructorDocumentAttributeFilename
                |> putString (filepath_Base name))
      | Err e => Err e
      | Panic => Panic
      end
  end.

Definition makeUploadSaveFilePartQuery (fileID part : Z) (data : list byte) : list byte :=
  tb_buf (tb_empty |> putInt constructorUploadSaveFilePart |> putLong (u64 fileID) |> putInt (u32 part)
          |> putBytes data).

Definition makeUploadSaveBigFilePartQuery (fileID part total : Z) (data : list byte) : list byte :=
  tb_buf (tb_empty |> putInt constructorUploadSaveBigFilePart |> putLong (u64 fileID) |> putInt (u32 part)
          |> putInt (u32 total) |> putBytes data).

Definition makeUploadGetFileQuery (loc : InputFileLocation) (offset limit : Z) (opts : DownloadOptions)
  : outcome (list byte) :=
  let flags := flag (do_CDNSupported opts) 1 (flag (do_Precise opts) 0 0) in
  match encodeInputFileLocation loc (tb_empty |> putInt constructorUploadGetFile |> putInt flags) with
  | Ok b => Ok (tb_buf (b |> putLong (u64 offset) |> putInt (u32 limit)))
  | Err e => Err e
  | Panic => Panic
  end.

Definition sendMedia_flags (opts : SendMediaOptions) : Z :=
  flag (sm_Background opts) 6 (flag (sm_Silent opts) 5 (flag (0 <? sm_ReplyToMessageID opts) 0 0)).

Definition makeMessagesSendMediaQuery (peer : InputPeer) (media : inputMedia) (opts : SendMediaOptions)
  : M world (list byte) :=
  b <- lift (InputPeer_encode peer
         (tb_empty |> putInt constructorMessagesSendMedia |> putInt (sendMedia_flags opts))) ;;
  let b := if 0 <? sm_ReplyToMessageID opts then
             b |> putInt constructorInputReplyToMessage |> putInt 0
               |> putInt (u32 (i32 (sm_ReplyToMessageID opts)))
           else b in
  b <- lift (encodeInputMedia media b) ;;
  let b := b |> putString (sm_Caption opts) in
  random_id <- randomInt64 ;;
  ret (tb_buf (b |> putLong (u64 random_id))).

(** ** Parsers *)

Definition parseTLBool (body : list byte) : outcome bool :=
  if len body <? 4 then Err (ErrNew "tl bool response too short")
  else match u32_at body 0 with
       | Ok c =>
           if c =? constructorBoolTrue then Ok true
           else if c =? constructorBoolFalse then Ok false
           else Err (ErrFmt "unexpected bool constructor 0x%08x" [FZ c])
       | _ => Panic
       end.

Definition read_uploadFile : M tlReader DownloadedPart :=
  typ <- tl_int ;; mtime <- tl_int ;; data <- tl_bytes ;; ret (MkPart typ (i32 mtime) data false).

Definition parseUploadFile (body : list byte) : outcome DownloadedPart :=
  if len body <? 4 then Err (ErrNew "upload.file response too short")
  else match u32_at body 0, slice body 4 (len body) with
       | Ok constructor, Ok rest =>
           if constructor =? constructorUploadFile then eval read_uploadFile (newTLReader rest)
           else if constructor =? constructorUploadFileCdnRedirect then Ok (MkPart 0 0 [] true)
           else Err (ErrFmt "unexpected upload.File constructor 0x%08x" [FZ constructor])
       | _, _ => Panic
       end.

Definition normalizePartSize (v : Z) : Z :=
  let v := if v <=? 0 then DefaultUploadPartSize else v in
  let v := if v <? minUploadPartSize then minUploadPartSize else v in
  let v := if maxUploadPartSize <? v then maxUploadPartSize else v in
  let v := Z.quot v 1024 * 1024 in
  if v <=? 0 then minUploadPartSize else v.

(** ** The number of parts, in float64 arithmetic

    A non-negative float64 as mantissa and exponent; [round53] rounds the
    quotient [n / d] to 53 bits, ties to even. *)
Definition round_half_even (n d : Z) : Z :=
  let q := n / d in
  let r := n mod d in
  if 2 * r <? d then q else if d <? 2 * r then q + 1 else q + q mod 2.

(** [2^52 <= n / d / 2^e < 2^53] *)
Definition exponent_of (n d : Z) : Z :=
  let e := Z.log2 n - Z.log2 d - 52 in
  if n * 2 ^ Z.max 0 (- e) <? d * 2 ^ Z.max 0 e * 2 ^ 52 then e - 1 else e.

Definition round53 (n d : Z) : Z * Z :=
  if n <=? 0 then (0, 0)
  else let e := exponent_of n d in
       (round_half_even (n * 2 ^ Z.max 0 (- e)) (d * 2 ^ Z.max 0 e), e).

Definition float64_of_int (z : Z) : Z * Z := round53 z 1.
(** Division by an integer that is a float64. *)
Definition float64_div_int (x : Z * Z) (d : Z) : Z * Z :=
  round53 (fst x * 2 ^ Z.max 0 (snd x)) (d * 2 ^ Z.max 0 (- snd x)).
Definition float64_ceil (x : Z * Z) : Z :=
  if 0 <=? snd x then fst x * 2 ^ snd x else - ((- fst x) / 2 ^ (- snd x)).

Definition upload_part_count (size partSize : Z) : Z :=
  let parts := float64_ceil (float64_div_int (float64_of_int size) partSize) in
  if parts =? 0 then 1 else parts.

(** ** What the transfers need from a client *)

Class Invoker (S : Type) := {
  (** the check for a nil client *)
  not_nil : M S unit;
  (** a request and its response *)
  Invoke : ctx -> list byte -> M S InvokeResult;
  (** the clock and the random source *)
  sources : forall {A}, M world A -> M S A }.

Definition client_not_nil : Method unit :=
  s <- get ;;
  guard (bool_decide (is_Some (ec_conn (fst s)))) (ErrNew "mtproto: nil encrypted client").

(** The encrypted client, for a given [compress/gzip]. *)
Definition client_invoker (gunzip : list byte -> outcome (list byte)) : Invoker (EncryptedClient * env) :=
  {| not_nil := client_not_nil; Invoke := Client_Invoke gunzip; sources := @on_sources |}.

(** ** Uploads

    The reader is the bytes it will deliver ([None] for a nil reader); it fails
    past their end. *)
Record upload_io := UploadIO { ui_in : option (list byte); ui_progress : list (Z * Z) }.

Definition io_ReadFull (n : Z) : M upload_io (list byte) := fun s =>
  let d := default [] (ui_in s) in
  if n <=? len d then (Ok (sub d 0 n), UploadIO (Some (sub d n (len d))) (ui_progress s))
  else (Err (ErrEnv "unexpected EOF"), UploadIO (Some []) (ui_progress s)).

Definition report (p : Z * Z) : M upload_io unit :=
  modify (fun s => UploadIO (ui_in s) (ui_progress s ++ [p])).

(** The source of non-zero ids: a draw that fails or is zero is replaced by
    [randomInt64], whose clock reading is zero only in 1970. *)
Fixpoint nonzero_loop (fuel : nat) : M world Z :=
  match fuel with
  | O => fail out_of_fuel
  | S fuel' =>
      r <- try (on_rng (rng_Read 8)) ;;
      let v := match r with inl b => i64 (le_value b) | inr _ => 0 end in
      if negb (v =? 0) then ret v
      else w <- randomInt64 ;; if negb (w =? 0) then ret w else nonzero_loop fuel'
  end.
Definition randomNonZeroInt64 : M world Z := nonzero_loop 1000.

Section Transfer.
Context {S : Type} `{Invoker S}.

Definition on_client {A} (m : M S A) : M (S * upload_io) A := zoom fst (fun c s => (c, snd s)) m.
Definition on_reader {A} (m : M upload_io A) : M (S * upload_io) A := zoom snd (fun r s => (fst s, r)) m.

(** [io.ReadFull(r, chunk)] with the error it is wrapped in; nothing is read for
    an empty chunk. *)
Definition read_chunk (part want : Z) : M upload_io (list byte) :=
  if 0 <? want then
    r <- try (io_ReadFull want) ;;
    match r with
    | inl chunk => ret chunk
    | inr err => fail (ErrWrap "read upload chunk %d: %w" [FZ part] err)
    end
  else ret [].

Definition part_query (up : UploadedFile) (part : Z) (chunk : list byte) : list byte :=
  if uf_Big up then makeUploadSaveBigFilePartQuery (uf_ID up) (i32 part) (i32 (uf_Parts up)) chunk
  else makeUploadSaveFilePartQuery (uf_ID up) (i32 part) chunk.

(** One round of the loop: [done] and the bytes hashed so far after it.
    [buf[:want]] is out of range for a negative [want]. *)
Definition upload_part (c : ctx) (opts : UploadOptions) (up : UploadedFile) (partSize part done : Z)
    (hashed : list byte) : M (S * upload_io) (Z * list byte) :=
  let size := uf_Size up in
  let remaining := i64 (size - done) in
  let want := if remaining <? partSize then remaining else partSize in
  let want := if (want <=? 0) && (size =? 0) then 0 else want in
  (if want <? 0 then panic else ret tt) ;;
  chunk <- on_reader (read_chunk part want) ;;
  let hashed := if (0 <? want) && negb (uf_Big up) then hashed ++ chunk else hashed in
  res <- on_client (Invoke c (part_query up part chunk)) ;;
  ok <- lift (parseTLBool (ir_Body res)) ;;
  guard ok (ErrFmt "telegram rejected upload part %d" [FZ part]) ;;
  let done := i64 (done + want) in
  on_reader (when (uo_Progress opts) (report (done, size))) ;;
  ret (done, hashed).

(** The [n] parts from [part] on; the bytes hashed. *)
Fixpoint upload_loop (n : nat) (c : ctx) (opts : UploadOptions) (up : UploadedFile) (partSize part done : Z)
    (hashed : list byte) : M (S * upload_io) (list byte) :=
  match n with
  | O => ret hashed
  | Datatypes.S n' =>
      r <- upload_part c opts up partSize part done hashed ;;
      upload_loop n' c opts up partSize (part + 1) (fst r) (snd r)
  end.

Definition set_checksum (sum : string) (up : UploadedFile) : UploadedFile :=
  MkUploaded (uf_ID up) (uf_Parts up) (uf_Name up) (uf_Size up) sum (uf_Big up).

Definition UploadFile (c : ctx) (size : Z) (name : string) (opts : UploadOptions)
  : M (S * upload_io) UploadedFile :=
  on_client not_nil ;;
  s <- get ;;
  guard (bool_decide (is_Some (ui_in (snd s)))) (ErrNew "upload reader is nil") ;;
  guard (negb (size <? 0)) (ErrNew "file size is required for MTProto upload") ;;
  let name := if blank name then "file"%string else name in
  let partSize := normalizePartSize (uo_PartSize opts) in
  let parts := upload_part_count size partSize in
  fileID <- on_client (sources randomNonZeroInt64) ;;
  let up := MkUploaded fileID parts (filepath_Base name) size EmptyString (smallFileLimit <? size) in
  hashed <- upload_loop (Z.to_nat parts) c opts up partSize 0 0 [] ;;
  ret (if uf_Big up then up else set_checksum (hex_EncodeToString (md5_Sum hashed)) up).

(** [UploadBytes]: a reader over the slice. *)
Definition UploadBytes (c : ctx) (data : list byte) (name : string) (opts : UploadOptions)
  : M (S * upload_io) UploadedFile :=
  on_reader (modify (fun s => UploadIO (Some data) (ui_progress s))) ;;
  UploadFile c (len data) name opts.

(** ** Downloads

    The writer has the bytes written so far and, for each of the next writes, at
    most how many bytes it takes and whether it reports an error ([None] for a
    nil writer); past the script it takes everything. *)
Record download_io := DownloadIO {
  di_out : option (list byte); di_script : list (Z * bool); di_progress : list (Z * Z) }.

Definition w_Write (p : list byte) : M download_io (Z * bool) := fun s =>
  let out := default [] (di_out s) in
  match di_script s with
  | [] => (Ok (len p, false), DownloadIO (Some (out ++ p)) [] (di_progress s))
  | (n, failed) :: rest =>
      let n := Z.max 0 (Z.min n (len p)) in
      (Ok (n, failed), DownloadIO (Some (out ++ sub p 0 n)) rest (di_progress s))
  end.

Definition report_download (p : Z * Z) : M download_io unit :=
  modify (fun s => DownloadIO (di_out s) (di_script s) (di_progress s ++ [p])).

Definition UploadGetFilePart (c : ctx) (loc : option InputFileLocation) (offset limit : Z) (opts : DownloadOptions)
  : M S DownloadedPart :=
  not_nil ;;
  match loc with
  | None => fail (ErrNew "file location is nil")
  | Some loc =>
      let limit := if limit <=? 0 then i32 (normalizePartSize (do_PartSize opts)) else limit in
      q <- lift (makeUploadGetFileQuery loc offset limit opts) ;;
      res <- Invoke c q ;;
      lift (parseUploadFile (ir_Body res))
  end.

Definition on_source {A} (m : M S A) : M (S * download_io) A := zoom fst (fun c s => (c, snd s)) m.
Definition on_writer {A} (m : M download_io A) : M (S * download_io) A := zoom snd (fun r s => (fst s, r)) m.

(** The limit of the next part. *)
Definition part_limit (opts : DownloadOptions) (partSize offset : Z) : Z :=
  let limit := i32 partSize in
  if (0 <? do_Limit opts) && (i64 (do_Limit opts - offset) <? limit) then i32 (do_Limit opts - offset) else limit.

(** One round: go on from an offset, or return the offset and the error. *)
Definition download_round (c : ctx) (loc : option InputFileLocation) (opts : DownloadOptions) (partSize offset : Z)
  : M (S * download_io) (Z + Z * option goerr) :=
  let limit := part_limit opts partSize offset in
  if limit <=? 0 then ret (inr (offset, None)) else
  part <- try (on_source (UploadGetFilePart c loc offset limit opts)) ;;
  match part with
  | inr err => ret (inr (offset, Some err))
  | inl part =>
      if dp_CDNRedirect part then
        ret (inr (offset, Some (ErrNew "mtproto: CDN redirect downloads are not implemented yet")))
      else if len (dp_Bytes part) =? 0 then ret (inr (offset, None)) else
      w <- on_writer (w_Write (dp_Bytes part)) ;;
      let offset := i64 (offset + fst w) in
      on_writer (when (do_Progress opts) (report_download (offset, do_Limit opts))) ;;
      if snd w : bool then ret (inr (offset, Some (ErrEnv "write"))) else
      if negb (fst w =? len (dp_Bytes part)) then ret (inr (offset, Some (ErrEnv "short write"))) else
      if len (dp_Bytes part) <? limit then ret (inr (offset, None)) else
      ret (inl offset)
  end.

(** The loop; [stuck] stands for what is left undone when the rounds run out. *)
Fixpoint download_loop (stuck : M (S * download_io) (Z * option goerr)) (fuel : nat) (c : ctx)
    (loc : option InputFileLocation) (opts : DownloadOptions) (partSize offset : Z)
  : M (S * download_io) (Z * option goerr) :=
  match fuel with
  | O => stuck
  | Datatypes.S fuel' =>
      r <- download_round c loc opts partSize offset ;;
      match r with
      | inl offset => download_loop stuck fuel' c loc opts partSize offset
      | inr result => ret result
      end
  end.

(** [DownloadFile]: the bytes written and the error. *)
Definition DownloadFile (stuck : M (S * download_io) (Z * option goerr)) (fuel : nat) (c : ctx)
    (loc : option InputFileLocation) (opts : DownloadOptions) : M (S * download_io) (Z * option goerr) :=
  s <- get ;;
  match di_out (snd s) with
  | None => ret (0, Some (ErrNew "download writer is nil"))
  | Some _ => download_loop stuck fuel c loc opts (normalizePartSize (do_PartSize opts)) 0
  end.

(** ** Sending *)

Definition send_media (media : UploadedFile -> SendMediaOptions -> inputMedia) (text : string)
    (c : ctx) (peer : InputPeer) (file : option UploadedFile) (opts : SendMediaOptions) : M S InvokeResult :=
  match file with
  | None => fail (ErrNew "uploaded file is nil")
  | Some file =>
      query <- sources (makeMessagesSendMediaQuery peer (media file opts) opts) ;;
      res <- Invoke c query ;;
      ret (set_message text res)
  end.

Definition MessagesSendUploadedDocument : ctx -> InputPeer -> option UploadedFile -> SendMediaOptions -> M S InvokeResult :=
  send_media inputMediaUploadedDocument "messages.sendMedia uploaded document succeeded over encrypted MTProto".
Definition MessagesSendUploadedPhoto : ctx -> InputPeer -> option UploadedFile -> SendMediaOptions -> M S InvokeResult :=
  send_media inputMediaUploadedPhoto "messages.sendMedia uploaded photo succeeded over encrypted MTProto".

Definition send_to_peer (send : ctx -> InputPeer -> option UploadedFile -> SendMediaOptions -> M S InvokeResult)
    (c : ctx) (peer : PeerRef) (file : option UploadedFile) (opts : SendMediaOptions) : M S InvokeResult :=
  match PeerRef_InputPeer peer with
  | Some input => send c input file opts
  | None => fail (ErrFmt missing_access [FZ (pr_ID peer); FS (pr_Kind peer)])
  end.
Definition MessagesSendUploadedDocumentToPeer := send_to_peer MessagesSendUploadedDocument.
Definition MessagesSendUploadedPhotoToPeer := send_to_peer MessagesSendUploadedPhoto.

End Transfer.

(** ** The number of parts is the number of parts *)

Lemma pow_max_split e : 0 < 2 ^ Z.max 0 e /\ 0 < 2 ^ Z.max 0 (- e).
Proof. split; apply Z.pow_pos_nonneg; lia. Qed.

Lemma round_half_even_bound n d : 0 < d -> - d <= 2 * (round_half_even n d * d - n) <= d.
Proof.
  intros Hd. unfold round_half_even. pose proof (Z.div_mod n d ltac:(lia)) as E.
  pose proof (Z.mod_pos_bound n d Hd) as Hr. set (q := n / d) in *. set (r := n mod d) in *.
  assert (q mod 2 = 0 \/ q mod 2 = 1) by (pose proof (Z.mod_pos_bound q 2); lia).
  destruct (Z.ltb_spec (2 * r) d); [nia|]. destruct (Z.ltb_spec d (2 * r)); nia.
Qed.

(** The exponent puts the scaled quotient at 2^52 or more. *)
Lemma exponent_of_low n d : 0 < n -> 0 < d ->
  d * 2 ^ Z.max 0 (exponent_of n d) * 2 ^ 52 <= n * 2 ^ Z.max 0 (- exponent_of n d).
Proof.
  intros Hn Hd. unfold exponent_of. set (e := Z.log2 n - Z.log2 d - 52).
  destruct (Z.ltb_spec (n * 2 ^ Z.max 0 (- e)) (d * 2 ^ Z.max 0 e * 2 ^ 52)) as [_|H]; [|exact H].
  destruct (Z.log2_spec n Hn) as [Hn1 _]. destruct (Z.log2_spec d Hd) as [_ Hd2].
  pose proof (Z.log2_nonneg n) as Ln. pose proof (Z.log2_nonneg d) as Ld.
  assert (E : 2 ^ Z.log2 n * 2 ^ Z.max 0 (- (e - 1)) = 2 ^ Z.succ (Z.log2 d) * 2 ^ Z.max 0 (e - 1) * 2 ^ 52).
  { rewrite <- !Z.pow_add_r by lia. f_equal. unfold e. lia. }
  destruct (pow_max_split (e - 1)) as [P1 P2]. apply (Z.le_trans _ (2 ^ Z.log2 n * 2 ^ Z.max 0 (- (e - 1)))).
  - rewrite E. repeat (apply Z.mul_le_mono_nonneg_r; [lia|]). lia.
  - apply Z.mul_le_mono_nonneg_r; lia.
Qed.

Lemma round53_int z : 0 < z < 2 ^ 53 -> exists k, 0 <= k /\ round53 z 1 = (z * 2 ^ k, - k).
Proof.
  intros Hz. destruct (Z.log2_spec z) as [H1 H2]; [lia|].
  assert (L : Z.log2 z <= 52) by (apply Z.lt_succ_r; apply Z.log2_lt_pow2; lia).
  pose proof (Z.log2_nonneg z) as L0.
  exists (52 - Z.log2 z). split; [lia|]. unfold round53. rewrite (proj2 (Z.leb_gt z 0)) by lia.
  assert (E : exponent_of z 1 = - (52 - Z.log2 z)).
  { unfold exponent_of. change (Z.log2 1) with 0. rewrite (proj2 (Z.ltb_ge _ _)); [lia|].
    rewrite Z.max_l, Z.max_r by lia. rewrite Z.pow_0_r.
    replace (- (Z.log2 z - 0 - 52)) with (52 - Z.log2 z) by lia.
    rewrite !Z.mul_1_l. replace (2 ^ 52) with (2 ^ Z.log2 z * 2 ^ (52 - Z.log2 z)) by (rewrite <- Z.pow_add_r by lia; f_equal; lia).
    apply Z.mul_le_mono_nonneg_r; [apply Z.pow_nonneg; lia|lia]. }
  rewrite E, Z.opp_involutive, Z.max_r, Z.max_l by lia. f_equal. unfold round_half_even.
  by rewrite !Z.mul_1_l, Z.div_1_r, Z.mod_1_r.
Qed.

Definition ceil_div (n d : Z) : Z := (n + d - 1) / d.

Lemma ceil_div_bounds n d : 0 < d -> (ceil_div n d - 1) * d < n <= ceil_div n d * d.
Proof.
  intros Hd. unfold ceil_div. pose proof (Z.div_mod (n + d - 1) d ltac:(lia)).
  pose proof (Z.mod_pos_bound (n + d - 1) d Hd). nia.
Qed.

(** Below 2^49 bytes and with parts of at most 2^19, rounding cannot reach the
    next integer. *)
Lemma float_ceil_exact size ps : 0 < size < 2 ^ 49 -> 2 ^ 15 <= ps <= 2 ^ 19 ->
  float64_ceil (float64_div_int (float64_of_int size) ps) = ceil_div size ps.
Proof.
  intros Hs Hp. unfold float64_of_int. destruct (round53_int size) as (k & Hk & ->).
  { split; [lia|]. apply (Z.lt_trans _ (2 ^ 49)); [lia|done]. }
  unfold float64_div_int. cbn [fst snd]. rewrite Z.opp_involutive, Z.max_l, Z.max_r, Z.pow_0_r, Z.mul_1_r by lia.
  assert (Hpk : 0 < 2 ^ k) by (apply Z.pow_pos_nonneg; lia).
  set (n := size * 2 ^ k). set (d := ps * 2 ^ k). assert (Hn : 0 < n) by (unfold n; nia). assert (Hd : 0 < d) by (unfold d; nia).
  unfold round53. rewrite (proj2 (Z.leb_gt n 0)) by done.
  pose proof (exponent_of_low n d Hn Hd) as Hlow. set (e := exponent_of n d) in *.
  destruct (pow_max_split e) as [P1 P2].
  assert (Hf : 19 <= - e).
  { destruct (Z.leb_spec 19 (- e)) as [|Hlt]; [done|exfalso].
    assert (2 ^ Z.max 0 (- e) <= 2 ^ 18) by (apply Z.pow_le_mono_r; lia).
    assert (size * 2 ^ Z.max 0 (- e) < ps * 2 ^ 52) by nia.
    assert (d * 2 ^ 52 <= d * 2 ^ Z.max 0 e * 2 ^ 52) by nia.
    assert (n * 2 ^ Z.max 0 (- e) < d * 2 ^ 52); [|lia]. unfold n, d.
    rewrite <- !(Z.mul_shuffle0 _ _ (2 ^ k)). by apply Z.mul_lt_mono_pos_r. }
  clearbody e. set (f := - e) in *. assert (He : e = - f) by lia. clearbody f. subst e.
  rewrite Z.max_r, Z.max_l, Z.pow_0_r, Z.mul_1_r by lia.
  pose proof (round_half_even_bound (n * 2 ^ f) d Hd) as Hr. set (q := round_half_even _ _) in *.
  assert (Hq : - ps <= 2 * (q * ps - size * 2 ^ f) <= ps) by (unfold n, d in Hr; nia).
  unfold float64_ceil. cbn [fst snd]. rewrite (proj2 (Z.leb_gt 0 (- f))) by lia. rewrite Z.opp_involutive.
  pose proof (ceil_div_bounds size ps ltac:(lia)) as Hc. set (m := ceil_div size ps) in *.
  assert (H19 : 2 ^ 19 <= 2 ^ f) by (apply Z.pow_le_mono_r; lia).
  assert (U : q <= m * 2 ^ f) by nia. assert (Lo : (m - 1) * 2 ^ f < q) by nia.
  assert (E : (- q) / 2 ^ f = - m); [|lia]. symmetry. apply (Z.div_unique _ _ _ (m * 2 ^ f - q)); [left; nia|lia].
Qed.

Lemma normalizePartSize_range v : 2 ^ 15 <= normalizePartSize v <= 2 ^ 19 /\ normalizePartSize v mod 1024 = 0.
Proof.
  unfold normalizePartSize, DefaultUploadPartSize, minUploadPartSize, maxUploadPartSize. cbv zeta.
  set (w := if _ <? (if _ <? _ then _ else _) then _ else _).
  assert (Hw : 32768 <= w <= 524288) by (unfold w; repeat case_match; lia).
  clearbody w. rewrite Z.quot_div_nonneg by lia. change (2 ^ 15) with 32768. change (2 ^ 19) with 524288.
  destruct (Z.leb_spec (w / 1024 * 1024) 0); [zlia|]. split; [zlia|]. by rewrite Z.mod_mul.
Qed.

Lemma upload_part_count_exact size v : 0 <= size < 2 ^ 49 ->
  upload_part_count size (normalizePartSize v) = Z.max 1 (ceil_div size (normalizePartSize v)).
Proof.
  intros Hs. destruct (normalizePartSize_range v) as [Hp _]. set (ps := normalizePartSize v) in *.
  unfold upload_part_count. destruct (Z.eq_dec size 0) as [->|H0].
  { change (2 ^ 15) with 32768 in Hp. unfold ceil_div. rewrite Z.div_small by lia. done. }
  rewrite float_ceil_exact by lia. pose proof (ceil_div_bounds size ps ltac:(lia)).
  destruct (Z.eqb_spec (ceil_div size ps) 0); nia.
Qed.

(** ** What the transfers keep

    The laws of an [Invoker]: its operations do not panic and keep [P]. *)
Class InvokerKeeps (S : Type) `{Invoker S} (P : S -> Prop) := {
  keeps_not_nil : hoare P not_nil (fun _ => P) P;
  keeps_invoke c q : hoare P (Invoke c q) (fun _ => P) P;
  keeps_sources {A} (m : M world A) : nopanic m -> hoare P (sources m) (fun _ => P) P }.

Lemma client_keeps gunzip (Hg : forall d, gunzip d <> Panic) s0 :
  @InvokerKeeps _ (client_invoker gunzip) (kept s0).
Proof.
  split; cbn [not_nil Invoke sources client_invoker].
  - apply (method_ok_bind get (fun s => guard _ _)); [apply method_ok_get|intros s; apply method_ok_guard].
  - intros c q. by apply Client_Invoke_ok.
  - intros A m Hm. by apply method_ok_sources.
Qed.

Lemma nopanic_randomNonZero : nopanic randomNonZeroInt64.
Proof.
  unfold randomNonZeroInt64. generalize 1000%nat. intros n. induction n as [|n IH]; cbn [nonzero_loop]; [done|].
  apply nopanic_bind; [apply nopanic_try; auto with nopanic|]. intros r. cbv zeta.
  destruct (negb _); [done|]. apply nopanic_bind; [auto with nopanic|]. intros w. by destruct (negb _).
Qed.

Lemma parseTLBool_returns body : parseTLBool body <> Panic.
Proof.
  unfold parseTLBool. destruct (Z.ltb_spec (len body) 4); [done|]. rewrite u32_at_ok by lia. by repeat case_match.
Qed.

Lemma parseUploadFile_returns body : parseUploadFile body <> Panic.
Proof.
  unfold parseUploadFile. destruct (Z.ltb_spec (len body) 4); [done|]. rewrite u32_at_ok, slice_ok by lia.
  destruct (_ =? _); [apply rsafe_eval; unfold read_uploadFile; rsafe_auto|]. by destruct (_ =? _).
Qed.

Lemma encodeInputFile_returns f b : encodeInputFile f b <> Panic.
Proof. unfold encodeInputFile. by repeat case_match. Qed.
Lemma encodeInputMedia_returns m b : encodeInputMedia m b <> Panic.
Proof.
  destruct m as [file opts|file opts]; cbn [encodeInputMedia]; cbv zeta; [apply encodeInputFile_returns|].
  destruct (encodeInputFile _ _) eqn:E; [done..|]. by apply encodeInputFile_returns in E.
Qed.
Lemma getFile_returns loc o l opts : makeUploadGetFileQuery loc o l opts <> Panic.
Proof.
  unfold makeUploadGetFileQuery, encodeInputFileLocation. cbv zeta. by destruct loc; destruct (_ || _).
Qed.

Lemma nopanic_sendMedia peer media opts : nopanic (makeMessagesSendMediaQuery peer media opts).
Proof.
  unfold makeMessagesSendMediaQuery. nopanic_steps; [apply InputPeer_encode_no_panic|apply encodeInputMedia_returns..].
Qed.

Section Keeps.
Context {S : Type} `{Invoker S} (P : S -> Prop) `{!InvokerKeeps S P}.

(** [P] of the client, whatever the reader or writer. *)
Definition P_fst {R} (s : S * R) : Prop := P (fst s).
Definition preserves {A R} (m : M (S * R) A) : Prop := hoare (@P_fst R) m (fun _ => P_fst) P_fst.

Lemma preserves_on_client {A} (m : M S A) : hoare P m (fun _ => P) P -> preserves (on_client m).
Proof.
  intros Hm [s r] Hs. unfold on_client, zoom. cbn [fst snd]. specialize (Hm s Hs). by destruct (m s) as [[a|e|] s'].
Qed.
Lemma preserves_on_reader {A} (m : M upload_io A) : nopanic m -> preserves (on_reader m).
Proof.
  intros Hm [s r] Hs. unfold on_reader, zoom. cbn [fst snd]. specialize (Hm r I). by destruct (m r) as [[a|e|] r'].
Qed.
Lemma preserves_on_source {A} (m : M S A) : hoare P m (fun _ => P) P -> preserves (on_source m).
Proof.
  intros Hm [s r] Hs. unfold on_source, zoom. cbn [fst snd]. specialize (Hm s Hs). by destruct (m s) as [[a|e|] s'].
Qed.
Lemma preserves_on_writer {A} (m : M download_io A) : nopanic m -> preserves (on_writer m).
Proof.
  intros Hm [s r] Hs. unfold on_writer, zoom. cbn [fst snd]. specialize (Hm r I). by destruct (m r) as [[a|e|] r'].
Qed.
Lemma preserves_bind {A B R} (m : M (S * R) A) (k : A -> M (S * R) B) :
  preserves m -> (forall a, preserves (k a)) -> preserves (x <- m ;; k x).
Proof. intros Hm Hk. eapply hoare_bind; [exact Hm|]. intros a. apply Hk. Qed.
Lemma preserves_ret {A R} (a : A) : preserves (R := R) (ret a).
Proof. by intros s Hs. Qed.
Lemma preserves_lift {A R} (o : outcome A) : o <> Panic -> preserves (R := R) (lift o).
Proof. intros Ho s Hs. unfold lift. by destruct o. Qed.
Lemma preserves_guard {R} c e : preserves (R := R) (guard c e).
Proof. intros s Hs. by destruct c. Qed.
Lemma preserves_get {R} : preserves (R := R) get.
Proof. by intros s Hs. Qed.
Lemma preserves_try {A R} (m : M (S * R) A) : preserves m -> preserves (try m).
Proof. intros Hm s Hs. specialize (Hm s Hs). unfold try. by destruct (m s) as [[a|e|] s']. Qed.

Lemma nopanic_io_ReadFull n : nopanic (io_ReadFull n).
Proof. intros s _. unfold io_ReadFull. by destruct (n <=? _). Qed.

Lemma nopanic_read_chunk part want : nopanic (read_chunk part want).
Proof.
  unfold read_chunk. destruct (0 <? want); [|done].
  apply nopanic_bind; [apply nopanic_try, nopanic_io_ReadFull|]. by intros [a|e].
Qed.

(** A round keeps the bytes done between zero and the size, so the slice of
    the buffer is never out of range. *)
Lemma upload_part_keeps c opts up ps part done hashed :
  is_i64 (uf_Size up) -> 0 <= done <= uf_Size up -> 0 < ps ->
  hoare P_fst (upload_part c opts up ps part done hashed)
    (fun r s => 0 <= fst r <= uf_Size up /\ P_fst s) P_fst.
Proof.
  intros Hs Hd Hp. unfold upload_part. cbv zeta. rewrite (i64_id (_ - _)) by (unfold is_i64, two63 in *; lia).
  set (want := if (_ <=? 0) && _ then 0 else _).
  assert (Hw : 0 <= want <= uf_Size up - done).
  { unfold want. destruct (Z.ltb_spec (uf_Size up - done) ps); destruct (_ && _); lia. }
  clearbody want. rewrite (proj2 (Z.ltb_ge _ 0)) by lia.
  eapply hoare_bind; [by apply preserves_ret|intros ?].
  eapply hoare_bind; [apply preserves_on_reader, nopanic_read_chunk|intros chunk].
  eapply hoare_bind; [apply preserves_on_client, keeps_invoke|intros res].
  eapply hoare_bind; [apply preserves_lift, parseTLBool_returns|intros ok].
  eapply hoare_bind; [apply preserves_guard|intros ?].
  eapply hoare_bind; [apply preserves_on_reader; by destruct (uo_Progress opts)|intros ? s Hst].
  cbn. rewrite i64_id by (unfold is_i64, two63 in *; lia). split; [lia|done].
Qed.

Lemma upload_loop_keeps n c opts up ps part done hashed :
  is_i64 (uf_Size up) -> 0 <= done <= uf_Size up -> 0 < ps ->
  preserves (upload_loop n c opts up ps part done hashed).
Proof.
  intros Hs Hd Hp. revert part done hashed Hd. induction n as [|n IH]; intros part done hashed Hd; cbn [upload_loop].
  { apply preserves_ret. }
  eapply hoare_bind; [by apply upload_part_keeps|]. intros r. apply hoare_pure. intros Hr. by apply IH.
Qed.

Lemma UploadFile_keeps c size name opts : is_i64 size -> preserves (UploadFile c size name opts).
Proof.
  intros Hs. unfold UploadFile. apply preserves_bind; [apply preserves_on_client, keeps_not_nil|intros ?].
  apply preserves_bind; [apply preserves_get|intros s]. apply preserves_bind; [apply preserves_guard|intros ?].
  destruct (Z.ltb_spec size 0); [intros s' Hst; exact Hst|]. apply preserves_bind; [apply preserves_ret|intros ?].
  cbv zeta. apply preserves_bind; [apply preserves_on_client, keeps_sources, nopanic_randomNonZero|intros id].
  apply preserves_bind; [|intros h; apply preserves_ret].
  apply upload_loop_keeps; cbn [uf_Size]; [done|lia|].
  destruct (normalizePartSize_range (uo_PartSize opts)) as [Hp _]. change (2 ^ 15) with 32768 in Hp. lia.
Qed.

Lemma UploadBytes_keeps c data name opts : is_i64 (len data) -> preserves (UploadBytes c data name opts).
Proof.
  intros Hs. unfold UploadBytes. apply preserves_bind; [by apply preserves_on_reader|intros ?]. by apply UploadFile_keeps.
Qed.

Lemma UploadGetFilePart_keeps c loc offset limit opts :
  hoare P (UploadGetFilePart c loc offset limit opts) (fun _ => P) P.
Proof.
  unfold UploadGetFilePart. eapply hoare_bind; [apply keeps_not_nil|intros ?].
  destruct loc as [loc|]; [|by apply hoare_fail]. cbv zeta.
  eapply hoare_bind.
  { intros s Hs. unfold lift. pose proof (getFile_returns loc offset
      (if limit <=? 0 then i32 (normalizePartSize (do_PartSize opts)) else limit) opts).
    destruct (makeUploadGetFileQuery _ _ _ _); [exact Hs|exact Hs|done]. }
  intros q. eapply hoare_bind; [apply keeps_invoke|intros res s Hs].
  unfold lift. pose proof (parseUploadFile_returns (ir_Body res)). by destruct (parseUploadFile _).
Qed.

Lemma download_round_keeps c loc opts ps offset : preserves (download_round c loc opts ps offset).
Proof.
  unfold download_round. cbv zeta. destruct (_ <=? 0); [apply preserves_ret|].
  apply preserves_bind; [apply preserves_try, preserves_on_source, UploadGetFilePart_keeps|].
  intros [part|err]; [|apply preserves_ret]. destruct (dp_CDNRedirect part); [apply preserves_ret|].
  destruct (_ =? 0); [apply preserves_ret|].
  apply preserves_bind; [apply preserves_on_writer|intros w].
  { intros s _. unfold w_Write. by destruct (di_script s) as [|[? ?] ?]. }
  apply preserves_bind; [apply preserves_on_writer; by destruct (do_Progress opts)|intros ?].
  destruct (snd w); [apply preserves_ret|]. destruct (negb _); [apply preserves_ret|].
  destruct (_ <? _); apply preserves_ret.
Qed.

Lemma DownloadFile_keeps stuck fuel c loc opts : preserves stuck -> preserves (DownloadFile stuck fuel c loc opts).
Proof.
  intros Hst. unfold DownloadFile. apply preserves_bind; [apply preserves_get|]. intros s.
  destruct (di_out (snd s)); [|apply preserves_ret]. generalize 0 as offset.
  induction fuel as [|fuel IH]; intros offset; cbn [download_loop]; [exact Hst|].
  apply preserves_bind; [apply download_round_keeps|]. intros [o|r]; [apply IH|apply preserves_ret].
Qed.

Lemma send_media_keeps media text c peer file opts :
  hoare P (send_media media text c peer file opts) (fun _ => P) P.
Proof.
  unfold send_media. destruct file as [file|]; [|by apply hoare_fail].
  eapply hoare_bind; [apply keeps_sources, nopanic_sendMedia|intros q].
  eapply hoare_bind; [apply keeps_invoke|intros res s Hs; exact Hs].
Qed.

Lemma send_to_peer_keeps send c peer file opts :
  (forall i, hoare P (send c i file opts) (fun _ => P) P) ->
  hoare P (send_to_peer send c peer file opts) (fun _ => P) P.
Proof. intros Hs. unfold send_to_peer. destruct (PeerRef_InputPeer peer); [apply Hs|by apply hoare_fail]. Qed.
End Keeps.
