(* ===== verification/Storage.v ===== *)
(** * Storage: what the transfers do, against a server that stores parts

    The server of this file is not part of the program: it decodes
    upload.saveFilePart, saveBigFilePart and getFile by the TL schema, keeps the
    parts and serves a file.  It implements the interface [Invoker] of Media.v. *)

From S2P Require Import Prelude Strings TL Transport Hash Md5 AES Crypto Envelope Auth Invoke Queries Client Account Peers Difference Api Media.

(** ** The server *)

(** Parts are kept under the file's id and their number. *)
Record store := Store { st_world : world; st_parts : gmap (Z * Z) (list byte); st_file : list byte }.

Inductive file_request :=
| SavePart (id part : Z) (data : list byte)
| GetFile (offset limit : Z).

Definition wire_location : M tlReader unit :=
  c <- tl_int ;;
  guard ((c =? constructorInputDocumentFileLocation) || (c =? constructorInputPhotoFileLocation)) (ErrNew "wire") ;;
  _id <- tl_long ;; _hash <- tl_long ;; _ref <- tl_bytes ;; _thumb <- tl_string ;; ret tt.

Definition wire_file_request : M tlReader file_request :=
  c <- tl_int ;;
  if c =? constructorUploadSaveFilePart then
    id <- tl_long ;; part <- tl_int ;; data <- tl_bytes ;; ret (SavePart id (i32 part) data)
  else if c =? constructorUploadSaveBigFilePart then
    id <- tl_long ;; part <- tl_int ;; _total <- tl_int ;; data <- tl_bytes ;; ret (SavePart id (i32 part) data)
  else if c =? constructorUploadGetFile then
    _flags <- tl_int ;; wire_location ;; offset <- tl_long ;; limit <- tl_int ;;
    ret (GetFile (i64 offset) (i32 limit))
  else fail (ErrNew "wire").

Definition reply (body : list byte) : InvokeResult := new_result 0 0 body false.

Definition file_slice (f : list byte) (offset limit : Z) : list byte :=
  sub f offset (Z.min (offset + limit) (len f)).

Definition file_answer (data : list byte) : list byte :=
  le_bytes 4 constructorUploadFile ++ le_bytes 4 0 ++ le_bytes 4 0 ++ tl_encoding data.

Definition serve (q : list byte) : M store InvokeResult := fun s =>
  match eval wire_file_request (newTLReader q) with
  | Ok (SavePart id part data) =>
      (Ok (reply (le_bytes 4 constructorBoolTrue)),
       Store (st_world s) (<[(id, part) := data]> (st_parts s)) (st_file s))
  | Ok (GetFile offset limit) => (Ok (reply (file_answer (file_slice (st_file s) offset limit))), s)
  | _ => (Err (ErrNew "wire"), s)
  end.

#[export] Instance storing : Invoker store :=
  {| not_nil := ret tt;
     Invoke := fun _ q => serve q;
     sources := fun A m => zoom st_world (fun w s => Store w (st_parts s) (st_file s)) m |}.

(** ** Requests on the wire *)

Lemma reads_save_small id part data :
  len data < two24 -> is_i32 part ->
  eval wire_file_request (newTLReader (makeUploadSaveFilePartQuery id part data)) = Ok (SavePart (u64 id) part data).
Proof.
  intros Hd Hp. unfold makeUploadSaveFilePartQuery, newTLReader. autorewrite with tl_buf. rewrite <- (app_nil_r (_ ++ _)).
  apply reads_eval. rewrite <- !app_assoc, app_nil_l. unfold wire_file_request.
  eapply reads_bind; [apply reads_int|]. eapply reads_bind; [apply reads_long|]. eapply reads_bind; [apply reads_int|].
  eapply reads_last; [by apply reads_bytes|].
  rewrite (u64_id (u64 id)), (u32_id (u32 part)), i32_u32 by (apply u64_range || apply u32_range || done). apply reads_ret.
Qed.

Lemma reads_save_big id part total data :
  len data < two24 -> is_i32 part ->
  eval wire_file_request (newTLReader (makeUploadSaveBigFilePartQuery id part total data)) =
    Ok (SavePart (u64 id) part data).
Proof.
  intros Hd Hp. unfold makeUploadSaveBigFilePartQuery, newTLReader. autorewrite with tl_buf.
  rewrite <- (app_nil_r (_ ++ _)). apply reads_eval. rewrite <- !app_assoc, app_nil_l. unfold wire_file_request.
  eapply reads_bind; [apply reads_int|]. eapply reads_bind; [apply reads_long|]. eapply reads_bind; [apply reads_int|].
  eapply reads_bind; [apply reads_int|]. eapply reads_last; [by apply reads_bytes|].
  rewrite (u64_id (u64 id)), (u32_id (u32 part)), i32_u32 by (apply u64_range || apply u32_range || done). apply reads_ret.
Qed.

(** The stored part is the chunk, big file or not. *)
Lemma serve_part up part chunk w parts f :
  len chunk < two24 -> is_i32 part ->
  serve (part_query up part chunk) (Store w parts f) =
    (Ok (reply (le_bytes 4 constructorBoolTrue)), Store w (<[(u64 (uf_ID up), part) := chunk]> parts) f).
Proof.
  intros Hc Hp. unfold serve, part_query.
  rewrite (i32_id part) by done. destruct (uf_Big up).
  - by rewrite reads_save_big by done.
  - by rewrite reads_save_small by done.
Qed.

Definition location_ok (l : InputFileLocation) : Prop :=
  match l with
  | DocumentFileLocation id hash ref thumb | PhotoFileLocation id hash ref thumb =>
      id <> 0 /\ hash <> 0 /\ len ref < two24 /\ short thumb
  end.

Lemma encode_location l b :
  location_ok l -> exists b' bs, encodeInputFileLocation l b = Ok b' /\ tb_buf b' = tb_buf b ++ bs /\
    reads wire_location bs tt.
Proof.
  intros Hl. destruct l as [id hash ref thumb|id hash ref thumb]; destruct Hl as (Hi & Hh & Hr & Ht);
    unfold encodeInputFileLocation; rewrite !(proj2 (Z.eqb_neq _ 0)) by done; cbn [orb]; do 2 eexists;
    (split; [reflexivity|]; split; [autorewrite with tl_buf; by rewrite <- !app_assoc|]); unfold wire_location;
    (eapply reads_bind; [apply reads_int|]; eapply reads_bind0; [by apply reads_guard|];
     do 2 (eapply reads_bind; [apply reads_long|]); eapply reads_bind; [by apply reads_bytes|];
     eapply reads_last; [by apply reads_string|apply reads_ret]).
Qed.

Lemma getFile_query l offset limit opts :
  location_ok l -> is_i64 offset -> is_i32 limit ->
  exists q, makeUploadGetFileQuery l offset limit opts = Ok q /\
    eval wire_file_request (newTLReader q) = Ok (GetFile offset limit).
Proof.
  intros Hl Ho Hm. unfold makeUploadGetFileQuery. cbv zeta. set (b := putInt _ (putInt _ _)).
  destruct (encode_location l b Hl) as (b' & bs & -> & Eb & R). eexists. split; [reflexivity|].
  unfold newTLReader. autorewrite with tl_buf. rewrite Eb. unfold b. autorewrite with tl_buf.
  rewrite <- (app_nil_r (_ ++ _)). apply reads_eval. rewrite <- !app_assoc, app_nil_l. unfold wire_file_request.
  eapply reads_bind; [apply reads_int|]. eapply reads_bind; [apply reads_int|]. eapply reads_bind; [exact R|].
  eapply reads_bind; [apply reads_long|]. eapply reads_last; [apply reads_int|].
  rewrite (u64_id (u64 offset)), (u32_id (u32 limit)), i32_u32, i64_u64 by (apply u64_range || apply u32_range || done).
  apply reads_ret.
Qed.

Lemma parse_file_answer data : len data < two24 ->
  parseUploadFile (file_answer data) = Ok (MkPart 0 0 data false).
Proof.
  intros Hd. unfold parseUploadFile, file_answer. set (tail := le_bytes 4 0 ++ _).
  rewrite (proj2 (Z.ltb_ge _ 4)) by (rewrite len_app, len_le_bytes; pose proof (len_nonneg tail); lia).
  rewrite u32_at_ok by (rewrite ?len_app, ?len_le_bytes; pose proof (len_nonneg tail); lia).
  rewrite slice_ok by (rewrite ?len_app, ?len_le_bytes; pose proof (len_nonneg tail); lia).
  rewrite sub_app_head by (by rewrite len_le_bytes). rewrite sub_app_tail by (by rewrite ?len_app, len_le_bytes).
  rewrite le_value_4. change (u32 constructorUploadFile =? constructorUploadFile) with true. cbv iota.
  rewrite <- (app_nil_r tail). apply reads_eval. unfold read_uploadFile, tail.
  do 2 (eapply reads_bind; [apply reads_int|]). eapply reads_last; [by apply reads_bytes|apply reads_ret].
Qed.

Lemma parse_bool_true : parseTLBool (le_bytes 4 constructorBoolTrue) = Ok true.
Proof. reflexivity. Qed.

(** ** Uploading *)

Lemma sub_full {A} (l : list A) n : n = len l -> sub l 0 n = l.
Proof. apply sub_all. Qed.

Lemma sub_none {A} (l : list A) a b : b <= a -> sub l a b = [].
Proof. intros H. unfold sub. by replace (Z.to_nat (b - a)) with 0%nat by lia. Qed.

Lemma io_ReadFull_app d rest prog n : n = len d ->
  io_ReadFull n (UploadIO (Some (d ++ rest)) prog) = (Ok d, UploadIO (Some rest) prog).
Proof.
  intros ->. unfold io_ReadFull. cbn [ui_in default from_option id ui_progress]. pose proof (len_nonneg rest).
  rewrite (proj2 (Z.leb_le _ _)), sub_app_head, sub_app_tail by (rewrite ?len_app; lia). done.
Qed.

Lemma read_chunk_app part d rest prog n : n = len d ->
  read_chunk part n (UploadIO (Some (d ++ rest)) prog) = (Ok d, UploadIO (Some rest) prog).
Proof.
  intros Hn. unfold read_chunk. destruct (Z.ltb_spec 0 n) as [H|H].
  - unfold bind, try. by rewrite io_ReadFull_app.
  - assert (d = []) as -> by (apply len_zero; pose proof (len_nonneg d); lia). done.
Qed.

Lemma on_reader_ok {A} (m : M upload_io A) (s : store) r a r' : m r = (Ok a, r') ->
  on_reader m (s, r) = (Ok a, (s, r')).
Proof. intros E. unfold on_reader, zoom. cbn [fst snd]. by rewrite E. Qed.

Lemma on_client_ok {A} (m : M store A) s s' (r : upload_io) a : m s = (Ok a, s') ->
  on_client m (s, r) = (Ok a, (s', r)).
Proof. intros E. unfold on_client, zoom. cbn [fst snd]. by rewrite E. Qed.

Section Upload.
Variables (up : UploadedFile) (ps : Z) (c : ctx) (opts : UploadOptions) (data : list byte).
Hypothesis size_is : uf_Size up = len data.
Hypothesis size_bound : len data < 2 ^ 45.
Hypothesis ps_range : 2 ^ 15 <= ps <= 2 ^ 19.

Let N : Z := Z.max 1 (ceil_div (len data) ps).
Definition part_end (i : Z) : Z := Z.min (i * ps) (len data).
Definition chunk_of (i : Z) : list byte := sub data (part_end i) (part_end (i + 1)).
Definition progress_of (i : Z) : Z * Z := (part_end (i + 1), len data).

Lemma N_range : 1 <= N < two31.
Proof.
  pose proof (ceil_div_bounds (len data) ps ltac:(lia)) as H. change (2 ^ 15) with 32768 in ps_range.
  change (2 ^ 45) with 35184372088832 in size_bound. unfold N, two31.
  assert ((ceil_div (len data) ps - 1) * 32768 < 35184372088832); [|lia].
  destruct (Z.leb_spec (ceil_div (len data) ps) 0); [lia|]. nia.
Qed.

Lemma N_ends : len data <= N * ps /\ forall i, 0 <= i < N -> i = 0 \/ i * ps < len data.
Proof.
  pose proof (ceil_div_bounds (len data) ps ltac:(lia)) as H. pose proof (len_nonneg data).
  split; [unfold N; nia|]. intros i Hi. destruct (Z.eq_dec i 0); [by left|right]. unfold N in Hi. nia.
Qed.

Lemma part_end_range i : 0 <= i -> 0 <= part_end i <= len data /\ part_end i <= part_end (i + 1).
Proof.
  intros Hi. unfold part_end. pose proof (len_nonneg data). assert (0 <= i * ps) by nia.
  rewrite Z.mul_add_distr_r. lia.
Qed.

(** What the code computes as the part to read. *)
Lemma want_is i : 0 <= i < N ->
  let remaining := i64 (len data - part_end i) in
  let want := if remaining <? ps then remaining else ps in
  (if (want <=? 0) && (len data =? 0) then 0 else want) = len (chunk_of i) /\
  len (chunk_of i) = part_end (i + 1) - part_end i /\ len (chunk_of i) < two24.
Proof.
  intros Hi. cbv zeta. destruct (part_end_range i) as [H1 H2]; [lia|]. destruct (part_end_range (i + 1)) as [H3 _]; [lia|].
  change (2 ^ 45) with 35184372088832 in size_bound. change (2 ^ 15) with 32768 in ps_range.
  change (2 ^ 19) with 524288 in ps_range.
  rewrite i64_id by (unfold is_i64, two63; lia).
  assert (L : len (chunk_of i) = part_end (i + 1) - part_end i) by (unfold chunk_of; rewrite len_sub; lia).
  rewrite L. destruct N_ends as [_ He]. specialize (He i Hi). pose proof (len_nonneg data).
  assert (Hm : 0 <= i * ps) by nia. unfold part_end, two24 in *. rewrite Z.mul_add_distr_r in *.
  set (m := i * ps) in *. split; [|lia].
  destruct He as [->|He].
  - destruct (Z.ltb_spec (len data - Z.min m (len data)) ps);
      destruct (Z.leb_spec (len data - Z.min m (len data)) 0); destruct (Z.leb_spec ps 0);
      destruct (Z.eqb_spec (len data) 0); cbn [andb]; lia.
  - destruct (Z.ltb_spec (len data - Z.min m (len data)) ps);
      destruct (Z.leb_spec (len data - Z.min m (len data)) 0); destruct (Z.leb_spec ps 0); cbn [andb]; lia.
Qed.

Lemma upload_part_stored i hashed rest prog w parts f : 0 <= i < N ->
  upload_part c opts up ps i (part_end i) hashed
    (Store w parts f, UploadIO (Some (sub data (part_end i) (len data) ++ rest)) prog) =
  (Ok (part_end (i + 1), if uf_Big up then hashed else hashed ++ chunk_of i),
   (Store w (<[(u64 (uf_ID up), i) := chunk_of i]> parts) f,
    UploadIO (Some (sub data (part_end (i + 1)) (len data) ++ rest))
             (prog ++ if uo_Progress opts then [progress_of i] else []))).
Proof.
  intros Hi. destruct (want_is i Hi) as (Hw & Hl & H24). unfold upload_part. cbv zeta. rewrite size_is, Hw.
  destruct (part_end_range i) as [H1 H2]; [lia|]. destruct (part_end_range (i + 1)) as [H3 _]; [lia|].
  pose proof (len_nonneg (chunk_of i)) as H0. rewrite (proj2 (Z.ltb_ge _ 0)) by done.
  erewrite bind_ok by reflexivity.
  assert (Es : sub data (part_end i) (len data) = chunk_of i ++ sub data (part_end (i + 1)) (len data))
    by (apply sub_cat; lia).
  rewrite Es, <- app_assoc.
  erewrite bind_ok by (by apply on_reader_ok, read_chunk_app).
  erewrite bind_ok.
  2: { apply on_client_ok. cbn [Invoke storing]. apply serve_part; [done|].
       pose proof N_range. unfold is_i32, two31 in *. lia. }
  cbn [ir_Body reply new_result]. rewrite parse_bool_true. erewrite bind_ok by reflexivity. erewrite bind_ok by reflexivity.
  change (2 ^ 45) with 35184372088832 in size_bound.
  replace (part_end i + len (chunk_of i)) with (part_end (i + 1)) by lia.
  rewrite i64_id by (unfold is_i64, two63; lia).
  assert (Eh : (if (0 <? len (chunk_of i)) && negb (uf_Big up) then hashed ++ chunk_of i else hashed) =
               (if uf_Big up then hashed else hashed ++ chunk_of i)).
  { destruct (uf_Big up); [by rewrite andb_false_r|]. rewrite andb_true_r.
    destruct (Z.ltb_spec 0 (len (chunk_of i))); [done|]. rewrite (len_zero (chunk_of i)) by lia. by rewrite app_nil_r. }
  rewrite Eh. destruct (uo_Progress opts).
  - erewrite bind_ok by reflexivity. reflexivity.
  - erewrite bind_ok by reflexivity. by rewrite app_nil_r.
Qed.

(** The parts from number [i] on. *)
Lemma upload_loop_stored n i hashed rest prog w parts f : 0 <= i -> i + Z.of_nat n = N ->
  exists parts',
    upload_loop n c opts up ps i (part_end i) hashed
      (Store w parts f, UploadIO (Some (sub data (part_end i) (len data) ++ rest)) prog) =
    (Ok (if uf_Big up then hashed else hashed ++ sub data (part_end i) (len data)),
     (Store w parts' f,
      UploadIO (Some rest) (prog ++ if uo_Progress opts then map progress_of (seqZ i (Z.of_nat n)) else []))) /\
    (forall j, i <= j < N -> parts' !! (u64 (uf_ID up), j) = Some (chunk_of j)) /\
    (forall k, k.1 <> u64 (uf_ID up) \/ k.2 < i \/ N <= k.2 -> parts' !! k = parts !! k).
Proof.
  revert i hashed prog parts. induction n as [|n IH]; intros i hashed prog parts Hi Hn; cbn [upload_loop].
  - exists parts. assert (part_end i = len data) as ->.
    { destruct N_ends as [He _]. unfold part_end. replace i with N by lia. lia. }
    rewrite sub_none, app_nil_r by lia. split; [|split; [intros j Hj; lia|done]].
    destruct (uo_Progress opts), (uf_Big up); by rewrite app_nil_r.
  - assert (Hi' : 0 <= i < N) by lia.
    rewrite (bind_ok _ _ _ _ _ (upload_part_stored i hashed rest prog w parts f Hi')). cbn [fst snd].
    destruct (IH (i + 1) (if uf_Big up then hashed else hashed ++ chunk_of i)
                (prog ++ if uo_Progress opts then [progress_of i] else [])
                (<[(u64 (uf_ID up), i) := chunk_of i]> parts)) as (parts' & E & Hin & Hout); [lia..|].
    exists parts'. rewrite E. split; [|split].
    + destruct (part_end_range i) as [P1 P2]; [lia|]. destruct (part_end_range (i + 1)) as [P3 _]; [lia|].
      f_equal; [f_equal|f_equal; f_equal].
      * destruct (uf_Big up); [done|]. rewrite <- app_assoc. f_equal. symmetry. apply sub_cat; lia.
      * rewrite <- app_assoc. f_equal. destruct (uo_Progress opts); [|done].
        by rewrite (seqZ_cons i (Z.of_nat (S n))), Nat2Z.inj_succ, Z.pred_succ by lia.
    + intros j Hj. destruct (Z.eq_dec j i) as [->|]; [|apply Hin; lia].
      rewrite Hout by (cbn; lia). by rewrite lookup_insert_eq.
    + intros k Hk. rewrite Hout by (cbn in *; lia). rewrite lookup_insert_ne; [done|].
      intros <-. cbn in Hk. lia.
Qed.
End Upload.

(** The file the parts [0, ..., n - 1] make up. *)
Definition stored_as (s : store) (id n : Z) : list byte :=
  concat (map (fun i => default [] (st_parts s !! (id, i))) (seqZ 0 n)).

Lemma concat_chunks data ps i n : 0 <= ps -> 0 <= i ->
  concat (map (chunk_of ps data) (seqZ i (Z.of_nat n))) =
  sub data (part_end ps data i) (part_end ps data (i + Z.of_nat n)).
Proof.
  intros Hps. revert i. induction n as [|n IH]; intros i Hi.
  { by rewrite Z.add_0_r, sub_none. }
  rewrite seqZ_cons, Nat2Z.inj_succ, Z.pred_succ by lia. cbn [map concat]. rewrite IH by lia.
  replace (Z.succ i) with (i + 1) by lia. replace (i + Z.succ (Z.of_nat n)) with (i + 1 + Z.of_nat n) by lia.
  unfold chunk_of. symmetry. pose proof (len_nonneg data).
  assert (0 <= i * ps) by nia. assert (0 <= (1 + Z.of_nat n) * ps) by nia. assert (0 <= Z.of_nat n * ps) by nia.
  apply sub_cat; unfold part_end; rewrite ?Z.mul_add_distr_r in *; lia.
Qed.

(** A draw that is not zero is the file id. *)
Lemma randomNonZero_draw bs rng cn clock tick dl :
  len bs = 8 -> i64 (le_value bs) <> 0 ->
  randomNonZeroInt64 (World cn (bs ++ rng) clock tick dl) =
    (Ok (i64 (le_value bs)), World cn rng clock tick dl).
Proof.
  intros Hl H0. unfold randomNonZeroInt64. change 1000%nat with (S 999). cbn [nonzero_loop].
  rewrite (bind_ok _ _ _ (inl bs) (World cn rng clock tick dl)).
  - by rewrite (proj2 (Z.eqb_neq _ 0)).
  - unfold try, on_rng, zoom. cbn [w_rng]. rewrite <- Hl. pose proof (len_nonneg rng).
    unfold rng_Read. rewrite (proj2 (Z.leb_le _ _)), sub_app_head, sub_app_tail by (rewrite ?len_app; lia). done.
Qed.

Lemma storing_sources {A} (m : M world A) a w w' p f : m w = (Ok a, w') ->
  sources m (Store w p f) = (Ok a, Store w' p f).
Proof. intros E. cbn [sources storing]. unfold zoom. cbn [st_world]. by rewrite E. Qed.

(** What the upload of [data] under an id returns. *)
Definition descriptor (id : Z) (name : string) (opts : UploadOptions) (data : list byte) : UploadedFile :=
  let big := smallFileLimit <? len data in
  MkUploaded id (Z.max 1 (ceil_div (len data) (normalizePartSize (uo_PartSize opts))))
    (filepath_Base (if blank name then "file"%string else name)) (len data)
    (if big then EmptyString else hex_EncodeToString (md5_Sum data)) big.

Section Run.
Variables (c : ctx) (name : string) (opts : UploadOptions) (data rest bs rng : list byte).
Variables (cn : conn) (clock : nat -> Z) (tick : nat) (dl : option Z).
Variables (parts : gmap (Z * Z) (list byte)) (f : list byte).
Hypothesis size_bound : len data < 2 ^ 45.
Hypothesis draw : len bs = 8 /\ i64 (le_value bs) <> 0.

Let id : Z := i64 (le_value bs).
Let ps : Z := normalizePartSize (uo_PartSize opts).
Let N : Z := Z.max 1 (ceil_div (len data) ps).

Lemma UploadFile_run :
  exists parts',
    UploadFile c (len data) name opts
      (Store (World cn (bs ++ rng) clock tick dl) parts f, UploadIO (Some (data ++ rest)) []) =
    (Ok (descriptor id name opts data),
     (Store (World cn rng clock tick dl) parts' f,
      UploadIO (Some rest) (if uo_Progress opts then map (progress_of ps data) (seqZ 0 N) else []))) /\
    (forall j, 0 <= j < N -> parts' !! (u64 id, j) = Some (chunk_of ps data j)) /\
    (forall k, k.1 <> u64 id -> parts' !! k = parts !! k).
Proof.
  destruct draw as [Hl H0]. pose proof (len_nonneg data) as Hn.
  destruct (normalizePartSize_range (uo_PartSize opts)) as [Hps _]. fold ps in Hps.
  unfold UploadFile. erewrite bind_ok by reflexivity. erewrite bind_ok by reflexivity.
  cbn [snd ui_in]. erewrite bind_ok by reflexivity.
  rewrite (proj2 (Z.ltb_ge _ 0)) by done. erewrite bind_ok by reflexivity. cbv zeta.
  rewrite upload_part_count_exact by (split; [done|]; eapply Z.lt_trans; [exact size_bound|done]).
  fold ps N. erewrite bind_ok.
  2: { by apply on_client_ok, storing_sources, randomNonZero_draw. }
  fold id.
  set (up := MkUploaded id N _ (len data) EmptyString (smallFileLimit <? len data)).
  destruct (upload_loop_stored up ps c opts data eq_refl size_bound Hps (Z.to_nat N) 0 [] rest []
              (World cn rng clock tick dl) parts f) as (parts' & E & Hin & Hout).
  { done. } { fold N. unfold N. lia. }
  assert (P0 : part_end ps data 0 = 0) by (unfold part_end; rewrite Z.mul_0_l; lia).
  rewrite P0, sub_full in E by done. rewrite (bind_ok _ _ _ _ _ E).
  exists parts'. split; [|split; [exact Hin|intros k Hk; apply Hout; by left]].
  rewrite Z2Nat.id by (unfold N; lia). unfold ret, descriptor, up. cbn [uf_Big]. fold ps N.
  by destruct (smallFileLimit <? len data).
Qed.
End Run.

(** Chunks stored in order make up the file. *)
Lemma stored_chunks w f data v id parts :
  let ps := normalizePartSize v in
  let n := Z.max 1 (ceil_div (len data) ps) in
  (forall j, 0 <= j < n -> parts !! (id, j) = Some (chunk_of ps data j)) ->
  stored_as (Store w parts f) id n = data.
Proof.
  cbv zeta. intros Hin. destruct (normalizePartSize_range v) as [Hps _].
  change (2 ^ 15) with 32768 in Hps. set (ps := normalizePartSize v) in *.
  pose proof (ceil_div_bounds (len data) ps ltac:(lia)) as Hc. pose proof (len_nonneg data) as Hn.
  set (n := Z.max 1 _) in *. unfold stored_as. cbn [st_parts].
  rewrite (map_ext_in _ (chunk_of ps data)).
  2: { intros i Hi%list_elem_of_In%elem_of_seqZ. rewrite Hin by lia. done. }
  replace n with (Z.of_nat (Z.to_nat n)) at 1 by (unfold n; lia).
  rewrite concat_chunks by lia. unfold part_end. rewrite Z2Nat.id by (unfold n; lia).
  assert (len data <= n * ps) by (unfold n; nia).
  replace (Z.min (0 * ps) (len data)) with 0 by lia. apply sub_full. lia.
Qed.

(** C10. Uploads (media.go, [UploadFile]).  For a file below 2^45 bytes and a
    reader that delivers it, the upload succeeds, reads exactly the file and
    reports the bytes done after every part.  The number of parts, which the code
    computes in floating point, is the exact one, at least 1; all parts but the
    last have the full part size; in order they make up the file, stored under
    the file's id and nothing else; and the descriptor has the size, the base
    name and, for a file of at most 10 MiB, the MD5 of the file. *)
Theorem upload_stored (c : ctx) (name : string) (opts : UploadOptions) (data rest bs rng : list byte)
    (cn : conn) (clock : nat -> Z) (tick : nat) (dl : option Z) (parts : gmap (Z * Z) (list byte)) (f : list byte) :
  len data < 2 ^ 45 -> len bs = 8 -> i64 (le_value bs) <> 0 ->
  let ps := normalizePartSize (uo_PartSize opts) in
  let up := descriptor (i64 (le_value bs)) name opts data in
  let id := u64 (uf_ID up) in
  exists s',
    UploadFile c (len data) name opts
      (Store (World cn (bs ++ rng) clock tick dl) parts f, UploadIO (Some (data ++ rest)) []) =
    (Ok up, (s', UploadIO (Some rest)
       (if uo_Progress opts then map (fun i => (Z.min ((i + 1) * ps) (len data), len data)) (seqZ 0 (uf_Parts up))
        else []))) /\
    stored_as s' id (uf_Parts up) = data /\
    (forall i, 0 <= i < uf_Parts up - 1 -> exists p, st_parts s' !! (id, i) = Some p /\ len p = ps) /\
    (forall k, k.1 <> id -> st_parts s' !! k = parts !! k).
Proof.
  intros Hb Hl H0. cbv zeta. set (ps := normalizePartSize (uo_PartSize opts)).
  destruct (UploadFile_run c name opts data rest bs rng cn clock tick dl parts f Hb (conj Hl H0))
    as (parts' & E & Hin & Hout). fold ps in E, Hin.
  destruct (normalizePartSize_range (uo_PartSize opts)) as [Hps _]. fold ps in Hps.
  change (2 ^ 15) with 32768 in Hps.
  eexists. split; [exact E|]. cbn [descriptor uf_ID uf_Parts st_parts]. fold ps.
  set (N := Z.max 1 (ceil_div (len data) ps)) in *.
  pose proof (ceil_div_bounds (len data) ps ltac:(lia)) as Hc. pose proof (len_nonneg data) as Hn.
  split; [|split; [|exact Hout]].
  - by apply stored_chunks.
  - intros i Hi. exists (chunk_of ps data i). split; [apply Hin; lia|].
    assert (Hi' : (i + 1) * ps < len data) by (unfold N in Hi; nia).
    assert (0 <= i * ps) by nia.
    unfold chunk_of, part_end. rewrite len_sub by lia. lia.
Qed.

Definition demo_store : store := Store (World (Conn [] [] []) (replicate 8 x01) (fun _ => 1) 0 None) ∅ [].

Lemma upload_stored_witness :
  let up := descriptor (i64 (le_value (replicate 8 x01))) "dir/a.bin" (MkUpload 0 true) (replicate 3 x2a) in
  exists s',
    UploadFile None 3 "dir/a.bin" (MkUpload 0 true) (demo_store, UploadIO (Some (replicate 3 x2a ++ [x07])) []) =
    (Ok up, (s', UploadIO (Some [x07]) [(3, 3)])) /\ stored_as s' (u64 (uf_ID up)) 1 = replicate 3 x2a.
Proof.
  destruct (upload_stored None "dir/a.bin" (MkUpload 0 true) (replicate 3 x2a) [x07] (replicate 8 x01) []
              (Conn [] [] []) (fun _ => 1) 0 None ∅ []) as (s' & E & Hs & _); [done|done|done|].
  exists s'. split; [exact E|exact Hs].
Defined.

(** ** Downloading *)

Section Download.
Variables (c : ctx) (loc : InputFileLocation) (opts : DownloadOptions) (f : list byte).
Variables (w : world) (parts : gmap (Z * Z) (list byte)).
Hypothesis loc_ok : location_ok loc.
Hypothesis size_bound : len f < 2 ^ 45.
Hypothesis limit_i64 : is_i64 (do_Limit opts).

Let ps : Z := normalizePartSize (do_PartSize opts).
Let st : store := Store w parts f.

(** How much of the file is wanted. *)
Definition wanted : Z := if 0 <? do_Limit opts then Z.min (do_Limit opts) (len f) else len f.

(** The limit of the part at [o], and where it ends. *)
Let lim (o : Z) : Z := if 0 <? do_Limit opts then Z.min ps (do_Limit opts - o) else ps.
Let stop (o : Z) : Z := Z.min (o + lim o) (len f).

Lemma ps_range : 32768 <= ps <= 524288.
Proof. apply (normalizePartSize_range (do_PartSize opts)). Qed.

Lemma wanted_range : 0 <= wanted <= len f.
Proof. unfold wanted. pose proof (len_nonneg f). destruct (Z.ltb_spec 0 (do_Limit opts)); lia. Qed.

Lemma lim_range o : 0 <= o <= wanted -> 0 <= lim o <= ps /\ o <= stop o <= wanted.
Proof.
  intros Ho. pose proof ps_range. unfold stop, lim, wanted in *. destruct (Z.ltb_spec 0 (do_Limit opts)); lia.
Qed.

Lemma part_limit_is o : 0 <= o <= wanted -> part_limit opts ps o = lim o.
Proof.
  intros Ho. pose proof ps_range as Hp. change (2 ^ 45) with 35184372088832 in size_bound. pose proof wanted_range.
  unfold part_limit. rewrite (i32_id ps) by (unfold is_i32, two31; lia). unfold lim, wanted in *.
  destruct (Z.ltb_spec 0 (do_Limit opts)); cbn [andb]; [|done].
  rewrite i64_id by (unfold is_i64, two63 in *; lia).
  destruct (Z.ltb_spec (do_Limit opts - o) ps); [|lia]. rewrite i32_id by (unfold is_i32, two31; lia). lia.
Qed.

Lemma get_part o : 0 <= o <= wanted -> 0 < lim o ->
  UploadGetFilePart c (Some loc) o (lim o) opts st = (Ok (MkPart 0 0 (sub f o (stop o)) false), st).
Proof.
  intros Ho Hl. pose proof (lim_range o Ho) as [H1 H2]. pose proof ps_range. pose proof wanted_range.
  change (2 ^ 45) with 35184372088832 in size_bound.
  unfold UploadGetFilePart. erewrite bind_ok by reflexivity. rewrite (proj2 (Z.leb_gt _ 0)) by done.
  destruct (getFile_query loc o (lim o) opts loc_ok) as (q & Eq & Ew).
  { unfold is_i64, two63. lia. } { unfold is_i32, two31. lia. }
  rewrite (bind_lift_ok _ _ _ _ Eq).
  erewrite bind_ok by (cbn [Invoke storing]; unfold serve; rewrite Ew; reflexivity).
  cbn [ir_Body reply new_result st_file st]. unfold file_slice. fold (stop o). unfold lift.
  rewrite parse_file_answer; [done|]. rewrite len_sub by lia. unfold two24. unfold stop. lia.
Qed.

Lemma download_round_run o out prog : 0 <= o <= wanted ->
  exists prog',
    download_round c (Some loc) opts ps o (st, DownloadIO (Some out) [] prog) =
    (Ok (if (o + lim o =? stop o) && (0 <? lim o) then inl (stop o) else inr (stop o, None)),
     (st, DownloadIO (Some (out ++ sub f o (stop o))) [] prog')).
Proof.
  intros Ho. pose proof (lim_range o Ho) as [H1 H2]. pose proof wanted_range. pose proof ps_range.
  change (2 ^ 45) with 35184372088832 in size_bound.
  unfold download_round. rewrite part_limit_is by done.
  destruct (Z.leb_spec (lim o) 0) as [Hl|Hl].
  { exists prog. rewrite (proj2 (Z.ltb_ge 0 (lim o))), andb_false_r by lia.
    assert (stop o = o) as -> by (unfold stop; lia). by rewrite sub_none, app_nil_r by lia. }
  rewrite (proj2 (Z.ltb_lt 0 (lim o))), andb_true_r by lia.
  erewrite bind_ok.
  2: { unfold on_source, try, zoom. cbn [fst snd]. by rewrite get_part. }
  cbn [dp_CDNRedirect dp_Bytes].
  assert (L : len (sub f o (stop o)) = stop o - o) by (rewrite len_sub; lia). rewrite L.
  destruct (Z.eqb_spec (stop o - o) 0) as [E0|E0].
  { exists prog. rewrite (proj2 (Z.eqb_neq _ _)) by lia. replace (stop o) with o by lia.
    by rewrite sub_none, app_nil_r by lia. }
  erewrite bind_ok by reflexivity. cbn [fst snd]. rewrite L.
  replace (o + (stop o - o)) with (stop o) by lia. rewrite i64_id by (unfold is_i64, two63; lia).
  rewrite Z.eqb_refl. cbn [negb].
  assert (Eb : (stop o - o <? lim o) = negb (o + lim o =? stop o))
    by (destruct (Z.ltb_spec (stop o - o) (lim o)), (Z.eqb_spec (o + lim o) (stop o)); lia || done || (unfold stop in *; lia)).
  rewrite Eb. cbn [default from_option id di_out].
  destruct (do_Progress opts).
  - erewrite bind_ok by reflexivity. eexists. by destruct (o + lim o =? stop o).
  - erewrite bind_ok by reflexivity. eexists. by destruct (o + lim o =? stop o).
Qed.

Lemma download_loop_run stuck fuel o out prog : 0 <= o <= wanted -> (Z.to_nat (wanted - o) < fuel)%nat ->
  exists prog',
    download_loop stuck fuel c (Some loc) opts ps o (st, DownloadIO (Some out) [] prog) =
    (Ok (wanted, None), (st, DownloadIO (Some (out ++ sub f o wanted)) [] prog')).
Proof.
  revert o out prog. induction fuel as [|fuel IH]; intros o out prog Ho Hf; [lia|]. cbn [download_loop].
  pose proof (lim_range o Ho) as [H1 H2]. pose proof wanted_range as Hw.
  destruct (download_round_run o out prog Ho) as (prog1 & E). rewrite (bind_ok _ _ _ _ _ E).
  destruct (Z.ltb_spec 0 (lim o)) as [Hl|Hl]; destruct (Z.eqb_spec (o + lim o) (stop o)) as [Es|Es]; cbn [andb].
  - destruct (IH (stop o) (out ++ sub f o (stop o)) prog1) as (prog2 & E2); [lia|lia|].
    exists prog2. rewrite E2, <- app_assoc, <- sub_cat by lia. done.
  - assert (stop o = wanted) as ->; [|by eexists]. unfold stop in *. lia.
  - assert (stop o = wanted) as ->; [|by eexists].
    pose proof ps_range. unfold stop, lim, wanted in *. destruct (Z.ltb_spec 0 (do_Limit opts)); lia.
  - assert (stop o = wanted) as ->; [|by eexists].
    pose proof ps_range. unfold stop, lim, wanted in *. destruct (Z.ltb_spec 0 (do_Limit opts)); lia.
Qed.

Lemma DownloadFile_run stuck fuel out : (Z.to_nat wanted < fuel)%nat ->
  exists prog,
    DownloadFile stuck fuel c (Some loc) opts (st, DownloadIO (Some out) [] []) =
    (Ok (wanted, None), (st, DownloadIO (Some (out ++ sub f 0 wanted)) [] prog)).
Proof.
  intros Hf. unfold DownloadFile. erewrite bind_ok by reflexivity. cbn [snd di_out].
  apply download_loop_run; [|by rewrite Z.sub_0_r]. pose proof wanted_range. lia.
Qed.
End Download.

(** C12. A file uploaded is the file downloaded (media.go, [UploadFile],
    [UploadGetFilePart], [DownloadFile]): if the parts an upload left on the
    server are then served as one file, the download writes exactly the file that
    was uploaded, or its first [Limit] bytes when a limit is set, and returns
    their number without an error, for all part sizes on either side and every
    valid location.  The rounds needed are bounded by that number: what would
    follow if they ran out does not matter. *)
Theorem transfer_roundtrip (c : ctx) (name : string) (uopts : UploadOptions) (data rest bs rng : list byte)
    (cn : conn) (clock : nat -> Z) (tick : nat) (dl : option Z) (parts : gmap (Z * Z) (list byte))
    (loc : InputFileLocation) (dopts : DownloadOptions) stuck (fuel : nat) :
  len data < 2 ^ 45 -> len bs = 8 -> i64 (le_value bs) <> 0 ->
  location_ok loc -> is_i64 (do_Limit dopts) -> (Z.to_nat (len data) < fuel)%nat ->
  exists up s' r',
    UploadFile c (len data) name uopts
      (Store (World cn (bs ++ rng) clock tick dl) parts [], UploadIO (Some (data ++ rest)) []) = (Ok up, (s', r')) /\
    let served := Store (st_world s') (st_parts s') (stored_as s' (u64 (uf_ID up)) (uf_Parts up)) in
    let n := if 0 <? do_Limit dopts then Z.min (do_Limit dopts) (len data) else len data in
    exists prog,
      DownloadFile stuck fuel c (Some loc) dopts (served, DownloadIO (Some []) [] []) =
      (Ok (n, None), (served, DownloadIO (Some (sub data 0 n)) [] prog)).
Proof.
  intros Hb Hl H0 Hloc Hlim Hf.
  destruct (UploadFile_run c name uopts data rest bs rng cn clock tick dl parts [] Hb (conj Hl H0))
    as (parts' & E & Hin & _).
  do 3 eexists. split; [exact E|]. cbv zeta. cbn [st_world st_parts].
  set (served := stored_as _ _ _).
  assert (Hs : served = data) by exact (stored_chunks _ _ _ _ _ _ Hin).
  rewrite Hs. destruct (DownloadFile_run c loc dopts data (World cn rng clock tick dl) parts' Hloc Hb Hlim stuck fuel [])
    as (prog & Ed); [|by exists prog]. pose proof (wanted_range dopts data). lia.
Qed.

Lemma transfer_roundtrip_witness :
  let loc := DocumentFileLocation 5 6 [x01] "" in
  exists up s' r',
    UploadFile None 3 "a" (MkUpload 0 false) (demo_store, UploadIO (Some ([x61; x62; x63] ++ [])) []) = (Ok up, (s', r')) /\
    exists prog,
      DownloadFile (ret (0, None)) 9 None (Some loc) (MkDownload 0 false false 2 true)
        (Store (st_world s') (st_parts s') (stored_as s' (u64 (uf_ID up)) (uf_Parts up)), DownloadIO (Some []) [] []) =
      (Ok (2, None), (Store (st_world s') (st_parts s') (stored_as s' (u64 (uf_ID up)) (uf_Parts up)),
                      DownloadIO (Some [x61; x62]) [] prog)).
Proof.
  apply (transfer_roundtrip None "a" (MkUpload 0 false) [x61; x62; x63] [] (replicate 8 x01) []
           (Conn [] [] []) (fun _ => 1) 0 None ∅ (DocumentFileLocation 5 6 [x01] "") (MkDownload 0 false false 2 true)
           (ret (0, None)) 9); try done.
  by apply Nat.ltb_lt.
Defined.
