(* ===== verification/Flood.v ===== *)
(** * Flood: what a failed request consumes (src/mtproto/invoke.go)

    [withFloodWait] and [handleFloodWait] repeat a request for as long as the
    server answers FLOOD_WAIT.  Every such answer is an rpc_error that came in a
    packet, so each round shortens the stream of the connection, which bounds the
    rounds.  This file proves that of [invoke] and carries it through the
    methods. *)

From S2P Require Import Prelude Strings TL Transport Hash AES Crypto Envelope Auth Invoke Queries Client Peers Difference Api Media.

(** ** Errors other than an rpc_error *)

Definition plain (e : goerr) : Prop := as_RPCError e = None.

(** Every error of [m] is plain. *)
Definition plain_m {S A} (m : M S A) : Prop :=
  forall s, match m s with (Err e, _) => plain e | _ => True end.
Definition plain_o {A} (o : outcome A) : Prop := forall e, o = Err e -> plain e.

Section Plain.
Context {S : Type}.
Lemma plain_bind {A B} (m : M S A) (k : A -> M S B) : plain_m m -> (forall a, plain_m (k a)) -> plain_m (x <- m ;; k x).
Proof. intros Hm Hk s. specialize (Hm s). unfold bind. destruct (m s) as [[a|e|] s']; [apply Hk|done..]. Qed.
Lemma plain_ret {A} (a : A) : plain_m (S := S) (ret a).
Proof. by intros s. Qed.
Lemma plain_fail {A} e : plain e -> plain_m (S := S) (A := A) (fail e).
Proof. by intros He s. Qed.
Lemma plain_guard c e : plain e -> plain_m (S := S) (guard c e).
Proof. intros He s. by destruct c. Qed.
Lemma plain_get : plain_m (S := S) get.
Proof. by intros s. Qed.
Lemma plain_modify f : plain_m (S := S) (modify f).
Proof. by intros s. Qed.
Lemma plain_lift {A} (o : outcome A) : plain_o o -> plain_m (S := S) (lift o).
Proof. intros Ho s. unfold lift. destruct o; [done|by apply Ho|done]. Qed.
Lemma plain_try {A} (m : M S A) : plain_m (try m).
Proof. intros s. unfold try. by destruct (m s) as [[a|e|] s']. Qed.
Lemma plain_zoom {T A} (g : S -> T) u (m : M T A) : plain_m m -> plain_m (zoom g u m).
Proof. intros Hm s. specialize (Hm (g s)). unfold zoom. by destruct (m (g s)) as [[a|e|] t]. Qed.
Lemma plain_eval {A} (m : M S A) s : plain_m m -> plain_o (eval m s).
Proof. intros Hm e He. specialize (Hm s). unfold eval in He. destruct (m s) as [o s']. cbn in He. by subst o. Qed.
End Plain.

Create HintDb plain.
#[export] Hint Resolve plain_ret plain_get plain_modify plain_try : plain.

(** Go through the steps of a computation whose errors are written out. *)
Ltac plain_steps :=
  cbv zeta;
  repeat lazymatch goal with
  | |- plain_m (bind _ _) => apply plain_bind; [|intros ?]
  | |- plain_m (guard _ _) => apply plain_guard; reflexivity
  | |- plain_m (when _ _) => unfold when
  | |- plain_m (ret _) => apply plain_ret
  | |- plain_m (fail _) => apply plain_fail; reflexivity
  | |- plain_m (zoom _ _ _) => apply plain_zoom
  | |- plain_m (lift _) => apply plain_lift
  | |- plain_m (try _) => apply plain_try
  | |- plain_m (if ?c then _ else _) => destruct c
  | |- plain_m (match ?x with _ => _ end) => destruct x
  | _ => solve [auto with plain]
  end.

(** A retriable error is not an rpc_error. *)
Lemma bad_salt_plain e x : as_BadServerSalt e = Some x -> plain e.
Proof. induction e; cbn; try done. Qed.
Lemma bad_message_plain e x : as_BadMessage e = Some x -> plain e.
Proof. induction e; cbn; try done. Qed.

(** ** What a request leaves of the stream *)

Section Drains.
Context {S : Type} (mu : S -> nat).

(** [m] reads no byte twice, and an rpc_error has cost at least one. *)
Definition drains {A} (m : M S A) : Prop :=
  forall s, match m s with
            | (Ok _, s') => (mu s' <= mu s)%nat
            | (Err e, s') => (mu s' <= mu s)%nat /\ (plain e \/ (mu s' < mu s)%nat)
            | (Panic, _) => True
            end.

Lemma drains_bind {A B} (m : M S A) (k : A -> M S B) : drains m -> (forall a, drains (k a)) -> drains (x <- m ;; k x).
Proof.
  intros Hm Hk s. specialize (Hm s). unfold bind. destruct (m s) as [[a|e|] s']; [|done..].
  specialize (Hk a s'). destruct (k a s') as [[b|e|] s'']; [lia| |done]. destruct Hk as [H1 [H2|H2]]; split; auto; lia.
Qed.
Lemma drains_bind_post {A B} (Q : A -> Prop) (m : M S A) (k : A -> M S B) :
  drains m -> (forall s a s', m s = (Ok a, s') -> Q a) -> (forall a, Q a -> drains (k a)) -> drains (x <- m ;; k x).
Proof.
  intros Hm HQ Hk s. specialize (Hm s). unfold bind. destruct (m s) as [[a|e|] s'] eqn:E; [|done..].
  specialize (Hk a (HQ _ _ _ E) s'). destruct (k a s') as [[b|e|] s'']; [lia| |done].
  destruct Hk as [H1 [H2|H2]]; split; auto; lia.
Qed.
Lemma drains_still {A} (m : M S A) : plain_m m -> (forall s, (mu (snd (m s)) <= mu s)%nat) -> drains m.
Proof. intros Hp Hm s. specialize (Hp s). specialize (Hm s). destruct (m s) as [[a|e|] s']; cbn in Hm; auto. Qed.
Lemma drains_ret {A} (a : A) : drains (ret a).
Proof. intros s. apply Nat.le_refl. Qed.
Lemma drains_fail {A} e : plain e -> drains (A := A) (fail e).
Proof. intros He s. split; [apply Nat.le_refl|by left]. Qed.
Lemma drains_guard c e : plain e -> drains (guard c e).
Proof. intros He. apply drains_still; [by apply plain_guard|intros s; destruct c; apply Nat.le_refl]. Qed.
Lemma drains_get : drains get.
Proof. intros s. apply Nat.le_refl. Qed.
Lemma drains_panic {A} : drains (A := A) panic.
Proof. by intros s. Qed.
Lemma drains_lift {A} (o : outcome A) : plain_o o -> drains (lift o).
Proof. intros Ho. apply drains_still; [by apply plain_lift|intros s; apply Nat.le_refl]. Qed.
(** A step on a part of the state the stream is not in. *)
Lemma drains_zoom {T A} (g : S -> T) u (m : M T A) :
  (forall t s, mu (u t s) = mu s) -> plain_m m -> drains (zoom g u m).
Proof.
  intros Hu Hm. apply drains_still; [by apply plain_zoom|]. intros s. unfold zoom. destruct (m (g s)) as [o t]. cbn. by rewrite Hu.
Qed.
(** Handling an error: only the error itself is passed on. *)
Lemma drains_try {A B} (m : M S A) (f : A -> M S B) (h : goerr -> M S B) :
  drains m -> (forall a, drains (f a)) ->
  (forall e s, match h e s with
               | (Ok _, s') => (mu s' <= mu s)%nat
               | (Err e', s') => (mu s' <= mu s)%nat /\ (plain e' \/ e' = e)
               | (Panic, _) => True end) ->
  drains (x <- try m ;; match x with inl a => f a | inr e => h e end).
Proof.
  intros Hm Hf Hh s. specialize (Hm s). unfold try, bind. destruct (m s) as [[a|e|] s']; [|..|done].
  - specialize (Hf a s'). destruct (f a s') as [[b|e|] s'']; [lia| |done]. destruct Hf as [H1 [H2|H2]]; split; auto; lia.
  - specialize (Hh e s'). destruct (h e s') as [[b|e'|] s'']; [lia| |done].
    destruct Hm as [H1 H2], Hh as [H3 [H4| ->]]; split; try lia; [by left|]. destruct H2; [by left|right; lia].
Qed.
End Drains.

(** ** The encrypted session *)

Definition stream (s : encryptedState * world) : nat := length (c_in (w_conn (snd s))).

Lemma plain_conn_ReadFull n : plain_m (conn_ReadFull n).
Proof. intros c. unfold conn_ReadFull. by destruct (n <=? _). Qed.
Lemma plain_conn_Write p : plain_m (conn_Write p).
Proof. intros c. unfold conn_Write. by destruct (c_fail c) as [|[k|] f]. Qed.
#[local] Hint Resolve plain_conn_ReadFull plain_conn_Write : plain.

Lemma plain_index {A} (l : list A) i : plain_o (index l i).
Proof. intros e He. unfold index in He. by repeat case_match. Qed.
Lemma plain_slice {A} (l : list A) lo hi : plain_o (slice l lo hi).
Proof. intros e He. unfold slice in He. by repeat case_match. Qed.
#[local] Hint Resolve plain_index plain_slice : plain.

Lemma plain_abridgedRead : plain_m abridgedRead.
Proof. unfold abridgedRead. plain_steps. Qed.
Lemma plain_abridgedWrite p : plain_m (abridgedWrite p).
Proof. unfold abridgedWrite. plain_steps. Qed.

Lemma conn_ReadFull_in n c : (length (c_in (snd (conn_ReadFull n c))) <= length (c_in c))%nat.
Proof.
  unfold conn_ReadFull. destruct (n <=? _); cbn; [|lia]. unfold sub. rewrite length_take, length_drop. lia.
Qed.

(** Errors of the parsers of a session. *)
Lemma plain_rng_Read n : plain_m (rng_Read n).
Proof. intros r. unfold rng_Read. by destruct (n <=? _). Qed.
Lemma plain_time_Now : plain_m time_Now.
Proof. by intros w. Qed.
#[export] Hint Resolve plain_rng_Read plain_time_Now : plain.

Lemma plain_need n text : plain_m (need n text).
Proof. unfold need. plain_steps. Qed.
Lemma plain_advance n : plain_m (advance n).
Proof. by intros r. Qed.
Lemma plain_peek n : plain_m (peek n).
Proof. unfold peek. plain_steps. Qed.
Lemma plain_peek_at n : plain_m (peek_at n).
Proof. unfold peek_at. plain_steps. Qed.
#[local] Hint Resolve plain_need plain_advance plain_peek plain_peek_at : plain.
Lemma plain_tl_int : plain_m tl_int.
Proof. unfold tl_int. plain_steps. Qed.
Lemma plain_tl_long : plain_m tl_long.
Proof. unfold tl_long. plain_steps. Qed.
Lemma plain_tl_raw n : plain_m (tl_raw n).
Proof. unfold tl_raw. plain_steps. Qed.
Lemma plain_skip fuel header n : plain_m (skip_loop fuel header n).
Proof. revert header. induction fuel as [|fuel IH]; intros header; cbn [skip_loop]; plain_steps. Qed.
#[export] Hint Resolve plain_tl_int plain_tl_long plain_tl_raw plain_skip : plain.
Lemma plain_tl_bytes : plain_m tl_bytes.
Proof. unfold tl_bytes. plain_steps. Qed.
#[export] Hint Resolve plain_tl_bytes : plain.
Lemma plain_tl_string : plain_m tl_string.
Proof. unfold tl_string. plain_steps. Qed.
#[export] Hint Resolve plain_tl_string : plain.

Lemma plain_aesIGE mode what data key iv : plain_o (aesIGE mode what data key iv).
Proof. intros e He. unfold aesIGE, aes_NewCipher in He. repeat case_match; simplify_eq; done. Qed.
Lemma plain_aesKeyIV k m x : plain_o (mtproto2AESKeyIV k m x).
Proof. intros e He. unfold mtproto2AESKeyIV in He. by repeat case_match. Qed.

Lemma plain_parsePacket s payload : plain_o (parseEncryptedPacket s payload).
Proof.
  intros e. unfold parseEncryptedPacket. destruct (_ || _); [by intros [= <-]|].
  assert (H1 : plain_o (eval (read_packet_head (es_authKeyID s)) (newTLReader payload))).
  { apply plain_eval. unfold read_packet_head. plain_steps. }
  destruct (eval _ _) as [[msgKey ciphertext]|e1|]; [|intros [= <-]; by apply H1|done].
  unfold open_packet. pose proof (plain_aesKeyIV (es_authKey s) msgKey 8) as H2.
  destruct (mtproto2AESKeyIV _ _ _) as [[key iv]|e2|]; [|intros [= <-]; by apply H2|done].
  unfold aesIGEDecrypt. pose proof (plain_aesIGE ige_decrypt "ciphertext" ciphertext key iv) as H3.
  destruct (aesIGE _ _ _ _ _) as [plaintext|e3|]; [|intros [= <-]; by apply H3|done].
  destruct (slice _ _ _); [|done..]. destruct (equalBytes _ _); [|by intros [= <-]].
  apply plain_eval. unfold read_envelope. plain_steps.
Qed.

Lemma plain_build s msgID seqNo body : plain_m (buildEncryptedPacket s msgID seqNo body).
Proof.
  unfold buildEncryptedPacket. cbv zeta. apply plain_bind; [auto with plain|intros padding]. apply plain_lift.
  intros e. unfold seal_packet. destruct (slice _ _ _); [|done..]. cbv zeta.
  pose proof (plain_aesKeyIV (es_authKey s)) as H2.
  destruct (mtproto2AESKeyIV _ _ _) as [[key iv]|e2|] eqn:E; [|intros [= <-]; by eapply H2|done].
  unfold aesIGEEncrypt. set (text := envelope_plain _ _ _ _ _ ++ padding).
  pose proof (plain_aesIGE ige_encrypt "plaintext" text key iv) as H3.
  destruct (aesIGE _ _ _ _ _); [done|intros [= <-]; by apply H3|done].
Qed.

(** ** Requests *)

Lemma drains_conn_ReadFull n : drains (fun c => length (c_in c)) (conn_ReadFull n).
Proof. apply drains_still; [apply plain_conn_ReadFull|apply conn_ReadFull_in]. Qed.

Create HintDb drains.
#[export] Hint Resolve drains_ret drains_get drains_panic : drains.
#[local] Hint Resolve drains_conn_ReadFull : drains.

(** The same for the methods below. *)
Ltac drains_steps :=
  cbv zeta;
  repeat lazymatch goal with
  | |- drains _ (bind _ _) => apply drains_bind; [|intros ?]
  | |- drains _ (guard _ _) => apply drains_guard; reflexivity
  | |- drains _ (when _ _) => unfold when
  | |- drains _ (ret _) => apply drains_ret
  | |- drains _ (fail _) => apply drains_fail; reflexivity
  | |- drains _ (lift _) => apply drains_lift; auto with plain
  | |- drains _ (if ?c then _ else _) => destruct c
  | |- drains _ (match ?x with _ => _ end) => destruct x
  | _ => solve [auto with drains]
  end.

Lemma drains_abridgedRead : drains (fun c => length (c_in c)) abridgedRead.
Proof. unfold abridgedRead. drains_steps. Qed.

(** The stream is shorter after reading, and not longer after an error. *)
Lemma abridgedRead_drops c :
  match abridgedRead c with
  | (Ok _, c') => (length (c_in c') < length (c_in c))%nat
  | (Err _, c') => (length (c_in c') <= length (c_in c))%nat
  | (Panic, _) => True
  end.
Proof.
  pose proof (abridgedRead_spec (len (c_in c)) c eq_refl) as H. pose proof (drains_abridgedRead c) as D.
  destruct (abridgedRead c) as [[p|e|] c']; [unfold len in H; lia|apply D|done].
Qed.

Section Requests.
Variable gunzip : list byte -> outcome (list byte).

Lemma read_message_drops s :
  match read_message s with
  | (Ok _, s') => (stream s' < stream s)%nat
  | (Err e, s') => (stream s' <= stream s)%nat /\ plain e
  | (Panic, _) => True
  end.
Proof.
  destruct s as [es w]. unfold read_message, clearing, on_world, on_conn, on_es, conn_SetDeadline, stream.
  unfold bind, try, zoom, get, lift, ret, fail, modify. cbn [fst snd].
  pose proof (abridgedRead_drops (w_conn w)) as H. pose proof (plain_abridgedRead (w_conn w)) as P.
  destruct (abridgedRead (w_conn w)) as [[payload|e|] c]; [|done|done]. cbn [fst snd].
  pose proof (plain_parsePacket es payload) as P'. destruct (parseEncryptedPacket es payload) as [m|e|]; [done| |done].
  cbn in *. split; [lia|by apply P'].
Qed.

Lemma after_error_drops req err s :
  match after_error req err s with
  | (Ok (Finished _), _) => False
  | (Ok (Retry e), s') => stream s' = stream s /\ plain e
  | (Err e, s') => stream s' = stream s /\ e = err
  | (Panic, _) => True
  end.
Proof.
  destruct s as [es w]. unfold after_error, bind at 1, on_world at 1, zoom, conn_SetDeadline, modify at 1. cbn [fst snd].
  destruct (as_BadServerSalt err) eqn:E1; [split; [done|by eapply bad_salt_plain]|].
  destruct (as_BadMessage err) as [[[id seq] code]|] eqn:E2; [|done].
  destruct (isRetriableBadMessageCode code); [|done]. apply bad_message_plain in E2. by destruct (_ || _).
Qed.

(** What an attempt leaves: a result has cost something, an error too unless it
    is plain, and what is retried is plain. *)
Definition attempt_drops (s : encryptedState * world) (r : outcome attempt_end * (encryptedState * world)) : Prop :=
  match r with
  | (Ok (Finished _), s') => (stream s' < stream s)%nat
  | (Ok (Retry e), s') => (stream s' <= stream s)%nat /\ plain e
  | (Err e, s') => (stream s' <= stream s)%nat /\ (plain e \/ (stream s' < stream s)%nat)
  | (Panic, _) => True
  end.

Lemma handle_stream req msg s : stream (snd (on_es (handle gunzip req msg) s)) = stream s.
Proof. destruct s as [es w]. unfold on_es, zoom. by destruct (handle gunzip req msg (fst (es, w))) as [o es']. Qed.

Lemma read_loop_drops fuel req s : attempt_drops s (read_loop gunzip fuel req s).
Proof.
  revert s. induction fuel as [|fuel IH]; intros s; cbn [read_loop]; [split; [apply Nat.le_refl|by left]|].
  pose proof (read_message_drops s) as H. unfold bind at 1. destruct (read_message s) as [[msg|e|] s1]; [| |done].
  2:{ split; [apply H|left; apply H]. }
  pose proof (handle_stream req msg s1) as Hs. unfold bind, try.
  destruct (on_es (handle gunzip req msg) s1) as [[[result|]|e|] s2]; cbn in Hs; [| | |done].
  - cbn. unfold stream in *. cbn. lia.
  - specialize (IH s2). unfold attempt_drops in *.
    destruct (read_loop gunzip fuel req s2) as [[[e|r]|e|] s3]; [split; [lia|apply IH]|lia| |done].
    split; [lia|]. right. lia.
  - pose proof (after_error_drops req e s2) as A. destruct (after_error req e s2) as [[[e'|r]|e'|] s3]; [|done| |done].
    + destruct A as [A1 A2]. split; [lia|done].
    + destruct A as [A1 _]. split; [lia|right; lia].
Qed.

(** A step before it that reads nothing. *)
Definition idle_m {A} (m : IO A) : Prop := plain_m m /\ forall s, stream (snd (m s)) = stream s.

Lemma idle_on_es {A} (m : M encryptedState A) : plain_m m -> idle_m (on_es m).
Proof. intros Hm. split; [by apply plain_zoom|]. intros [es w]. unfold on_es, zoom. by destruct (m (fst (es, w))) as [o t]. Qed.
Lemma idle_on_world {A} (m : M world A) :
  plain_m m -> (forall w, c_in (w_conn (snd (m w))) = c_in (w_conn w)) -> idle_m (on_world m).
Proof.
  intros Hm Hc. split; [by apply plain_zoom|]. intros [es w]. unfold on_world, zoom, stream. cbn. specialize (Hc w).
  destruct (m w) as [o t]. cbn in *. by rewrite Hc.
Qed.
Lemma idle_bind {A B} (m : IO A) (k : A -> IO B) : idle_m m -> (forall a, idle_m (k a)) -> idle_m (x <- m ;; k x).
Proof.
  intros [H1 H2] Hk. split; [apply plain_bind; [done|apply Hk]|]. intros s. specialize (H2 s). unfold bind.
  destruct (m s) as [[a|e|] s1]; cbn in *; [|done..]. rewrite <- H2. apply Hk.
Qed.
Lemma idle_clearing {A} (m : IO A) : idle_m m -> idle_m (clearing m).
Proof.
  intros [H1 H2]. split; intros s; specialize (H1 s); specialize (H2 s);
    unfold clearing, bind, try, on_world, zoom, conn_SetDeadline, modify, ret, fail;
    destruct (m s) as [[a|e|] s1]; cbn in *; done.
Qed.

Lemma conn_Write_in p c : c_in (snd (conn_Write p c)) = c_in c.
Proof. unfold conn_Write. by destruct (c_fail c) as [|[k|] f]. Qed.
Lemma abridgedWrite_in p c : c_in (snd (abridgedWrite p c)) = c_in c.
Proof.
  unfold abridgedWrite. cbv zeta. unfold guard, bind, ret, fail. destruct (_ =? 0); [|done].
  assert (G : forall h, c_in (snd (let (o, s') := conn_Write h c in match o with
     | Ok _ => conn_Write p s' | Err e => (Err e, s') | Panic => (Panic, s') end)) = c_in c).
  { intros h. pose proof (conn_Write_in h c) as H. destruct (conn_Write h c) as [[u|e|] c1]; [|done..].
    cbn in H. by rewrite <- H, conn_Write_in. }
  destruct (_ <? 127); [apply G|]. destruct (negb _); [apply G|done].
Qed.

Lemma attempt_bind {A} (m : IO A) k s :
  idle_m m -> (forall a s, attempt_drops s (k a s)) -> attempt_drops s ((x <- m ;; k x) s).
Proof.
  intros [H1 H2] Hk. specialize (H1 s). specialize (H2 s). unfold bind. destruct (m s) as [[a|e|] s1]; cbn in H2; [| |done].
  - specialize (Hk a s1). unfold attempt_drops in *. by rewrite H2 in Hk.
  - split; [by rewrite H2|by left].
Qed.

Lemma plain_nextMsgID now : plain_m (nextMsgID now).
Proof. unfold nextMsgID. intros s. cbn. by destruct (_ <? _). Qed.

Lemma one_attempt_drops c body s : attempt_drops s (one_attempt gunzip c body s).
Proof.
  unfold one_attempt. apply attempt_bind; [by apply idle_on_world|intros now s1].
  apply attempt_bind; [apply idle_on_es, plain_nextMsgID|intros req s2].
  apply attempt_bind; [by apply idle_on_es|intros seqNo s3]. apply attempt_bind; [by apply idle_on_es|intros es s4].
  apply attempt_bind.
  { apply idle_on_world; [apply plain_zoom, plain_build|]. intros w. unfold on_rng, zoom.
    by destruct (buildEncryptedPacket _ _ _ _ _) as [o r]. }
  intros packet s5. apply attempt_bind.
  { unfold set_rpc_deadline. destruct c; [by apply idle_on_world|]. apply idle_bind; [|intros n]; by apply idle_on_world. }
  intros u s6. apply attempt_bind.
  { apply idle_clearing, idle_on_world; [apply plain_zoom, plain_abridgedWrite|]. intros w. unfold on_conn, zoom.
    pose proof (abridgedWrite_in packet (w_conn w)) as H. by destruct (abridgedWrite packet (w_conn w)) as [o r]. }
  intros v s7. apply attempt_bind; [by apply idle_on_world|intros w s8]. apply read_loop_drops.
Qed.

(** A result has cost something, an rpc_error too. *)
Definition request_drops {S A} (mu : S -> nat) (m : M S A) : Prop :=
  forall s, match m s with
            | (Ok _, s') => (mu s' < mu s)%nat
            | (Err e, s') => (mu s' <= mu s)%nat /\ (plain e \/ (mu s' < mu s)%nat)
            | (Panic, _) => True
            end.

Lemma attempts_drops n c body last s : match last with Some e => plain e | None => True end ->
  match attempts gunzip n c body last s with
  | (Ok _, s') => (stream s' < stream s)%nat
  | (Err e, s') => (stream s' <= stream s)%nat /\ (plain e \/ (stream s' < stream s)%nat)
  | (Panic, _) => True
  end.
Proof.
  revert last s. induction n as [|n IH]; intros last s Hl; cbn [attempts].
  { split; [apply Nat.le_refl|]. left. by destruct last. }
  pose proof (one_attempt_drops c body s) as H. unfold bind. destruct (one_attempt gunzip c body s) as [[[e|r]|e|] s1];
    [|exact H|exact H|done].
  destruct H as [H1 H2]. specialize (IH (Some e) s1 H2).
  destruct (attempts gunzip n c body (Some e) s1) as [[r|e'|] s2]; [lia| |done].
  destruct IH as [IH1 [IH2|IH2]]; split; auto; lia.
Qed.

Lemma invoke_drops c body : request_drops stream (invoke gunzip c body).
Proof. intros s. by apply attempts_drops. Qed.

(** ** The client *)

Definition client_stream (s : EncryptedClient * env) : nat :=
  match ec_conn (fst s) with Some l => length (c_in (l_conn l)) | None => O end.

Lemma Client_Invoke_drops c body : request_drops client_stream (Client_Invoke gunzip c body).
Proof.
  intros [cl e]. unfold Client_Invoke, bind, with_session, client_stream, get. cbn [fst].
  destruct (ec_conn cl) as [l|] eqn:El; [|cbn; rewrite El; split; [apply Nat.le_refl|by left]].
  destruct (ec_state cl) as [es|] eqn:Es; [|cbn; rewrite El; split; [apply Nat.le_refl|by left]].
  pose proof (invoke_drops c body (es, world_of l e)) as H. destruct (invoke gunzip c body (es, world_of l e)) as [[r|x|] [es' w']];
    [exact H|exact H|done].
Qed.

Lemma request_drains {A} (m : Method A) : request_drops client_stream m -> drains client_stream m.
Proof. intros Hm s. specialize (Hm s). destruct (m s) as [[a|e|] s']; [lia|exact Hm|done]. Qed.

Lemma on_sources_drains {A} (m : M world A) : plain_m m -> drains client_stream (on_sources m).
Proof.
  intros Hm. apply drains_still.
  - intros [c e]. unfold on_sources. specialize (Hm (world_of (Link (Conn [] [] []) None) e)). by destruct (m _) as [[a|x|] w].
  - intros [c e]. unfold on_sources. by destruct (m _) as [o w].
Qed.
End Requests.

(** ** The methods *)

Lemma plain_InputPeer_encode p b : plain_o (InputPeer_encode p b).
Proof. intros e. unfold InputPeer_encode. by destruct p; repeat case_match; intros [= <-]. Qed.
#[export] Hint Resolve plain_InputPeer_encode : plain.

Lemma plain_randomInt64 : plain_m randomInt64.
Proof. unfold randomInt64. plain_steps. Qed.
#[export] Hint Resolve plain_randomInt64 : plain.
Lemma plain_random_ids ids b : plain_m (put_random_ids ids b).
Proof. revert b. induction ids as [|id ids IH]; intros b; cbn [put_random_ids]; plain_steps. Qed.
#[export] Hint Resolve plain_random_ids : plain.

Lemma plain_send_options peer text opts : plain_m (makeMessagesSendMessageQueryWithOptions peer text opts).
Proof. unfold makeMessagesSendMessageQueryWithOptions. plain_steps; auto with plain. Qed.
Lemma plain_forward from to ids opts : plain_m (makeMessagesForwardMessagesQuery from to ids opts).
Proof. unfold makeMessagesForwardMessagesQuery. plain_steps; auto with plain. Qed.
Lemma plain_edit_options peer id text opts : plain_o (makeMessagesEditMessageQueryWithOptions peer id text opts).
Proof.
  intros e. unfold makeMessagesEditMessageQueryWithOptions. cbv zeta.
  pose proof (plain_InputPeer_encode peer) as H. destruct (InputPeer_encode _ _) eqn:E; [done|intros [= <-]; by eapply H|done].
Qed.
Lemma plain_history peer limit : plain_o (makeMessagesGetHistoryQuery peer limit).
Proof.
  intros e. unfold makeMessagesGetHistoryQuery.
  pose proof (plain_InputPeer_encode peer) as H. destruct (InputPeer_encode _ _) eqn:E; [done|intros [= <-]; by eapply H|done].
Qed.
Lemma plain_channels channel ids : plain_o (makeChannelsDeleteMessagesQuery channel ids).
Proof. intros e. unfold makeChannelsDeleteMessagesQuery. destruct (_ || _); [by intros [= <-]|done]. Qed.
#[export] Hint Resolve plain_send_options plain_forward plain_edit_options plain_history plain_channels : plain.

Lemma drains_request gunzip c query text : drains client_stream (request gunzip c query text).
Proof. unfold request. apply drains_bind; [apply request_drains, Client_Invoke_drops|intros r; apply drains_ret]. Qed.
Lemma drains_peer_input format peer : drains client_stream (peer_input format peer).
Proof. unfold peer_input. drains_steps. Qed.
Lemma drains_on_sources {A} (m : M world A) : plain_m m -> drains client_stream (on_sources m).
Proof. apply on_sources_drains. Qed.
#[export] Hint Resolve drains_request drains_peer_input drains_on_sources : drains.
#[export] Hint Extern 2 (drains _ (on_sources _)) => apply drains_on_sources; auto with plain : drains.

Section Methods.
Variable gunzip : list byte -> outcome (list byte).
Variable range_values : seen_map -> list PeerRef.

Lemma drains_send c peer text opts : drains client_stream (MessagesSendMessageToPeerWithOptions gunzip c peer text opts).
Proof. unfold MessagesSendMessageToPeerWithOptions, MessagesSendMessageWithOptions, need_text. drains_steps. Qed.
Lemma drains_edit c peer id text opts : drains client_stream (MessagesEditMessageToPeerWithOptions gunzip c peer id text opts).
Proof. unfold MessagesEditMessageToPeerWithOptions, MessagesEditMessageWithOptions, need_text, need_id. drains_steps. Qed.
Lemma drains_delete c revoke ids : drains client_stream (MessagesDeleteMessages gunzip c revoke ids).
Proof. unfold MessagesDeleteMessages, need_ids. drains_steps. Qed.
Lemma drains_delete_channel c channel ids : drains client_stream (ChannelsDeleteMessages gunzip c channel ids).
Proof. unfold ChannelsDeleteMessages, need_ids. drains_steps. Qed.
Lemma drains_forward c from to ids opts : drains client_stream (MessagesForwardMessagesToPeer gunzip c from to ids opts).
Proof. unfold MessagesForwardMessagesToPeer, MessagesForwardMessages, need_ids. drains_steps. Qed.
Lemma drains_history c peer limit : drains client_stream (MessagesGetHistory gunzip c peer limit).
Proof. unfold MessagesGetHistory. drains_steps. Qed.

(** The errors of the parsers, passed on as values, are plain. *)
Definition plain_pair {A} (r : (A + goerr) * InvokeResult) : Prop := match fst r with inr e => plain e | inl _ => True end.

Lemma parsed_plain {A} result (o : outcome (A + goerr)) text s r s' :
  (forall e, o = Ok (inr e) -> plain e) -> parsed result o text s = (Ok r, s') -> plain_pair r.
Proof.
  intros Ho H. unfold parsed in H. run_inv. apply lift_inv in Hrun as [Ea _]. destruct a; run_inv; [done|]. by apply Ho.
Qed.
Lemma drains_parsed {A} result (o : outcome (A + goerr)) text : plain_o o -> drains client_stream (parsed result o text).
Proof. intros Ho. unfold parsed. apply drains_bind; [by apply drains_lift|]. intros [a|e]; apply drains_ret. Qed.

(** A response with an error is an error. *)
Definition value_of {A} (m : Method ((A + goerr) * InvokeResult)) : Method A :=
  r <- m ;; match fst r with inl a => ret a | inr e => fail e end.

Lemma drains_value_of {A} (m : Method ((A + goerr) * InvokeResult)) :
  drains client_stream m -> (forall s r s', m s = (Ok r, s') -> plain_pair r) -> drains client_stream (value_of m).
Proof.
  intros Hm Hp. apply (drains_bind_post _ plain_pair); [done|done|]. intros [[a|e] r] Hr; [apply drains_ret|by apply drains_fail].
Qed.

Lemma plain_omap {A B} (f : A -> B) o : plain_o o -> plain_o (omap_outcome f o).
Proof. intros Ho e. destruct o; [done|intros [= <-]; by apply Ho|done]. Qed.

Lemma plain_ScanUsers body : plain_o (ScanUsers body).
Proof.
  intros e. destruct (users_loop_ok (S (length body)) body 0 ∅ []) as (us & E & _); [done|done|constructor|].
  unfold ScanUsers. by rewrite E.
Qed.

Lemma plain_u32_at body off : plain_o (u32_at body off).
Proof. apply plain_omap, plain_slice. Qed.
Lemma plain_u64_at body off : plain_o (u64_at body off).
Proof. apply plain_omap, plain_slice. Qed.
Lemma plain_scan values body : plain_o (scanPeerRefs values body).
Proof. intros e. by destruct (scanPeerRefs_returns values body) as [ps ->]. Qed.
#[local] Hint Resolve plain_u32_at plain_u64_at plain_scan plain_omap : plain.

Lemma plain_parseResolvedPeer values body : plain_o (parseResolvedPeer values body).
Proof. apply plain_eval. plain_steps; auto with plain. intros e. unfold parsePeerAt. by repeat case_match. Qed.

Lemma drains_GetMe c : drains client_stream (value_of (GetMe gunzip c)).
Proof.
  apply drains_value_of.
  - unfold GetMe. apply drains_bind; [apply request_drains, Client_Invoke_drops|intros r].
    apply drains_parsed, plain_omap, plain_ScanUsers.
  - intros s r s' H. unfold GetMe in H. run_inv. eapply parsed_plain; [|exact H]. intros e.
    destruct (ScanUsers (ir_Body a)) as [[|u us]|x|]; cbn; intros [= <-]; done.
Qed.

Lemma drains_ResolveUsername c username : drains client_stream (value_of (ResolveUsername gunzip range_values c username)).
Proof.
  apply drains_value_of.
  - unfold ResolveUsername. cbv zeta. apply drains_bind; [by apply drains_guard|intros u].
    apply drains_bind; [apply request_drains, Client_Invoke_drops|intros r].
    apply drains_parsed, plain_omap, plain_parseResolvedPeer.
  - intros s r s' H. unfold ResolveUsername in H. cbv zeta in H. run_inv. eapply parsed_plain; [|exact H]. intros e.
    destruct (parseResolvedPeer range_values (ir_Body a0)) as [[p|]|x|]; cbn; intros [= <-]; done.
Qed.
End Methods.

(** ** Media *)

(** The laws of an [Invoker] in these terms. *)
Class InvokerDrains (S : Type) `{Invoker S} (mu : S -> nat) := {
  drains_not_nil : drains mu not_nil;
  drains_Invoke c q : request_drops mu (Invoke c q);
  drains_sources {A} (m : M world A) : plain_m m -> drains mu (sources m) }.

#[global] Instance client_drains gunzip : @InvokerDrains _ (client_invoker gunzip) client_stream.
Proof.
  split; cbn [not_nil Invoke sources client_invoker].
  - unfold client_not_nil. apply drains_bind; [apply drains_get|intros s; by apply drains_guard].
  - intros c q. apply Client_Invoke_drops.
  - intros A m. apply on_sources_drains.
Qed.

Section Media.
Context {S : Type} `{Invoker S} (mu : S -> nat) `{!InvokerDrains S mu}.

Definition mu_fst {R} (s : S * R) : nat := mu (fst s).

Lemma Invoke_drains c q : drains mu (Invoke c q).
Proof. intros s. pose proof (drains_Invoke (S := S) c q s) as D. destruct (Invoke c q s) as [[r|e|] s']; [lia|exact D|done]. Qed.

Lemma drains_on_client {A} (m : M S A) : drains mu m -> drains mu_fst (on_client m).
Proof. intros Hm [s r]. specialize (Hm s). unfold on_client, zoom, mu_fst. cbn [fst snd]. by destruct (m s) as [[a|e|] s']. Qed.
Lemma drains_on_source {A} (m : M S A) : drains mu m -> drains mu_fst (on_source m).
Proof. intros Hm [s r]. specialize (Hm s). unfold on_source, zoom, mu_fst. cbn [fst snd]. by destruct (m s) as [[a|e|] s']. Qed.
Lemma drains_on_reader {A} (m : M upload_io A) : plain_m m -> drains mu_fst (on_reader m).
Proof. intros Hm. by apply drains_zoom. Qed.
Lemma drains_on_writer {A} (m : M download_io A) : plain_m m -> drains mu_fst (on_writer m).
Proof. intros Hm. by apply drains_zoom. Qed.

Lemma plain_nonzero n : plain_m (nonzero_loop n).
Proof. induction n as [|n IH]; cbn [nonzero_loop]; plain_steps. Qed.
Lemma plain_read_chunk part want : plain_m (read_chunk part want).
Proof.
  unfold read_chunk. destruct (0 <? want); [|apply plain_ret]. intros s. unfold io_ReadFull, try, bind. by destruct (_ <=? _).
Qed.
Lemma plain_parseTLBool body : plain_o (parseTLBool body).
Proof. intros e. unfold parseTLBool, u32_at. repeat case_match; try intros [= <-]; try done. Qed.

Lemma drains_upload_part c opts up ps part done hashed : drains mu_fst (upload_part c opts up ps part done hashed).
Proof.
  unfold upload_part. cbv zeta. apply drains_bind; [destruct (_ <? 0); [apply drains_panic|apply drains_ret]|intros _].
  apply drains_bind; [apply drains_on_reader, plain_read_chunk|intros chunk].
  apply drains_bind; [apply drains_on_client, Invoke_drains|intros res].
  apply drains_bind; [apply drains_lift, plain_parseTLBool|intros ok].
  apply drains_bind; [by apply drains_guard|intros _].
  apply drains_bind; [apply drains_on_reader; by destruct (uo_Progress opts)|intros _; apply drains_ret].
Qed.

Lemma drains_UploadFile c size name opts : drains mu_fst (UploadFile c size name opts).
Proof.
  assert (Hl : forall n up ps part done hashed, drains mu_fst (upload_loop n c opts up ps part done hashed)).
  { induction n as [|n IH]; intros; cbn [upload_loop]; [apply drains_ret|].
    apply drains_bind; [apply drains_upload_part|intros r; apply IH]. }
  unfold UploadFile. apply drains_bind; [apply drains_on_client, drains_not_nil|intros _].
  apply drains_bind; [apply drains_get|intros s]. do 2 (apply drains_bind; [by apply drains_guard|intros _]). cbv zeta.
  apply drains_bind; [apply drains_on_client, drains_sources, plain_nonzero|intros id].
  apply drains_bind; [apply Hl|intros hashed; apply drains_ret].
Qed.

Lemma plain_encodeInputFile f b : plain_o (encodeInputFile f b).
Proof. intros e. unfold encodeInputFile. repeat case_match; try intros [= <-]; done. Qed.
Lemma plain_encodeInputMedia m b : plain_o (encodeInputMedia m b).
Proof.
  intros e. destruct m as [file opts|file opts]; cbn [encodeInputMedia]; cbv zeta; [apply plain_encodeInputFile|].
  pose proof (plain_encodeInputFile file) as Hf. destruct (encodeInputFile _ _) eqn:E; [done|intros [= <-]; by eapply Hf|done].
Qed.
Lemma plain_sendMedia peer media opts : plain_m (makeMessagesSendMediaQuery peer media opts).
Proof. unfold makeMessagesSendMediaQuery. plain_steps; first [apply plain_InputPeer_encode|apply plain_encodeInputMedia]. Qed.

Lemma drains_send_media media text c peer file opts : drains mu (send_media media text c peer file opts).
Proof.
  unfold send_media. destruct file as [file|]; [|by apply drains_fail]. cbv zeta.
  repeat first [apply drains_bind; [|intros ?] | apply Invoke_drains | apply drains_sources, plain_sendMedia | apply drains_ret
    | apply drains_not_nil].
Qed.

Lemma drains_send_to_peer send c peer file opts :
  (forall input, drains mu (send c input file opts)) -> drains mu (send_to_peer send c peer file opts).
Proof. intros Hs. unfold send_to_peer. destruct (PeerRef_InputPeer peer); [apply Hs|by apply drains_fail]. Qed.

(** *** Downloads *)

Lemma plain_getFile loc o l opts : plain_o (makeUploadGetFileQuery loc o l opts).
Proof.
  intros e. unfold makeUploadGetFileQuery, encodeInputFileLocation. cbv zeta.
  destruct loc; destruct (_ || _); try intros [= <-]; done.
Qed.
Lemma plain_parseUploadFile body : plain_o (parseUploadFile body).
Proof.
  intros e. unfold parseUploadFile. destruct (_ <? _); [by intros [= <-]|].
  destruct (u32_at body 0) as [x| |]; [|done..]. destruct (slice _ _ _); [|done..]. cbv zeta.
  repeat (destruct (_ =? _); [first [apply plain_eval; unfold read_uploadFile; by plain_steps|by intros [= <-]|done]|]).
  by intros [= <-].
Qed.

Lemma request_bind_drops {A B} (m : M S A) (k : A -> M S B) :
  request_drops mu m -> (forall a, drains mu (k a)) -> request_drops mu (x <- m ;; k x).
Proof.
  intros Hm Hk s. specialize (Hm s). unfold bind. destruct (m s) as [[a|e|] s1]; [|done..].
  specialize (Hk a s1). destruct (k a s1) as [[b|e|] s2]; [lia| |done]. split; [lia|right; lia].
Qed.
Lemma drains_bind_request {A B} (m : M S A) (k : A -> M S B) :
  drains mu m -> (forall a, request_drops mu (k a)) -> request_drops mu (x <- m ;; k x).
Proof.
  intros Hm Hk s. specialize (Hm s). unfold bind. destruct (m s) as [[a|e|] s1]; [|done..].
  specialize (Hk a s1). destruct (k a s1) as [[b|e|] s2]; [lia| |done]. destruct Hk as [H1 [H2|H2]]; split; auto; lia.
Qed.

Lemma UploadGetFilePart_drops c loc offset limit opts : request_drops mu (UploadGetFilePart c loc offset limit opts).
Proof.
  unfold UploadGetFilePart. apply drains_bind_request; [apply drains_not_nil|intros _].
  destruct loc as [loc|]; [|intros s; split; [apply Nat.le_refl|by left]]. cbv zeta.
  apply drains_bind_request; [apply drains_lift, plain_getFile|intros q].
  apply request_bind_drops; [apply drains_Invoke|intros res]. apply drains_lift, plain_parseUploadFile.
Qed.

(** The result of a download, its error being a value. *)
Definition result_drops {R} (s : S * R) (r : outcome (Z * option goerr) * (S * R)) : Prop :=
  match r with
  | (Ok (_, None), s') => (mu_fst s' <= mu_fst s)%nat
  | (Ok (_, Some e), s') | (Err e, s') => (mu_fst s' <= mu_fst s)%nat /\ (plain e \/ (mu_fst s' < mu_fst s)%nat)
  | (Panic, _) => True
  end.

(** A round that goes on has read something. *)
Lemma download_round_drops c loc opts ps offset s :
  match download_round c loc opts ps offset s with
  | (Ok (inl _), s') => (mu_fst s' < mu_fst s)%nat
  | (Ok (inr (_, None)), s') => (mu_fst s' <= mu_fst s)%nat
  | (Ok (inr (_, Some e)), s') | (Err e, s') => (mu_fst s' <= mu_fst s)%nat /\ (plain e \/ (mu_fst s' < mu_fst s)%nat)
  | (Panic, _) => True
  end.
Proof.
  destruct s as [s w]. unfold download_round. cbv zeta. set (limit := part_limit opts ps offset).
  destruct (limit <=? 0); [apply Nat.le_refl|]. unfold bind at 1, try, on_source, zoom. cbn [fst snd].
  pose proof (UploadGetFilePart_drops c loc offset limit opts s) as D.
  destruct (UploadGetFilePart c loc offset limit opts s) as [[part|e|] s1]; [|exact D|done].
  destruct (dp_CDNRedirect part); [split; [unfold mu_fst; cbn; lia|by left]|].
  destruct (_ =? 0); [unfold ret, mu_fst; cbn; lia|].
  unfold bind at 1, on_writer at 1, zoom at 1. cbn [fst snd]. destruct (w_Write (dp_Bytes part) w) as [[[n failed]|e|] w1] eqn:Ew.
  - unfold bind, on_writer, zoom. cbn [fst snd]. destruct (do_Progress opts); cbn [when report_download modify ret];
      (destruct failed; [split; [unfold mu_fst; cbn; lia|by left]|]; destruct (negb _); [split; [unfold mu_fst; cbn; lia|by left]|];
       destruct (_ <? limit); unfold ret, mu_fst; cbn; lia).
  - exfalso. unfold w_Write in Ew. by destruct (di_script w) as [|[]].
  - done.
Qed.

Lemma download_loop_drops stuck fuel c loc opts ps offset s :
  (forall s, result_drops s (stuck s)) -> result_drops s (download_loop stuck fuel c loc opts ps offset s).
Proof.
  intros Hs. revert offset s. induction fuel as [|fuel IH]; intros offset s; cbn [download_loop]; [apply Hs|].
  pose proof (download_round_drops c loc opts ps offset s) as D. unfold bind.
  destruct (download_round c loc opts ps offset s) as [[[o|[n [e|]]]|e|] s1]; [|exact D|exact D|exact D|done].
  specialize (IH o s1). destruct (download_loop stuck fuel c loc opts ps o s1) as [[[n [e|]]|e|] s2]; cbn in *; [..|done];
    [split; [lia|right; lia]|lia|split; [lia|right; lia]].
Qed.

(** More fuel than the stream is long changes nothing. *)
Lemma download_loop_fuel stuck f1 f2 c loc opts ps offset s :
  (mu_fst s < f1)%nat -> (mu_fst s < f2)%nat ->
  download_loop stuck f1 c loc opts ps offset s = download_loop stuck f2 c loc opts ps offset s.
Proof.
  revert f2 offset s. induction f1 as [|f1 IH]; intros f2 offset s H1 H2; [lia|]. destruct f2 as [|f2]; [lia|].
  cbn [download_loop]. pose proof (download_round_drops c loc opts ps offset s) as D. unfold bind.
  destruct (download_round c loc opts ps offset s) as [[[o|[n [e|]]]|e|] s1]; [|done..]. apply IH; lia.
Qed.
End Media.
