(* ===== verification/Life.v ===== *)
(** * Life: a client through any sequence of calls

    The methods of the client as one type of calls, and the states a client can
    reach by making them, in any order and whatever each returns. *)

From S2P Require Import Prelude Strings TL Transport Hash AES Crypto Envelope Auth Invoke Queries Client Account Password Peers Difference Api Media.

(** ** The calls *)

Inductive call :=
| CallInvoke (body : list byte)
| CallImportBotAuthorization (apiID : Z) (apiHash botToken : string)
| CallAuthSendCode (apiID : Z) (apiHash phone : string)
| CallAuthSignIn (apiID : Z) (phone hash code : string)
| CallAccountGetPassword
| CallAuthCheckPassword (params : option AccountPassword) (password : string)
| CallSendMessage (peer : InputPeer) (text : string) (opts : option SendOptions)
| CallSendMessageToPeer (peer : PeerRef) (text : string) (opts : option SendOptions)
| CallEditMessage (peer : InputPeer) (id : Z) (text : string) (opts : option EditOptions)
| CallEditMessageToPeer (peer : PeerRef) (id : Z) (text : string) (opts : option EditOptions)
| CallDeleteMessages (revoke : bool) (ids : list Z)
| CallForwardMessages (from to : InputPeer) (ids : list Z) (opts : ForwardOptions)
| CallForwardMessagesToPeer (from to : PeerRef) (ids : list Z) (opts : ForwardOptions)
| CallChannelsDeleteMessages (channel : PeerRef) (ids : list Z)
| CallGetHistory (peer : InputPeer) (limit : Z)
| CallGetMe
| CallResolveUsername (username : string)
| CallUpdatesGetState
| CallUpdatesGetDifference (state : UpdatesState) (ptsLimit : Z)
| CallUploadFile (reader : option (list byte)) (size : Z) (name : string) (opts : UploadOptions)
| CallDownloadFile (fuel : nat) (loc : option InputFileLocation) (writer : download_io) (opts : DownloadOptions)
| CallSendDocument (peer : InputPeer) (file : option UploadedFile) (opts : SendMediaOptions)
| CallSendDocumentToPeer (peer : PeerRef) (file : option UploadedFile) (opts : SendMediaOptions)
| CallSendPhoto (peer : InputPeer) (file : option UploadedFile) (opts : SendMediaOptions)
| CallSendPhotoToPeer (peer : PeerRef) (file : option UploadedFile) (opts : SendMediaOptions).

(** A file size is an int64. *)
Definition call_ok (k : call) : Prop :=
  match k with CallUploadFile _ size _ _ => is_i64 size | _ => True end.

Section Life.
Variable gunzip : list byte -> outcome (list byte).
Variable range_values : seen_map -> list PeerRef.

Definition void {S A} (m : M S A) : M S unit := _a <- m ;; ret tt.

(** A transfer with its own reader or writer. *)
Definition with_io {S R A} (io : R) (m : M (S * R) A) : M S unit := fun s =>
  let '(o, (s', _)) := m (s, io) in (omap_outcome (fun _ => tt) o, s').

#[local] Instance client : Invoker (EncryptedClient * env) := client_invoker gunzip.

Definition run (c : ctx) (k : call) : Method unit :=
  match k with
  | CallInvoke body => void (Client_Invoke gunzip c body)
  | CallImportBotAuthorization apiID apiHash token => void (ImportBotAuthorization gunzip c apiID apiHash token)
  | CallAuthSendCode apiID apiHash phone => void (AuthSendCode gunzip c apiID apiHash phone)
  | CallAuthSignIn apiID phone hash code => void (AuthSignIn gunzip c apiID phone hash code)
  | CallAccountGetPassword => void (AccountGetPassword gunzip c)
  | CallAuthCheckPassword params password => void (AuthCheckPassword gunzip c params password)
  | CallSendMessage peer text None => void (MessagesSendMessage gunzip c peer text)
  | CallSendMessage peer text (Some opts) => void (MessagesSendMessageWithOptions gunzip c peer text opts)
  | CallSendMessageToPeer peer text None => void (MessagesSendMessageToPeer gunzip c peer text)
  | CallSendMessageToPeer peer text (Some opts) => void (MessagesSendMessageToPeerWithOptions gunzip c peer text opts)
  | CallEditMessage peer id text None => void (MessagesEditMessage gunzip c peer id text)
  | CallEditMessage peer id text (Some opts) => void (MessagesEditMessageWithOptions gunzip c peer id text opts)
  | CallEditMessageToPeer peer id text None => void (MessagesEditMessageToPeer gunzip c peer id text)
  | CallEditMessageToPeer peer id text (Some opts) =>
      void (MessagesEditMessageToPeerWithOptions gunzip c peer id text opts)
  | CallDeleteMessages revoke ids => void (MessagesDeleteMessages gunzip c revoke ids)
  | CallForwardMessages from to ids opts => void (MessagesForwardMessages gunzip c from to ids opts)
  | CallForwardMessagesToPeer from to ids opts => void (MessagesForwardMessagesToPeer gunzip c from to ids opts)
  | CallChannelsDeleteMessages channel ids => void (ChannelsDeleteMessages gunzip c channel ids)
  | CallGetHistory peer limit => void (MessagesGetHistory gunzip c peer limit)
  | CallGetMe => void (GetMe gunzip c)
  | CallResolveUsername username => void (ResolveUsername gunzip range_values c username)
  | CallUpdatesGetState => void (UpdatesGetState gunzip c)
  | CallUpdatesGetDifference state limit => void (UpdatesGetDifference gunzip range_values c state limit)
  | CallUploadFile reader size name opts => with_io (UploadIO reader []) (UploadFile c size name opts)
  | CallDownloadFile fuel loc writer opts => with_io writer (DownloadFile (fail out_of_fuel) fuel c loc opts)
  | CallSendDocument peer file opts => void (MessagesSendUploadedDocument c peer file opts)
  | CallSendDocumentToPeer peer file opts => void (MessagesSendUploadedDocumentToPeer c peer file opts)
  | CallSendPhoto peer file opts => void (MessagesSendUploadedPhoto c peer file opts)
  | CallSendPhotoToPeer peer file opts => void (MessagesSendUploadedPhotoToPeer c peer file opts)
  end.

(** The states reached by calls that returned, with a value or an error. *)
Inductive life : EncryptedClient * env -> list (ctx * call) -> EncryptedClient * env -> Prop :=
| life_start s : life s [] s
| life_call s k ks c s1 s' : call_ok k -> snd (run c k s) = s1 -> life s1 ks s' -> life s ((c, k) :: ks) s'.

Hypothesis gunzip_returns : forall d, gunzip d <> Panic.

Lemma void_ok {A} (m : Method A) : method_ok m -> method_ok (void m).
Proof. intros Hm. apply method_ok_bind; [done|intros _; apply method_ok_ret]. Qed.

Lemma with_io_ok {R A} (io : R) (m : M ((EncryptedClient * env) * R) A) :
  (forall s0, preserves (kept s0) m) -> method_ok (with_io io m).
Proof.
  intros Hm s0 s Hs. unfold with_io. specialize (Hm s0 (s, io) Hs). by destruct (m (s, io)) as [[a|e|] [s' io']].
Qed.

Lemma run_ok c k : call_ok k -> method_ok (run c k).
Proof.
  intros Hk. pose proof (client_keeps gunzip gunzip_returns) as HK.
  destruct k as [| | | | | |? ? [?|]|? ? [?|]|? ? ? [?|]|? ? ? [?|]| | | | | | | | | | | | | | |]; cbn [run call_ok] in *;
    try (apply void_ok; first [by apply ImportBotAuthorization_ok|by apply AuthSendCode_ok|by apply AuthSignIn_ok|
      by apply AccountGetPassword_ok|by apply AuthCheckPassword_ok|by auto with methods]).
  - apply with_io_ok. intros s0. by apply (UploadFile_keeps (kept s0)).
  - apply with_io_ok. intros s0. apply (DownloadFile_keeps (kept s0)). by intros s Hs.
  - apply void_ok. intros s0. by apply (send_media_keeps (kept s0)).
  - apply void_ok. intros s0. apply (send_to_peer_keeps (kept s0)). intros i. by apply (send_media_keeps (kept s0)).
  - apply void_ok. intros s0. by apply (send_media_keeps (kept s0)).
  - apply void_ok. intros s0. apply (send_to_peer_keeps (kept s0)). intros i. by apply (send_media_keeps (kept s0)).
Qed.

Lemma life_kept s0 s ks s' : kept s0 s -> life s ks s' -> kept s0 s'.
Proof.
  intros Hk Hl. revert Hk. induction Hl as [|s k ks c s1 s' Hok E _ IH]; intros Hk; [done|]. apply IH.
  pose proof (run_ok c k Hok s0 s Hk) as R. rewrite <- E. by destruct (run c k s) as [[?|?|] ?].
Qed.
End Life.

(** C8. The life of a client (client.go, account.go, password.go, highlevel.go,
    state.go, difference.go, media.go): from a working client, through any
    sequence of calls of its methods with any arguments, whatever the server
    sends in between and whether the calls succeed or fail, the client stays a
    working one, with the data centre, key and session id it had, its deadline
    cleared, and no call opens or closes a connection or dials; and in every
    state so reached, no call panics. *)
Theorem client_life (gunzip : list byte -> outcome (list byte)) (range_values : seen_map -> list PeerRef)
    (s s' : EncryptedClient * env) (ks : list (ctx * call)) :
  (forall d, gunzip d <> Panic) -> client_wf (fst s) -> life gunzip range_values s ks s' ->
  kept s s' /\ forall c k, call_ok k -> fst (run gunzip range_values c k s') <> Panic.
Proof.
  intros Hg Hwf Hl.
  pose proof (life_kept gunzip range_values Hg s s ks s' (kept_refl s Hwf) Hl) as Hk. split; [done|]. intros c k Hok.
  pose proof (run_ok gunzip range_values Hg c k Hok s s' Hk) as R. by destruct (run _ _ c k s') as [[?|?|] ?].
Qed.

(** A client on a connection that has nothing more to say. *)
Definition demo_auth : AuthKeyResult :=
  result_key (replicate 256 x2a) [] (result_nonces (DC 2 "149.154.167.51:443") [] []).
Definition demo_state : encryptedState := newEncryptedState (replicate 8 x01) demo_auth.
Definition demo_client : EncryptedClient :=
  Client (Some (Link (Conn [] [] []) None)) (DC 2 "149.154.167.51:443") demo_auth (Some demo_state).
Definition quiet_env : env := Env (replicate 300 x07) (fun _ => 1700000000 * second) 0 [] 1 [].

Lemma demo_state_wf : es_wf demo_state.
Proof.
  unfold demo_state. apply newEncryptedState_wf; unfold demo_auth, result_key.
  - cbn [ak_AuthKey]. by rewrite len_replicate.
  - cbn [ak_AuthKeyID]. apply authKeyID_range.
  - cbn [ak_ServerSalt]. apply i64_range.
  - cbn [ak_TimeOffset result_nonces]. done.
Qed.

Lemma client_life_witness :
  let gunzip d := (Err (ErrNew "EOF")) : outcome (list byte) in
  let values (m : seen_map) := (map_to_list m).*2 in
  exists s', kept (demo_client, quiet_env) s' /\
    fst (run gunzip values None (CallUploadFile (Some []) 0 "a" (MkUpload 0 false)) s') <> Panic.
Proof.
  destruct (client_life (fun _ => Err (ErrNew "EOF")) (fun m => (map_to_list m).*2) (demo_client, quiet_env)
    (snd (run (fun _ => Err (ErrNew "EOF")) (fun m => (map_to_list m).*2) None
            (CallSendMessage InputPeerSelf "   " None) (demo_client, quiet_env)))
    [(None, CallSendMessage InputPeerSelf "   " None)]) as [H1 H2].
  - done.
  - exists (Link (Conn [] [] []) None), demo_state. do 3 (split; [reflexivity|]). exact demo_state_wf.
  - by eapply life_call; [|reflexivity|apply life_start].
  - eexists. split; [exact H1|]. by apply H2.
Defined.
