(* ===== verification/Session.v ===== *)
(** * Session: saved sessions (src/session_store.go, src/session/session.go,
    src/mtproto/session.go)

    The session stores over a file system whose operations can fail, the
    encryption of session files, and a client resumed from a session.  The JSON
    form of a session is in [Saved]. *)

From S2P Require Import Prelude Strings TL Transport Hash AES Crypto Envelope Auth Invoke Queries Kdf Seal Client Api Life.

(** ** Paths ([path/filepath], with slashes) *)

Fixpoint split_slash (l cur : list byte) : list (list byte) :=
  match l with
  | [] => [rev cur]
  | x2f :: l' => rev cur :: split_slash l' []
  | c :: l' => split_slash l' (c :: cur)
  end.

Definition dot : list byte := [x2e].
Definition dotdot : list byte := [x2e; x2e].

(** The elements kept, last first. *)
Fixpoint clean_elements (rooted : bool) (elements out : list (list byte)) : list (list byte) :=
  match elements with
  | [] => out
  | e :: rest =>
      if bool_decide (e = []) || bool_decide (e = dot) then clean_elements rooted rest out
      else if bool_decide (e = dotdot) then
        match out with
        | top :: out' =>
            if bool_decide (top = dotdot) then clean_elements rooted rest (dotdot :: out)
            else clean_elements rooted rest out'
        | [] => clean_elements rooted rest (if rooted then [] else [dotdot])
        end
      else clean_elements rooted rest (e :: out)
  end.

Fixpoint join_slash (l : list (list byte)) : list byte :=
  match l with [] => [] | [e] => e | e :: rest => e ++ x2f :: join_slash rest end.

Definition path_Clean (l : list byte) : list byte :=
  let rooted := match l with x2f :: _ => true | _ => false end in
  let body := join_slash (rev (clean_elements rooted (split_slash l []) [])) in
  if rooted then x2f :: body else match body with [] => dot | _ => body end.

Definition filepath_Join (elems : list string) : string :=
  match List.filter (fun e => negb (bool_decide (e = []))) (map bytes_of elems) with
  | [] => EmptyString
  | l => string_of (path_Clean (join_slash l))
  end.

(** Up to and with the last slash, cleaned. *)
Fixpoint from_slash (l : list byte) : list byte :=
  match l with [] => [] | x2f :: _ => l | _ :: l' => from_slash l' end.
Definition filepath_Dir (path : string) : string :=
  string_of (path_Clean (rev (from_slash (rev (bytes_of path))))).

(** ** The world of the stores

    The memory of the in-memory store, the files, the outcomes of the next file
    operations ([Some n] for a failure; a write that fails leaves the first [n]
    bytes, or nothing changed when [n] is negative; past the end they succeed),
    and the random source. *)
Record SessionData := MkSessionData { sd_Name : string; sd_Data : list byte }.

Record stores := Stores {
  ss_mem : gmap string SessionData; ss_fs : gmap string (list byte);
  ss_fails : list (option Z); ss_rng : list byte }.

Definition next_op : M stores (option Z) := fun w =>
  match ss_fails w with
  | [] => (Ok None, w)
  | f :: rest => (Ok f, Stores (ss_mem w) (ss_fs w) rest (ss_rng w))
  end.

Definition set_fs (fs : gmap string (list byte)) (w : stores) : stores :=
  Stores (ss_mem w) fs (ss_fails w) (ss_rng w).
Definition set_mem (mem : gmap string SessionData) (w : stores) : stores :=
  Stores mem (ss_fs w) (ss_fails w) (ss_rng w).
Definition set_stores_rng (r : list byte) (w : stores) : stores :=
  Stores (ss_mem w) (ss_fs w) (ss_fails w) r.

Definition not_exist : goerr := ErrEnv "file does not exist".
Definition IsNotExist (e : goerr) : bool := match e with ErrEnv "file does not exist" => true | _ => false end.

Definition os_ReadFile (path : string) : M stores (list byte) :=
  f <- next_op ;;
  match f with
  | Some _ => fail (ErrEnv "read")
  | None => w <- get ;; match ss_fs w !! path with Some data => ret data | None => fail not_exist end
  end.

Definition os_WriteFile (path : string) (data : list byte) : M stores unit :=
  f <- next_op ;;
  match f with
  | Some n =>
      modify (fun w => if n <? 0 then w else set_fs (<[path := sub data 0 (Z.min n (len data))]> (ss_fs w)) w) ;;
      fail (ErrEnv "write")
  | None => modify (fun w => set_fs (<[path := data]> (ss_fs w)) w)
  end.

Definition os_MkdirAll (dir : string) : M stores unit :=
  f <- next_op ;; match f with Some _ => fail (ErrEnv "mkdir") | None => ret tt end.

Definition os_Rename (old new : string) : M stores unit :=
  f <- next_op ;;
  match f with
  | Some _ => fail (ErrEnv "rename")
  | None =>
      w <- get ;;
      match ss_fs w !! old with
      | Some data => put (set_fs (<[new := data]> (delete old (ss_fs w))) w)
      | None => fail not_exist
      end
  end.

Definition os_Remove (path : string) : M stores unit :=
  f <- next_op ;;
  match f with
  | Some _ => fail (ErrEnv "remove")
  | None =>
      w <- get ;;
      match ss_fs w !! path with
      | Some _ => put (set_fs (delete path (ss_fs w)) w)
      | None => fail not_exist
      end
  end.

(** ** Encrypted session files *)

Definition encryptedSessionMagic : list byte := bytes_of "MPGSESS1".
Definition encryptedSessionIterations : Z := 120000.

Definition encryptSessionBytes (password : string) (plain : list byte) : M (list byte) (list byte) :=
  guard (negb (password =? EmptyString)%string) (ErrNew "session encryption password is required") ;;
  salt <- rng_Read 16 ;;
  nonce <- rng_Read 12 ;;
  let key := pbkdf2SHA256 (bytes_of password) salt encryptedSessionIterations 32 in
  block <- lift (aes_NewCipher key) ;;
  let out := encryptedSessionMagic ++ le_bytes 4 encryptedSessionIterations ++ salt ++ nonce ++
             gcm_Seal block nonce plain in
  ret (b64_encode out).

Definition open_session (password : string) (raw : list byte) : outcome (list byte) :=
  let iterations := le_value (sub raw 8 12) in
  let salt := sub raw 12 28 in
  let nonce := sub raw 28 40 in
  let ciphertext := sub raw 40 (len raw) in
  let key := pbkdf2SHA256 (bytes_of password) salt iterations 32 in
  match aes_NewCipher key with
  | Ok block => gcm_Open block nonce ciphertext
  | Err e => Err e
  | Panic => Panic
  end.

Definition decryptSessionBytes (password : string) (encoded : list byte) : outcome (list byte) :=
  if (password =? EmptyString)%string then Err (ErrNew "session encryption password is required")
  else
    match b64_decode (trim_bytes encoded) with
    | Ok raw =>
        if (len raw <? len encryptedSessionMagic + 4 + 16 + 12 + 16) ||
           negb (bool_decide (sub raw 0 (len encryptedSessionMagic) = encryptedSessionMagic))
        then Err (ErrNew "invalid encrypted session file")
        else open_session password raw
    | Err e => Err e
    | Panic => Panic
    end.

(** ** The stores *)

Inductive SessionStore :=
| memorySessionStore
| fileSessionStore (path : string)
| encryptedSessionStore (inner : SessionStore) (password : string).

Definition MemorySession : SessionStore := memorySessionStore.
Definition FileSession (path : string) : SessionStore := fileSessionStore path.
Definition EncryptedFileSession (path password : string) : SessionStore :=
  encryptedSessionStore (FileSession path) password.

Definition sessionPath (path name : string) : string :=
  let path := TrimSpace path in
  let path := if (path =? EmptyString)%string then ".mtprogo"%string else path in
  if HasSuffix path ".session" || HasSuffix path ".mtprogo" then path
  else
    let name := if (name =? EmptyString)%string then "default"%string else name in
    filepath_Join [path; (name ++ ".session")%string].

(** [select { case <-ctx.Done(): return ctx.Err() ... }] *)
Definition ctx_check (done : option goerr) : M stores unit :=
  match done with Some err => fail err | None => ret tt end.

Definition memory_Load (done : option goerr) (name : string) : M stores (option SessionData) :=
  ctx_check done ;; w <- get ;; ret (ss_mem w !! name).

Definition memory_Save (done : option goerr) (data : SessionData) : M stores unit :=
  ctx_check done ;; modify (fun w => set_mem (<[sd_Name data := data]> (ss_mem w)) w).

Definition memory_Delete (done : option goerr) (name : string) : M stores unit :=
  ctx_check done ;; modify (fun w => set_mem (delete name (ss_mem w)) w).

Definition file_Load (path : string) (done : option goerr) (name : string) : M stores (option SessionData) :=
  ctx_check done ;;
  data <- try (os_ReadFile (sessionPath path name)) ;;
  match data with
  | inl data => ret (Some (MkSessionData name data))
  | inr err => if IsNotExist err then ret None else fail err
  end.

Definition file_Save (path : string) (done : option goerr) (data : SessionData) : M stores unit :=
  ctx_check done ;;
  let path := sessionPath path (sd_Name data) in
  os_MkdirAll (filepath_Dir path) ;;
  let tmp := (path ++ ".tmp")%string in
  os_WriteFile tmp (sd_Data data) ;;
  os_Rename tmp path.

Definition file_Delete (path : string) (done : option goerr) (name : string) : M stores unit :=
  ctx_check done ;;
  r <- try (os_Remove (sessionPath path name)) ;;
  match r with
  | inl _ => ret tt
  | inr err => if IsNotExist err then ret tt else fail err
  end.

(** The interface's methods; the cases of [encryptedSessionStore] are written
    out. *)
Fixpoint Store_Load (store : SessionStore) (done : option goerr) (name : string) : M stores (option SessionData) :=
  match store with
  | memorySessionStore => memory_Load done name
  | fileSessionStore path => file_Load path done name
  | encryptedSessionStore inner password =>
      data <- Store_Load inner done name ;;
      match data with
      | None => ret None
      | Some data =>
          plain <- lift (decryptSessionBytes password (sd_Data data)) ;;
          ret (Some (MkSessionData (sd_Name data) plain))
      end
  end.

Fixpoint Store_Save (store : SessionStore) (done : option goerr) (data : SessionData) : M stores unit :=
  match store with
  | memorySessionStore => memory_Save done data
  | fileSessionStore path => file_Save path done data
  | encryptedSessionStore inner password =>
      sealed <- zoom ss_rng set_stores_rng (encryptSessionBytes password (sd_Data data)) ;;
      Store_Save inner done (MkSessionData (sd_Name data) sealed)
  end.

(** Every store of the package can delete. *)
Fixpoint Store_Delete (store : SessionStore) (done : option goerr) (name : string) : M stores unit :=
  match store with
  | memorySessionStore => memory_Delete done name
  | fileSessionStore path => file_Delete path done name
  | encryptedSessionStore inner _ => Store_Delete inner done name
  end.

(** The memory of [memorySessionWithData(name, data)]. *)
Definition memorySessionWithData (name : string) (data : list byte) : gmap string SessionData :=
  {[ name := MkSessionData name data ]}.

Definition clearSession (store : option SessionStore) (done : option goerr) (name : string) : M stores unit :=
  match store with None => ret tt | Some store => Store_Delete store done name end.

Module FileStore.

(** [session.FileStore], which writes in place. *)
Definition Load (dir : string) (done : option goerr) (name : string) : M stores (option (list byte)) :=
  ctx_check done ;;
  data <- try (os_ReadFile (filepath_Join [dir; (name ++ ".session")%string])) ;;
  match data with
  | inl data => ret (Some data)
  | inr err => if IsNotExist err then ret None else fail err
  end.

Definition Save (dir : string) (done : option goerr) (name : string) (data : list byte) : M stores unit :=
  ctx_check done ;;
  os_MkdirAll dir ;;
  os_WriteFile (filepath_Join [dir; (name ++ ".session")%string]) data.

End FileStore.

(** ** Sessions of a client (src/mtproto/session.go)

    A nil session is [None]; the dates are in seconds. *)
Record Session := MkSession {
  se_Version : Z; se_Kind : string; se_DCID : Z; se_Address : string; se_AuthKey : list byte;
  se_AuthKeyID : Z; se_ServerSalt : Z; se_SessionID : Z; se_TimeOffset : Z;
  se_CreatedAt : Z; se_UpdatedAt : Z }.

Definition sessionVersion : Z := 1.

Definition Valid (s : option Session) : outcome unit :=
  match s with
  | None => Err (ErrNew "mtproto: nil session")
  | Some s =>
      if se_DCID s <=? 0 then Err (ErrNew "mtproto: session dc id is required")
      else if (se_Address s =? EmptyString)%string then Err (ErrNew "mtproto: session dc address is required")
      else if negb (len (se_AuthKey s) =? 256) then Err (ErrNew "mtproto: session auth key must be 256 bytes")
      else if se_AuthKeyID s =? 0 then Err (ErrNew "mtproto: session auth key id is required")
      else Ok tt
  end.

Definition ExportSession (kind : string) : Method (option Session) :=
  s <- get ;;
  match ec_state (fst s) with
  | None => ret None
  | Some es =>
      now <- on_env env_Now ;;
      let auth := ec_auth (fst s) in
      ret (Some (MkSession sessionVersion kind (dc_ID (ec_dc (fst s))) (dc_Address (ec_dc (fst s)))
                   (ak_AuthKey auth) (ak_AuthKeyID auth) (es_serverSalt es) (es_sessionID es)
                   (es_timeOffset es) (unix now) (unix now)))
  end.

(** [randomInt64] on the sources of the process; an [int64], also when it is a
    reading of the clock. *)
Definition env_randomInt64 : M env Z := fun e =>
  let '(o, w) := randomInt64 (world_of (Link (Conn [] [] []) None) e) in (o, env_after w e).

Definition newEncryptedStateFromSession (session : Session) : M env encryptedState :=
  sid <- env_randomInt64 ;;
  ret (EncryptedState (se_AuthKey session) (se_AuthKeyID session) (se_ServerSalt session) (i64 sid)
         (se_TimeOffset session) 0 0).

Definition session_auth (session : Session) : AuthKeyResult :=
  AuthKey (se_DCID session) (se_Address session) [] [] [] [] [] [] 0 0 [] [] []
    (se_AuthKey session) (se_AuthKeyID session) (se_ServerSalt session) 0 (se_TimeOffset session)
    "auth key loaded from saved session".

Definition DialEncryptedFromSession (c : ctx) (session : option Session) : M env EncryptedClient :=
  lift (Valid session) ;;
  match session with
  | None => panic
  | Some session =>
      let dc := DC (se_DCID session) (se_Address session) in
      l <- dialMTProto c dc (20 * second) ;;
      state <- newEncryptedStateFromSession session ;;
      ret (Client (Some (Link (l_conn l) None)) dc (session_auth session) (Some state))
  end.

Example join_1 : filepath_Join ["a/b/"; "../c//d.session"]%string = "a/c/d.session"%string.
Proof. reflexivity. Qed.
Example join_2 : sessionPath "  " "x" = ".mtprogo"%string.
Proof. reflexivity. Qed.
Example dir_1 : (filepath_Dir "a/b/c", filepath_Dir "c", filepath_Dir "/c") = ("a/b", ".", "/")%string.
Proof. reflexivity. Qed.

(** ** The path of a session *)

Definition ends_with (suf l : list byte) : Prop := exists x, l = x ++ suf.

Lemma HasSuffix_ends s p : HasSuffix s p = true <-> ends_with (bytes_of p) (bytes_of s).
Proof.
  unfold HasSuffix, ends_with. split.
  - destruct (strip_prefix _ _) as [r|] eqn:E; [|done]. intros _. apply strip_prefix_spec in E. exists (rev r).
    by rewrite <- (rev_involutive (bytes_of s)), E, rev_app_distr, rev_involutive.
  - intros [x ->]. by rewrite rev_app_distr, strip_prefix_app.
Qed.

Lemma split_slash_last l suf cur : Forall (fun c => c <> x2f) suf ->
  exists es e, split_slash (l ++ suf) cur = es ++ [e ++ suf].
Proof.
  intros Hs. revert cur. induction l as [|c l IH]; intros cur.
  - exists [], (rev cur). cbn [app]. revert cur. induction Hs as [|c suf Hc _ IH]; intros cur; [cbn; by rewrite app_nil_r|].
    assert (E : split_slash (c :: suf) cur = split_slash suf (c :: cur)) by (by destruct c).
    rewrite E, IH. cbn [rev app]. by rewrite <- app_assoc.
  - cbn [app]. destruct (decide (c = x2f)) as [->|Hc].
    + destruct (IH []) as (es & e & E). exists (rev cur :: es), e. cbn [split_slash]. by rewrite E.
    + assert (E : split_slash (c :: l ++ suf) cur = split_slash (l ++ suf) (c :: cur)) by (by destruct c).
      rewrite E. apply IH.
Qed.

Lemma clean_elements_last rooted es e out : 2 < len e ->
  exists out', clean_elements rooted (es ++ [e]) out = e :: out'.
Proof.
  intros He. revert out. induction es as [|x es IH]; intros out.
  - exists out. cbn [app clean_elements]. rewrite !bool_decide_false by (intros ->; apply Z.lt_nge in He; by apply He). reflexivity.
  - cbn [app clean_elements]. repeat case_match; apply IH.
Qed.

Lemma join_slash_last es e : ends_with e (join_slash (es ++ [e])).
Proof.
  induction es as [|x es [y IH]]; [by exists []|].
  exists (x ++ x2f :: y). cbn [app join_slash]. destruct (es ++ [e]) eqn:E; [by destruct es|].
  rewrite IH, <- app_assoc. done.
Qed.

Lemma path_Clean_ends suf l : Forall (fun c => c <> x2f) suf -> 2 < len suf -> ends_with suf l -> ends_with suf (path_Clean l).
Proof.
  intros Hs Hl [x ->]. unfold path_Clean.
  set (rooted := match x ++ suf with x2f :: _ => true | _ => false end).
  destruct (split_slash_last x suf [] Hs) as (es & e & E). rewrite E.
  destruct (clean_elements_last rooted es (e ++ suf) [] ltac:(len_lia)) as [out' E']. rewrite E'. cbn [rev].
  destruct (join_slash_last (rev out') (e ++ suf)) as [y Ey]. rewrite Ey, app_assoc.
  destruct rooted; [exists (x2f :: y ++ e); done|].
  destruct ((y ++ e) ++ suf) as [|b body] eqn:Eb.
  - apply (f_equal (@length byte)) in Eb. rewrite length_app in Eb. cbn [length] in Eb. unfold len in Hl. lia.
  - rewrite <- Eb. by exists (y ++ e).
Qed.

Lemma filepath_Join_ends suf a b :
  Forall (fun c => c <> x2f) suf -> 2 < len suf -> ends_with suf (bytes_of b) ->
  ends_with suf (bytes_of (filepath_Join [a; b])).
Proof.
  intros Hs Hl [x Hx]. unfold filepath_Join. cbn [map List.filter].
  rewrite (bool_decide_false (bytes_of b = [])) by (rewrite Hx; intros E; apply (f_equal (@length byte)) in E; rewrite length_app in E; cbn [length] in E; unfold len in Hl; lia).
  cbn [negb]. destruct (negb _); rewrite bytes_of_string_of; apply path_Clean_ends; try done; cbn [join_slash].
  - rewrite Hx. exists (bytes_of a ++ x2f :: x). by rewrite <- app_assoc.
  - by exists x.
Qed.

Lemma sessionPath_ends path name :
  ends_with (bytes_of ".session") (bytes_of (sessionPath path name)) \/
  ends_with (bytes_of ".mtprogo") (bytes_of (sessionPath path name)).
Proof.
  unfold sessionPath. cbv zeta. set (p := if (TrimSpace path =? _)%string then _ else _).
  destruct (HasSuffix p ".session") eqn:E1; [left; by apply HasSuffix_ends|].
  destruct (HasSuffix p ".mtprogo") eqn:E2; [right; by apply HasSuffix_ends|]. left. cbn [orb].
  apply filepath_Join_ends; [repeat constructor; done|by vm_compute|].
  eexists. by rewrite bytes_of_app.
Qed.

(** No session file has the name of a temporary file. *)
Lemma sessionPath_not_tmp path name q : sessionPath path name <> (q ++ ".tmp")%string.
Proof.
  intros E. destruct (sessionPath_ends path name) as [[x Hx]|[x Hx]]; rewrite E, bytes_of_app in Hx;
    apply (f_equal (@rev byte)) in Hx; rewrite !rev_app_distr in Hx; discriminate Hx.
Qed.

(** ** Encrypted files *)

#[local] Opaque pbkdf2SHA256 aes_NewCipher gcm_Seal gcm_Open key_schedule.

Lemma session_key password salt iterations :
  exists block, aes_NewCipher (pbkdf2SHA256 (bytes_of password) salt iterations 32) = Ok block.
Proof. eexists. apply aes_NewCipher_ok. unfold aes_key_ok. right; right. by apply len_pbkdf2SHA256. Qed.

Lemma rng_Read_ok n (r bs r' : list byte) : 0 <= n -> rng_Read n r = (Ok bs, r') -> len bs = n.
Proof.
  intros Hn. unfold rng_Read. destruct (Z.leb_spec n (len r)) as [Hle|]; [|done].
  intros [= <- _]. rewrite len_sub by lia. lia.
Qed.

(** The fields of the decoded file. *)
Lemma decrypt_file block (salt nonce plain : list byte) : len salt = 16 -> len nonce = 12 ->
  let raw := encryptedSessionMagic ++ le_bytes 4 encryptedSessionIterations ++ salt ++ nonce ++
             gcm_Seal block nonce plain in
  (len raw <? len encryptedSessionMagic + 4 + 16 + 12 + 16) ||
    negb (bool_decide (sub raw 0 (len encryptedSessionMagic) = encryptedSessionMagic)) = false /\
  le_value (sub raw 8 12) = encryptedSessionIterations /\ sub raw 12 28 = salt /\ sub raw 28 40 = nonce /\
  sub raw 40 (len raw) = gcm_Seal block nonce plain.
Proof.
  intros Hs Hn raw. pose proof (len_gcm_Seal block nonce plain (len_length _ 12 Hn)) as Hc.
  pose proof (len_nonneg plain). assert (Hm : len encryptedSessionMagic = 8) by done.
  assert (Hi : len (le_bytes 4 encryptedSessionIterations) = 4) by apply len_le_bytes.
  assert (Hl : len raw = 56 + len plain) by (unfold raw; rewrite !len_app; lia).
  split; [|split; [|split; [|split]]].
  - rewrite (proj2 (Z.ltb_ge _ _)) by lia. unfold raw. rewrite sub_app_head by done. by rewrite bool_decide_true.
  - unfold raw. rewrite sub_app_mid by lia. by rewrite le_value_4.
  - unfold raw. rewrite (app_assoc encryptedSessionMagic). apply sub_app_mid; rewrite len_app; lia.
  - unfold raw. rewrite !(app_assoc _ _ (nonce ++ _)), !app_assoc, <- (app_assoc _ nonce).
    apply sub_app_mid; rewrite !len_app; lia.
  - rewrite Hl. unfold raw. rewrite !app_assoc. apply sub_app_tail; rewrite !len_app; lia.
Qed.

Lemma decrypt_encrypt password plain rng sealed rng' :
  encryptSessionBytes password plain rng = (Ok sealed, rng') -> decryptSessionBytes password sealed = Ok plain.
Proof.
  unfold encryptSessionBytes, decryptSessionBytes. intros H.
  apply bind_inv in H as (u & s0 & H0 & H). apply guard_inv in H0 as [Hp ->].
  apply bind_inv in H as (salt & s1 & Hsalt & H). apply rng_Read_ok in Hsalt; [|lia].
  apply bind_inv in H as (nonce & s2 & Hnonce & H). apply rng_Read_ok in Hnonce; [|lia].
  apply bind_inv in H as (block & s3 & Hblock & H). apply lift_inv in Hblock as [Hblock ->].
  cbv zeta in H. apply ret_inv in H as [<- _]. apply negb_true_iff in Hp. rewrite Hp.
  rewrite trim_graphic by apply b64_encode_graphic. rewrite b64_decode_encode.
  cbv iota.
  destruct (decrypt_file block salt nonce plain Hsalt Hnonce) as (Hl & H1 & H2 & H3 & H4).
  rewrite Hl. unfold open_session. rewrite H1, H2, H3, H4, Hblock. apply gcm_Open_Seal. by apply len_length.
Qed.

Lemma decryptSessionBytes_returns password encoded : decryptSessionBytes password encoded <> Panic.
Proof.
  unfold decryptSessionBytes. destruct (password =? "")%string; [done|].
  pose proof (b64_decode_returns (trim_bytes encoded)). destruct (b64_decode _) as [raw| |]; [|done|done].
  destruct (_ || _); [done|]. unfold open_session.
  destruct (session_key password (sub raw 12 28) (le_value (sub raw 8 12))) as [block ->]. apply gcm_Open_returns.
Qed.

Lemma nopanic_encryptSessionBytes password plain : nopanic (encryptSessionBytes password plain).
Proof.
  unfold encryptSessionBytes. apply nopanic_bind; [apply nopanic_guard|intros _].
  apply nopanic_bind; [apply nopanic_rng_Read|intros salt]. apply nopanic_bind; [apply nopanic_rng_Read|intros nonce].
  cbv zeta. destruct (session_key password salt encryptedSessionIterations) as [block ->].
  apply nopanic_bind; [by apply nopanic_lift|]. intros b. apply nopanic_ret.
Qed.

(** ** The contract of the stores *)

(** What [Load] finds when no file operation fails. *)
Definition healthy (w : stores) : stores := Stores (ss_mem w) (ss_fs w) [] (ss_rng w).
Definition contents (store : SessionStore) (w : stores) (name : string) : outcome (option SessionData) :=
  fst (Store_Load store None name (healthy w)).

(** The place of a session: names with the same one share it. *)
Fixpoint slot (store : SessionStore) (name : string) : string :=
  match store with
  | memorySessionStore => name
  | fileSessionStore path => sessionPath path name
  | encryptedSessionStore inner _ => slot inner name
  end.

Lemma contents_file path w name :
  contents (fileSessionStore path) w name = Ok (MkSessionData name <$> ss_fs w !! sessionPath path name).
Proof.
  unfold contents. cbn [Store_Load]. unfold file_Load, ctx_check, os_ReadFile, next_op, try, bind, get, ret, fail, healthy.
  cbn [ss_fails ss_fs]. by destruct (ss_fs w !! sessionPath path name).
Qed.

Lemma contents_encrypted inner password w name :
  contents (encryptedSessionStore inner password) w name =
  match contents inner w name with
  | Ok (Some data) => omap_outcome (fun plain => Some (MkSessionData (sd_Name data) plain)) (decryptSessionBytes password (sd_Data data))
  | other => other
  end.
Proof.
  unfold contents. cbn [Store_Load]. unfold bind at 1. destruct (Store_Load inner None name (healthy w)) as [[[data|]| |] w']; [|done..].
  cbn [fst]. unfold bind, lift, ret. by destruct (decryptSessionBytes _ _).
Qed.

(** Only the memory and the files matter. *)
Lemma contents_eq store w w' name :
  ss_mem w = ss_mem w' -> ss_fs w = ss_fs w' -> contents store w name = contents store w' name.
Proof.
  intros Hm Hf. induction store as [|path|inner IH password].
  - unfold contents. cbn. by rewrite Hm.
  - by rewrite !contents_file, Hf.
  - by rewrite !contents_encrypted, IH.
Qed.

(** The outcome of a write to place [s]: [found] there, the other places as
    before; nothing changed when it failed. *)
Definition written (store : SessionStore) (w : stores) (name : string) (found : option SessionData)
    (rw : outcome unit * stores) : Prop :=
  match rw with
  | (Ok _, w') =>
      contents store w' name = Ok found /\
      forall other, slot store other <> slot store name -> contents store w' other = contents store w other
  | (Err _, w') => forall other, contents store w' other = contents store w other
  | (Panic, _) => False
  end.

(** A change of the files outside the place of any session. *)
Lemma contents_fs_change path w w' name :
  ss_fs w' !! sessionPath path name = ss_fs w !! sessionPath path name ->
  contents (fileSessionStore path) w' name = contents (fileSessionStore path) w name.
Proof. intros H. by rewrite !contents_file, H. Qed.

Definition files (F : gmap string (list byte)) (w : stores) : Prop := ss_fs w = F.

Lemma next_op_spec F : hoare (files F) next_op (fun _ => files F) (fun _ => False).
Proof. intros w Hw. unfold next_op. by destruct (ss_fails w). Qed.

Lemma os_MkdirAll_spec F dir : hoare (files F) (os_MkdirAll dir) (fun _ => files F) (files F).
Proof.
  eapply hoare_bind; [eapply hoare_conseq; [apply next_op_spec|done..]|]. by intros [n|] w Hw.
Qed.

Lemma os_WriteFile_spec F path data :
  hoare (files F) (os_WriteFile path data) (fun _ => files (<[path := data]> F))
    (fun w => files F w \/ exists part, files (<[path := part]> F) w).
Proof.
  eapply hoare_bind; [eapply hoare_conseq; [apply next_op_spec|done..]|].
  intros [n|] w Hw; cbn; [|by rewrite Hw]. destruct (n <? 0); [by left|]. right. eexists. cbn. by rewrite Hw.
Qed.

Lemma os_Rename_spec F old new data : F !! old = Some data ->
  hoare (files F) (os_Rename old new) (fun _ => files (<[new := data]> (delete old F))) (files F).
Proof.
  intros Ho. eapply hoare_bind; [eapply hoare_conseq; [apply next_op_spec|done..]|].
  intros [n|] w Hw; [done|]. unfold files in Hw. unfold bind, get. by rewrite Hw, Ho.
Qed.

Lemma os_Remove_spec path w :
  match os_Remove path w with
  | (Ok _, w') => ss_fs w' = delete path (ss_fs w)
  | (Err e, w') => ss_fs w' = ss_fs w /\ (IsNotExist e = true -> ss_fs w !! path = None)
  | (Panic, _) => False
  end.
Proof.
  unfold os_Remove, next_op, bind, get, put, fail, set_fs.
  destruct (ss_fails w) as [|[n|] f]; [|done|]; cbn [ss_fs]; by destruct (ss_fs w !! path) eqn:E.
Qed.

Lemma file_save path done data w :
  written (fileSessionStore path) w (sd_Name data) (Some data) (Store_Save (fileSessionStore path) done data w).
Proof.
  set (p := sessionPath path (sd_Name data)). set (F := ss_fs w).
  assert (Ht : forall name q, sessionPath path name <> (q ++ ".tmp")%string) by (intros; apply sessionPath_not_tmp).
  assert (H : hoare (files F) (Store_Save (fileSessionStore path) done data)
    (fun _ => files (<[p := sd_Data data]> (delete (p ++ ".tmp")%string (<[(p ++ ".tmp")%string := sd_Data data]> F))))
    (fun w' => files F w' \/ exists part, files (<[(p ++ ".tmp")%string := part]> F) w')).
  { cbn [Store_Save]. unfold file_Save, ctx_check. destruct done as [e|]; [intros w' Hw; by left|].
    eapply hoare_bind; [apply hoare_ret|]. intros u. apply hoare_pure. intros _. cbv zeta. fold p.
    eapply (hoare_bind _ _ _ (fun _ => files F)); [eapply hoare_conseq; [apply os_MkdirAll_spec|eauto..]|intros _].
    eapply (hoare_bind _ _ _ (fun _ => files (<[(p ++ ".tmp")%string := sd_Data data]> F))); [apply os_WriteFile_spec|intros _].
    eapply hoare_conseq; [apply os_Rename_spec, lookup_insert_eq|by eauto..]. }
  specialize (H w eq_refl). destruct (Store_Save _ done data w) as [[[]|e|] w']; [..|done]; cbn [written].
  - unfold files in H. rewrite contents_file. cbn [slot]. fold p. rewrite H, lookup_insert_eq. destruct data. split; [done|].
    intros other Ho. apply contents_fs_change.
    by rewrite H, lookup_insert_ne, lookup_delete_ne, lookup_insert_ne by auto.
  - intros other. apply contents_fs_change. fold F. destruct H as [-> | [part ->]]; [done|].
    by rewrite lookup_insert_ne by auto.
Qed.

Lemma file_delete path done name w :
  written (fileSessionStore path) w name None (Store_Delete (fileSessionStore path) done name w).
Proof.
  cbn [Store_Delete]. unfold file_Delete, ctx_check. destruct done as [e|]; [done|]. rewrite bind_ret.
  pose proof (os_Remove_spec (sessionPath path name) w) as H. unfold try, bind at 1.
  destruct (os_Remove _ w) as [[u|e|] w']; [..|done].
  - unfold ret. cbn [written slot]. rewrite contents_file, H, lookup_delete_eq. split; [done|]. intros other Ho. apply contents_fs_change.
    by rewrite H, lookup_delete_ne by auto.
  - destruct H as [H He]. cbv beta iota. destruct (IsNotExist e); unfold ret, fail; cbn [written slot].
    + rewrite contents_file, H, He by done. split; [done|]. intros other _. apply contents_fs_change. by rewrite H.
    + intros other. apply contents_fs_change. by rewrite H.
Qed.

(** The claim's two halves, by recursion on the store. *)
Lemma stores_save store done data w :
  written store w (sd_Name data) (Some data) (Store_Save store done data w).
Proof.
  revert data w. induction store as [|path|inner IH password]; intros data w.
  - cbn [Store_Save]. unfold memory_Save, ctx_check, modify. destruct done as [e|]; [done|]. rewrite bind_ret. cbn [written slot].
    unfold contents. cbn. rewrite lookup_insert_eq. split; [done|]. intros other Ho. by rewrite lookup_insert_ne.
  - apply file_save.
  - cbn [Store_Save]. unfold bind at 1, zoom.
    pose proof (nopanic_encryptSessionBytes password (sd_Data data) (ss_rng w) I) as Hn.
    destruct (encryptSessionBytes password (sd_Data data) (ss_rng w)) as [[sealed|e|] r] eqn:E; [..|done]; clear Hn.
    + apply decrypt_encrypt in E. set (w0 := set_stores_rng r w).
      assert (Hw : forall name, contents inner w0 name = contents inner w name) by (intros; by apply contents_eq).
      specialize (IH (MkSessionData (sd_Name data) sealed) w0). cbn [sd_Name] in IH.
      destruct (Store_Save inner done _ w0) as [[u|e|] w']; cbn [written] in *; [..|done].
      * destruct IH as [H1 H2]. rewrite contents_encrypted, H1. cbn [sd_Data sd_Name]. rewrite E. destruct data.
        split; [done|]. intros other Ho. cbn [slot] in Ho. by rewrite !contents_encrypted, H2, Hw.
      * intros other. by rewrite !contents_encrypted, IH, Hw.
    + cbn [written]. intros other. by apply contents_eq.
Qed.

Lemma stores_delete store done name w :
  written store w name None (Store_Delete store done name w).
Proof.
  induction store as [|path|inner IH password].
  - cbn [Store_Delete]. unfold memory_Delete, ctx_check, modify. destruct done as [e|]; [done|]. rewrite bind_ret. cbn [written slot].
    unfold contents. cbn. rewrite lookup_delete_eq. split; [done|]. intros other Ho. by rewrite lookup_delete_ne.
  - apply file_delete.
  - cbn [Store_Delete]. destruct (Store_Delete inner done name w) as [[u|e|] w']; cbn [written] in *; [..|done].
    + destruct IH as [H1 H2]. rewrite contents_encrypted, H1. split; [done|]. intros other Ho. cbn [slot] in Ho.
      by rewrite !contents_encrypted, H2.
    + intros other. by rewrite !contents_encrypted, IH.
Qed.

Lemma stores_load store done name w :
  match Store_Load store done name w with
  | (Ok found, w') => contents store w name = Ok found /\ ss_mem w' = ss_mem w /\ ss_fs w' = ss_fs w
  | (Err _, w') => ss_mem w' = ss_mem w /\ ss_fs w' = ss_fs w
  | (Panic, _) => False
  end.
Proof.
  induction store as [|path|inner IH password].
  - cbn [Store_Load]. unfold memory_Load, ctx_check. by destruct done.
  - rewrite contents_file. cbn [Store_Load]. unfold file_Load, ctx_check. destruct done as [e|]; [done|].
    unfold os_ReadFile, next_op, try, bind, get, ret, fail.
    destruct (ss_fails w) as [|[n|] f]; cbn [ss_fs]; [|done|]; by destruct (ss_fs w !! sessionPath path name).
  - rewrite contents_encrypted. cbn [Store_Load]. unfold bind.
    destruct (Store_Load inner done name w) as [[[d|]|e|] w']; [..|done]; [destruct IH as (-> & H)|destruct IH as (-> & H)|]; [|done..].
    unfold lift, ret. pose proof (decryptSessionBytes_returns password (sd_Data d)).
    by destruct (decryptSessionBytes _ _).
Qed.

(** C24. Every store keeps its promises ([memorySessionStore],
    [fileSessionStore] and [encryptedSessionStore] of session_store.go, [Save],
    [Delete] and [Load]), whichever file operations fail and wherever a failing
    write stops: a [Save] that returns nil makes [Load] find exactly the saved
    data under that name, a [Delete] that returns nil makes it find nothing, and
    both leave the sessions with another place alone; when they return an error,
    every session is as it was.  A [Load] changes nothing, and when it returns no
    error it returns what is there.  None of them panics. *)
Theorem session_store_contract (store : SessionStore) (done : option goerr) (data : SessionData) (name : string) (w : stores) :
  written store w (sd_Name data) (Some data) (Store_Save store done data w) /\
  written store w name None (Store_Delete store done name w) /\
  match Store_Load store done name w with
  | (Ok found, w') => contents store w name = Ok found /\ ss_mem w' = ss_mem w /\ ss_fs w' = ss_fs w
  | (Err _, w') => ss_mem w' = ss_mem w /\ ss_fs w' = ss_fs w
  | (Panic, _) => False
  end.
Proof. split; [apply stores_save|]. split; [apply stores_delete|apply stores_load]. Qed.

(** The place of a session under the default path does not depend on its name:
    the second session saved replaces the first. *)
Theorem default_path_one_session (done : option goerr) (a b : SessionData) (w : stores) :
  match (Store_Save (FileSession "") done a ;; Store_Save (FileSession "") done b) w with
  | (Ok _, w') => contents (FileSession "") w' (sd_Name a) = Ok (Some (MkSessionData (sd_Name a) (sd_Data b)))
  | _ => True
  end.
Proof.
  unfold bind. pose proof (stores_save (FileSession "") done a w) as Ha.
  destruct (Store_Save _ done a w) as [[u|e|] w1]; [|done..].
  pose proof (stores_save (FileSession "") done b w1) as Hb.
  destruct (Store_Save _ done b w1) as [[v|e|] w2]; [|done..]. destruct Hb as [Hb _].
  unfold FileSession in *. rewrite contents_file in *. change (sessionPath "" (sd_Name a)) with (sessionPath "" (sd_Name b)).
  destruct (ss_fs w2 !! sessionPath "" (sd_Name b)) as [d|]; [|done]. injection Hb as <-. done.
Qed.

(** ** Resuming *)

(** The Go types of the fields. *)
Definition session_typed (s : Session) : Prop :=
  is_u64 (se_AuthKeyID s) /\ is_i64 (se_ServerSalt s) /\ is_i64 (se_TimeOffset s).

Lemma Valid_spec s :
  Valid (Some s) = Ok tt <->
  0 < se_DCID s /\ se_Address s <> EmptyString /\ len (se_AuthKey s) = 256 /\ se_AuthKeyID s <> 0.
Proof.
  unfold Valid. destruct (Z.leb_spec (se_DCID s) 0) as [Hd|Hd]; [split; [done|intros [H _]; lia]|].
  destruct (String.eqb_spec (se_Address s) EmptyString); [split; [done|tauto]|].
  destruct (Z.eqb_spec (len (se_AuthKey s)) 256); cbn [negb]; [|split; [done|tauto]].
  destruct (Z.eqb_spec (se_AuthKeyID s) 0); [split; [done|tauto]|]. split; [done|reflexivity].
Qed.

Lemma Valid_returns s : Valid s <> Panic.
Proof. unfold Valid. by repeat case_match. Qed.

Lemma randomInt64_total w e w' : randomInt64 w = (Err e, w') -> False.
Proof.
  unfold randomInt64, bind, try. destruct (on_rng (rng_Read 8) w) as [[b|x|] w1]; [|done..].
  cbv zeta. by destruct (_ =? 0).
Qed.

Lemma env_randomInt64_opened k n E :
  hoare (opened k n) env_randomInt64 (fun _ => opened k n) E.
Proof.
  intros e He. unfold env_randomInt64. pose proof (nopanic_randomInt64 (world_of (Link (Conn [] [] []) None) e) I) as H.
  by destruct (randomInt64 _) as [[v|x|] w] eqn:E1; [|apply randomInt64_total in E1|].
Qed.

Definition resumed_state (s : Session) (sid : Z) : encryptedState :=
  EncryptedState (se_AuthKey s) (se_AuthKeyID s) (se_ServerSalt s) sid (se_TimeOffset s) 0 0.

(** A working client that is the saved session's again: its endpoint, key, salt
    and clock, with no message sent yet. *)
Record resumed (s : Session) (c : EncryptedClient) : Prop := {
  rs_wf : client_wf c;
  rs_dc : ec_dc c = DC (se_DCID s) (se_Address s);
  rs_auth : ak_AuthKey (ec_auth c) = se_AuthKey s /\ ak_AuthKeyID (ec_auth c) = se_AuthKeyID s;
  rs_state : exists sid, ec_state c = Some (resumed_state s sid) }.

Lemma new_state_opened s k n E :
  hoare (opened k n) (newEncryptedStateFromSession s)
    (fun es e => (exists sid, is_i64 sid /\ es = resumed_state s sid) /\ opened k n e) E.
Proof.
  eapply hoare_bind; [apply env_randomInt64_opened|]. intros sid e He. split; [|done].
  exists (i64 sid). split; [apply i64_range|done].
Qed.

Lemma resumed_state_wf s sid : session_typed s -> len (se_AuthKey s) = 256 -> is_i64 sid -> es_wf (resumed_state s sid).
Proof. intros (H1 & H2 & H3) Hl Hs. unfold es_wf, resumed_state. cbn [es_authKey es_authKeyID es_serverSalt es_sessionID es_timeOffset es_seq es_lastMsgID]. by rewrite Hl. Qed.

Lemma dial_from_session c s k n :
  session_typed s ->
  hoare (opened k n) (DialEncryptedFromSession c (Some s))
    (fun cl e => resumed s cl /\ opened (k + 1) (pred n) e) (opened k n).
Proof.
  intros Ht. unfold DialEncryptedFromSession.
  eapply hoare_bind; [apply hoare_lift; [apply Valid_returns|done]|]. intros []. apply hoare_pure.
  intros (_ & _ & Hl & _)%Valid_spec. cbv zeta.
  eapply hoare_bind; [apply dialMTProto_opened|intros l].
  eapply hoare_bind; [apply new_state_opened|intros es]. apply hoare_pure. intros (sid & Hsid & ->) e He.
  split; [|done]. split; [|done|done|by eexists].
  do 2 eexists. split; [reflexivity|]. split; [done|]. split; [reflexivity|]. by apply resumed_state_wf.
Qed.

Lemma ExportSession_ok kind : method_ok (ExportSession kind).
Proof.
  unfold ExportSession. apply method_ok_bind; [apply method_ok_get|intros s]. destruct (ec_state (fst s)); [|apply method_ok_ret].
  apply method_ok_bind; [|intros now; apply method_ok_ret]. intros s0 [cl env0] Hs. cbn. destruct Hs; by split.
Qed.

(** A saved session resumes the client ([ExportSession], [Valid],
    [DialEncryptedFromSession]): a working client exports a session of its own
    endpoint, key, salt and clock offset; dialing from it never panics, and
    either returns a working client with exactly these, no message sent and one
    more connection open, or an error with none. *)
Theorem session_resumes (kind : string) (c : ctx) (s s' : EncryptedClient * env) (session : option Session) (k : Z) (n : nat) :
  client_wf (fst s) -> is_u64 (ak_AuthKeyID (ec_auth (fst s))) ->
  ExportSession kind s = (Ok session, s') ->
  exists sess es, session = Some sess /\ ec_state (fst s) = Some es /\
    DC (se_DCID sess) (se_Address sess) = ec_dc (fst s) /\
    se_AuthKey sess = ak_AuthKey (ec_auth (fst s)) /\ se_AuthKeyID sess = ak_AuthKeyID (ec_auth (fst s)) /\
    se_ServerSalt sess = es_serverSalt es /\ se_TimeOffset sess = es_timeOffset es /\
    hoare (opened k n) (DialEncryptedFromSession c session)
      (fun cl e => resumed sess cl /\ opened (k + 1) (pred n) e) (opened k n).
Proof.
  intros (l & es & Hl & _ & Hs & Hwf) Hid H. unfold ExportSession in H. run_inv. injection Hrun as <- <-. rewrite Hs in H.
  run_inv. do 2 eexists. split; [reflexivity|]. split; [exact Hs|].
  destruct (ec_dc (fst s)). do 5 (split; [done|]).
  apply dial_from_session. unfold session_typed. cbn. split; [done|]. split; apply Hwf.
Qed.

(** The client of [Life], saved and resumed on a new connection. *)
Definition demo_session : option Session :=
  ok_or None (fst (ExportSession "user" (demo_client, quiet_env))).
Definition dial_env : env := Env [] (fun _ => 0) 0 [Some (Conn [] [] [])] 1 [].

Lemma session_resumes_witness :
  is_ok (Valid demo_session) = true /\ is_ok (eval (DialEncryptedFromSession None demo_session) dial_env) = true /\
  exists sess, demo_session = Some sess /\
    hoare (opened 1 2) (DialEncryptedFromSession None demo_session)
      (fun cl e => resumed sess cl /\ opened 2 1 e) (opened 1 2).
Proof.
  split; [vm_compute; reflexivity|]. split; [vm_compute; reflexivity|].
  destruct (session_resumes "user" None (demo_client, quiet_env) (snd (ExportSession "user" (demo_client, quiet_env)))
    demo_session 1 2) as (sess & es & H1 & _ & _ & _ & _ & _ & _ & H2).
  - exists (Link (Conn [] [] []) None), demo_state. do 3 (split; [reflexivity|]). exact demo_state_wf.
  - split; [by apply authKeyID_range|apply authKeyID_range].
  - unfold demo_session. by destruct (ExportSession "user" (demo_client, quiet_env)) as [[o| |] s'] eqn:E.
  - exists sess. split; [exact H1|exact H2].
Defined.
