(* ===== verification/Json.v ===== *)
(** * Json: JSON texts, as the program reads and writes them ([encoding/json])

    Parsing and printing of JSON texts: the grammar, strings in UTF-8 with their
    escapes, numbers as literals, the limit on nesting; and the round trip. *)

From S2P Require Import Prelude Strings.

#[warnings="-register-all"]
Inductive json :=
| JNull
| JBool (b : bool)
| JNum (literal : list byte)
| JStr (s : list byte)
| JArr (elements : list json)
| JObj (members : list (list byte * json)).

(** ** UTF-8 ([unicode/utf8]) *)

Definition between (lo : Z) (b : byte) (hi : Z) : bool := (lo <=? b2z b) && (b2z b <=? hi).
Definition is_cont (b : byte) : bool := between 128 b 191.

Definition two_ok (b0 b1 : byte) : bool := between 194 b0 223 && is_cont b1.
Definition three_ok (b0 b1 b2 : byte) : bool :=
  ((between 224 b0 224 && between 160 b1 191) || (between 225 b0 236 && is_cont b1) ||
   (between 237 b0 237 && between 128 b1 159) || (between 238 b0 239 && is_cont b1)) && is_cont b2.
Definition four_ok (b0 b1 b2 b3 : byte) : bool :=
  ((between 240 b0 240 && between 144 b1 191) || (between 241 b0 243 && is_cont b1) ||
   (between 244 b0 244 && between 128 b1 143)) && is_cont b2 && is_cont b3.

(** The bytes of the first rune and the rest; [None] where [DecodeRune] returns
    [RuneError] with width 1. *)
Definition rune_split (l : list byte) : option (list byte * list byte) :=
  match l with
  | b0 :: r0 =>
      if b2z b0 <? 128 then Some ([b0], r0)
      else match r0 with
           | b1 :: r1 =>
               if two_ok b0 b1 then Some ([b0; b1], r1)
               else match r1 with
                    | b2 :: r2 =>
                        if three_ok b0 b1 b2 then Some ([b0; b1; b2], r2)
                        else match r2 with
                             | b3 :: r3 => if four_ok b0 b1 b2 b3 then Some ([b0; b1; b2; b3], r3) else None
                             | [] => None
                             end
                    | [] => None
                    end
           | [] => None
           end
  | [] => None
  end.

(** U+FFFD. *)
Definition replacement : list byte := [xef; xbf; xbd].

(** [utf8.EncodeRune] of a rune that is no surrogate. *)
Definition encode_rune (r : Z) : list byte :=
  if r <? 128 then [z2b r]
  else if r <? 2048 then [z2b (192 + r / 64); z2b (128 + r mod 64)]
  else if r <? 65536 then [z2b (224 + r / 4096); z2b (128 + r / 64 mod 64); z2b (128 + r mod 64)]
  else [z2b (240 + r / 262144); z2b (128 + r / 4096 mod 64); z2b (128 + r / 64 mod 64); z2b (128 + r mod 64)].

(** ** Errors *)

Definition err_json : goerr := ErrNew "invalid character in JSON".
Definition err_depth : goerr := ErrNew "exceeded max depth".
Definition err_type : goerr := ErrNew "json: cannot unmarshal into Go value".
Definition maxNestingDepth : Z := 10000.

(** ** Strings *)

Definition hex_val (b : byte) : option Z :=
  if between 48 b 57 then Some (b2z b - 48)
  else if between 97 b 102 then Some (b2z b - 87)
  else if between 65 b 70 then Some (b2z b - 55)
  else None.

(** Four hexadecimal digits. *)
Definition getu4 (l : list byte) : option (Z * list byte) :=
  match l with
  | a :: b :: c :: d :: r =>
      match hex_val a, hex_val b, hex_val c, hex_val d with
      | Some a, Some b, Some c, Some d => Some (((a * 16 + b) * 16 + c) * 16 + d, r)
      | _, _, _, _ => None
      end
  | _ => None
  end.

(** The second half of a surrogate pair, if it is there. *)
Definition low_surrogate (l : list byte) : option (Z * list byte) :=
  match l with
  | x5c :: x75 :: l' =>
      match getu4 l' with
      | Some (r, rest) => if (56320 <=? r) && (r <? 57344) then Some (r, rest) else None
      | None => None
      end
  | _ => None
  end.

(** After [\u]. *)
Definition unicode_escape (l : list byte) : outcome (list byte * list byte) :=
  match getu4 l with
  | None => Err err_json
  | Some (r, rest) =>
      if (55296 <=? r) && (r <? 57344) then
        match (if r <? 56320 then low_surrogate rest else None) with
        | Some (r2, rest') => Ok (encode_rune ((r - 55296) * 1024 + (r2 - 56320) + 65536), rest')
        | None => Ok (replacement, rest)
        end
      else Ok (encode_rune r, rest)
  end.

(** The character after a backslash. *)
Definition escape_sequence (l : list byte) : outcome (list byte * list byte) :=
  match l with
  | x22 :: r => Ok ([x22], r)
  | x5c :: r => Ok ([x5c], r)
  | x2f :: r => Ok ([x2f], r)
  | x62 :: r => Ok ([x08], r)
  | x66 :: r => Ok ([x0c], r)
  | x6e :: r => Ok ([x0a], r)
  | x72 :: r => Ok ([x0d], r)
  | x74 :: r => Ok ([x09], r)
  | x75 :: r => unicode_escape r
  | _ => Err err_json
  end.

(** One character of a string, decoded, and the rest. *)
Definition parse_char (b : byte) (r : list byte) : outcome (list byte * list byte) :=
  if decide (b = x5c) then escape_sequence r
  else if b2z b <? 32 then Err err_json
  else match rune_split (b :: r) with
       | Some x => Ok x
       | None => Ok (replacement, r)
       end.

(** What follows the opening quote.  A character takes at least one byte, so
    that a string is at its end when [length l] rounds are done. *)
Fixpoint parse_string (fuel : nat) (l : list byte) : outcome (list byte * list byte) :=
  match fuel, l with
  | S fuel', b :: r =>
      if decide (b = x22) then Ok ([], r)
      else match parse_char b r with
           | Ok (bs, r) => omap_outcome (fun '(s, r') => (bs ++ s, r')) (parse_string fuel' r)
           | Err e => Err e
           | Panic => Panic
           end
  | _, _ => Err err_json
  end.

(** [appendString] with [escapeHTML]. *)
Definition hex_digit (d : Z) : byte := z2b (if d <? 10 then 48 + d else 87 + d).
Definition escape_ascii (b : byte) : list byte :=
  match b with
  | x22 => [x5c; x22]
  | x5c => [x5c; x5c]
  | x08 => [x5c; x62]
  | x0c => [x5c; x66]
  | x0a => [x5c; x6e]
  | x0d => [x5c; x72]
  | x09 => [x5c; x74]
  | _ =>
      if (b2z b <? 32) || (b2z b =? 60) || (b2z b =? 62) || (b2z b =? 38)
      then bytes_of "\u00" ++ [hex_digit (b2z b / 16); hex_digit (b2z b mod 16)]
      else [b]
  end.

(** The first character, escaped, what it stands for, and the rest. *)
Definition escape_char (b : byte) (r : list byte) : list byte * list byte * list byte :=
  if b2z b <? 128 then (escape_ascii b, [b], r)
  else match rune_split (b :: r) with
       | None => (bytes_of "\ufffd", replacement, r)
       | Some (bs, rest) =>
           (if bool_decide (bs = [xe2; x80; xa8]) then bytes_of "\u2028"
            else if bool_decide (bs = [xe2; x80; xa9]) then bytes_of "\u2029"
            else bs, bs, rest)
       end.

Fixpoint escape (fuel : nat) (l : list byte) : list byte :=
  match fuel, l with
  | S fuel', b :: r => let '(out, _, rest) := escape_char b r in out ++ escape fuel' rest
  | _, _ => []
  end.

Definition quote (s : list byte) : list byte := x22 :: escape (length s) s ++ [x22].

(** [strings.ToValidUTF8] with U+FFFD for every invalid byte. *)
Fixpoint to_valid (fuel : nat) (l : list byte) : list byte :=
  match fuel, l with
  | S fuel', b :: r => let '(_, bs, rest) := escape_char b r in bs ++ to_valid fuel' rest
  | _, _ => []
  end.
Definition valid_text (s : list byte) : list byte := to_valid (length s) s.

(** ** Numbers *)

Definition is_digit (b : byte) : bool := between 48 b 57.

Fixpoint span_digits (l : list byte) : list byte * list byte :=
  match l with
  | b :: r => if is_digit b then let '(ds, rest) := span_digits r in (b :: ds, rest) else ([], l)
  | [] => ([], [])
  end.

(** One or more digits. *)
Definition digits1 (l : list byte) : option (list byte * list byte) :=
  match span_digits l with ([], _) => None | x => Some x end.

(** [0], or digits that do not start with it. *)
Definition int_part (l : list byte) : option (list byte * list byte) :=
  match l with
  | x30 :: r => Some ([x30], r)
  | _ => digits1 l
  end.

Definition frac_part (l : list byte) : option (list byte * list byte) :=
  match l with
  | x2e :: r => match digits1 r with Some (ds, rest) => Some (x2e :: ds, rest) | None => None end
  | _ => Some ([], l)
  end.

Definition exp_part (l : list byte) : option (list byte * list byte) :=
  match l with
  | b :: r =>
      if bool_decide (b = x65) || bool_decide (b = x45) then
        let '(sign, r) := match r with
                          | x2b :: r' => ([x2b], r')
                          | x2d :: r' => ([x2d], r')
                          | _ => ([], r)
                          end in
        match digits1 r with Some (ds, rest) => Some (b :: sign ++ ds, rest) | None => None end
      else Some ([], l)
  | [] => Some ([], [])
  end.

Definition parse_number (l : list byte) : outcome (list byte * list byte) :=
  let '(sign, l) := match l with x2d :: r => ([x2d], r) | _ => ([], l) end in
  match int_part l with
  | None => Err err_json
  | Some (i, l) =>
      match frac_part l with
      | None => Err err_json
      | Some (f, l) =>
          match exp_part l with
          | None => Err err_json
          | Some (e, rest) => Ok (sign ++ i ++ f ++ e, rest)
          end
      end
  end.

(** ** Texts *)

Definition is_space (b : byte) : bool := (b2z b =? 32) || (b2z b =? 9) || (b2z b =? 13) || (b2z b =? 10).
Fixpoint skip_ws (l : list byte) : list byte :=
  match l with b :: r => if is_space b then skip_ws r else l | [] => [] end.

(** A literal name. *)
Definition literal (word : list byte) (v : json) (l : list byte) : outcome (json * list byte) :=
  match strip_prefix word l with Some r => Ok (v, r) | None => Err err_json end.

(** Every call of [parse_value] but the first of a list takes a byte, so that
    [2 * length l + 2] calls are enough. *)
Fixpoint parse_value (fuel : nat) (depth : Z) (l : list byte) : outcome (json * list byte) :=
  match fuel with
  | O => Err out_of_fuel
  | S fuel' =>
      match skip_ws l with
      | [] => Err err_json
      | x7b :: r =>
          if depth <=? 0 then Err err_depth
          else match skip_ws r with
               | b :: rest =>
                   if decide (b = x7d) then Ok (JObj [], rest)
                   else omap_outcome (fun '(ms, rest) => (JObj ms, rest)) (parse_members fuel' (depth - 1) (b :: rest))
               | [] => Err err_json
               end
      | x5b :: r =>
          if depth <=? 0 then Err err_depth
          else match skip_ws r with
               | b :: rest =>
                   if decide (b = x5d) then Ok (JArr [], rest)
                   else omap_outcome (fun '(es, rest) => (JArr es, rest)) (parse_elements fuel' (depth - 1) (b :: rest))
               | [] => Err err_json
               end
      | x22 :: r => omap_outcome (fun '(s, rest) => (JStr s, rest)) (parse_string (length r) r)
      | x74 :: r => literal (bytes_of "rue") (JBool true) r
      | x66 :: r => literal (bytes_of "alse") (JBool false) r
      | x6e :: r => literal (bytes_of "ull") JNull r
      | l' => omap_outcome (fun '(n, rest) => (JNum n, rest)) (parse_number l')
      end
  end
with parse_elements (fuel : nat) (depth : Z) (l : list byte) : outcome (list json * list byte) :=
  match fuel with
  | O => Err out_of_fuel
  | S fuel' =>
      match parse_value fuel' depth l with
      | Ok (v, r) =>
          match skip_ws r with
          | x2c :: r => omap_outcome (fun '(es, rest) => (v :: es, rest)) (parse_elements fuel' depth r)
          | x5d :: rest => Ok ([v], rest)
          | _ => Err err_json
          end
      | Err e => Err e
      | Panic => Panic
      end
  end
with parse_members (fuel : nat) (depth : Z) (l : list byte) : outcome (list (list byte * json) * list byte) :=
  match fuel with
  | O => Err out_of_fuel
  | S fuel' =>
      match skip_ws l with
      | x22 :: r =>
          match parse_string (length r) r with
          | Ok (key, r) =>
              match skip_ws r with
              | x3a :: r =>
                  match parse_value fuel' depth r with
                  | Ok (v, r) =>
                      match skip_ws r with
                      | x2c :: r => omap_outcome (fun '(ms, rest) => ((key, v) :: ms, rest)) (parse_members fuel' depth r)
                      | x7d :: rest => Ok ([(key, v)], rest)
                      | _ => Err err_json
                      end
                  | Err e => Err e
                  | Panic => Panic
                  end
              | _ => Err err_json
              end
          | Err e => Err e
          | Panic => Panic
          end
      | _ => Err err_json
      end
  end.

(** A text is one value. *)
Definition json_parse (l : list byte) : outcome json :=
  match parse_value (2 * length l + 2) maxNestingDepth l with
  | Ok (v, rest) => match skip_ws rest with [] => Ok v | _ => Err err_json end
  | Err e => Err e
  | Panic => Panic
  end.

(** ** Printing *)

Fixpoint join_comma (l : list (list byte)) : list byte :=
  match l with [] => [] | [x] => x | x :: rest => x ++ x2c :: join_comma rest end.

Fixpoint json_print (v : json) : list byte :=
  match v with
  | JNull => bytes_of "null"
  | JBool true => bytes_of "true"
  | JBool false => bytes_of "false"
  | JNum literal => literal
  | JStr s => quote s
  | JArr es => x5b :: join_comma (map json_print es) ++ [x5d]
  | JObj ms => x7b :: join_comma (map (fun '(k, v) => quote k ++ x3a :: json_print v) ms) ++ [x7d]
  end.

Definition qt : string := String (Ascii.ascii_of_nat 34) EmptyString.
Example print_1 : json_print (JObj [(bytes_of "a", JArr [JNum [x31]; JNull]); (bytes_of "b<", JStr [x0a; xff])]) =
  x7b :: quote (bytes_of "a") ++ bytes_of ":[1,null]," ++ quote (bytes_of "b<") ++ x3a :: quote [x0a; xff] ++ [x7d].
Proof. vm_compute. reflexivity. Qed.
Example quote_1 : quote [x0a; xff; x3c; xe2; x80; xa8] = bytes_of (qt ++ "\n\ufffd\u003c\u2028" ++ qt)%string.
Proof. vm_compute. reflexivity. Qed.
Example parse_1 : json_parse (bytes_of " [1, -2.5e+3 , [ ],{} ,true] ") =
  Ok (JArr [JNum [x31]; JNum (bytes_of "-2.5e+3"); JArr []; JObj []; JBool true]).
Proof. vm_compute. reflexivity. Qed.
Example parse_2 : map is_ok (map json_parse (map bytes_of ["01"; "[1,]"; "{}x"; "nul"; "1.e2"; "-"; EmptyString; "[1 2]"]%string)) =
  replicate 8 false.
Proof. vm_compute. reflexivity. Qed.
Example parse_pair : json_parse (bytes_of (qt ++ "\ud83d\ude00\ud83dx" ++ qt)%string) =
  Ok (JStr ([xf0; x9f; x98; x80] ++ replacement ++ [x78])).
Proof. vm_compute. reflexivity. Qed.

(** ** Strings: printing and parsing *)

Lemma rune_split_app l bs r : rune_split l = Some (bs, r) ->
  l = bs ++ r /\ bs <> [] /\ forall t, rune_split (bs ++ t) = Some (bs, t).
Proof.
  unfold rune_split. intros H. repeat case_match; simplify_eq; (split; [done|split; [done|intros t; cbn]]);
    repeat match goal with E : ?x = _ |- context [?x] => rewrite E end; done.
Qed.

(** What [escape_char] prints of a character parses to it. *)
Definition char_ok (out bs : list byte) : Prop :=
  exists c o, out = c :: o /\ c <> x22 /\ forall t, parse_char c (o ++ t) = Ok (bs, t).

Lemma char_ok_ascii b : (b2z b <? 128) = true -> char_ok (escape_ascii b) [b].
Proof. intros H. destruct b; try discriminate H; (do 2 eexists; split; [reflexivity|split; [discriminate|reflexivity]]). Qed.

Lemma parse_char_high b r : (b2z b <? 128) = false ->
  parse_char b r = match rune_split (b :: r) with Some x => Ok x | None => Ok (replacement, r) end.
Proof.
  intros H. unfold parse_char. destruct (decide (b = x5c)) as [->|]; [done|].
  apply Z.ltb_ge in H. by rewrite (proj2 (Z.ltb_ge _ 32)) by lia.
Qed.

Lemma escape_char_ok b r : let '(out, bs, rest) := escape_char b r in
  char_ok out bs /\ (length rest <= length r)%nat.
Proof.
  unfold escape_char. destruct (b2z b <? 128) eqn:E; [split; [by apply char_ok_ascii|done]|].
  destruct (rune_split (b :: r)) as [[bs rest]|] eqn:Er.
  2:{ split; [|done]. do 2 eexists. split; [reflexivity|split; [discriminate|reflexivity]]. }
  apply rune_split_app in Er as (El & Hn & Ht). destruct bs as [|c bs]; [done|]. injection El as <- ->.
  split; [|rewrite length_app; lia]. repeat case_bool_decide.
  - rewrite H. do 2 eexists. split; [reflexivity|split; [discriminate|reflexivity]].
  - rewrite H0. do 2 eexists. split; [reflexivity|split; [discriminate|reflexivity]].
  - exists b, bs. split; [done|]. split; [intros ->; discriminate E|]. intros t.
    rewrite parse_char_high by done. change (b :: bs ++ t) with ((b :: bs) ++ t). by rewrite Ht.
Qed.

Lemma parse_string_escape n s f t : (length s <= n)%nat -> (length (escape n s) < f)%nat ->
  parse_string f (escape n s ++ x22 :: t) = Ok (to_valid n s, t).
Proof.
  revert s f. induction n as [|n IH]; intros [|b r] f Hs Hf; cbn [length] in Hs; try lia;
    [destruct f; [cbn in Hf; lia|done]..|].
  cbn [escape to_valid] in *. pose proof (escape_char_ok b r) as H.
  destruct (escape_char b r) as [[out bs] rest]. destruct H as [(c & o & -> & Hc & Hp) Hr].
  rewrite length_app in Hf. cbn [length] in Hf. destruct f as [|f]; [lia|]. cbn [app parse_string].
  rewrite decide_False by done. rewrite <- app_assoc, Hp, IH by lia. done.
Qed.

(** The text of a string, and what follows it. *)
Lemma parse_quote s t : exists r, quote s ++ t = x22 :: r /\ parse_string (length r) r = Ok (valid_text s, t).
Proof.
  unfold quote. exists ((escape (length s) s ++ [x22]) ++ t). split; [reflexivity|]. rewrite <- app_assoc.
  apply parse_string_escape; [done|].
  rewrite length_app. cbn. lia.
Qed.

(** ASCII text is valid. *)
Lemma valid_ascii s : is_ascii s = true -> valid_text s = s.
Proof.
  unfold valid_text. intros H. assert (G : forall n, (length s <= n)%nat -> to_valid n s = s).
  { induction s as [|b s IH]; intros [|n] Hn; cbn [length] in Hn; try lia; [done..|].
    cbn [is_ascii forallb] in H. apply andb_prop in H as [Hb Hs]. cbn [to_valid]. unfold escape_char. rewrite Hb.
    cbn [app]. by rewrite IH by (done || lia). }
  by apply G.
Qed.

(** Replacing invalid bytes leaves nothing to replace. *)
Lemma to_valid_stable n m s : (length s <= n)%nat -> (length (to_valid n s) <= m)%nat -> to_valid m (to_valid n s) = to_valid n s.
Proof.
  revert s m. induction n as [|n IH]; intros [|b r] m Hs Hm; cbn [length] in Hs; try lia; [by destruct m..|].
  cbn [to_valid] in *. pose proof (escape_char_ok b r) as H. unfold escape_char in *.
  destruct (b2z b <? 128) eqn:E.
  { destruct H as [_ Hr]. cbn [app] in *. destruct m as [|m]; [cbn in Hm; lia|]. cbn [to_valid]. unfold escape_char. rewrite E.
    cbn [app length] in *. by rewrite IH by lia. }
  destruct (rune_split (b :: r)) as [[bs rest]|] eqn:Er.
  - destruct H as [_ Hr]. apply rune_split_app in Er as (El & Hn & Ht). destruct bs as [|c bs]; [done|]. injection El as <- ->.
    rewrite length_app in Hm. cbn [length] in Hm. destruct m as [|m]; [lia|]. cbn [app to_valid]. unfold escape_char. rewrite E.
    change (b :: bs ++ ?x) with ((b :: bs) ++ x). rewrite Ht. cbn [app]. by rewrite IH by lia.
  - destruct H as [_ Hr]. destruct m as [|m]; [cbn in Hm; lia|]. cbn [app to_valid replacement]. unfold escape_char.
    change (b2z xef <? 128) with false.
    assert (Ef : forall t, rune_split (xef :: xbf :: xbd :: t) = Some ([xef; xbf; xbd], t)) by done. rewrite Ef.
    cbn [app]. cbn [app length replacement] in Hm. by rewrite IH by lia.
Qed.

Lemma valid_text_idem s : valid_text (valid_text s) = valid_text s.
Proof. by apply to_valid_stable. Qed.

(** ** Numbers *)

(** Where a number ends. *)
Definition ends (t : list byte) : bool :=
  match t with
  | [] => true
  | b :: _ => negb (is_digit b || bool_decide (b = x2e) || bool_decide (b = x65) || bool_decide (b = x45))
  end.

Definition number (lit : list byte) : Prop :=
  (exists b r, lit = b :: r /\ (b = x2d \/ is_digit b = true)) /\
  forall t, ends t = true -> parse_number (lit ++ t) = Ok (lit, t).

Lemma span_digits_app ds t : forallb is_digit ds = true -> ends t = true -> span_digits (ds ++ t) = (ds, t).
Proof.
  intros Hd Ht. induction ds as [|d ds IH]; cbn [app span_digits].
  - destruct t as [|b t]; [done|]. cbn [ends] in Ht. cbn [span_digits]. by destruct (is_digit b).
  - cbn [forallb] in Hd. apply andb_prop in Hd as [H1 H2]. by rewrite H1, IH.
Qed.

Lemma frac_exp_end t : ends t = true -> frac_part t = Some ([], t) /\ exp_part t = Some ([], t).
Proof.
  destruct t as [|b t]; [done|]. unfold ends, exp_part. intros H. apply negb_true_iff in H.
  apply orb_false_iff in H as [H H4]. apply orb_false_iff in H as [H H3]. apply orb_false_iff in H as [_ H2].
  rewrite H3, H4. split; [|done]. apply bool_decide_eq_false in H2. unfold frac_part. by destruct b.
Qed.

Lemma int_part_digits d ds t : forallb is_digit (d :: ds) = true -> d <> x30 -> ends t = true ->
  int_part (d :: ds ++ t) = Some (d :: ds, t).
Proof.
  intros Hd H0 Ht. unfold int_part, digits1. change (d :: ds ++ t) with ((d :: ds) ++ t).
  rewrite span_digits_app by done. cbn [app]. by destruct d.
Qed.

(** A nonempty list of digits without leading zero. *)
Lemma number_digits (neg : bool) d ds : forallb is_digit (d :: ds) = true -> d <> x30 ->
  number ((if neg then [x2d] else []) ++ d :: ds).
Proof.
  intros Hd H0. split.
  { destruct neg; do 2 eexists; (split; [reflexivity|]); [by left|]. right. cbn [forallb] in Hd.
    by apply andb_prop in Hd as [Hd _]. }
  intros t Ht. destruct (frac_exp_end t Ht) as [Hf He].
  assert (E : int_part ((d :: ds) ++ t) = Some (d :: ds, t)) by (by apply int_part_digits).
  unfold parse_number. destruct neg; cbn [app] in *; [by rewrite E, Hf, He, app_nil_r|].
  assert (Es : (match d with x2d => ([x2d], ds ++ t) | _ => ([], d :: ds ++ t) end) = ([], d :: ds ++ t)).
  { cbn [forallb] in Hd. apply andb_prop in Hd as [Hd _]. by destruct d. }
  rewrite Es, E, Hf, He. by rewrite app_nil_r.
Qed.

Lemma dec_loop_digits fuel u buf : forallb is_digit buf = true -> forallb is_digit (dec_loop fuel u buf) = true.
Proof.
  revert u buf. induction fuel as [|fuel IH]; intros u buf H; [done|]. cbn [dec_loop]. destruct (0 <? u); [|done].
  apply IH. cbn [forallb]. rewrite H, andb_true_r. unfold is_digit, between.
  pose proof (Z.mod_pos_bound u 10 ltac:(lia)). rewrite b2z_z2b, Z.mod_small by lia.
  apply andb_true_intro. split; apply Z.leb_le; lia.
Qed.

(** The first digit printed is that of the last round. *)
Lemma dec_loop_first fuel u buf : 0 < u < 10 ^ Z.of_nat fuel ->
  exists d r, dec_loop fuel u buf = d :: r /\ d <> x30.
Proof.
  revert u buf. induction fuel as [|fuel IH]; intros u buf Hu; [change (10 ^ Z.of_nat 0) with 1 in Hu; lia|].
  cbn [dec_loop]. rewrite (proj2 (Z.ltb_lt 0 u)) by lia. rewrite Nat2Z.inj_succ, Z.pow_succ_r in Hu by lia.
  destruct (Z.eq_dec (u / 10) 0) as [E|E].
  - rewrite E. assert (Hs : dec_loop fuel 0 (z2b (48 + u mod 10) :: buf) = z2b (48 + u mod 10) :: buf) by (by destruct fuel).
    rewrite Hs. do 2 eexists. split; [reflexivity|]. intros H. apply (f_equal b2z) in H.
    rewrite b2z_z2b in H. change (b2z x30) with 48 in H. zlia.
  - apply IH. split; [zlia|]. apply Z.div_lt_upper_bound; lia.
Qed.

Lemma number_FormatInt v : - 10 ^ 20 < v < 10 ^ 20 -> number (bytes_of (FormatInt v)).
Proof.
  intros Hv. unfold FormatInt. rewrite bytes_of_string_of. destruct (Z.eqb_spec v 0) as [->|H0].
  { split; [by exists x30, []; auto|]. intros t Ht. destruct (frac_exp_end t Ht) as [Hf He].
    unfold parse_number. cbn [app int_part]. by rewrite Hf, He. }
  destruct (Z.ltb_spec v 0).
  - destruct (dec_loop_first 20 (- v) []) as (d & r & E & Hd); [change (Z.of_nat 20) with 20; lia|].
    pose proof (dec_loop_digits 20 (- v) [] eq_refl) as Hg. rewrite E in *. by apply (number_digits true).
  - destruct (dec_loop_first 20 v []) as (d & r & E & Hd); [change (Z.of_nat 20) with 20; lia|].
    pose proof (dec_loop_digits 20 v [] eq_refl) as Hg. rewrite E in *. by apply (number_digits false).
Qed.

(** ** Texts: printing and parsing *)

Section Induction.
Variable P : json -> Prop.
Hypothesis null : P JNull.
Hypothesis boolean : forall b, P (JBool b).
Hypothesis num : forall n, P (JNum n).
Hypothesis str : forall s, P (JStr s).
Hypothesis arr : forall es, Forall P es -> P (JArr es).
Hypothesis obj : forall ms, Forall (fun m => P (snd m)) ms -> P (JObj ms).

(** Induction with the hypothesis for every element and member. *)
Lemma json_nested_ind : forall v, P v.
Proof.
  fix IH 1. intros [|b|n|s|es|ms]; [apply null|apply boolean|apply num|apply str|apply arr|apply obj].
  - induction es as [|e es IHes]; constructor; [apply IH|exact IHes].
  - induction ms as [|m ms IHms]; constructor; [apply IH|exact IHms].
Qed.
End Induction.

(** Values that print to JSON texts of at most [d] levels. *)
Fixpoint json_wf (d : Z) (v : json) : Prop :=
  match v with
  | JNum n => number n
  | JArr es => 0 < d /\ (fix all l := match l with [] => True | e :: l => json_wf (d - 1) e /\ all l end) es
  | JObj ms => 0 < d /\ (fix all l := match l with [] => True | m :: l => json_wf (d - 1) (snd m) /\ all l end) ms
  | _ => True
  end.

(** The value with its strings made valid. *)
Fixpoint json_clean (v : json) : json :=
  match v with
  | JStr s => JStr (valid_text s)
  | JArr es => JArr (map json_clean es)
  | JObj ms => JObj (map (fun '(k, v) => (valid_text k, json_clean v)) ms)
  | _ => v
  end.

Lemma json_wf_arr d es : json_wf d (JArr es) <-> 0 < d /\ Forall (json_wf (d - 1)) es.
Proof.
  cbn [json_wf]. apply and_iff_compat_l. induction es as [|e es IH]; [split; [constructor|done]|].
  rewrite IH. split; [intros [H1 H2]; by constructor|by inversion 1].
Qed.
Lemma json_wf_obj d ms : json_wf d (JObj ms) <-> 0 < d /\ Forall (fun m => json_wf (d - 1) (snd m)) ms.
Proof.
  cbn [json_wf]. apply and_iff_compat_l. induction ms as [|m ms IH]; [split; [constructor|done]|].
  rewrite IH. split; [intros [H1 H2]; by constructor|by inversion 1].
Qed.

(** How a value starts. *)
Definition starts (b : byte) : Prop := is_space b = false /\ b <> x5d /\ b <> x7d.

Lemma number_start b : b = x2d \/ is_digit b = true ->
  starts b /\ forall f d r, parse_value (S f) d (b :: r) =
    omap_outcome (fun '(n, rest) => (JNum n, rest)) (parse_number (b :: r)).
Proof. intros [->|H]; [by split|]. unfold starts. destruct b; try discriminate H; by split. Qed.

Lemma json_print_start d v : json_wf d v -> exists b r, json_print v = b :: r /\ starts b.
Proof.
  destruct v as [|[]|n|s|es|ms]; cbn [json_print json_wf]; intros H; try (do 2 eexists; by split).
  destruct H as [(b & r & -> & Hb) _]. do 2 eexists. split; [done|]. by apply number_start.
Qed.

Lemma skip_ws_start b r : starts b -> skip_ws (b :: r) = b :: r.
Proof. intros [H _]. cbn [skip_ws]. by rewrite H. Qed.

Definition prints (v : json) : Prop := forall d f t,
  json_wf d v -> ends t = true -> (2 * length (json_print v) <= f)%nat ->
  parse_value f d (json_print v ++ t) = Ok (json_clean v, t).

(** The elements of an array, the members of an object, to its end. *)
Lemma parse_elements_print e es d f t : Forall prints (e :: es) -> Forall (json_wf d) (e :: es) ->
  (2 * length (join_comma (map json_print (e :: es))) + 1 <= f)%nat ->
  parse_elements f d (join_comma (map json_print (e :: es)) ++ x5d :: t) = Ok (map json_clean (e :: es), t).
Proof.
  revert e f. induction es as [|e' es IH]; intros e f Hp Hw Hf; inversion_clear Hp as [|? ? Hp1 Hp2];
    inversion_clear Hw as [|? ? Hw1 Hw2]; destruct f as [|f]; try (cbn in Hf; lia); cbn [parse_elements].
  - cbn [map join_comma] in *. rewrite (Hp1 d) by (done || lia). done.
  - change (join_comma (map json_print (e :: e' :: es)))
      with (json_print e ++ x2c :: join_comma (map json_print (e' :: es))) in *.
    rewrite length_app in Hf. cbn [length] in Hf. rewrite <- app_assoc, (Hp1 d) by (done || lia).
    change (skip_ws ((x2c :: ?l) ++ x5d :: t)) with (x2c :: l ++ x5d :: t). cbn iota. by rewrite IH by (done || lia).
Qed.

Definition print_member : list byte * json -> list byte := fun '(k, v) => quote k ++ x3a :: json_print v.
Definition clean_member : list byte * json -> list byte * json := fun '(k, v) => (valid_text k, json_clean v).

Lemma parse_members_print m ms d f t :
  Forall (fun m => prints (snd m)) (m :: ms) -> Forall (fun m => json_wf d (snd m)) (m :: ms) ->
  (2 * length (join_comma (map print_member (m :: ms))) + 1 <= f)%nat ->
  parse_members f d (join_comma (map print_member (m :: ms)) ++ x7d :: t) = Ok (map clean_member (m :: ms), t).
Proof.
  revert m f. induction ms as [|m' ms IH]; intros [k v] f Hp Hw Hf; inversion_clear Hp as [|? ? Hp1 Hp2];
    inversion_clear Hw as [|? ? Hw1 Hw2]; destruct f as [|f]; try (cbn in Hf; lia); cbn [snd] in *.
  - cbn [map join_comma print_member] in *. rewrite length_app in Hf. cbn [length] in Hf. cbn [parse_members].
    rewrite <- app_assoc. destruct (parse_quote k ((x3a :: json_print v) ++ x7d :: t)) as (r & E1 & E2).
    rewrite E1. change (skip_ws (x22 :: r)) with (x22 :: r). cbn iota. rewrite E2.
    change (skip_ws ((x3a :: ?l) ++ ?m)) with (x3a :: l ++ m). cbn iota. by rewrite (Hp1 d) by (done || lia).
  - change (join_comma (map print_member ((k, v) :: m' :: ms)))
      with ((quote k ++ x3a :: json_print v) ++ x2c :: join_comma (map print_member (m' :: ms))) in *.
    rewrite !length_app in Hf. cbn [length] in Hf. cbn [parse_members]. rewrite <- !app_assoc.
    set (rest := (x2c :: join_comma (map print_member (m' :: ms))) ++ x7d :: t).
    destruct (parse_quote k ((x3a :: json_print v) ++ rest)) as (r & E1 & E2).
    rewrite E1. change (skip_ws (x22 :: r)) with (x22 :: r). cbn iota. rewrite E2.
    change (skip_ws ((x3a :: ?l) ++ ?m)) with (x3a :: l ++ m). cbn iota. rewrite (Hp1 d) by (done || lia).
    change (skip_ws rest) with rest. unfold rest. cbn [app]. by rewrite IH by (done || lia).
Qed.

Lemma json_print_obj ms : json_print (JObj ms) = x7b :: join_comma (map print_member ms) ++ [x7d].
Proof. reflexivity. Qed.

Lemma elements_start d e es t : json_wf d e ->
  skip_ws (join_comma (map json_print (e :: es)) ++ t) = join_comma (map json_print (e :: es)) ++ t /\
  exists b r, join_comma (map json_print (e :: es)) ++ t = b :: r /\ starts b.
Proof.
  intros H. destruct (json_print_start d e H) as (b & r & E & Hb).
  assert (Ex : exists r', join_comma (map json_print (e :: es)) ++ t = b :: r').
  { cbn [map join_comma]. rewrite E. destruct (map json_print es); cbn [app]; by eexists. }
  destruct Ex as [r' ->]. split; [by apply skip_ws_start|]. by exists b, r'.
Qed.

Lemma parse_print v : prints v.
Proof.
  induction v as [|b|n|s|es IH|ms IH] using json_nested_ind; intros d f t Hw Ht Hf;
    (destruct f as [|f]; [destruct (json_print_start d _ Hw) as (? & ? & E & _); rewrite E in Hf; cbn in Hf; lia|]).
  - done.
  - by destruct b.
  - destruct Hw as [(b & r & -> & Hb) Hn]. destruct (number_start b Hb) as [_ H]. specialize (Hn t Ht).
    cbn [json_print json_clean app] in *. by rewrite H, Hn.
  - cbn [json_print]. destruct (parse_quote s t) as (r & -> & E). cbn [parse_value].
    change (skip_ws (x22 :: r)) with (x22 :: r). cbn iota. by rewrite E.
  - apply json_wf_arr in Hw as [Hd Hw]. cbn [json_print] in *. cbn [app parse_value].
    change (skip_ws (x5b :: ?l)) with (x5b :: l). cbn iota. rewrite (proj2 (Z.leb_gt d 0)) by lia.
    destruct es as [|e es]; [done|]. cbn [length] in Hf. rewrite length_app in Hf. cbn [length] in Hf.
    inversion Hw as [|? ? Hw1 _]; subst. rewrite <- app_assoc. cbn [app].
    destruct (elements_start (d - 1) e es (x5d :: t) Hw1) as (Es & b & r & E & _ & Hb & _).
    rewrite Es, E, decide_False, <- E by done. by rewrite parse_elements_print by (done || lia).
  - apply json_wf_obj in Hw as [Hd Hw]. rewrite json_print_obj in *. cbn [app parse_value].
    change (skip_ws (x7b :: ?l)) with (x7b :: l). cbn iota. rewrite (proj2 (Z.leb_gt d 0)) by lia.
    destruct ms as [|m ms]; [done|]. cbn [length] in Hf. rewrite length_app in Hf. cbn [length] in Hf.
    rewrite <- app_assoc. cbn [app].
    assert (E : exists r, join_comma (map print_member (m :: ms)) ++ x7d :: t = x22 :: r).
    { destruct m as [k v]. cbn [map join_comma print_member]. unfold quote. destruct (map print_member ms); by eexists. }
    destruct E as [r E]. rewrite E. change (skip_ws (x22 :: r)) with (x22 :: r). cbn iota.
    rewrite decide_False, <- E by done. by rewrite parse_members_print by (done || lia).
Qed.

(** A text with nothing after it. *)
Lemma json_parse_print v : json_wf maxNestingDepth v -> json_parse (json_print v) = Ok (json_clean v).
Proof.
  intros Hw. unfold json_parse. pose proof (parse_print v maxNestingDepth (2 * length (json_print v) + 2)%nat [] Hw eq_refl ltac:(lia)) as H.
  rewrite app_nil_r in H. by rewrite H.
Qed.

(** ** The parser ends *)

(** A result without the fuel's end, that leaves less than [n] bytes. *)
Definition parsed {A} (n : nat) (o : outcome (A * list byte)) : Prop :=
  match o with Ok (_, r) => (length r < n)%nat | Err e => e <> out_of_fuel | Panic => False end.

Lemma parsed_omap {A B} n (f : A * list byte -> B * list byte) o :
  (forall a r, snd (f (a, r)) = r) -> parsed n o -> parsed n (omap_outcome f o).
Proof.
  intros Hf. destruct o as [[a r]|e|]; cbn; [|done..]. specialize (Hf a r). by destruct (f (a, r)) as [b r']; cbn in *; subst.
Qed.
Lemma parsed_le {A} n m (o : outcome (A * list byte)) : parsed n o -> (n <= m)%nat -> parsed m o.
Proof. destruct o as [[a r]|e|]; cbn; [lia|done..]. Qed.

Lemma getu4_rest l v r : getu4 l = Some (v, r) -> (length r < length l)%nat.
Proof. unfold getu4. intros H. repeat case_match; simplify_eq. cbn. lia. Qed.

Lemma low_surrogate_rest l v r : low_surrogate l = Some (v, r) -> (length r < length l)%nat.
Proof.
  unfold low_surrogate. intros H. repeat case_match; simplify_eq.
  match goal with E : getu4 _ = _ |- _ => apply getu4_rest in E end. cbn. lia.
Qed.

Lemma unicode_escape_rest l : parsed (length l) (unicode_escape l).
Proof.
  unfold unicode_escape. destruct (getu4 l) as [[v r]|] eqn:E; [|done]. apply getu4_rest in E.
  destruct (_ && _); [|done]. destruct (if v <? 56320 then _ else _) as [[w r']|] eqn:E'; [|done].
  destruct (v <? 56320); [|done]. apply low_surrogate_rest in E'. cbn. lia.
Qed.

Lemma parse_char_rest b r : parsed (S (length r)) (parse_char b r).
Proof.
  unfold parse_char. destruct (decide (b = x5c)).
  - unfold escape_sequence. destruct r as [|c r]; [done|].
    destruct c; try (cbn; lia); try done. eapply parsed_le; [apply unicode_escape_rest|cbn; lia].
  - destruct (_ <? 32); [done|]. destruct (rune_split (b :: r)) as [[bs rest]|] eqn:E; [|cbn; lia].
    apply rune_split_app in E as (E & Hn & _). destruct bs as [|c bs]; [done|]. injection E as <- ->.
    cbn. rewrite length_app. lia.
Qed.

Lemma parse_string_rest f l : parsed (length l) (parse_string f l).
Proof.
  revert l. induction f as [|f IH]; intros [|b r]; try done. cbn [parse_string]. destruct (decide _); [cbn; lia|].
  pose proof (parse_char_rest b r) as H. destruct (parse_char b r) as [[bs r']|e|]; cbn in H; [|done..].
  apply parsed_omap; [done|]. eapply parsed_le; [apply IH|cbn; lia].
Qed.

Lemma span_digits_rest l ds r : span_digits l = (ds, r) -> l = ds ++ r.
Proof.
  revert ds r. induction l as [|b l IH]; intros ds r; cbn [span_digits]; [by intros [= <- <-]|].
  destruct (is_digit b); [|by intros [= <- <-]]. destruct (span_digits l) as [ds' r'] eqn:E.
  intros [= <- <-]. by rewrite (IH ds' r').
Qed.
Lemma digits1_rest l ds r : digits1 l = Some (ds, r) -> (length r < length l)%nat.
Proof.
  unfold digits1. destruct (span_digits l) as [[|d ds'] r'] eqn:E; [done|]. intros [= <- <-].
  apply span_digits_rest in E as ->. cbn. rewrite length_app. lia.
Qed.
Lemma int_part_rest l ds r : int_part l = Some (ds, r) -> (length r < length l)%nat.
Proof.
  unfold int_part. destruct l as [|[] l]; try apply digits1_rest. intros [= <- <-]. cbn. lia.
Qed.
Lemma frac_part_rest l ds r : frac_part l = Some (ds, r) -> (length r <= length l)%nat.
Proof.
  unfold frac_part. destruct l as [|b l]; [by intros [= <- <-]|]. destruct b; try (by intros [= <- <-]).
  destruct (digits1 l) as [[ds' r']|] eqn:E; [|done]. intros [= <- <-]. apply digits1_rest in E. cbn. lia.
Qed.
Lemma exp_part_rest l ds r : exp_part l = Some (ds, r) -> (length r <= length l)%nat.
Proof.
  unfold exp_part. destruct l as [|b l]; [by intros [= <- <-]|]. destruct (_ || _); [|by intros [= <- <-]].
  assert (G : forall sign l', (length l' <= length l)%nat ->
    match digits1 l' with Some (ds, rest) => Some (b :: sign ++ ds, rest) | None => None end = Some (ds, r) ->
    (length r <= length (b :: l))%nat).
  { intros sign l' Hl H. destruct (digits1 l') as [[ds' r']|] eqn:E; [|done]. injection H as <- <-. apply digits1_rest in E.
    cbn. lia. }
  destruct l as [|c l]; [by apply G|]. destruct c; apply G; cbn; lia.
Qed.

Lemma parse_number_rest l : parsed (length l) (parse_number l).
Proof.
  unfold parse_number.
  assert (G : forall sign l', (length l' <= length l)%nat ->
    parsed (length l) (match int_part l' with
      | None => Err err_json
      | Some (i, l) => match frac_part l with
          | None => Err err_json
          | Some (f, l) => match exp_part l with
              | None => Err err_json | Some (e, rest) => Ok (sign ++ i ++ f ++ e, rest) end end end)).
  { intros sign l' Hl. destruct (int_part l') as [[i l1]|] eqn:E1; [|done]. apply int_part_rest in E1.
    destruct (frac_part l1) as [[f l2]|] eqn:E2; [|done]. apply frac_part_rest in E2.
    destruct (exp_part l2) as [[e l3]|] eqn:E3; [|done]. apply exp_part_rest in E3. cbn. lia. }
  destruct l as [|c l]; [by apply G|]. destruct c; apply G; cbn; lia.
Qed.

Lemma skip_ws_le l : (length (skip_ws l) <= length l)%nat.
Proof. induction l as [|b l IH]; [done|]. cbn [skip_ws]. destruct (is_space b); cbn; lia. Qed.

Lemma literal_rest word v l : parsed (S (length l)) (literal word v l).
Proof.
  unfold literal. destruct (strip_prefix word l) as [r|] eqn:E; [|done]. apply strip_prefix_spec in E as ->.
  cbn. rewrite length_app. lia.
Qed.

(** The rest after one more character. *)
Lemma skip_ws_cons l b r : skip_ws l = b :: r -> (length r < length l)%nat.
Proof. intros E. pose proof (skip_ws_le l) as H. rewrite E in H. cbn in H. lia. Qed.

Lemma parser_ends f :
  (forall d l, (2 * length l + 1 <= f)%nat -> parsed (length l) (parse_value f d l)) /\
  (forall d l, (2 * length l + 2 <= f)%nat -> parsed (length l) (parse_elements f d l)) /\
  (forall d l, (2 * length l + 2 <= f)%nat -> parsed (length l) (parse_members f d l)).
Proof.
  induction f as [|f (IHv & IHe & IHm)]; [split_and!; intros; lia|]. split_and!; intros d l Hf.
  - cbn [parse_value]. destruct (skip_ws l) as [|c r] eqn:E; [done|]. pose proof (skip_ws_cons _ _ _ E) as Hr.
    assert (Hnum : parsed (length l) (omap_outcome (fun '(n, rest) => (JNum n, rest)) (parse_number (c :: r)))).
    { apply parsed_omap; [done|]. eapply parsed_le; [apply parse_number_rest|cbn; lia]. }
    destruct c; try exact Hnum; clear Hnum; try (eapply parsed_le; [apply literal_rest|lia]).
    + apply parsed_omap; [done|]. eapply parsed_le; [apply parse_string_rest|lia].
    + destruct (d <=? 0); [done|]. destruct (skip_ws r) as [|b rest] eqn:Es; [done|].
      pose proof (skip_ws_cons _ _ _ Es). destruct (decide _); [cbn; lia|]. apply parsed_omap; [done|].
      eapply parsed_le; [apply IHe|]; cbn; lia.
    + destruct (d <=? 0); [done|]. destruct (skip_ws r) as [|b rest] eqn:Es; [done|].
      pose proof (skip_ws_cons _ _ _ Es). destruct (decide _); [cbn; lia|]. apply parsed_omap; [done|].
      eapply parsed_le; [apply IHm|]; cbn; lia.
  - cbn [parse_elements]. pose proof (IHv d l ltac:(lia)) as Hv. destruct (parse_value f d l) as [[v r]|e|]; cbn in Hv; [|done..].
    destruct (skip_ws r) as [|c r'] eqn:E; [done|]. pose proof (skip_ws_cons _ _ _ E). destruct c; try done; [|cbn; lia].
    apply parsed_omap; [done|]. eapply parsed_le; [apply IHe|]; lia.
  - cbn [parse_members]. destruct (skip_ws l) as [|c r] eqn:E; [done|]. pose proof (skip_ws_cons _ _ _ E) as Hr.
    destruct c; try done. pose proof (parse_string_rest (length r) r) as Hs.
    destruct (parse_string (length r) r) as [[key r1]|e|]; cbn in Hs; [|done..].
    destruct (skip_ws r1) as [|c r2] eqn:E2; [done|]. pose proof (skip_ws_cons _ _ _ E2). destruct c; try done.
    pose proof (IHv d r2 ltac:(lia)) as Hv. destruct (parse_value f d r2) as [[v r3]|e|]; cbn in Hv; [|done..].
    destruct (skip_ws r3) as [|c r4] eqn:E4; [done|]. pose proof (skip_ws_cons _ _ _ E4). destruct c; try done; [|cbn; lia].
    apply parsed_omap; [done|]. eapply parsed_le; [apply IHm|]; lia.
Qed.

(** Parsing ends with a value or an error of the text. *)
Lemma json_parse_ends l : json_parse l <> Panic /\ json_parse l <> Err out_of_fuel.
Proof.
  unfold json_parse. pose proof (proj1 (parser_ends (2 * length l + 2)) maxNestingDepth l ltac:(lia)) as H.
  destruct (parse_value _ _ l) as [[v r]|e|]; [by destruct (skip_ws r)| |done]. split; [done|]. intros [= ->]. done.
Qed.
