(* ===== verification/Codec.v ===== *)
(** * Codec: JSON texts and Go values ([encoding/json], [encoding/base64])

    Decoding of JSON values into structs as [json.Unmarshal] does it, matching of
    field names included, and the encoding of the field types; standard base64. *)

From S2P Require Import Prelude Strings Hash AES Crypto Seal Json.

(** ** Decoders

    A decoder takes what the variable holds and a value.  Where Go notes a type
    error and goes on, the model stops: the callers drop what was decoded.  The
    types of the program need structs, strings, booleans, integers, byte slices,
    slices of structs and pointers to structs.  (A key that occurs three times with arrays
    of changing lengths may expose elements of the first in Go; here the third
    array starts from the second.) *)

Definition decoder (A : Type) : Type := A -> json -> outcome A.

Definition dec_string : decoder string := fun old v =>
  match v with JStr s => Ok (string_of s) | JNull => Ok old | _ => Err err_type end.

Definition dec_bool : decoder bool := fun old v =>
  match v with JBool b => Ok b | JNull => Ok old | _ => Err err_type end.

(** [strconv.ParseInt], and the range of the kind. *)
Definition dec_int (lo hi : Z) : decoder Z := fun old v =>
  match v with
  | JNum n =>
      match ParseInt64 (string_of n) with
      | Ok z => if (lo <=? z) && (z <=? hi) then Ok z else Err err_type
      | _ => Err err_type
      end
  | JNull => Ok old
  | _ => Err err_type
  end.
Definition dec_int32 : decoder Z := dec_int (- two31) (two31 - 1).
Definition dec_int64 : decoder Z := dec_int (- two63) (two63 - 1).

(** [strconv.ParseUint(s, 10, 64)], and the range of the kind. *)
Definition ParseUint64 (l : list byte) : outcome Z :=
  match l with
  | [] => Err err_syntax
  | _ => match parse_digits l 0 with
         | Some u => if u <? two64 then Ok u else Err err_range
         | None => Err err_syntax
         end
  end.
Definition dec_uint (hi : Z) : decoder Z := fun old v =>
  match v with
  | JNum n =>
      match ParseUint64 n with
      | Ok z => if z <=? hi then Ok z else Err err_type
      | _ => Err err_type
      end
  | JNull => Ok old
  | _ => Err err_type
  end.
Definition dec_uint64 : decoder Z := dec_uint (two64 - 1).
Definition dec_uint8 : decoder byte := fun old v => omap_outcome z2b (dec_uint 255 (b2z old) v).

(** The elements of an array, over those the slice had. *)
Fixpoint dec_elements {A} (dec : decoder A) (zero : A) (old : list A) (vs : list json) : outcome (list A) :=
  match vs with
  | [] => Ok []
  | v :: vs =>
      match dec (default zero (head old)) v with
      | Ok a => omap_outcome (cons a) (dec_elements dec zero (tail old) vs)
      | Err e => Err e
      | Panic => Panic
      end
  end.

(** Slices of structs; a null makes a nil slice. *)
Definition dec_slice {A} (dec : decoder A) (zero : A) : decoder (list A) := fun old v =>
  match v with
  | JArr vs => dec_elements dec zero old vs
  | JNull => Ok []
  | _ => Err err_type
  end.

(** ** [base64.StdEncoding]

    The URL alphabet of [Seal] with two other characters, in groups of four
    filled up with [=]. *)
Definition to_std (c : byte) : byte := match c with x2d => x2b | x5f => x2f | _ => c end.
Definition of_std (c : byte) : byte := match c with x2b => x2d | x2f => x5f | x2d | x5f => x00 | _ => c end.

Definition std_encode (l : list byte) : list byte :=
  let body := map to_std (b64_encode l) in
  body ++ replicate (Z.to_nat (- len body mod 4)) x3d.

(** At most two characters of padding, at the end of [l] reversed. *)
Definition strip_pad (l : list byte) : list byte :=
  match l with x3d :: x3d :: r => r | x3d :: r => r | _ => l end.

(** Line breaks are skipped. *)
Definition std_decode (l : list byte) : outcome (list byte) :=
  let l := List.filter (fun c => negb ((b2z c =? 10) || (b2z c =? 13))) l in
  if negb (len l mod 4 =? 0) then Err (ErrNew "illegal base64 data")
  else b64_decode (map of_std (rev (strip_pad (rev l)))).

Definition dec_bytes : decoder (list byte) := fun old v =>
  match v with
  | JStr s => std_decode s
  | JArr vs => dec_elements dec_uint8 x00 old vs
  | JNull => Ok []
  | _ => Err err_type
  end.

(** *** Structs and pointers *)

(** [foldName]: what folds to an ASCII letter besides ASCII itself are the Kelvin
    sign and the long s; other runes cannot match the names of the program. *)
Fixpoint foldName (l : list byte) : list byte :=
  match l with
  | xe2 :: x84 :: xaa :: r => x4b :: foldName r
  | xc5 :: xbf :: r => x53 :: foldName r
  | b :: r => (if between 97 b 122 then z2b (b2z b - 32) else b) :: foldName r
  | [] => []
  end.

Record field (S : Type) := Field { f_name : string; f_dec : decoder S }.
Arguments Field {S} f_name f_dec.
Arguments f_name {S} f.
Arguments f_dec {S} f.

(** The decoder of one field of a struct. *)
Definition field_of {S A} (name : string) (getter : S -> A) (setter : A -> S -> S) (dec : decoder A) : field S :=
  Field name (fun s v => omap_outcome (fun a => setter a s) (dec (getter s) v)).

(** The exact name first, then the first that folds to the same. *)
Definition find_field {S} (fields : list (field S)) (key : list byte) : option (field S) :=
  match List.find (fun f => (f_name f =? string_of key)%string) fields with
  | Some f => Some f
  | None =>
      List.find (fun f => (string_of (foldName (bytes_of (f_name f))) =? string_of (foldName key))%string) fields
  end.

Fixpoint dec_members {S} (fields : list (field S)) (s : S) (ms : list (list byte * json)) : outcome S :=
  match ms with
  | [] => Ok s
  | (key, v) :: ms =>
      match find_field fields key with
      | None => dec_members fields s ms
      | Some f =>
          match f_dec f s v with
          | Ok s' => dec_members fields s' ms
          | Err e => Err e
          | Panic => Panic
          end
      end
  end.

Definition dec_struct {S} (fields : list (field S)) : decoder S := fun s v =>
  match v with
  | JObj ms => dec_members fields s ms
  | JNull => Ok s
  | _ => Err err_type
  end.

Definition dec_pointer {A} (dec : decoder A) (zero : A) : decoder (option A) := fun old v =>
  match v with
  | JNull => Ok None
  | _ => omap_outcome Some (dec (default zero old) v)
  end.

(** [json.Unmarshal(data, &v)] for a [v] that holds [zero]. *)
Definition Unmarshal {A} (dec : decoder A) (zero : A) (data : list byte) : outcome A :=
  match json_parse data with
  | Ok v => dec zero v
  | Err e => Err e
  | Panic => Panic
  end.

(** *** Encoders; an empty byte slice is nil in the structs of the program. *)
Definition enc_string (s : string) : json := JStr (bytes_of s).
Definition enc_int (z : Z) : json := JNum (bytes_of (FormatInt z)).
Definition enc_bytes (l : list byte) : json := match l with [] => JNull | _ => JStr (std_encode l) end.
Definition member (name : string) (v : json) : list byte * json := (bytes_of name, v).

Example fold_1 : foldName (bytes_of "dc_Id") = foldName (bytes_of "DC_ID") /\ foldName [xe2; x84; xaa; xc5; xbf] = bytes_of "KS".
Proof. vm_compute. auto. Qed.
Example std_1 : map std_encode [[]; [xff]; [xff; xfe]; [xff; xfe; xfd]] = map bytes_of [EmptyString; "/w=="; "//4="; "//79"]%string.
Proof. vm_compute. reflexivity. Qed.
Example std_2 : map is_ok (map std_decode (map bytes_of ["/w="; "/w=a"; "/==="; "===="; "//4-"; "/w==/w=="; "/w"]%string)) = replicate 7 false.
Proof. vm_compute. reflexivity. Qed.

(** ** What is encoded is decoded *)

Lemma dec_enc_int lo hi old z : is_i64 z -> lo <= z <= hi -> dec_int lo hi old (enc_int z) = Ok z.
Proof.
  intros Hz Hr. unfold dec_int, enc_int. rewrite string_of_bytes_of, ParseInt64_FormatInt by done.
  by rewrite (proj2 (Z.leb_le lo z)), (proj2 (Z.leb_le z hi)) by lia.
Qed.

Lemma dec_enc_uint64 old z : is_u64 z -> dec_uint64 old (enc_int z) = Ok z.
Proof.
  intros Hz. unfold dec_uint64, dec_uint, enc_int, ParseUint64, FormatInt. rewrite bytes_of_string_of.
  unfold is_u64 in Hz. destruct (Z.eqb_spec z 0) as [->|H0]; [done|]. rewrite (proj2 (Z.ltb_ge z 0)) by lia.
  destruct (dec_loop_first 20 z []) as (d & r & E & _); [unfold two64 in Hz; change (Z.of_nat 20) with 20; lia|].
  rewrite E. cbv iota. rewrite <- E, parse_dec_loop by (unfold two64 in Hz; change (Z.of_nat 20) with 20; lia).
  cbn [parse_digits]. rewrite (proj2 (Z.ltb_lt z two64)) by lia. by rewrite (proj2 (Z.leb_le z _)) by lia.
Qed.

Lemma number_enc_int z : - 10 ^ 20 < z < 10 ^ 20 -> forall d, json_wf d (enc_int z).
Proof. intros H d. by apply number_FormatInt. Qed.

(** Characters of the standard alphabet. *)
Lemma std_char c : graphic c = true -> c <> x3d -> c <> x2b -> c <> x2f ->
  of_std (to_std c) = c /\ to_std c <> x3d /\ graphic (to_std c) = true.
Proof. destruct c; try discriminate; intros _ H1 H2 H3; try done; by split_and!. Qed.

Lemma b64_char_plain d : 0 <= d < 64 -> b64_char d <> x3d /\ b64_char d <> x2b /\ b64_char d <> x2f.
Proof.
  intros Hd. assert (C : forallb (fun c => negb (bool_decide (c = x3d) || bool_decide (c = x2b) || bool_decide (c = x2f))) b64_alphabet = true)
    by (vm_compute; reflexivity).
  rewrite forallb_forall in C. specialize (C (b64_char d)).
  rewrite negb_true_iff, !orb_false_iff in C. destruct C as [[H1 H2] H3]; [apply nth_In; unfold b64_alphabet; cbn; lia|].
  by repeat match goal with H : bool_decide _ = false |- _ => apply bool_decide_eq_false in H end.
Qed.

Definition plain_char (c : byte) : Prop := graphic c = true /\ c <> x3d /\ c <> x2b /\ c <> x2f.

Lemma b64_encode_plain l : Forall plain_char (b64_encode l) /\ (len (b64_encode l) mod 4 <> 1).
Proof.
  assert (G : forall d, 0 <= d < 64 -> plain_char (b64_char d)).
  { intros d Hd. split; [by apply b64_char_graphic|by apply b64_char_plain]. }
  induction l as [|a|a b|a b c l IH] using list_ind3; cbn [b64_encode]; [done|..].
  - destruct (b64_ranges a x00 x00) as (H1 & _ & _ & _ & H5 & _). split; [by auto 10|done].
  - destruct (b64_ranges a b x00) as (H1 & H2 & _ & _ & _ & H6). split; [by auto 10|done].
  - destruct (b64_ranges a b c) as (H1 & H2 & H3 & H4 & _). destruct IH as [IH1 IH2]. split; [by auto 10|].
    rewrite !len_cons. replace (1 + (1 + (1 + (1 + len (b64_encode l))))) with (len (b64_encode l) + 1 * 4) by lia.
    by rewrite Z.mod_add.
Qed.

Lemma strip_pad_rev X n : (n <= 2)%nat -> Forall (fun c => c <> x3d) X -> strip_pad (replicate n x3d ++ rev X) = rev X.
Proof.
  intros Hn HX. assert (Hr : Forall (fun c => c <> x3d) (rev X)) by (by apply Forall_rev).
  assert (G : forall Y, Forall (fun c => c <> x3d) Y -> strip_pad Y = Y /\ strip_pad (x3d :: Y) = Y).
  { intros [|y Y] H; [done|]. inversion_clear H. by destruct y. }
  destruct n as [|[|[|n]]]; [by apply G..|done|lia].
Qed.

Lemma std_decode_encode l : std_decode (std_encode l) = Ok l.
Proof.
  destruct (b64_encode_plain l) as [HP Hm]. unfold std_decode, std_encode. cbv zeta. set (B := b64_encode l) in *.
  set (n := Z.to_nat (- len (map to_std B) mod 4)). assert (Hlen : len (map to_std B) = len B) by apply len_map_list.
  assert (Hn : Z.of_nat n = - len B mod 4) by (unfold n; rewrite Hlen; zlia).
  assert (Hg : forallb graphic (map to_std B ++ replicate n x3d) = true).
  { rewrite forallb_app. apply andb_true_intro. split.
    - apply forallb_forall. intros c Hc. apply in_map_iff in Hc as (d & <- & Hd). rewrite Forall_forall in HP.
      apply list_elem_of_In in Hd. destruct (HP d Hd) as (H1 & H2 & H3 & H4). by apply std_char.
    - apply forallb_forall. intros c Hc. apply list_elem_of_In, elem_of_replicate in Hc as [-> _]. done. }
  rewrite graphic_filter by done. rewrite len_app, len_replicate, Hlen, Hn.
  replace ((len B + - len B mod 4) mod 4) with 0 by zlia. cbn [Z.eqb negb].
  rewrite rev_app_distr.
  assert (Er : rev (replicate n x3d) = replicate n x3d).
  { clear. induction n as [|n IH]; [done|]. cbn [replicate rev]. rewrite IH. by rewrite <- replicate_cons_app. }
  rewrite Er, strip_pad_rev, rev_involutive, map_map.
  - rewrite (map_ext_in _ (fun c => c)), map_id; [by apply b64_decode_encode|].
    intros c Hc. rewrite Forall_forall in HP. apply list_elem_of_In in Hc. destruct (HP c Hc) as (H1 & H2 & H3 & H4).
    by apply std_char.
  - zlia.
  - apply Forall_map. eapply Forall_impl; [exact HP|]. intros c (H1 & H2 & H3 & H4). by apply std_char.
Qed.

(** Base64 is ASCII, which JSON keeps. *)
Lemma graphic_valid l : forallb graphic l = true -> valid_text l = l.
Proof.
  intros H. apply valid_ascii. unfold is_ascii. rewrite forallb_forall in *. intros c Hc. specialize (H c Hc).
  unfold graphic in H. apply andb_prop in H as [_ H%Z.leb_le]. apply Z.ltb_lt. lia.
Qed.

Lemma std_encode_graphic l : forallb graphic (std_encode l) = true.
Proof.
  unfold std_encode. cbv zeta. rewrite forallb_app. apply andb_true_intro. split; apply forallb_forall; intros c Hc.
  - apply in_map_iff in Hc as (d & <- & Hd). destruct (b64_encode_plain l) as [HP _]. rewrite Forall_forall in HP.
    apply list_elem_of_In in Hd. destruct (HP d Hd) as (H1 & H2 & H3 & H4). by apply std_char.
  - by apply list_elem_of_In, elem_of_replicate in Hc as [-> _].
Qed.

Lemma dec_enc_bytes old l : dec_bytes old (json_clean (enc_bytes l)) = Ok l.
Proof.
  destruct l as [|b l]; [done|]. unfold enc_bytes. cbn [json_clean dec_bytes].
  rewrite graphic_valid by apply std_encode_graphic. apply std_decode_encode.
Qed.

(** A string as it comes back. *)
Definition clean_string (s : string) : string := string_of (valid_text (bytes_of s)).

Lemma dec_enc_string old s : dec_string old (json_clean (enc_string s)) = Ok (clean_string s).
Proof. reflexivity. Qed.

(** A member is decoded by the field of its name. *)
Lemma dec_member {S A} (fields : list (field S)) name getter setter (dec : decoder A) s v a rest :
  is_ascii (bytes_of name) = true ->
  find_field fields (bytes_of name) = Some (field_of name getter setter dec) ->
  dec (getter s) (json_clean v) = Ok a ->
  dec_members fields s (clean_member (member name v) :: rest) = dec_members fields (setter a s) rest.
Proof.
  intros Ha Hf Hd. unfold clean_member, member. cbn [dec_members]. rewrite valid_ascii, Hf by done.
  unfold field_of. cbn [f_dec]. by rewrite Hd.
Qed.

(** Decode the next member with the lemma of its type. *)
Ltac next_member H := erewrite dec_member; [|reflexivity|reflexivity|apply H].

Lemma clean_string_empty s : clean_string s = EmptyString <-> s = EmptyString.
Proof.
  unfold clean_string. split; [|by intros ->]. intros H. apply (f_equal bytes_of) in H. rewrite bytes_of_string_of in H.
  apply bytes_of_inj. change (bytes_of EmptyString) with (@nil byte) in *. destruct (bytes_of s) as [|b r]; [done|].
  unfold valid_text in H. cbn [length to_valid] in H. unfold escape_char in H.
  destruct (_ <? 128); [done|]. destruct (rune_split (b :: r)) as [[bs rest]|] eqn:E; [|done].
  apply rune_split_app in E as (_ & Hn & _). by destruct bs.
Qed.

Lemma clean_string_ascii s : is_ascii (bytes_of s) = true -> clean_string s = s.
Proof. intros H. unfold clean_string. by rewrite valid_ascii, string_of_bytes_of. Qed.

(** ** Nothing panics *)

Definition total {A} (dec : decoder A) : Prop := forall old v, dec old v <> Panic.

Lemma dec_int_total lo hi : total (dec_int lo hi).
Proof. intros old v. unfold dec_int. destruct v; try done. destruct (ParseInt64 _); try done. by destruct (_ && _). Qed.
Lemma dec_uint_total hi : total (dec_uint hi).
Proof. intros old v. unfold dec_uint. destruct v; try done. destruct (ParseUint64 _); try done. by destruct (_ <=? _). Qed.
Lemma dec_bool_total : total dec_bool.
Proof. by intros old []. Qed.
Lemma dec_string_total : total dec_string.
Proof. by intros old []. Qed.

Lemma omap_total {A B} (f : A -> B) o : o <> Panic -> omap_outcome f o <> Panic.
Proof. by destruct o. Qed.

Lemma dec_elements_total {A} (dec : decoder A) zero old vs : total dec -> dec_elements dec zero old vs <> Panic.
Proof.
  intros H. revert old. induction vs as [|v vs IH]; intros old; [done|]. cbn [dec_elements].
  specialize (H (default zero (head old)) v). destruct (dec _ v); [by apply omap_total|done..].
Qed.

Lemma dec_uint8_total : total dec_uint8.
Proof. intros old v. apply omap_total, dec_uint_total. Qed.

Lemma dec_bytes_total : total dec_bytes.
Proof.
  intros old []; try done.
  - cbn [dec_bytes]. unfold std_decode. cbv zeta. destruct (negb _); [done|]. apply b64_decode_returns.
  - apply dec_elements_total, dec_uint8_total.
Qed.

Lemma dec_slice_total {A} (dec : decoder A) zero : total dec -> total (dec_slice dec zero).
Proof. intros H old []; try done. by apply dec_elements_total. Qed.
Lemma dec_pointer_total {A} (dec : decoder A) zero : total dec -> total (dec_pointer dec zero).
Proof. intros H old []; try done; apply omap_total, H. Qed.

Lemma field_of_total {S A} name getter setter (dec : decoder A) : total dec -> total (f_dec (@field_of S A name getter setter dec)).
Proof. intros H s v. apply omap_total, H. Qed.

Lemma dec_struct_total {S} (fields : list (field S)) : Forall (fun f => total (f_dec f)) fields -> total (dec_struct fields).
Proof.
  intros H s []; try done. cbn [dec_struct]. revert s. induction members as [|[k v] ms IH]; intros s; [done|]. cbn [dec_members].
  destruct (find_field fields k) as [f|] eqn:E; [|apply IH].
  assert (Hin : In f fields).
  { unfold find_field in E. destruct (List.find _ fields) as [g|] eqn:E'; [injection E as <-|]; by eapply find_some. }
  rewrite Forall_forall in H. apply list_elem_of_In in Hin. specialize (H f Hin s v). by destruct (f_dec f s v).
Qed.

Lemma Unmarshal_total {A} (dec : decoder A) zero data : total dec -> Unmarshal dec zero data <> Panic.
Proof. intros H. unfold Unmarshal. destruct (json_parse data) eqn:E; [apply H|done|]. by apply json_parse_ends in E. Qed.

Create HintDb json.
#[export] Hint Resolve dec_int_total dec_uint_total dec_bool_total dec_string_total dec_bytes_total dec_slice_total dec_pointer_total
  field_of_total : json.

(** Every field of a list of fields. *)
Ltac fields_total :=
  apply dec_struct_total; repeat (apply List.Forall_cons; [apply field_of_total; auto with json|]); apply List.Forall_nil.

Lemma dec_int64_total : total dec_int64.
Proof. apply dec_int_total. Qed.
Lemma dec_int32_total : total dec_int32.
Proof. apply dec_int_total. Qed.
Lemma dec_uint64_total : total dec_uint64.
Proof. apply dec_uint_total. Qed.
#[export] Hint Resolve dec_int64_total dec_int32_total dec_uint64_total : json.

(** ** Decoded integers are in range *)

Lemma dec_int_range lo hi old v z : lo <= old <= hi -> dec_int lo hi old v = Ok z -> lo <= z <= hi.
Proof.
  intros Ho. unfold dec_int. destruct v; try discriminate; [by intros [= <-]|].
  destruct (ParseInt64 _) as [x| |]; try discriminate. destruct (_ && _) eqn:E; [|discriminate]. intros [= <-].
  apply andb_prop in E as [E1%Z.leb_le E2%Z.leb_le]. lia.
Qed.

Lemma parse_digits_nonneg l acc u : 0 <= acc -> parse_digits l acc = Some u -> 0 <= u.
Proof.
  revert acc. induction l as [|b l IH]; intros acc Ha; cbn [parse_digits]; [by intros [= <-]|].
  unfold digit_val. destruct (_ && _) eqn:E; [|done]. apply andb_prop in E as [E1%Z.leb_le _]. apply IH. lia.
Qed.

Lemma dec_uint_range hi old v z : 0 <= old <= hi -> dec_uint hi old v = Ok z -> 0 <= z <= hi.
Proof.
  intros Ho. unfold dec_uint. destruct v; try discriminate; [by intros [= <-]|].
  unfold ParseUint64. destruct literal as [|b l]; [discriminate|].
  destruct (parse_digits (b :: l) 0) as [u|] eqn:E; [|discriminate]. apply parse_digits_nonneg in E; [|lia].
  destruct (u <? two64); [|discriminate]. destruct (Z.leb_spec u hi); [|discriminate]. by intros [= <-].
Qed.

(** A property of the struct that every field keeps. *)
Definition field_keeps {S} (P : S -> Prop) (f : field S) : Prop :=
  forall s v s', P s -> f_dec f s v = Ok s' -> P s'.

Lemma dec_struct_keeps {S} (P : S -> Prop) fields s v s' :
  Forall (field_keeps P) fields -> P s -> dec_struct fields s v = Ok s' -> P s'.
Proof.
  intros Hf. unfold dec_struct. destruct v as [| | | | |ms]; try discriminate; [by intros ? [= <-]|].
  revert s. induction ms as [|[k v] ms IH]; intros s Hs; cbn [dec_members]; [by intros [= <-]|].
  destruct (find_field fields k) as [f|] eqn:E; [|by apply IH].
  destruct (f_dec f s v) as [s1| |] eqn:E1; [|discriminate..]. apply IH.
  rewrite Forall_forall in Hf. apply (Hf f) with s v; [|done|done]. apply list_elem_of_In.
  unfold find_field in E. destruct (List.find _ fields) as [g|] eqn:E'; [injection E as <-|]; by eapply find_some.
Qed.

(** A field through its decoder: [Q] of the value, [P] of the struct. *)
Lemma field_of_keeps {S A} (P : S -> Prop) (Q : A -> Prop) name getter setter (dec : decoder A) :
  (forall s, P s -> Q (getter s)) -> (forall s a, P s -> Q a -> P (setter a s)) ->
  (forall old v a, Q old -> dec old v = Ok a -> Q a) -> field_keeps P (field_of name getter setter dec).
Proof.
  intros Hg Hs Hd s v s' HP. unfold field_of. cbn [f_dec]. destruct (dec (getter s) v) as [a| |] eqn:E; [|discriminate..].
  intros [= <-]. apply Hs; [done|]. by eapply Hd; [apply Hg|].
Qed.
