(* ===== verification/Keys.v ===== *)
(** * Keys: the built-in server key (src/mtproto/rsa_keys.go, crypto.go)

    From the PEM text of the source to the key the handshake uses: [encoding/pem],
    the DER of a PKCS#1 public key ([encoding/asn1], [crypto/x509]), and the
    fingerprint. *)

From S2P Require Import Prelude Strings TL Hash AES Crypto Seal Json Codec.

(** ** [encoding/pem] *)

Fixpoint strip_prefix (p l : list byte) : option (list byte) :=
  match p, l with
  | [], _ => Some l
  | a :: p, b :: l => if Byte.eqb a b then strip_prefix p l else None
  | _ :: _, [] => None
  end.
Definition strip_suffix (s l : list byte) : option (list byte) := option_map (@rev byte) (strip_prefix (rev s) (rev l)).

(** [bytes.Cut] at the first [sep]. *)
Fixpoint cut (sep l : list byte) : option (list byte * list byte) :=
  match strip_prefix sep l with
  | Some after => Some ([], after)
  | None => match l with [] => None | b :: r => option_map (fun '(x, y) => (b :: x, y)) (cut sep r) end
  end.

Definition newline : byte := x0a.
Definition pemBegin : list byte := bytes_of "-----BEGIN ".
Definition pemEnd : list byte := bytes_of "-----END ".
Definition pemEndOfLine : list byte := bytes_of "-----".

Fixpoint trim_left (l : list byte) : list byte :=
  match l with x20 :: r => trim_left r | x09 :: r => trim_left r | _ => l end.
Definition trim_right (l : list byte) : list byte := rev (trim_left (rev l)).

(** The line without its end and trailing blanks, and what follows it. *)
Definition getLine (l : list byte) : list byte * list byte :=
  match cut [newline] l with
  | Some (line, rest) => (trim_right (match strip_suffix [x0d] line with Some line => line | None => line end), rest)
  | None => (trim_right l, [])
  end.

(** The lines with a colon; [None] when the text ends among them. *)
Fixpoint skip_headers (fuel : nat) (rest : list byte) (some : bool) : option (bool * list byte) :=
  match fuel, rest with
  | O, _ | _, [] => None
  | S fuel, _ =>
      let '(line, next) := getLine rest in
      match cut [x3a] line with
      | None => Some (some, rest)
      | Some _ => skip_headers fuel next true
      end
  end.

(** The data before the END line, and what follows the words [-----END]. *)
Definition find_end (headers : bool) (rest : list byte) : option (list byte * list byte) :=
  match (if headers then None else strip_prefix pemEnd rest) with
  | Some after => Some ([], after)
  | None => cut (newline :: pemEnd) rest
  end.

(** The END line ends with the type and five dashes, then only blanks. *)
Definition end_matches (typeLine trailer : list byte) : bool :=
  match strip_prefix typeLine trailer with
  | Some r => match strip_prefix pemEndOfLine r with Some r => len (fst (getLine r)) =? 0 | None => false end
  | None => false
  end.

(** The bytes of the first block, [pem.Decode]; each round drops a BEGIN. *)
Fixpoint pem_Decode (fuel : nat) (rest : list byte) : option (list byte) :=
  match fuel with
  | O => None
  | S fuel =>
      match (match strip_prefix pemBegin rest with
             | Some after => Some after
             | None => option_map snd (cut (newline :: pemBegin) rest)
             end) with
      | None => None
      | Some rest =>
          let '(typeLine, rest) := getLine rest in
          match strip_suffix pemEndOfLine typeLine with
          | None => pem_Decode fuel rest
          | Some typeLine =>
              match skip_headers (S (length rest)) rest false with
              | None => None
              | Some (headers, rest) =>
                  match find_end headers rest with
                  | None => pem_Decode fuel rest
                  | Some (data, trailer) =>
                      if end_matches typeLine trailer then
                        match std_decode (List.filter (fun b => negb (Byte.eqb b x20 || Byte.eqb b x09)) data) with
                        | Ok block => Some block
                        | _ => pem_Decode fuel rest
                        end
                      else pem_Decode fuel rest
                  end
              end
          end
      end
  end.

(** ** DER *)

Definition err_asn1 : goerr := ErrNew "asn1: structure error".

(** The length bytes after the first: no leading zero, below 2{^31}. *)
Fixpoint der_length (n : nat) (l : list byte) (acc : Z) : option (Z * list byte) :=
  match n, l with
  | O, _ => if acc <? 128 then None else Some (acc, l)
  | S n, b :: l =>
      if two24 / 2 <=? acc then None
      else let acc := acc * 256 + b2z b in if acc =? 0 then None else der_length n l acc
  | S _, [] => None
  end.

(** An element with this tag: its contents and what follows. *)
Definition der_element (tag : byte) (l : list byte) : option (list byte * list byte) :=
  match l with
  | t :: b :: r =>
      if Byte.eqb t tag then
        match (if b2z b <? 128 then Some (b2z b, r)
               else if b2z b =? 128 then None else der_length (Z.to_nat (b2z b - 128)) r 0) with
        | Some (n, r) => if n <=? len r then Some (sub r 0 n, sub r n (len r)) else None
        | None => None
        end
      else None
  | _ => None
  end.

(** The shortest two's complement form. *)
Definition der_integer (l : list byte) : option (Z * list byte) :=
  match der_element x02 l with
  | None => None
  | Some (c, rest) =>
      let minimal := match c with
                     | [] => false
                     | a :: b :: _ => negb (((b2z a =? 0) && (b2z b <? 128)) || ((b2z a =? 255) && (128 <=? b2z b)))
                     | [_] => true
                     end in
      let value := be_value c in
      if minimal then Some (if 128 <=? b2z (default x00 (head c)) then value - 2 ^ (8 * len c) else value, rest) else None
  end.

(** [x509.ParsePKCS1PublicKey]; what follows the exponent in the sequence is
    allowed, what follows the sequence is not. *)
Definition ParsePKCS1PublicKey (der : list byte) : outcome rsaPublicKey :=
  match der_element x30 der with
  | None => Err err_asn1
  | Some (body, rest) =>
      match der_integer body with
      | None => Err err_asn1
      | Some (n, r) =>
          match der_integer r with
          | None => Err err_asn1
          | Some (e, _) =>
              if (e <? - two63) || (two63 <=? e) then Err err_asn1
              else if negb (len rest =? 0) then Err (ErrNew "asn1: syntax error: trailing data")
              else if (n <=? 0) || (e <=? 0) then Err (ErrNew "x509: public key contains zero or negative value")
              else if two31 - 1 <? e then Err (ErrNew "x509: public key contains large public exponent")
              else Ok (RSAKey n e)
          end
      end
  end.

(** ** The program *)

Section Keys.
(** [x509.ParsePKIXPublicKey], of texts that are no PKCS#1 key: a key, [None]
    when it is not RSA, or an error. *)
Variable ParsePKIXPublicKey : list byte -> outcome (option rsaPublicKey).

Definition parseRSAPublicKeyPEM (data : string) : outcome rsaPublicKey :=
  match pem_Decode (S (String.length data)) (bytes_of data) with
  | None => Err (ErrNew "rsa: pem block not found")
  | Some block =>
      match ParsePKCS1PublicKey block with
      | Ok key => Ok key
      | _ =>
          match ParsePKIXPublicKey block with
          | Ok (Some key) => Ok key
          | Ok None => Err (ErrNew "rsa: key is not RSA")
          | Err e => Err e
          | Panic => Panic
          end
      end
  end.

Definition mainProductionRSAPublicKey_PEM : string :=
"-----BEGIN RSA PUBLIC KEY-----
MIIBCgKCAQEA6LszBcC1LGzyr992NzE0ieY+BSaOW622Aa9Bd4ZHLl+TuFQ4lo4g
5nKaMBwK/BIb9xUfg0Q29/2mgIR6Zr9krM7HjuIcCzFvDtr+L0GQjae9H0pRB2OO
62cECs5HKhT5DZ98K33vmWiLowc621dQuwKWSQKjWf50XYFw42h21P2KXUGyp2y/
+aEyZ+uVgLLQbRA1dEjSDZ2iGRy12Mk5gpYc397aYp438fsJoHIgJ2lgMv5h7WY9
t6N/byY9Nw9p21Og3AoXSL2q/2IJ1WRUhebgAdGVMlV1fkuOQoEzR7EdpqtQD9Cs
5+bfo3Nhmcyvk5ftB0WkJ9z6bNZ7yxrP8wIDAQAB
-----END RSA PUBLIC KEY-----".

Definition load_ProductionRSAPublicKeys : outcome (list RSAPublicKey) :=
  omap_outcome (fun key => [RSAPub key (rsaFingerprint key)]) (parseRSAPublicKeyPEM mainProductionRSAPublicKey_PEM).

Definition mustProductionKey : outcome RSAPublicKey :=
  match load_ProductionRSAPublicKeys with Ok (key :: _) => Ok key | _ => Panic end.

(** The PEM text of the source is the key the handshake is given, whatever the
    second parser does. *)
Lemma production_keys_parse : load_ProductionRSAPublicKeys = Ok ProductionRSAPublicKeys.
Proof. vm_compute. reflexivity. Qed.

(** A server that offers its fingerprint gets it. *)
Lemma production_key_found fps :
  In 0xd09d1d85de64fd85 fps ->
  findRSAPublicKey ProductionRSAPublicKeys fps = mustProductionKey /\ 2 ^ 2047 <= rsa_N mainProductionRSAPublicKey < 2 ^ 2048.
Proof.
  intros H. split; [|split; vm_compute; congruence].
  assert (E : mustProductionKey = Ok (RSAPub mainProductionRSAPublicKey 0xd09d1d85de64fd85)) by (vm_compute; reflexivity).
  rewrite E. unfold findRSAPublicKey.
  assert (Hk : ProductionRSAPublicKeys = [RSAPub mainProductionRSAPublicKey 0xd09d1d85de64fd85]) by (vm_compute; reflexivity).
  rewrite Hk. clear E Hk. assert (L : findRSAPublicKey_loop [RSAPub mainProductionRSAPublicKey 0xd09d1d85de64fd85] fps =
    Some (RSAPub mainProductionRSAPublicKey 0xd09d1d85de64fd85)); [|by rewrite L].
  induction fps as [|fp fps IH]; [done|]. cbn [findRSAPublicKey_loop List.find rpk_Fingerprint].
  destruct (Z.eqb_spec 0xd09d1d85de64fd85 fp) as [<-|Hne]; [done|]. apply IH. destruct H as [->|H]; [done|exact H].
Qed.
End Keys.

(** Texts that are refused, and one that is not. *)
Example pem_1 : map (fun s => pem_Decode (S (String.length s)) (bytes_of s)) [
  "-----BEGIN A-----
AQID
-----END A-----";
  "x
-----BEGIN A-----
k: v

AQ ID
-----END A-----  ";
  "-----BEGIN A-----
AQID
-----END B-----";
  "-----BEGIN A-----
AQI
-----END A-----";
  "-----BEGIN A-----
-----END A-----" ]%string = [Some [x01; x02; x03]; Some [x01; x02; x03]; None; None; Some []].
Proof. vm_compute. reflexivity. Qed.

Example der_1 : map ParsePKCS1PublicKey [
  [x30; x06; x02; x01; x0f; x02; x01; x03]; [x30; x07; x02; x02; x00; x0f; x02; x01; x03];
  [x30; x06; x02; x01; x8f; x02; x01; x03]; [x30; x06; x02; x01; x0f; x02; x01; x03; x00];
  [x30; x09; x02; x01; x0f; x02; x01; x03; x02; x01; x00]; [x30; x81; x06; x02; x01; x0f; x02; x01; x03]] =
  [Ok (RSAKey 15 3); Err err_asn1; Err (ErrNew "x509: public key contains zero or negative value");
   Err (ErrNew "asn1: syntax error: trailing data"); Ok (RSAKey 15 3); Err err_asn1].
Proof. vm_compute. reflexivity. Qed.
