(* ===== verification/Saved.v ===== *)
(** * Saved: sessions as text (src/mtproto/session.go, src/runtime_session.go)

    The JSON forms of a session and of the bundle the bot saves, string sessions,
    and their round trips. *)

From S2P Require Import Prelude Strings TL Transport Hash AES Crypto Envelope Auth Invoke Queries Seal Client Peers Api Session Json Codec.

(** ** The JSON form of the structs

    One list of fields per struct, for decoding; the members that are printed,
    in the order of the struct. *)

Definition int_field {S} (name : string) (getter : S -> Z) (setter : Z -> S -> S) : field S :=
  field_of name getter setter dec_int64.

Definition Session_fields : list (field Session) :=
  [int_field "version" se_Version (fun x s => MkSession x (se_Kind s) (se_DCID s) (se_Address s) (se_AuthKey s)
     (se_AuthKeyID s) (se_ServerSalt s) (se_SessionID s) (se_TimeOffset s) (se_CreatedAt s) (se_UpdatedAt s));
   field_of "kind" se_Kind (fun x s => MkSession (se_Version s) x (se_DCID s) (se_Address s) (se_AuthKey s)
     (se_AuthKeyID s) (se_ServerSalt s) (se_SessionID s) (se_TimeOffset s) (se_CreatedAt s) (se_UpdatedAt s)) dec_string;
   int_field "dc_id" se_DCID (fun x s => MkSession (se_Version s) (se_Kind s) x (se_Address s) (se_AuthKey s)
     (se_AuthKeyID s) (se_ServerSalt s) (se_SessionID s) (se_TimeOffset s) (se_CreatedAt s) (se_UpdatedAt s));
   field_of "address" se_Address (fun x s => MkSession (se_Version s) (se_Kind s) (se_DCID s) x (se_AuthKey s)
     (se_AuthKeyID s) (se_ServerSalt s) (se_SessionID s) (se_TimeOffset s) (se_CreatedAt s) (se_UpdatedAt s)) dec_string;
   field_of "auth_key" se_AuthKey (fun x s => MkSession (se_Version s) (se_Kind s) (se_DCID s) (se_Address s) x
     (se_AuthKeyID s) (se_ServerSalt s) (se_SessionID s) (se_TimeOffset s) (se_CreatedAt s) (se_UpdatedAt s)) dec_bytes;
   field_of "auth_key_id" se_AuthKeyID (fun x s => MkSession (se_Version s) (se_Kind s) (se_DCID s) (se_Address s)
     (se_AuthKey s) x (se_ServerSalt s) (se_SessionID s) (se_TimeOffset s) (se_CreatedAt s) (se_UpdatedAt s)) dec_uint64;
   int_field "server_salt" se_ServerSalt (fun x s => MkSession (se_Version s) (se_Kind s) (se_DCID s) (se_Address s)
     (se_AuthKey s) (se_AuthKeyID s) x (se_SessionID s) (se_TimeOffset s) (se_CreatedAt s) (se_UpdatedAt s));
   int_field "session_id" se_SessionID (fun x s => MkSession (se_Version s) (se_Kind s) (se_DCID s) (se_Address s)
     (se_AuthKey s) (se_AuthKeyID s) (se_ServerSalt s) x (se_TimeOffset s) (se_CreatedAt s) (se_UpdatedAt s));
   int_field "time_offset" se_TimeOffset (fun x s => MkSession (se_Version s) (se_Kind s) (se_DCID s) (se_Address s)
     (se_AuthKey s) (se_AuthKeyID s) (se_ServerSalt s) (se_SessionID s) x (se_CreatedAt s) (se_UpdatedAt s));
   int_field "created_at" se_CreatedAt (fun x s => MkSession (se_Version s) (se_Kind s) (se_DCID s) (se_Address s)
     (se_AuthKey s) (se_AuthKeyID s) (se_ServerSalt s) (se_SessionID s) (se_TimeOffset s) x (se_UpdatedAt s));
   int_field "updated_at" se_UpdatedAt (fun x s => MkSession (se_Version s) (se_Kind s) (se_DCID s) (se_Address s)
     (se_AuthKey s) (se_AuthKeyID s) (se_ServerSalt s) (se_SessionID s) (se_TimeOffset s) (se_CreatedAt s) x)].

Definition zero_Session : Session := MkSession 0 EmptyString 0 EmptyString [] 0 0 0 0 0 0.

Definition enc_Session (s : Session) : json :=
  JObj ([member "version" (enc_int (se_Version s))] ++
    (if (se_Kind s =? EmptyString)%string then [] else [member "kind" (enc_string (se_Kind s))]) ++
    [member "dc_id" (enc_int (se_DCID s)); member "address" (enc_string (se_Address s));
     member "auth_key" (enc_bytes (se_AuthKey s)); member "auth_key_id" (enc_int (se_AuthKeyID s));
     member "server_salt" (enc_int (se_ServerSalt s)); member "session_id" (enc_int (se_SessionID s));
     member "time_offset" (enc_int (se_TimeOffset s)); member "created_at" (enc_int (se_CreatedAt s));
     member "updated_at" (enc_int (se_UpdatedAt s))]).

Definition UpdatesState_fields : list (field UpdatesState) :=
  [field_of "PTS" us_PTS (fun x s => MkState x (us_QTS s) (us_Date s) (us_Seq s) (us_UnreadCount s) (us_Raw s)) dec_int32;
   field_of "QTS" us_QTS (fun x s => MkState (us_PTS s) x (us_Date s) (us_Seq s) (us_UnreadCount s) (us_Raw s)) dec_int32;
   field_of "Date" us_Date (fun x s => MkState (us_PTS s) (us_QTS s) x (us_Seq s) (us_UnreadCount s) (us_Raw s)) dec_int32;
   field_of "Seq" us_Seq (fun x s => MkState (us_PTS s) (us_QTS s) (us_Date s) x (us_UnreadCount s) (us_Raw s)) dec_int32;
   field_of "UnreadCount" us_UnreadCount
     (fun x s => MkState (us_PTS s) (us_QTS s) (us_Date s) (us_Seq s) x (us_Raw s)) dec_int32;
   field_of "Raw" us_Raw
     (fun x s => MkState (us_PTS s) (us_QTS s) (us_Date s) (us_Seq s) (us_UnreadCount s) x) dec_bytes].

Definition zero_State : UpdatesState := MkState 0 0 0 0 0 [].

Definition enc_State (s : UpdatesState) : json :=
  JObj [member "PTS" (enc_int (us_PTS s)); member "QTS" (enc_int (us_QTS s)); member "Date" (enc_int (us_Date s));
        member "Seq" (enc_int (us_Seq s)); member "UnreadCount" (enc_int (us_UnreadCount s));
        member "Raw" (enc_bytes (us_Raw s))].

Definition PeerRef_fields : list (field PeerRef) :=
  [int_field "ID" pr_ID (fun x p => MkPeerRef x (pr_AccessHash p) (pr_Kind p) (pr_Title p) (pr_Username p));
   int_field "AccessHash" pr_AccessHash (fun x p => MkPeerRef (pr_ID p) x (pr_Kind p) (pr_Title p) (pr_Username p));
   field_of "Kind" pr_Kind (fun x p => MkPeerRef (pr_ID p) (pr_AccessHash p) x (pr_Title p) (pr_Username p)) dec_string;
   field_of "Title" pr_Title (fun x p => MkPeerRef (pr_ID p) (pr_AccessHash p) (pr_Kind p) x (pr_Username p)) dec_string;
   field_of "Username" pr_Username (fun x p => MkPeerRef (pr_ID p) (pr_AccessHash p) (pr_Kind p) (pr_Title p) x) dec_string].

Definition zero_Peer : PeerRef := MkPeerRef 0 0 EmptyString EmptyString EmptyString.

Definition enc_Peer (p : PeerRef) : json :=
  JObj [member "ID" (enc_int (pr_ID p)); member "AccessHash" (enc_int (pr_AccessHash p));
        member "Kind" (enc_string (pr_Kind p)); member "Title" (enc_string (pr_Title p));
        member "Username" (enc_string (pr_Username p))].

(** ** Sessions (session.go) *)

Definition set_Version (v : Z) (s : Session) : Session :=
  MkSession v (se_Kind s) (se_DCID s) (se_Address s) (se_AuthKey s) (se_AuthKeyID s) (se_ServerSalt s) (se_SessionID s)
    (se_TimeOffset s) (se_CreatedAt s) (se_UpdatedAt s).

(** The copy that is marshalled; [now] is [time.Now().Unix()]. *)
Definition stamped (now : Z) (s : Session) : Session :=
  MkSession (if se_Version s =? 0 then sessionVersion else se_Version s) (se_Kind s) (se_DCID s) (se_Address s)
    (se_AuthKey s) (se_AuthKeyID s) (se_ServerSalt s) (se_SessionID s) (se_TimeOffset s)
    (if se_CreatedAt s =? 0 then now else se_CreatedAt s) now.

Definition MarshalBinary (now : Z) (s : option Session) : outcome (list byte) :=
  match Valid s with
  | Ok _ => match s with Some s => Ok (json_print (enc_Session (stamped now s))) | None => Panic end
  | Err e => Err e
  | Panic => Panic
  end.

Definition ParseSession (data : list byte) : outcome Session :=
  if len data =? 0 then Err (ErrNew "mtproto: empty session data")
  else
    match Unmarshal (dec_struct Session_fields) zero_Session data with
    | Ok s =>
        let s := if se_Version s =? 0 then set_Version sessionVersion s else s in
        match Valid (Some s) with
        | Ok _ => Ok s
        | Err e => Err e
        | Panic => Panic
        end
    | Err e => Err e
    | Panic => Panic
    end.

Definition stringSessionPrefix : string := "MPG1:".

Definition EncodeString (now : Z) (s : option Session) : outcome string :=
  omap_outcome (fun data => (stringSessionPrefix ++ string_of (b64_encode data))%string) (MarshalBinary now s).

Definition Session_String (now : Z) (s : option Session) : string :=
  match EncodeString now s with Ok encoded => encoded | _ => EmptyString end.

(** [TrimPrefix] alone does what it does after [HasPrefix]. *)
Definition ParseStringSession (value : string) : outcome Session :=
  let value := TrimSpace value in
  let value := if HasPrefix value stringSessionPrefix then TrimPrefix value stringSessionPrefix else value in
  match b64_decode (bytes_of value) with
  | Ok data => ParseSession data
  | Err e => Err e
  | Panic => Panic
  end.

(** [parseRootStringSession] of client.go. *)
Definition parseRootStringSession (now : Z) (value : string) : outcome (list byte) :=
  match ParseStringSession value with
  | Ok sess => MarshalBinary now (Some sess)
  | Err e => Err e
  | Panic => Panic
  end.

(** ** The bot's bundle (runtime_session.go) *)

Record runtimeSessionBundle := MkBundle {
  rb_Version : Z; rb_Kind : string; rb_MTProto : option Session; rb_State : option UpdatesState;
  rb_Peers : list PeerRef; rb_CreatedAt : Z; rb_UpdatedAt : Z }.

Definition runtimeSessionVersion : Z := 1.

Definition bundle_fields : list (field runtimeSessionBundle) :=
  [int_field "version" rb_Version (fun x b =>
     MkBundle x (rb_Kind b) (rb_MTProto b) (rb_State b) (rb_Peers b) (rb_CreatedAt b) (rb_UpdatedAt b));
   field_of "kind" rb_Kind (fun x b =>
     MkBundle (rb_Version b) x (rb_MTProto b) (rb_State b) (rb_Peers b) (rb_CreatedAt b) (rb_UpdatedAt b)) dec_string;
   field_of "mtproto" rb_MTProto (fun x b =>
     MkBundle (rb_Version b) (rb_Kind b) x (rb_State b) (rb_Peers b) (rb_CreatedAt b) (rb_UpdatedAt b))
     (dec_pointer (dec_struct Session_fields) zero_Session);
   field_of "state" rb_State (fun x b =>
     MkBundle (rb_Version b) (rb_Kind b) (rb_MTProto b) x (rb_Peers b) (rb_CreatedAt b) (rb_UpdatedAt b))
     (dec_pointer (dec_struct UpdatesState_fields) zero_State);
   field_of "peers" rb_Peers (fun x b =>
     MkBundle (rb_Version b) (rb_Kind b) (rb_MTProto b) (rb_State b) x (rb_CreatedAt b) (rb_UpdatedAt b))
     (dec_slice (dec_struct PeerRef_fields) zero_Peer);
   int_field "created_at" rb_CreatedAt (fun x b =>
     MkBundle (rb_Version b) (rb_Kind b) (rb_MTProto b) (rb_State b) (rb_Peers b) x (rb_UpdatedAt b));
   int_field "updated_at" rb_UpdatedAt (fun x b =>
     MkBundle (rb_Version b) (rb_Kind b) (rb_MTProto b) (rb_State b) (rb_Peers b) (rb_CreatedAt b) x)].

Definition zero_bundle : runtimeSessionBundle := MkBundle 0 EmptyString None None [] 0 0.

(** Members that are left out when empty. *)
Definition state_member (s : option UpdatesState) : list (list byte * json) :=
  match s with Some s => [member "state" (enc_State s)] | None => [] end.
Definition peers_member (ps : list PeerRef) : list (list byte * json) :=
  match ps with [] => [] | _ => [member "peers" (JArr (map enc_Peer ps))] end.

Definition enc_bundle (b : runtimeSessionBundle) : json :=
  JObj ([member "version" (enc_int (rb_Version b)); member "kind" (enc_string (rb_Kind b));
         member "mtproto" (match rb_MTProto b with Some s => enc_Session s | None => JNull end)] ++
    state_member (rb_State b) ++ peers_member (rb_Peers b) ++
    [member "created_at" (enc_int (rb_CreatedAt b)); member "updated_at" (enc_int (rb_UpdatedAt b))]).

Definition marshalRuntimeSession (now : Z) (kind : string) (sess : option Session) (state : option UpdatesState)
    (peers : list PeerRef) : outcome (list byte) :=
  match sess with
  | None => Err (ErrNew "mtprogo: nil mtproto session")
  | Some sess => Ok (json_print (enc_bundle (MkBundle runtimeSessionVersion kind (Some sess) state peers now now)))
  end.

Definition set_rb_Version (v : Z) (b : runtimeSessionBundle) : runtimeSessionBundle :=
  MkBundle v (rb_Kind b) (rb_MTProto b) (rb_State b) (rb_Peers b) (rb_CreatedAt b) (rb_UpdatedAt b).

(** The bare session of older versions. *)
Definition parse_bare_session (data : list byte) : outcome runtimeSessionBundle :=
  match ParseSession data with
  | Ok sess => Ok (MkBundle runtimeSessionVersion (se_Kind sess) (Some sess) None [] 0 0)
  | Err e => Err e
  | Panic => Panic
  end.

Definition parseRuntimeSession (data : list byte) : outcome runtimeSessionBundle :=
  match Unmarshal (dec_struct bundle_fields) zero_bundle data with
  | Ok bundle =>
      match rb_MTProto bundle with
      | Some _ =>
          let bundle := if rb_Version bundle =? 0 then set_rb_Version runtimeSessionVersion bundle else bundle in
          match Valid (rb_MTProto bundle) with
          | Ok _ => Ok bundle
          | Err e => Err e
          | Panic => Panic
          end
      | None => parse_bare_session data
      end
  | Err _ => parse_bare_session data
  | Panic => Panic
  end.

(** ** What is written is read back

    The Go types of the fields, and the strings made valid UTF-8. *)
Definition session_ranges (s : Session) : Prop :=
  is_i64 (se_Version s) /\ is_i64 (se_DCID s) /\ is_u64 (se_AuthKeyID s) /\ is_i64 (se_ServerSalt s) /\
  is_i64 (se_SessionID s) /\ is_i64 (se_TimeOffset s) /\ is_i64 (se_CreatedAt s) /\ is_i64 (se_UpdatedAt s).
Definition state_ranges (s : UpdatesState) : Prop :=
  is_i32 (us_PTS s) /\ is_i32 (us_QTS s) /\ is_i32 (us_Date s) /\ is_i32 (us_Seq s) /\ is_i32 (us_UnreadCount s).
Definition peer_ranges (p : PeerRef) : Prop := is_i64 (pr_ID p) /\ is_i64 (pr_AccessHash p).

Definition clean_Session (s : Session) : Session :=
  MkSession (se_Version s) (clean_string (se_Kind s)) (se_DCID s) (clean_string (se_Address s)) (se_AuthKey s)
    (se_AuthKeyID s) (se_ServerSalt s) (se_SessionID s) (se_TimeOffset s) (se_CreatedAt s) (se_UpdatedAt s).
Definition clean_Peer (p : PeerRef) : PeerRef :=
  MkPeerRef (pr_ID p) (pr_AccessHash p) (clean_string (pr_Kind p)) (clean_string (pr_Title p)) (clean_string (pr_Username p)).

Lemma dec_enc_int64 old z : is_i64 z -> dec_int64 old (json_clean (enc_int z)) = Ok z.
Proof. intros H. apply dec_enc_int; [done|]. unfold is_i64 in H. lia. Qed.
Lemma dec_enc_int32 old z : is_i32 z -> dec_int32 old (json_clean (enc_int z)) = Ok z.
Proof. intros H. apply dec_enc_int; unfold_words; lia. Qed.
Lemma dec_enc_u64 old z : is_u64 z -> dec_uint64 old (json_clean (enc_int z)) = Ok z.
Proof. apply dec_enc_uint64. Qed.

(** Decode the next member and put the value into the struct. *)
Ltac struct_member H :=
  next_member H;
  cbv beta iota delta [se_Version se_Kind se_DCID se_Address se_AuthKey se_AuthKeyID se_ServerSalt se_SessionID
    se_TimeOffset se_CreatedAt se_UpdatedAt us_PTS us_QTS us_Date us_Seq us_UnreadCount us_Raw
    pr_ID pr_AccessHash pr_Kind pr_Title pr_Username rb_Version rb_Kind rb_MTProto rb_State rb_Peers rb_CreatedAt
    rb_UpdatedAt].

Lemma dec_enc_Session s : session_ranges s ->
  dec_struct Session_fields zero_Session (json_clean (enc_Session s)) = Ok (clean_Session s).
Proof.
  destruct s as [v kind dc addr key id salt sid off created updated]. intros (H1 & H2 & H3 & H4 & H5 & H6 & H7 & H8).
  unfold enc_Session, clean_Session, zero_Session.
  cbn [json_clean dec_struct se_Version se_Kind se_DCID se_Address se_AuthKey se_AuthKeyID se_ServerSalt se_SessionID
    se_TimeOffset se_CreatedAt se_UpdatedAt] in *.
  change (fun '(k, v) => (valid_text k, json_clean v)) with clean_member. rewrite map_app. cbn [map app].
  struct_member (dec_enc_int64 0 _ H1). rewrite map_app.
  assert (E : forall rest, dec_members Session_fields (MkSession v EmptyString 0 EmptyString [] 0 0 0 0 0 0)
    (map clean_member (if (kind =? EmptyString)%string then [] else [member "kind" (enc_string kind)]) ++ rest) =
    dec_members Session_fields (MkSession v (clean_string kind) 0 EmptyString [] 0 0 0 0 0 0) rest).
  { intros rest. destruct (String.eqb_spec kind EmptyString) as [->|]; [done|]. cbn [map app].
    struct_member dec_enc_string. reflexivity. }
  rewrite E. cbn [map].
  struct_member (dec_enc_int64 0 _ H2). struct_member dec_enc_string. struct_member dec_enc_bytes.
  struct_member (dec_enc_u64 0 _ H3). struct_member (dec_enc_int64 0 _ H4). struct_member (dec_enc_int64 0 _ H5).
  struct_member (dec_enc_int64 0 _ H6). struct_member (dec_enc_int64 0 _ H7). struct_member (dec_enc_int64 0 _ H8).
  reflexivity.
Qed.

Lemma dec_enc_State s : state_ranges s ->
  dec_struct UpdatesState_fields zero_State (json_clean (enc_State s)) = Ok s.
Proof.
  destruct s as [pts qts date seq unread raw]. intros (H1 & H2 & H3 & H4 & H5). unfold enc_State, zero_State.
  cbn [json_clean dec_struct us_PTS us_QTS us_Date us_Seq us_UnreadCount us_Raw] in *.
  change (fun '(k, v) => (valid_text k, json_clean v)) with clean_member. cbn [map].
  struct_member (dec_enc_int32 0 _ H1). struct_member (dec_enc_int32 0 _ H2). struct_member (dec_enc_int32 0 _ H3).
  struct_member (dec_enc_int32 0 _ H4). struct_member (dec_enc_int32 0 _ H5). struct_member dec_enc_bytes. reflexivity.
Qed.

Lemma dec_enc_Peer p : peer_ranges p ->
  dec_struct PeerRef_fields zero_Peer (json_clean (enc_Peer p)) = Ok (clean_Peer p).
Proof.
  destruct p as [id hash kind title user]. intros (H1 & H2). unfold enc_Peer, clean_Peer, zero_Peer.
  cbn [json_clean dec_struct pr_ID pr_AccessHash pr_Kind pr_Title pr_Username] in *.
  change (fun '(k, v) => (valid_text k, json_clean v)) with clean_member. cbn [map].
  struct_member (dec_enc_int64 0 _ H1). struct_member (dec_enc_int64 0 _ H2). do 3 struct_member dec_enc_string.
  reflexivity.
Qed.

Lemma dec_enc_Peers ps : Forall peer_ranges ps ->
  dec_slice (dec_struct PeerRef_fields) zero_Peer [] (json_clean (JArr (map enc_Peer ps))) = Ok (map clean_Peer ps).
Proof.
  intros H. cbn [json_clean dec_slice]. induction H as [|p ps Hp _ IH]; [done|]. cbn [map dec_elements].
  change (default zero_Peer (head [])) with zero_Peer. rewrite dec_enc_Peer by done. cbn [tail].
  change (tail []) with (@nil PeerRef). by rewrite IH.
Qed.

Lemma small_i64 z : is_i64 z -> - 10 ^ 20 < z < 10 ^ 20.
Proof. unfold is_i64, two63. lia. Qed.
Lemma small_u64 z : is_u64 z -> - 10 ^ 20 < z < 10 ^ 20.
Proof. unfold is_u64, two64. lia. Qed.
Lemma small_i32 z : is_i32 z -> - 10 ^ 20 < z < 10 ^ 20.
Proof. unfold is_i32, two31. lia. Qed.
#[local] Hint Resolve small_i64 small_u64 small_i32 number_enc_int : json.

Lemma wf_enc_bytes d l : json_wf d (enc_bytes l).
Proof. by destruct l. Qed.
Lemma wf_enc_string d s : json_wf d (enc_string s).
Proof. done. Qed.
#[local] Hint Resolve wf_enc_bytes wf_enc_string : json.

(** Go through the members. *)
Ltac members_wf := repeat first [apply List.Forall_nil | apply List.Forall_cons; [cbn [snd member]; auto with json|]].

Lemma wf_enc_Session d s : 0 < d -> session_ranges s -> json_wf d (enc_Session s).
Proof.
  intros Hd (H1 & H2 & H3 & H4 & H5 & H6 & H7 & H8). apply json_wf_obj. split; [done|].
  apply Forall_app. split; [members_wf|]. apply Forall_app. split; [destruct (_ =? _)%string|]; members_wf.
Qed.
Lemma wf_enc_State d s : 0 < d -> state_ranges s -> json_wf d (enc_State s).
Proof. intros Hd (H1 & H2 & H3 & H4 & H5). apply json_wf_obj. split; [done|members_wf]. Qed.
Lemma wf_enc_Peer d p : 0 < d -> peer_ranges p -> json_wf d (enc_Peer p).
Proof. intros Hd (H1 & H2). apply json_wf_obj. split; [done|members_wf]. Qed.
Lemma wf_enc_Peers d ps : 1 < d -> Forall peer_ranges ps -> json_wf d (JArr (map enc_Peer ps)).
Proof.
  intros Hd H. apply json_wf_arr. split; [lia|]. apply Forall_map. eapply Forall_impl; [exact H|]. intros p Hp.
  apply wf_enc_Peer; [lia|done].
Qed.

Lemma Unmarshal_print {A} (dec : decoder A) zero v : json_wf maxNestingDepth v ->
  Unmarshal dec zero (json_print v) = dec zero (json_clean v).
Proof. intros H. unfold Unmarshal. by rewrite json_parse_print. Qed.

(** A text is not empty. *)
Lemma json_print_len v : json_wf maxNestingDepth v -> (len (json_print v) =? 0) = false.
Proof.
  intros H. destruct (json_print_start _ v H) as (b & r & -> & _). apply Z.eqb_neq. rewrite len_cons.
  pose proof (len_nonneg r). lia.
Qed.

Lemma Valid_clean s : Valid (Some s) = Ok tt -> Valid (Some (clean_Session s)) = Ok tt.
Proof. rewrite !Valid_spec. cbn. by rewrite clean_string_empty. Qed.

Lemma stamped_ranges now s : is_i64 now -> session_ranges s -> session_ranges (stamped now s).
Proof.
  intros Hn (H1 & H2 & H3 & H4 & H5 & H6 & H7 & H8). unfold session_ranges. cbn. split_and!; try done.
  - by destruct (_ =? 0).
  - by destruct (_ =? 0).
Qed.
Lemma stamped_version now s : (se_Version (stamped now s) =? 0) = false.
Proof. cbn. destruct (Z.eqb_spec (se_Version s) 0); [done|by apply Z.eqb_neq]. Qed.

Lemma MarshalBinary_valid now s : Valid (Some s) = Ok tt ->
  MarshalBinary now (Some s) = Ok (json_print (enc_Session (stamped now s))).
Proof. intros H. unfold MarshalBinary. by rewrite H. Qed.

Lemma ParseSession_marshal now s : is_i64 now -> session_ranges s -> Valid (Some s) = Ok tt ->
  ParseSession (json_print (enc_Session (stamped now s))) = Ok (clean_Session (stamped now s)).
Proof.
  intros Hn Hr Hv. assert (Hs := stamped_ranges now s Hn Hr). assert (Hw := wf_enc_Session maxNestingDepth _ eq_refl Hs).
  unfold ParseSession. rewrite json_print_len, Unmarshal_print, dec_enc_Session by done.
  change (se_Version (clean_Session (stamped now s))) with (se_Version (stamped now s)). rewrite stamped_version.
  cbv zeta. by rewrite (Valid_clean (stamped now s) Hv).
Qed.

(** The bundle as it comes back. *)
Definition clean_bundle (b : runtimeSessionBundle) : runtimeSessionBundle :=
  MkBundle (rb_Version b) (clean_string (rb_Kind b)) (clean_Session <$> rb_MTProto b) (rb_State b)
    (map clean_Peer (rb_Peers b)) (rb_CreatedAt b) (rb_UpdatedAt b).

Definition bundle_ranges (b : runtimeSessionBundle) : Prop :=
  is_i64 (rb_Version b) /\ (forall s, rb_MTProto b = Some s -> session_ranges s) /\
  (forall s, rb_State b = Some s -> state_ranges s) /\ Forall peer_ranges (rb_Peers b) /\
  is_i64 (rb_CreatedAt b) /\ is_i64 (rb_UpdatedAt b).

Lemma wf_enc_bundle b : bundle_ranges b -> json_wf maxNestingDepth (enc_bundle b).
Proof.
  intros (H1 & H2 & H3 & H4 & H5 & H6). apply json_wf_obj. split; [done|]. repeat (apply Forall_app; split).
  - members_wf. destruct (rb_MTProto b) as [s|]; [|done]. by apply wf_enc_Session, H2.
  - destruct (rb_State b) as [s|]; members_wf. by apply wf_enc_State, H3.
  - destruct (rb_Peers b) as [|p ps]; members_wf. by apply (wf_enc_Peers _ (p :: ps)).
  - members_wf.
Qed.

Lemma dec_enc_pointer {A} (dec : decoder A) zero v a : json_clean v <> JNull -> dec zero (json_clean v) = Ok a ->
  dec_pointer dec zero None (json_clean v) = Ok (Some a).
Proof. intros Hn Hd. unfold dec_pointer. cbn [default from_option]. rewrite Hd. by destruct (json_clean v). Qed.

Lemma dec_enc_bundle b : bundle_ranges b ->
  dec_struct bundle_fields zero_bundle (json_clean (enc_bundle b)) = Ok (clean_bundle b).
Proof.
  destruct b as [v kind sess state peers created updated]. intros (H1 & H2 & H3 & H4 & H5 & H6).
  unfold enc_bundle, clean_bundle, zero_bundle.
  cbn [json_clean dec_struct rb_Version rb_Kind rb_MTProto rb_State rb_Peers rb_CreatedAt rb_UpdatedAt] in *.
  change (fun '(k, v) => (valid_text k, json_clean v)) with clean_member. rewrite !map_app. cbn [map app].
  struct_member (dec_enc_int64 0 _ H1). struct_member dec_enc_string.
  assert (E1 : dec_pointer (dec_struct Session_fields) zero_Session None
    (json_clean match sess with Some s => enc_Session s | None => JNull end) = Ok (clean_Session <$> sess)).
  { destruct sess as [s|]; [|done]. apply dec_enc_pointer; [done|]. by apply dec_enc_Session, H2. }
  struct_member E1. clear E1.
  assert (E2 : forall k m rest, dec_members bundle_fields (MkBundle v k m None [] 0 0)
    (map clean_member (state_member state) ++ rest) =
    dec_members bundle_fields (MkBundle v k m state [] 0 0) rest).
  { intros k m rest. destruct state as [s|]; [|done]. cbn [state_member map app].
    assert (E : dec_pointer (dec_struct UpdatesState_fields) zero_State None (json_clean (enc_State s)) = Ok (Some s))
      by (apply dec_enc_pointer; [done|by apply dec_enc_State, H3]).
    struct_member E. reflexivity. }
  rewrite E2. clear E2.
  assert (E3 : forall k m rest, dec_members bundle_fields (MkBundle v k m state [] 0 0)
    (map clean_member (peers_member peers) ++ rest) =
    dec_members bundle_fields (MkBundle v k m state (map clean_Peer peers) 0 0) rest).
  { intros k m rest. destruct peers as [|p ps]; [done|]. cbn [peers_member map app].
    pose proof (dec_enc_Peers _ H4) as E. cbn [map] in E. struct_member E. reflexivity. }
  rewrite E3. clear E3. struct_member (dec_enc_int64 0 _ H5). struct_member (dec_enc_int64 0 _ H6). reflexivity.
Qed.

(** A member that no field takes is skipped. *)
Lemma dec_unknown {S} (fields : list (field S)) name s v rest :
  is_ascii (bytes_of name) = true -> find_field fields (bytes_of name) = None ->
  dec_members fields s (clean_member (member name v) :: rest) = dec_members fields s rest.
Proof. intros Ha Hf. unfold clean_member, member. cbn [dec_members]. by rewrite valid_ascii, Hf. Qed.
Ltac skip_member := rewrite dec_unknown by reflexivity.

(** A bare session is a bundle without session. *)
Lemma dec_bare_Session s : session_ranges s ->
  dec_struct bundle_fields zero_bundle (json_clean (enc_Session s)) =
  Ok (MkBundle (se_Version s) (clean_string (se_Kind s)) None None [] (se_CreatedAt s) (se_UpdatedAt s)).
Proof.
  destruct s as [v kind dc addr key id salt sid off created updated]. intros (H1 & H2 & H3 & H4 & H5 & H6 & H7 & H8).
  unfold enc_Session, zero_bundle.
  cbn [json_clean dec_struct se_Version se_Kind se_DCID se_Address se_AuthKey se_AuthKeyID se_ServerSalt se_SessionID
    se_TimeOffset se_CreatedAt se_UpdatedAt] in *.
  change (fun '(k, v) => (valid_text k, json_clean v)) with clean_member. rewrite map_app. cbn [map app].
  struct_member (dec_enc_int64 0 _ H1). rewrite map_app.
  assert (E : forall rest, dec_members bundle_fields (MkBundle v EmptyString None None [] 0 0)
    (map clean_member (if (kind =? EmptyString)%string then [] else [member "kind" (enc_string kind)]) ++ rest) =
    dec_members bundle_fields (MkBundle v (clean_string kind) None None [] 0 0) rest).
  { intros rest. destruct (String.eqb_spec kind EmptyString) as [->|]; [done|]. cbn [map app].
    struct_member dec_enc_string. reflexivity. }
  rewrite E. cbn [map]. do 7 skip_member.
  struct_member (dec_enc_int64 0 _ H7). struct_member (dec_enc_int64 0 _ H8). reflexivity.
Qed.

(** The session the bot gets back from what it saved. *)
Lemma parseRuntimeSession_marshal now kind s state peers :
  is_i64 now -> session_ranges s -> Valid (Some s) = Ok tt ->
  (forall st, state = Some st -> state_ranges st) -> Forall peer_ranges peers ->
  let b := MkBundle runtimeSessionVersion kind (Some s) state peers now now in
  parseRuntimeSession (json_print (enc_bundle b)) = Ok (clean_bundle b).
Proof.
  intros Hn Hs Hv Hst Hp b.
  assert (Hb : bundle_ranges b) by (unfold bundle_ranges; cbn; split_and!; [done|by intros ? [= <-]|done..]).
  unfold parseRuntimeSession. rewrite Unmarshal_print, dec_enc_bundle by (done || by apply wf_enc_bundle).
  cbn [clean_bundle rb_MTProto b fmap option_fmap option_map rb_Version runtimeSessionVersion Z.eqb].
  by rewrite Valid_clean.
Qed.

Lemma parseRuntimeSession_bare now s :
  is_i64 now -> session_ranges s -> Valid (Some s) = Ok tt ->
  parseRuntimeSession (json_print (enc_Session (stamped now s))) =
  Ok (MkBundle runtimeSessionVersion (clean_string (se_Kind s)) (Some (clean_Session (stamped now s))) None [] 0 0).
Proof.
  intros Hn Hr Hv. assert (Hs := stamped_ranges now s Hn Hr). assert (Hw := wf_enc_Session maxNestingDepth _ eq_refl Hs).
  unfold parseRuntimeSession. rewrite Unmarshal_print, dec_bare_Session by done. cbn [rb_MTProto].
  unfold parse_bare_session. by rewrite ParseSession_marshal.
Qed.

(** C16. What the bot saves it gets back ([marshalRuntimeSession] and
    [parseRuntimeSession] of runtime_session.go, through JSON): for every valid
    session, update state and list of peers, with all their integers exact, the
    key and the raw state byte for byte, the strings with invalid UTF-8 replaced
    (nothing else changes), an absent state absent and no peers none.  A session
    saved bare by older versions ([MarshalBinary]) is read as a bundle with that
    session alone. *)
Theorem runtime_session_roundtrip (now : Z) (kind : string) (s : Session) (state : option UpdatesState)
    (peers : list PeerRef) :
  is_i64 now -> session_ranges s -> Valid (Some s) = Ok tt ->
  (forall st, state = Some st -> state_ranges st) -> Forall peer_ranges peers ->
  (exists data, marshalRuntimeSession now kind (Some s) state peers = Ok data /\
     parseRuntimeSession data =
       Ok (MkBundle 1 (clean_string kind) (Some (clean_Session s)) state (map clean_Peer peers) now now)) /\
  (exists data, MarshalBinary now (Some s) = Ok data /\
     parseRuntimeSession data =
       Ok (MkBundle 1 (clean_string (se_Kind s)) (Some (clean_Session (stamped now s))) None [] 0 0)).
Proof.
  intros Hn Hs Hv Hst Hp. split; eexists; (split; [by first [reflexivity|apply MarshalBinary_valid]|]).
  - by apply parseRuntimeSession_marshal.
  - by apply parseRuntimeSession_bare.
Qed.

Definition demo_saved : Session :=
  MkSession 1 "bot" 2 "149.154.167.51:443" (replicate 256 xab) (two64 - 1) (-5) (- two63) 3 1700000000 1700000001.
Definition demo_room : PeerRef := MkPeerRef 5 (-77) "supergroup" (string_of [x22; x3c; x52; xe2; x82; xac; x0a]) EmptyString.

Lemma demo_saved_ranges : session_ranges demo_saved.
Proof. unfold session_ranges. cbn. unfold_words. lia. Qed.

Lemma runtime_session_roundtrip_witness :
  match marshalRuntimeSession 1700000002 "bot" (Some demo_saved) (Some (MkState 7 0 3 (-1) 0 [x00; xff])) [demo_room] with
  | Ok data => parseRuntimeSession data =
      Ok (MkBundle 1 "bot" (Some demo_saved) (Some (MkState 7 0 3 (-1) 0 [x00; xff])) [demo_room] 1700000002 1700000002)
  | _ => False
  end.
Proof.
  destruct (runtime_session_roundtrip 1700000002 "bot" demo_saved (Some (MkState 7 0 3 (-1) 0 [x00; xff])) [demo_room])
    as [(data & -> & H) _].
  - unfold_words. lia.
  - apply demo_saved_ranges.
  - by vm_compute.
  - intros st [= <-]. unfold state_ranges. cbn. unfold_words. lia.
  - repeat constructor; cbn; unfold_words; lia.
  - rewrite H. assert (E : clean_Session demo_saved = demo_saved) by (vm_compute; reflexivity). rewrite E.
    vm_compute. reflexivity.
Defined.

(** ** Exported sessions *)

(** The session a client exports at the time [now]. *)
Definition exported (kind : string) (cl : EncryptedClient) (es : encryptedState) (now : Z) : Session :=
  MkSession sessionVersion kind (dc_ID (ec_dc cl)) (dc_Address (ec_dc cl)) (ak_AuthKey (ec_auth cl))
    (ak_AuthKeyID (ec_auth cl)) (es_serverSalt es) (es_sessionID es) (es_timeOffset es) (unix now) (unix now).

(** A client whose session [Valid] accepts, with the Go types of its fields. *)
Record exportable (cl : EncryptedClient) (es : encryptedState) : Prop := {
  ex_state : ec_state cl = Some es;
  ex_wf : es_wf es;
  ex_dc : 0 < dc_ID (ec_dc cl) < two63;
  ex_address : dc_Address (ec_dc cl) <> EmptyString /\ is_ascii (bytes_of (dc_Address (ec_dc cl))) = true;
  ex_key : len (ak_AuthKey (ec_auth cl)) = 256;
  ex_id : 0 < ak_AuthKeyID (ec_auth cl) < two64 }.

Lemma ExportSession_run kind cl es e : ec_state cl = Some es ->
  ExportSession kind (cl, e) = (Ok (Some (exported kind cl es (e_clock e (e_tick e)))), (cl, snd (env_Now e))).
Proof. intros Hs. unfold ExportSession, bind, get. cbn [fst]. by rewrite Hs. Qed.

Lemma exported_ok kind cl es now : is_ascii (bytes_of kind) = true -> exportable cl es ->
  session_ranges (exported kind cl es now) /\ Valid (Some (exported kind cl es now)) = Ok tt /\
  clean_Session (exported kind cl es now) = exported kind cl es now.
Proof.
  intros Hk [H1 H2 H3 [H4 H4'] H5 H6]. pose proof (unix_range now) as Hn. split; [|split].
  - unfold session_ranges, exported. cbn. unfold es_wf in H2. unfold is_i64, is_u64, is_i32, sessionVersion, two63, two64 in *.
    split_and!; lia.
  - apply Valid_spec. cbn. split_and!; [lia|done|done|lia].
  - unfold clean_Session, exported. cbn [se_Version se_Kind se_DCID se_Address se_AuthKey se_AuthKeyID se_ServerSalt
      se_SessionID se_TimeOffset se_CreatedAt se_UpdatedAt]. by rewrite !clean_string_ascii by done.
Qed.

Lemma EncodeString_returns now sess : EncodeString now sess <> Panic.
Proof.
  unfold EncodeString, MarshalBinary. pose proof (Valid_returns sess) as H. destruct (Valid sess) eqn:E; [|done..].
  by destruct sess.
Qed.

(** C30. A string session can be copied and read back ([EncodeString],
    [String], [ParseStringSession]): it is the prefix and base64 of visible
    characters, which reads back, with or without the prefix, as the session
    with its version and dates filled in and its strings valid; a session that
    is not [Valid] gives an error and an empty string. *)
Theorem string_session_roundtrip (now : Z) (s : Session) :
  is_i64 now -> session_ranges s ->
  match Valid (Some s) with
  | Ok _ => exists text, EncodeString now (Some s) = Ok (stringSessionPrefix ++ text)%string /\
      Session_String now (Some s) = (stringSessionPrefix ++ text)%string /\
      forallb graphic (bytes_of (stringSessionPrefix ++ text)) = true /\
      ParseStringSession (stringSessionPrefix ++ text) = Ok (clean_Session (stamped now s)) /\
      (HasPrefix text stringSessionPrefix = false -> ParseStringSession text = Ok (clean_Session (stamped now s)))
  | Err e => EncodeString now (Some s) = Err e /\ Session_String now (Some s) = EmptyString
  | Panic => False
  end.
Proof.
  intros Hn Hr. destruct (Valid (Some s)) as [[]|e|] eqn:Hv.
  2:{ unfold Session_String, EncodeString, MarshalBinary. by rewrite Hv. }
  2:{ by destruct (Valid_returns (Some s)). }
  set (data := json_print (enc_Session (stamped now s))). exists (string_of (b64_encode data)).
  assert (E : EncodeString now (Some s) = Ok (stringSessionPrefix ++ string_of (b64_encode data))%string)
    by (unfold EncodeString; by rewrite MarshalBinary_valid).
  assert (Hg : forallb graphic (b64_encode data) = true) by apply b64_encode_graphic.
  assert (Hp : forallb graphic (bytes_of (stringSessionPrefix ++ string_of (b64_encode data))) = true).
  { by rewrite bytes_of_app, bytes_of_string_of, forallb_app, Hg. }
  assert (Hparse : ParseSession data = Ok (clean_Session (stamped now s))) by (by apply ParseSession_marshal).
  unfold Session_String. rewrite E. do 2 (split; [done|]). split; [done|].
  unfold ParseStringSession, TrimSpace. cbv zeta. split.
  - rewrite trim_graphic, string_of_bytes_of, HasPrefix_app, TrimPrefix_app, bytes_of_string_of, b64_decode_encode by done.
    done.
  - rewrite bytes_of_string_of, trim_graphic by done. intros ->. rewrite bytes_of_string_of, b64_decode_encode. done.
Qed.

Lemma string_session_roundtrip_witness :
  is_ok (Valid (Some demo_saved)) = true /\
  exists text, EncodeString 1700000002 (Some demo_saved) = Ok text /\
    ParseStringSession text = Ok (stamped 1700000002 demo_saved).
Proof.
  split; [vm_compute; reflexivity|].
  assert (H := string_session_roundtrip 1700000002 demo_saved ltac:(unfold_words; lia) demo_saved_ranges).
  assert (Hv : Valid (Some demo_saved) = Ok tt) by (vm_compute; reflexivity). rewrite Hv in H.
  destruct H as (text & E & _ & _ & P & _). eexists. split; [exact E|]. rewrite P. vm_compute. reflexivity.
Defined.

(** ** Any data *)

Lemma Session_fields_total : total (dec_struct Session_fields).
Proof. fields_total. Qed.
Lemma State_fields_total : total (dec_struct UpdatesState_fields).
Proof. fields_total. Qed.
Lemma Peer_fields_total : total (dec_struct PeerRef_fields).
Proof. fields_total. Qed.
#[local] Hint Resolve Session_fields_total State_fields_total Peer_fields_total : json.
Lemma bundle_fields_total : total (dec_struct bundle_fields).
Proof. fields_total. Qed.

Lemma ParseSession_sound data :
  match ParseSession data with
  | Ok s => Valid (Some s) = Ok tt /\ se_Version s <> 0
  | Err _ => True
  | Panic => False
  end.
Proof.
  unfold ParseSession. destruct (_ =? 0); [done|]. pose proof (Unmarshal_total _ zero_Session data Session_fields_total) as H.
  destruct (Unmarshal _ _ data) as [s|e|]; [|done..]. cbv zeta.
  set (s' := if se_Version s =? 0 then _ else s).
  assert (Hv : se_Version s' <> 0) by (unfold s'; by destruct (Z.eqb_spec (se_Version s) 0)).
  pose proof (Valid_returns (Some s')). destruct (Valid (Some s')) as [[]|e'|] eqn:E; [by split|done..].
Qed.

(** *** Types *)

Lemma int64_keeps old v z : is_i64 old -> dec_int64 old v = Ok z -> is_i64 z.
Proof. unfold is_i64. intros Ho H. apply dec_int_range in H; lia. Qed.
Lemma int32_keeps old v z : is_i32 old -> dec_int32 old v = Ok z -> is_i32 z.
Proof. unfold is_i32. intros Ho H. apply dec_int_range in H; lia. Qed.
Lemma uint64_keeps old v z : is_u64 old -> dec_uint64 old v = Ok z -> is_u64 z.
Proof. unfold is_u64. intros Ho H. apply dec_uint_range in H; lia. Qed.

(** One field of a struct of which [P] fixes the integers' types. *)
Ltac field_typed P :=
  first [ apply (field_of_keeps P is_i64); [| |exact int64_keeps]
        | apply (field_of_keeps P is_i32); [| |exact int32_keeps]
        | apply (field_of_keeps P is_u64); [| |exact uint64_keeps]
        | apply (field_of_keeps P (fun _ => True)); [| |done] ];
  unfold P; cbn; tauto.

Lemma Session_fields_keep : Forall (field_keeps session_ranges) Session_fields.
Proof. repeat (apply List.Forall_cons; [field_typed session_ranges|]). apply List.Forall_nil. Qed.
Lemma State_fields_keep : Forall (field_keeps state_ranges) UpdatesState_fields.
Proof. repeat (apply List.Forall_cons; [field_typed state_ranges|]). apply List.Forall_nil. Qed.
Lemma Peer_fields_keep : Forall (field_keeps peer_ranges) PeerRef_fields.
Proof. repeat (apply List.Forall_cons; [field_typed peer_ranges|]). apply List.Forall_nil. Qed.

Lemma zero_ranges : session_ranges zero_Session /\ state_ranges zero_State /\ peer_ranges zero_Peer.
Proof. unfold session_ranges, state_ranges, peer_ranges. cbn. unfold_words. lia. Qed.

Lemma dec_pointer_keeps {A} (P : A -> Prop) (dec : decoder A) zero old v a :
  (forall old v a, P old -> dec old v = Ok a -> P a) -> P zero -> (forall x, old = Some x -> P x) ->
  dec_pointer dec zero old v = Ok a -> forall x, a = Some x -> P x.
Proof.
  intros Hd Hz Ho H x ->. assert (Hp : P (default zero old)) by (destruct old; [by apply Ho|done]).
  unfold dec_pointer in H. destruct v; try discriminate;
    (destruct (dec (default zero old) _) as [y| |] eqn:E; [|discriminate..]; injection H as <-; by eapply Hd).
Qed.

Lemma dec_slice_keeps {A} (P : A -> Prop) (dec : decoder A) zero old v l :
  (forall old v a, P old -> dec old v = Ok a -> P a) -> P zero -> Forall P old ->
  dec_slice dec zero old v = Ok l -> Forall P l.
Proof.
  intros Hd Hz Ho. unfold dec_slice. destruct v; try discriminate; [by intros [= <-]|].
  revert old l Ho. induction elements as [|v vs IH]; intros old l Ho; cbn [dec_elements]; [by intros [= <-]|].
  destruct (dec (default zero (head old)) v) as [a| |] eqn:E; [|discriminate..].
  destruct (dec_elements dec zero (tail old) vs) as [l'| |] eqn:E'; [|discriminate..]. intros [= <-]. constructor.
  - eapply Hd; [|exact E]. by destruct Ho.
  - eapply IH; [|exact E']. by destruct Ho.
Qed.

Lemma bundle_fields_keep : Forall (field_keeps bundle_ranges) bundle_fields.
Proof.
  assert (Hs := proj1 zero_ranges). assert (Ht := proj1 (proj2 zero_ranges)). assert (Hp := proj2 (proj2 zero_ranges)).
  repeat (apply List.Forall_cons; [try field_typed bundle_ranges|]); [..|apply List.Forall_nil].
  - apply (field_of_keeps _ (fun a => forall x, a = Some x -> session_ranges x)); [unfold bundle_ranges; cbn; tauto..|].
    intros old v a Ho. apply (dec_pointer_keeps session_ranges); [|done..].
    intros ? ? ?. apply dec_struct_keeps, Session_fields_keep.
  - apply (field_of_keeps _ (fun a => forall x, a = Some x -> state_ranges x)); [unfold bundle_ranges; cbn; tauto..|].
    intros old v a Ho. apply (dec_pointer_keeps state_ranges); [|done..].
    intros ? ? ?. apply dec_struct_keeps, State_fields_keep.
  - apply (field_of_keeps _ (Forall peer_ranges)); [unfold bundle_ranges; cbn; tauto..|].
    intros old v a Ho. apply (dec_slice_keeps peer_ranges); [|done..].
    intros ? ? ?. apply dec_struct_keeps, Peer_fields_keep.
Qed.

Lemma Unmarshal_keeps {S} (P : S -> Prop) fields zero data s :
  Forall (field_keeps P) fields -> P zero -> Unmarshal (dec_struct fields) zero data = Ok s -> P s.
Proof. unfold Unmarshal. intros Hf Hz. destruct (json_parse data); try discriminate. by apply dec_struct_keeps. Qed.

Lemma ParseSession_typed data s : ParseSession data = Ok s -> session_ranges s.
Proof.
  unfold ParseSession. destruct (_ =? 0); [discriminate|].
  destruct (Unmarshal _ _ data) as [s1| |] eqn:E; [|discriminate..].
  apply (Unmarshal_keeps session_ranges) in E; [|apply Session_fields_keep|apply zero_ranges]. cbv zeta.
  set (s2 := if _ =? 0 then _ else s1). assert (H2 : session_ranges s2).
  { unfold s2. destruct (_ =? 0); [|done]. split; [done|apply E]. }
  destruct (Valid (Some s2)); [|discriminate..]. by intros [= <-].
Qed.

Lemma parseRuntimeSession_typed data b : parseRuntimeSession data = Ok b -> bundle_ranges b.
Proof.
  assert (Hz : bundle_ranges zero_bundle) by (unfold bundle_ranges; cbn; by split_and!).
  assert (Hb : parse_bare_session data = Ok b -> bundle_ranges b).
  { unfold parse_bare_session. destruct (ParseSession data) as [s| |] eqn:E; [|discriminate..].
    intros [= <-]. unfold bundle_ranges. cbn. apply ParseSession_typed in E. split_and!; try done. by intros ? [= <-]. }
  unfold parseRuntimeSession. destruct (Unmarshal _ _ data) as [b1| |] eqn:E; [|done|discriminate].
  apply (Unmarshal_keeps bundle_ranges) in E; [|apply bundle_fields_keep|done].
  destruct (rb_MTProto b1); [|done]. cbv zeta. set (b2 := if _ =? 0 then _ else b1).
  assert (H2 : bundle_ranges b2) by (unfold b2; destruct (_ =? 0); [split; [done|apply E]|done]).
  destruct (Valid (rb_MTProto b2)); [|discriminate..]. by intros [= <-].
Qed.

Lemma parse_bare_sound data :
  match parse_bare_session data with
  | Ok b => Valid (rb_MTProto b) = Ok tt /\ rb_Version b <> 0
  | Err _ => True
  | Panic => False
  end.
Proof.
  unfold parse_bare_session. pose proof (ParseSession_sound data) as H. destruct (ParseSession data); [|done..].
  by split; [apply H|].
Qed.

Lemma parseRuntimeSession_sound data :
  match parseRuntimeSession data with
  | Ok b => Valid (rb_MTProto b) = Ok tt /\ rb_Version b <> 0
  | Err _ => True
  | Panic => False
  end.
Proof.
  pose proof (parse_bare_sound data) as Hb.
  unfold parseRuntimeSession. pose proof (Unmarshal_total _ zero_bundle data bundle_fields_total) as H.
  destruct (Unmarshal _ _ data) as [b|e|]; [|done..]. destruct (rb_MTProto b) as [s|] eqn:E; [|done]. cbv zeta.
  set (b' := if rb_Version b =? 0 then _ else b).
  assert (Hv : rb_Version b' <> 0) by (unfold b'; by destruct (Z.eqb_spec (rb_Version b) 0)).
  pose proof (Valid_returns (rb_MTProto b')). destruct (Valid (rb_MTProto b')) as [[]|e'|] eqn:Ev; [by split|done..].
Qed.

(** C31. No data makes the readers of sessions panic ([ParseSession],
    [ParseStringSession], [parseRuntimeSession], for any bytes, so also for a
    damaged file), and what they return is well typed: a session that [Valid]
    accepts, with a version, every integer of the session, the update state and
    the peers within its Go type. *)
Theorem parsed_sessions_typed (data : list byte) (text : string) :
  match ParseSession data with
  | Ok s => Valid (Some s) = Ok tt /\ se_Version s <> 0 /\ session_ranges s
  | Err _ => True
  | Panic => False
  end /\
  match ParseStringSession text with
  | Ok s => Valid (Some s) = Ok tt /\ se_Version s <> 0 /\ session_ranges s
  | Err _ => True
  | Panic => False
  end /\
  match parseRuntimeSession data with
  | Ok b => Valid (rb_MTProto b) = Ok tt /\ rb_Version b <> 0 /\ bundle_ranges b
  | Err _ => True
  | Panic => False
  end.
Proof.
  assert (H1 : forall d, match ParseSession d with
    | Ok s => Valid (Some s) = Ok tt /\ se_Version s <> 0 /\ session_ranges s | Err _ => True | Panic => False end).
  { intros d. pose proof (ParseSession_sound d) as H. destruct (ParseSession d) as [s| |] eqn:E; [|done..].
    apply ParseSession_typed in E. tauto. }
  split; [apply H1|]. split.
  - unfold ParseStringSession. cbv zeta. pose proof (b64_decode_returns (bytes_of
      (if HasPrefix (TrimSpace text) stringSessionPrefix then TrimPrefix (TrimSpace text) stringSessionPrefix else TrimSpace text))).
    destruct (b64_decode _); [apply H1|done..].
  - pose proof (parseRuntimeSession_sound data) as H. destruct (parseRuntimeSession data) as [b| |] eqn:E; [|done..].
    apply parseRuntimeSession_typed in E. tauto.
Qed.
