(* ===== verification/Updates.v ===== *)
(** * Updates: messages, chat ids and the bounded caches
    (src/updates/message.go, src/updates/cache.go)

    The caches are values that every method returns anew; their mutexes make each
    method atomic, so a history of calls is a sequence of these functions.  The
    nil receiver, which every method accepts, is [None] in the dispatcher. *)

From S2P Require Import Prelude.

(** ** Chat ids *)

Definition ChatPrivate : string := "private".
Definition ChatGroup : string := "group".
Definition ChatSupergroup : string := "supergroup".
Definition ChatChannel : string := "channel".

Definition channelDialogIDOffset : Z := 1000000000000.

Definition NormalizeChatID (rawID : Z) (chatType : string) : Z :=
  if rawID =? 0 then 0
  else if (chatType =? ChatGroup)%string then
    if rawID <? 0 then rawID else i64 (- rawID)
  else if ((chatType =? ChatSupergroup) || (chatType =? ChatChannel))%string then
    if rawID <=? - channelDialogIDOffset then rawID
    else if rawID <? 0 then rawID
    else i64 (- channelDialogIDOffset - rawID)
  else rawID.

Definition RawChatID (chatID : Z) : Z :=
  if chatID <=? - channelDialogIDOffset then i64 (i64 (- chatID) - channelDialogIDOffset)
  else if chatID <? 0 then i64 (- chatID)
  else chatID.

Definition LooksLikeChannelChatID (chatID : Z) : bool := chatID <=? - channelDialogIDOffset.

(** ** Messages

    [W] is the world the interfaces act on, [Raw] the payload of [Raw any]. *)

Section Messages.
Context {W Raw : Type}.

(** The three interfaces, [None] for a nil value. *)
Definition ReplySender : Type := Z -> Z -> string -> M W unit.
Definition MessageEditor : Type := Z -> Z -> string -> M W unit.
Definition MessageDeleter : Type := Z -> list Z -> M W unit.

Record Message := MkMessage {
  m_ID : Z; m_ChatID : Z; m_RawChatID : Z; m_FromID : Z; m_ChatType : string; m_Text : string;
  m_Date : Z; m_Raw : option Raw;
  m_ReplySender : option ReplySender; m_Editor : option MessageEditor;
  m_Deleter : option MessageDeleter }.

Definition ErrNoReplySender : goerr := ErrNew "message has no reply sender".

Definition Message_Reply (m : Message) (text : string) : M W unit :=
  match m_ReplySender m with
  | None => fail ErrNoReplySender
  | Some send => send (m_ChatID m) (m_ID m) text
  end.

Definition Message_Edit (m : Message) (text : string) : M W unit :=
  match m_Editor m with
  | None => fail ErrNoReplySender
  | Some edit => edit (m_ChatID m) (m_ID m) text
  end.

Definition Message_Delete (m : Message) : M W unit :=
  match m_Deleter m with
  | None => fail ErrNoReplySender
  | Some delete => delete (m_ChatID m) [m_ID m]
  end.

(** [T] holds of whatever the interfaces of a message do. *)
Definition message_all (T : M W unit -> Prop) (m : Message) : Prop :=
  (forall f, m_ReplySender m = Some f -> forall chatID replyTo text, T (f chatID replyTo text)) /\
  (forall f, m_Editor m = Some f -> forall chatID id text, T (f chatID id text)) /\
  (forall f, m_Deleter m = Some f -> forall chatID ids, T (f chatID ids)).

Lemma message_all_actions (T : M W unit -> Prop) (m : Message) : message_all T m -> T (fail ErrNoReplySender) ->
  (forall text, T (Message_Reply m text)) /\ (forall text, T (Message_Edit m text)) /\ T (Message_Delete m).
Proof.
  intros (H1 & H2 & H3) H0. unfold Message_Reply, Message_Edit, Message_Delete.
  destruct (m_ReplySender m), (m_Editor m), (m_Deleter m); split_and!; intros; auto.
Qed.
End Messages.
Arguments Message : clear implicits.

(** ** The message cache: a ring *)

Section MessageCache.
Context {Msg : Type}.

Record MessageCache := MkMessageCache {
  mc_limit : Z; mc_items : list Msg; mc_pos : Z; mc_full : bool }.

Definition NewMessageCache (size : Z) : MessageCache :=
  let size := if size <? 0 then 0 else size in MkMessageCache size [] 0 false.

Definition MessageCache_Limit (c : MessageCache) : Z := mc_limit c.
Definition MessageCache_Len (c : MessageCache) : Z := len (mc_items c).

(** [c.items[c.pos] = &clone] panics when the position is out of range. *)
Definition MessageCache_Add (msg : Msg) (c : MessageCache) : outcome MessageCache :=
  if mc_limit c <=? 0 then Ok c
  else if len (mc_items c) <? mc_limit c then
    Ok (MkMessageCache (mc_limit c) (mc_items c ++ [msg]) (mc_pos c) (mc_full c))
  else if (0 <=? mc_pos c) && (mc_pos c <? len (mc_items c)) then
    Ok (MkMessageCache (mc_limit c) (<[Z.to_nat (mc_pos c) := msg]> (mc_items c))
          (Z.rem (mc_pos c + 1) (mc_limit c)) true)
  else Panic.

Definition orderedLocked (c : MessageCache) : outcome (list Msg) :=
  if len (mc_items c) =? 0 then Ok []
  else if negb (mc_full c) then Ok (mc_items c)
  else match slice (mc_items c) (mc_pos c) (len (mc_items c)), slice (mc_items c) 0 (mc_pos c) with
       | Ok newer, Ok older => Ok (newer ++ older)
       | _, _ => Panic
       end.

Definition MessageCache_Last (n : Z) (c : MessageCache) : outcome (list Msg) :=
  if n <=? 0 then Ok []
  else match orderedLocked c with
       | Ok ordered =>
           let n := if len ordered <? n then len ordered else n in
           slice ordered (len ordered - n) (len ordered)
       | Err e => Err e
       | Panic => Panic
       end.

Definition MessageCache_All (c : MessageCache) : outcome (list Msg) := orderedLocked c.

(** *** The contract: the last [limit] messages *)

Definition lastn (n : Z) (l : list Msg) : list Msg := drop (length l - Z.to_nat n) l.

(** The ring holds the last messages of the history [hist]. *)
Record ring (c : MessageCache) (hist : list Msg) : Prop := {
  ring_limit : 0 <= mc_limit c;
  ring_empty : mc_limit c = 0 -> mc_items c = [];
  ring_pos : 0 <= mc_pos c <= len (mc_items c);
  ring_room : len (mc_items c) < mc_limit c -> mc_full c = false;
  ring_start : mc_full c = false -> mc_pos c = 0;
  ring_in : mc_full c = true -> mc_pos c < mc_limit c;
  ring_bound : len (mc_items c) <= mc_limit c;
  ring_order : drop (Z.to_nat (mc_pos c)) (mc_items c) ++ take (Z.to_nat (mc_pos c)) (mc_items c)
               = lastn (mc_limit c) hist;
  ring_count : len (mc_items c) < mc_limit c -> mc_items c = hist }.

Lemma lastn_all n l : len l <= n -> lastn n l = l.
Proof. unfold lastn, len. intros. by replace (length l - Z.to_nat n)%nat with O by lia. Qed.

Lemma len_lastn n l : 0 <= n -> len (lastn n l) = Z.min n (len l).
Proof. unfold lastn, len. intros. rewrite length_drop. lia. Qed.

Lemma lastn_snoc_short n l x : len l < n -> lastn n (l ++ [x]) = lastn n l ++ [x].
Proof. intros. rewrite !lastn_all by (rewrite ?len_app, ?len_cons, ?len_nil; lia). done. Qed.

Lemma lastn_snoc_full n l x :
  0 < n -> n <= len l -> lastn n (l ++ [x]) = tail (lastn n l) ++ [x].
Proof.
  unfold lastn, len. intros H0 Hn. rewrite length_app. simpl.
  replace (length l + 1 - Z.to_nat n)%nat with (S (length l - Z.to_nat n)) by lia.
  rewrite drop_app_le by lia. f_equal.
  destruct (drop (length l - Z.to_nat n) l) as [|y l'] eqn:E.
  - apply (f_equal length) in E. rewrite length_drop in E. simpl in E. lia.
  - simpl. change (S (length l - Z.to_nat n)) with (1 + (length l - Z.to_nat n))%nat.
    by rewrite <- drop_drop, E || (rewrite Nat.add_comm, <- drop_drop, E).
Qed.

Lemma ring_new size : ring (NewMessageCache size) [].
Proof.
  unfold NewMessageCache. destruct (Z.ltb_spec size 0); constructor; simpl;
    rewrite ?len_nil; try lia; try done; unfold lastn; by rewrite ?drop_nil.
Qed.

(** Overwriting the oldest entry moves the window by one. *)
Lemma rotate_insert (l : list Msg) p x :
  (p < length l)%nat ->
  let l' := <[p := x]> l in
  let p' := (if (S p =? length l)%nat then 0 else S p)%nat in
  drop p' l' ++ take p' l' = tail (drop p l ++ take p l) ++ [x].
Proof.
  intros Hp. cbv zeta. destruct (lookup_lt_is_Some_2 l p Hp) as [y Hy].
  assert (Hl1 : length (take p l) = p) by (rewrite length_take; lia).
  rewrite <- (take_drop_middle l p y Hy).
  generalize (take p l), (drop (S p) l), Hl1. clear. intros l1 l2 <-.
  rewrite drop_app_length, take_app_length.
  assert (Hins : <[length l1 := x]> (l1 ++ y :: l2) = l1 ++ x :: l2).
  { rewrite <- (Nat.add_0_r (length l1)) at 1. by rewrite insert_app_r. }
  rewrite Hins.
  rewrite length_app. cbn [length app tail].
  destruct (Nat.eqb_spec (S (length l1)) (length l1 + S (length l2))) as [E|E].
  - assert (length l2 = O) as H2 by lia. destruct l2; [|done]. rewrite drop_0, take_0. by rewrite app_nil_r.
  - replace (S (length l1)) with (length l1 + 1)%nat by lia.
    rewrite drop_app_add, take_app_add. cbn [drop take]. by rewrite app_assoc.
Qed.

Lemma ring_add c hist x :
  ring c hist -> exists c', MessageCache_Add x c = Ok c' /\ ring c' (hist ++ [x]) /\ mc_limit c' = mc_limit c.
Proof.
  intros [R1 R2 R3 R4 R5 R6 R7 R8 R9]. unfold MessageCache_Add.
  destruct (Z.leb_spec (mc_limit c) 0) as [H0|H0].
  { assert (E0 : mc_limit c = 0) by lia. exists c. split; [done|]. split; [|done].
    constructor; try done; rewrite ?R2 by done; rewrite ?len_nil, ?E0; try lia.
    unfold lastn. rewrite drop_nil, take_nil. by rewrite Nat.sub_0_r, drop_all. }
  destruct (Z.ltb_spec (len (mc_items c)) (mc_limit c)) as [Hl|Hl].
  - eexists. split; [reflexivity|]. split; [|done].
    specialize (R4 Hl). specialize (R5 R4). specialize (R9 Hl).
    constructor; cbn [mc_limit mc_items mc_pos mc_full]; try done; autorewrite with lens; try lia;
      try (intros; exfalso; lia).
    + rewrite R5, Z2Nat.inj_0, drop_0, take_0, app_nil_r. rewrite R9. symmetry. apply lastn_all.
      autorewrite with lens. rewrite <- R9. lia.
    + intros _. by rewrite R9.
  - assert (Hlen : len (mc_items c) = mc_limit c) by lia.
    assert (Hpos : mc_pos c < mc_limit c).
    { destruct (mc_full c) eqn:Ef; [by apply R6|]. rewrite R5 by done. lia. }
    rewrite (proj2 (Z.leb_le 0 _)), (proj2 (Z.ltb_lt _ (len _))) by lia. cbn [andb].
    eexists. split; [reflexivity|]. split; [|done].
    assert (Hrem : Z.rem (mc_pos c + 1) (mc_limit c) = if mc_pos c + 1 =? mc_limit c then 0 else mc_pos c + 1).
    { rewrite Z.rem_mod_nonneg by lia. destruct (Z.eqb_spec (mc_pos c + 1) (mc_limit c)) as [->|].
      - apply Z.mod_same. lia.
      - apply Z.mod_small. lia. }
    assert (Hhist : mc_limit c <= len hist).
    { rewrite <- Hlen. apply (f_equal len) in R8. rewrite len_lastn, len_app in R8 by lia.
      assert (len (drop (Z.to_nat (mc_pos c)) (mc_items c)) + len (take (Z.to_nat (mc_pos c)) (mc_items c))
              = len (mc_items c)) by (unfold len; rewrite length_drop, length_take; lia). lia. }
    pose proof (rotate_insert (mc_items c) (Z.to_nat (mc_pos c)) x) as Hrot.
    assert (Hi : (Z.to_nat (mc_pos c) < length (mc_items c))%nat) by (unfold len in *; lia).
    specialize (Hrot Hi). cbv zeta in Hrot. rewrite R8 in Hrot.
    rewrite <- (lastn_snoc_full (mc_limit c) hist x) in Hrot by lia.
    assert (Hli : len (<[Z.to_nat (mc_pos c):=x]> (mc_items c)) = len (mc_items c))
      by (unfold len; by rewrite length_insert).
    constructor; cbn [mc_limit mc_items mc_pos mc_full]; rewrite ?Hli, ?Hrem; try done; try lia;
      try (intros; exfalso; lia).
    + destruct (Z.eqb_spec (mc_pos c + 1) (mc_limit c)); lia.
    + destruct (Z.eqb_spec (mc_pos c + 1) (mc_limit c)); lia.
    + rewrite <- Hrot. unfold len in *.
      destruct (Z.eqb_spec (mc_pos c + 1) (mc_limit c)), (Nat.eqb_spec (S (Z.to_nat (mc_pos c))) (length (mc_items c)));
        try lia; [done|]. by replace (Z.to_nat (mc_pos c + 1)) with (S (Z.to_nat (mc_pos c))) by lia.
Qed.

Lemma ring_len c hist : ring c hist -> MessageCache_Len c = len (lastn (mc_limit c) hist).
Proof.
  intros [R1 R2 R3 R4 R5 R6 R7 R8 R9]. rewrite <- R8. unfold MessageCache_Len, len.
  rewrite length_app, length_drop, length_take. unfold len in *. lia.
Qed.

Lemma ring_ordered c hist : ring c hist -> orderedLocked c = Ok (lastn (mc_limit c) hist).
Proof.
  intros [R1 R2 R3 R4 R5 R6 R7 R8 R9]. unfold orderedLocked. rewrite <- R8.
  destruct (Z.eqb_spec (len (mc_items c)) 0) as [E|E].
  { apply len_zero in E. rewrite E. by rewrite drop_nil, take_nil. }
  destruct (mc_full c) eqn:Ef; cbn [negb].
  - rewrite !slice_ok by lia. f_equal. unfold sub. rewrite Z.sub_0_r, drop_0. f_equal.
    rewrite take_ge; [done|]. rewrite length_drop. unfold len in *. lia.
  - rewrite R5 by done. by rewrite Z2Nat.inj_0, drop_0, take_0, app_nil_r.
Qed.

(** A history of insertions. *)
Fixpoint add_all (ms : list Msg) (c : MessageCache) : outcome MessageCache :=
  match ms with
  | [] => Ok c
  | m :: ms' => match MessageCache_Add m c with
                | Ok c' => add_all ms' c'
                | Err e => Err e
                | Panic => Panic
                end
  end.

Lemma ring_add_all ms c hist :
  ring c hist -> exists c', add_all ms c = Ok c' /\ ring c' (hist ++ ms) /\ mc_limit c' = mc_limit c.
Proof.
  revert c hist. induction ms as [|m ms IH]; intros c hist Hr.
  { exists c. by rewrite app_nil_r. }
  destruct (ring_add c hist m Hr) as (c1 & E1 & R1 & L1).
  destruct (IH c1 _ R1) as (c2 & E2 & R2 & L2). exists c2. simpl. rewrite E1.
  rewrite <- app_assoc in R2. split; [done|]. split; [done|congruence].
Qed.

Lemma lastn_lastn n k l : 0 <= n -> lastn n (lastn k l) = lastn (Z.min n k) l.
Proof.
  unfold lastn. intros Hn. rewrite drop_drop, length_drop. f_equal. lia.
Qed.

Lemma lastn_slice n l : 0 <= n <= len l -> slice l (len l - n) (len l) = Ok (lastn n l).
Proof.
  intros H. rewrite slice_ok by lia. f_equal. unfold sub, lastn, len in *.
  rewrite take_ge by (rewrite length_drop; lia). f_equal. lia.
Qed.
End MessageCache.
Arguments MessageCache : clear implicits.

(** C19. Message cache (cache.go, [MessageCache]): after any sequence of [Add]s on
    a fresh cache of any size (a negative one counts as zero), no call has
    panicked, [All] is exactly the last [size] messages in the order they came,
    [Len] is their number, and [Last n] is the last [n] of them. *)
Theorem message_cache_contract {Msg} (size n : Z) (ms : list Msg) :
  let limit := Z.max size 0 in
  exists c, add_all ms (NewMessageCache size) = Ok c /\
    MessageCache_All c = Ok (lastn limit ms) /\
    MessageCache_Len c = Z.min limit (len ms) /\ MessageCache_Limit c = limit /\
    MessageCache_Last n c = Ok (lastn (Z.min (Z.max n 0) limit) ms).
Proof.
  intros limit. destruct (ring_add_all ms _ _ (ring_new size)) as (c & E & R & L).
  assert (HL : mc_limit c = limit).
  { rewrite L. unfold NewMessageCache, limit. destruct (Z.ltb_spec size 0); simpl; lia. }
  pose proof (ring_ordered c _ R) as Ho. rewrite HL in Ho. simpl in Ho.
  exists c. split; [done|]. split; [done|]. split; [|split; [done|]].
  - unfold MessageCache_Len. destruct R as [R1 _ R3 _ _ _ _ R8 _]. rewrite HL in *. simpl in R8.
    rewrite <- (len_lastn limit ms), <- R8 by lia. unfold len.
    rewrite length_app, length_drop, length_take. unfold len in R3. lia.
  - unfold MessageCache_Last. rewrite Ho. pose proof (len_lastn limit ms) as Hl.
    destruct (Z.leb_spec n 0) as [Hn|Hn].
    { rewrite Z.max_r, Z.min_l by lia. unfold lastn. by rewrite Nat.sub_0_r, drop_all. }
    rewrite Z.max_l by lia. len_nonneg_all.
    destruct (Z.ltb_spec (len (lastn limit ms)) n) as [Hc|Hc].
    + rewrite lastn_slice by lia. rewrite lastn_lastn by lia.
      f_equal. rewrite Hl by lia. unfold lastn, len in *. f_equal. lia.
    + rewrite lastn_slice by lia. by rewrite lastn_lastn by lia.
Qed.

Definition demo_cache_history : list Z := [1; 2; 3; 4; 5].
Example message_cache_demo :
  match add_all demo_cache_history (NewMessageCache 2) with
  | Ok c => MessageCache_All c = Ok [4; 5]
  | _ => False
  end.
Proof. reflexivity. Qed.

(** ** Chat ids there and back *)

Definition is_channel_kind (kind : string) : bool :=
  ((kind =? ChatSupergroup) || (kind =? ChatChannel))%string.

(** Dialog ids (message.go, [NormalizeChatID], [RawChatID]): for a positive
    raw id the dialog id determines it, [RawChatID (NormalizeChatID raw kind) =
    raw], for users without a bound, for channels and supergroups up to the int64
    range, and for basic groups exactly when the raw id is below 10{^12}; and
    the -100 form marks channels and supergroups only, again for group ids below
    10{^12}. *)
Theorem dialog_id_roundtrip (raw : Z) (kind : string) :
  0 < raw < two63 ->
  (kind = ChatGroup ->
     (RawChatID (NormalizeChatID raw kind) = raw <-> raw < channelDialogIDOffset) /\
     (LooksLikeChannelChatID (NormalizeChatID raw kind) = false <-> raw < channelDialogIDOffset)) /\
  (is_channel_kind kind = true -> raw < two63 - channelDialogIDOffset ->
     RawChatID (NormalizeChatID raw kind) = raw /\
     LooksLikeChannelChatID (NormalizeChatID raw kind) = true) /\
  (kind <> ChatGroup -> is_channel_kind kind = false ->
     RawChatID (NormalizeChatID raw kind) = raw /\
     LooksLikeChannelChatID (NormalizeChatID raw kind) = false).
Proof.
  intros Hr. unfold NormalizeChatID, RawChatID, LooksLikeChannelChatID, channelDialogIDOffset.
  rewrite (proj2 (Z.eqb_neq raw 0)), (proj2 (Z.ltb_ge raw 0)) by lia. split; [|split].
  - intros ->. cbn [String.eqb Ascii.eqb Bool.eqb ChatGroup].
    rewrite (i64_id (- raw)) by (unfold_words; lia).
    destruct (Z.leb_spec (- raw) (Z.opp 1000000000000)).
    + rewrite (i64_id (- - raw)), i64_id by (unfold_words; lia). split; split; intros; (done || (exfalso; lia)).
    + rewrite (proj2 (Z.ltb_lt (- raw) 0)) by lia. rewrite i64_id by (unfold_words; lia).
      split; split; intros; (done || lia).
  - intros Hk Hb. unfold is_channel_kind in Hk.
    assert (Hg : (kind =? ChatGroup)%string = false).
    { apply String.eqb_neq. intros ->. done. }
    rewrite Hg, Hk. rewrite (proj2 (Z.leb_gt raw _)) by lia.
    rewrite (i64_id (_ - raw)) by (unfold_words; lia).
    rewrite (proj2 (Z.leb_le (Z.opp 1000000000000 - raw) _)) by lia.
    rewrite (i64_id (- _)), i64_id by (unfold_words; lia). split; [lia|done].
  - intros Hg Hk. unfold is_channel_kind in Hk. rewrite (proj2 (String.eqb_neq _ _) Hg), Hk.
    rewrite (proj2 (Z.leb_gt raw (Z.opp 1000000000000))), (proj2 (Z.ltb_ge raw 0)) by lia. done.
Qed.

Lemma dialog_id_roundtrip_witness :
  RawChatID (NormalizeChatID 1251846294 ChatSupergroup) = 1251846294 /\
  LooksLikeChannelChatID (NormalizeChatID 1251846294 ChatSupergroup) = true.
Proof. apply (dialog_id_roundtrip 1251846294 ChatSupergroup); [done|reflexivity|reflexivity]. Defined.

(** ** The peer cache: first in, first out *)

Section PeerCache.
Context {Raw : Type}.

Record Peer := MkPeer {
  p_ID : Z; p_AccessHash : Z; p_Kind : string; p_Username : string; p_FirstName : string;
  p_LastName : string; p_Title : string; p_Raw : option Raw }.

Record PeerCache := MkPeerCache { pc_limit : Z; pc_order : list Z; pc_items : gmap Z Peer }.

Definition NewPeerCache (size : Z) : PeerCache :=
  let size := if size <? 0 then 0 else size in MkPeerCache size [] ∅.

Definition PeerCache_Limit (c : PeerCache) : Z := pc_limit c.
Definition PeerCache_Len (c : PeerCache) : Z := Z.of_nat (size (pc_items c)).

(** The eviction shifts [order] left by one and shortens it; [order[0]] panics
    on an empty list. *)
Definition PeerCache_Put (peer : Peer) (c : PeerCache) : outcome PeerCache :=
  if p_ID peer =? 0 then Ok c
  else if pc_limit c <=? 0 then Ok c
  else
    match pc_items c !! p_ID peer with
    | Some _ => Ok (MkPeerCache (pc_limit c) (pc_order c) (<[p_ID peer := peer]> (pc_items c)))
    | None =>
        let evicted :=
          if pc_limit c <=? len (pc_order c) then
            match pc_order c with
            | old :: rest => Ok (rest, delete old (pc_items c))
            | [] => Panic
            end
          else Ok (pc_order c, pc_items c) in
        match evicted with
        | Ok (order, items) =>
            Ok (MkPeerCache (pc_limit c) (order ++ [p_ID peer]) (<[p_ID peer := peer]> items))
        | Err e => Err e
        | Panic => Panic
        end
    end.

Definition PeerCache_Get (id : Z) (c : PeerCache) : option Peer := pc_items c !! id.

Definition PeerCache_All (c : PeerCache) : list Peer := omap (fun id => pc_items c !! id) (pc_order c).

(** *** The contract: a bounded queue of distinct peers *)

(** Replace the peer with this id, in place. *)
Definition fifo_update (peer : Peer) (q : list Peer) : list Peer :=
  map (fun p => if p_ID p =? p_ID peer then peer else p) q.

Definition fifo_put (limit : Z) (peer : Peer) (q : list Peer) : list Peer :=
  if (p_ID peer =? 0) || (limit <=? 0) then q
  else if existsb (fun p => p_ID p =? p_ID peer) q then fifo_update peer q
  else (if limit <=? len q then tail q else q) ++ [peer].

(** The cache represents the queue [q]. *)
Record represents (c : PeerCache) (q : list Peer) : Prop := {
  rep_order : pc_order c = map p_ID q;
  rep_items : forall id, pc_items c !! id = List.find (fun p => p_ID p =? id) q;
  rep_distinct : NoDup (map p_ID q);
  rep_bound : len q <= Z.max (pc_limit c) 0 }.

Lemma option_eta {A} (o : option A) : (match o with Some x => Some x | None => None end) = o.
Proof. by destruct o. Qed.

Lemma find_not_in q id : ~ In id (map p_ID q) -> List.find (fun p => p_ID p =? id) q = None.
Proof.
  intros H. destruct (List.find _ q) as [p|] eqn:E; [|done].
  apply find_some in E as [Hin Hp]. apply Z.eqb_eq in Hp. exfalso. apply H. subst id. by apply in_map.
Qed.

Lemma find_snoc q peer id :
  List.find (fun p => p_ID p =? id) (q ++ [peer]) =
  match List.find (fun p => p_ID p =? id) q with
  | Some p => Some p
  | None => if p_ID peer =? id then Some peer else None
  end.
Proof. induction q as [|p q IH]; simpl; [done|]. by destruct (p_ID p =? id). Qed.

Lemma find_update q peer id :
  List.find (fun p => p_ID p =? id) (fifo_update peer q) =
  match List.find (fun p => p_ID p =? id) q with
  | Some p => Some (if p_ID peer =? id then peer else p)
  | None => None
  end.
Proof.
  induction q as [|p q IH]; simpl; [done|].
  destruct (Z.eqb_spec (p_ID p) (p_ID peer)) as [E|E].
  - rewrite E. by destruct (p_ID peer =? id).
  - destruct (Z.eqb_spec (p_ID p) id) as [<-|]; [|done].
    by rewrite (proj2 (Z.eqb_neq (p_ID peer) (p_ID p))) by auto.
Qed.

Lemma map_ID_update q peer : map p_ID (fifo_update peer q) = map p_ID q.
Proof.
  unfold fifo_update. rewrite map_map. apply map_ext. intros p.
  by destruct (Z.eqb_spec (p_ID p) (p_ID peer)).
Qed.

Lemma existsb_find q id :
  existsb (fun p => p_ID p =? id) q = match List.find (fun p => p_ID p =? id) q with Some _ => true | None => false end.
Proof. induction q as [|p q IH]; simpl; [done|]. by destruct (p_ID p =? id). Qed.

Lemma NewPeerCache_limit size : 0 <= pc_limit (NewPeerCache size).
Proof. unfold NewPeerCache. destruct (Z.ltb_spec size 0); simpl; lia. Qed.

Lemma represents_new size : represents (NewPeerCache size) [].
Proof.
  unfold NewPeerCache. constructor; simpl; [done|intros; apply lookup_empty|constructor|].
  rewrite len_nil. lia.
Qed.

Lemma represents_put c q peer :
  represents c q ->
  exists c', PeerCache_Put peer c = Ok c' /\ represents c' (fifo_put (pc_limit c) peer q) /\
             pc_limit c' = pc_limit c.
Proof.
  intros [R1 R2 R3 R4]. unfold PeerCache_Put, fifo_put.
  destruct (p_ID peer =? 0); [by exists c|].
  destruct (Z.leb_spec (pc_limit c) 0) as [H0|H0]; [by exists c|]. cbn [orb].
  rewrite R2, existsb_find.
  destruct (List.find (fun p => p_ID p =? p_ID peer) q) as [old|] eqn:E.
  { eexists. split; [reflexivity|]. split; [|done]. constructor; simpl.
    - by rewrite map_ID_update.
    - intros id. rewrite find_update. destruct (Z.eqb_spec (p_ID peer) id) as [<-|Hne].
      + by rewrite lookup_insert_eq, E.
      + rewrite lookup_insert_ne, R2 by done. by rewrite option_eta.
    - by rewrite map_ID_update.
    - unfold fifo_update. by rewrite len_map_list. }
  assert (Hnin : ~ In (p_ID peer) (map p_ID q)).
  { rewrite in_map_iff. intros (p & Hp & Hin).
    pose proof (find_none _ _ E p Hin) as Hf. simpl in Hf. by rewrite Hp, Z.eqb_refl in Hf. }
  rewrite R1, len_map_list. destruct (Z.leb_spec (pc_limit c) (len q)) as [Hl|Hl].
  - destruct q as [|q0 q]; [rewrite len_nil in Hl; lia|]. cbn [map tail].
    eexists. split; [reflexivity|]. split; [|done]. simpl in *. apply NoDup_cons in R3 as [Hq0 R3].
    constructor; simpl.
    + by rewrite map_app.
    + intros id. rewrite find_snoc. destruct (Z.eqb_spec (p_ID peer) id) as [<-|Hne].
      * rewrite lookup_insert_eq, find_not_in; [done|]. intros Hin. apply Hnin. by right.
      * rewrite lookup_insert_ne by done. destruct (Z.eqb_spec (p_ID q0) id) as [<-|Hne0].
        -- rewrite lookup_delete_eq, find_not_in; [done|]. by rewrite <- list_elem_of_In.
        -- rewrite lookup_delete_ne, R2 by done. simpl. rewrite (proj2 (Z.eqb_neq _ _)) by done.
           by rewrite option_eta.
    + rewrite map_app. apply NoDup_app. split; [done|]. split; [|apply NoDup_singleton].
      intros x Hx Hx'. apply list_elem_of_singleton in Hx' as ->. apply Hnin. right.
      by apply list_elem_of_In.
    + autorewrite with lens in *. lia.
  - eexists. split; [reflexivity|]. split; [|done]. constructor; simpl.
    + by rewrite map_app.
    + intros id. rewrite find_snoc. destruct (Z.eqb_spec (p_ID peer) id) as [<-|Hne].
      * by rewrite lookup_insert_eq, E.
      * rewrite lookup_insert_ne, R2 by done. by rewrite option_eta.
    + rewrite map_app. apply NoDup_app. split; [done|]. split; [|apply NoDup_singleton].
      intros x Hx Hx'. apply list_elem_of_singleton in Hx' as ->. apply Hnin. by apply list_elem_of_In.
    + autorewrite with lens in *. lia.
Qed.

Lemma represents_len c q : represents c q -> PeerCache_Len c = len q.
Proof.
  intros [_ R2 R3 _]. unfold PeerCache_Len, len.
  assert (E : pc_items c = list_to_map (map (fun p => (p_ID p, p)) q)).
  { apply map_eq. intros id. rewrite R2. clear R2 R3. induction q as [|p q IH]; [done|]. cbn [List.find map list_to_map].
    destruct (Z.eqb_spec (p_ID p) id) as [->|Hne]; cbn; [by rewrite lookup_insert_eq|by rewrite lookup_insert_ne]. }
  rewrite E, map_size_list_to_map, length_map; [done|]. by rewrite <- list_fmap_compose.
Qed.

Lemma represents_all c q : represents c q -> PeerCache_All c = q.
Proof.
  intros [R1 R2 R3 _]. unfold PeerCache_All. rewrite R1.
  assert (G : forall l, (forall p, In p l -> pc_items c !! p_ID p = Some p) ->
              omap (fun id => pc_items c !! id) (map p_ID l) = l).
  { induction l as [|p l IH]; intros H; [done|]. simpl. rewrite H by (by left). f_equal.
    apply IH. intros. apply H. by right. }
  apply G. intros p Hp. rewrite R2. clear -R3 Hp. induction q as [|q0 q IH]; [done|]. simpl in *.
  apply NoDup_cons in R3 as [Hn R3]. destruct Hp as [->|Hp]; [by rewrite Z.eqb_refl|].
  destruct (Z.eqb_spec (p_ID q0) (p_ID p)) as [E|]; [|by apply IH].
  exfalso. apply Hn. rewrite E. apply list_elem_of_In. by apply in_map.
Qed.

Fixpoint put_all (ps : list Peer) (c : PeerCache) : outcome PeerCache :=
  match ps with
  | [] => Ok c
  | p :: ps' => match PeerCache_Put p c with
                | Ok c' => put_all ps' c'
                | Err e => Err e
                | Panic => Panic
                end
  end.

Lemma represents_put_all ps c q :
  represents c q ->
  exists c', put_all ps c = Ok c' /\ represents c' (fold_left (fun q p => fifo_put (pc_limit c) p q) ps q) /\
             pc_limit c' = pc_limit c.
Proof.
  revert c q. induction ps as [|p ps IH]; intros c q R; [by exists c|].
  destruct (represents_put c q p R) as (c1 & E1 & R1 & L1).
  destruct (IH c1 _ R1) as (c2 & E2 & R2 & L2). exists c2. simpl. rewrite E1.
  rewrite L1 in *. done.
Qed.
End PeerCache.
Arguments Peer : clear implicits.
Arguments PeerCache : clear implicits.

(** C25. Peer cache (cache.go, [PeerCache]): the map and the order slice together
    implement a bounded queue of peers with distinct ids.  After any sequence of
    [Put]s on a fresh cache of any size no call has panicked; [All] is the queue
    the specification [fifo_put] computes (a known id is updated in place, a new
    one is appended and evicts the oldest when the queue is full); [Get] finds
    exactly the peers of [All]; and there are never more than [size] of them. *)
Theorem peer_cache_refines_fifo {Raw} (size : Z) (ps : list (Peer Raw)) :
  let limit := Z.max size 0 in
  let q := fold_left (fun q p => fifo_put limit p q) ps [] in
  exists c, put_all ps (NewPeerCache size) = Ok c /\
    PeerCache_All c = q /\ NoDup (map p_ID q) /\ len q <= limit /\
    forall id, PeerCache_Get id c = List.find (fun p => p_ID p =? id) q.
Proof.
  intros limit q. destruct (represents_put_all ps _ _ (represents_new (Raw := Raw) size)) as (c & E & R & L).
  assert (HL : pc_limit (NewPeerCache (Raw := Raw) size) = limit).
  { unfold NewPeerCache, limit. destruct (Z.ltb_spec size 0); simpl; lia. }
  rewrite HL in *. fold q in R. exists c. split; [done|]. split; [by apply represents_all|].
  destruct R as [R1 R2 R3 R4]. split; [done|]. split; [rewrite L in R4; lia|done].
Qed.
