(* ===== verification/Dispatcher.v ===== *)
(** * Dispatcher: routing of messages to handlers
    (src/updates/dispatcher.go, src/updates/options.go)

    A handler acts on the application's world [W] and on the message it is
    passed, which is one shared object: a handler sees what the handlers before
    it did to the message.  The caches keep their own copies. *)

From S2P Require Import Prelude Updates.

(** ** Configuration *)

Inductive MessageCacheMode :=
| CacheDefault
| CacheNone
| CacheAllMessages
| CacheMatchedMessages
| CacheFilteredMessages
| CacheOther (n : Z).

#[global] Instance MessageCacheMode_eq_dec : EqDecision MessageCacheMode.
Proof. solve_decision. Defined.

Definition MessageCacheMode_String (m : MessageCacheMode) : string :=
  match m with
  | CacheDefault => "matched"
  | CacheNone => "none"
  | CacheAllMessages => "all"
  | CacheMatchedMessages => "matched"
  | CacheFilteredMessages => "filtered"
  | CacheOther _ => "matched"
  end.

Definition DefaultMessageCacheSize : Z := 1000.
Definition DefaultPeerCacheSize : Z := 1000.

Record CacheSnapshot := MkSnapshot {
  cs_MessageCount : Z; cs_MessageLimit : Z; cs_PeerCount : Z; cs_PeerLimit : Z;
  cs_CacheMode : string }.

Section Dispatcher.
Context {W Raw : Type}.
Abbreviation Message := (Message W Raw).

Definition MessageFilter : Type := Message -> bool.
(** The state of a handler: the world and the message it points to. *)
Definition MessageHandler : Type := M (W * Message) unit.

Record DispatcherConfig := MkConfig {
  dc_UpdatesEnabled : bool; dc_MessageCacheSize : Z; dc_PeerCacheSize : Z;
  dc_UpdateQueueSize : Z; dc_MessageCacheMode : MessageCacheMode;
  dc_MessageCacheFilter : option MessageFilter }.

Definition DispatcherOption : Type := DispatcherConfig -> DispatcherConfig.

Definition DefaultDispatcherConfig : DispatcherConfig :=
  MkConfig true DefaultMessageCacheSize DefaultPeerCacheSize 256 CacheMatchedMessages None.

Definition WithUpdates (enabled : bool) : DispatcherOption := fun c =>
  MkConfig enabled (dc_MessageCacheSize c) (dc_PeerCacheSize c) (dc_UpdateQueueSize c)
    (dc_MessageCacheMode c) (dc_MessageCacheFilter c).
Definition WithMessageCacheSize (size : Z) : DispatcherOption := fun c =>
  MkConfig (dc_UpdatesEnabled c) size (dc_PeerCacheSize c) (dc_UpdateQueueSize c)
    (dc_MessageCacheMode c) (dc_MessageCacheFilter c).
Definition WithPeerCacheSize (size : Z) : DispatcherOption := fun c =>
  MkConfig (dc_UpdatesEnabled c) (dc_MessageCacheSize c) size (dc_UpdateQueueSize c)
    (dc_MessageCacheMode c) (dc_MessageCacheFilter c).
Definition WithUpdateQueueSize (size : Z) : DispatcherOption := fun c =>
  MkConfig (dc_UpdatesEnabled c) (dc_MessageCacheSize c) (dc_PeerCacheSize c) size
    (dc_MessageCacheMode c) (dc_MessageCacheFilter c).
Definition WithMessageCacheMode (mode : MessageCacheMode) : DispatcherOption := fun c =>
  MkConfig (dc_UpdatesEnabled c) (dc_MessageCacheSize c) (dc_PeerCacheSize c)
    (dc_UpdateQueueSize c) mode (dc_MessageCacheFilter c).
(** A nil filter leaves the configuration alone. *)
Definition WithMessageCacheFilter (filter : option MessageFilter) : DispatcherOption := fun c =>
  match filter with
  | None => c
  | Some f => MkConfig (dc_UpdatesEnabled c) (dc_MessageCacheSize c) (dc_PeerCacheSize c)
                (dc_UpdateQueueSize c) CacheFilteredMessages (Some f)
  end.

(** ** The dispatcher *)

Record messageRoute := MkRoute { mr_filter : MessageFilter; mr_handler : MessageHandler }.

Record Dispatcher := MkDispatcher {
  d_config : DispatcherConfig; d_messageRoutes : list messageRoute;
  d_messages : MessageCache Message; d_peers : PeerCache Raw }.

Definition at_least_0 (n : Z) : Z := if n <? 0 then 0 else n.

(** Negative sizes become zero; an unset or unknown mode becomes the default. *)
Definition clean_config (cfg : DispatcherConfig) : DispatcherConfig :=
  MkConfig (dc_UpdatesEnabled cfg) (at_least_0 (dc_MessageCacheSize cfg))
    (at_least_0 (dc_PeerCacheSize cfg)) (at_least_0 (dc_UpdateQueueSize cfg))
    (match dc_MessageCacheMode cfg with
     | CacheDefault | CacheOther _ => CacheMatchedMessages
     | mode => mode
     end)
    (dc_MessageCacheFilter cfg).

(** A nil option is skipped. *)
Definition NewDispatcher (opts : list (option DispatcherOption)) : Dispatcher :=
  let cfg := fold_left (fun cfg opt => match opt with Some f => f cfg | None => cfg end)
               opts DefaultDispatcherConfig in
  let cfg := clean_config cfg in
  MkDispatcher cfg [] (NewMessageCache (dc_MessageCacheSize cfg))
    (NewPeerCache (dc_PeerCacheSize cfg)).

(** The accessors; [None] is a nil dispatcher. *)
Definition Dispatcher_Config (d : option Dispatcher) : DispatcherConfig :=
  match d with None => DefaultDispatcherConfig | Some d => d_config d end.
Definition Dispatcher_UpdatesEnabled (d : option Dispatcher) : bool :=
  match d with None => true | Some d => dc_UpdatesEnabled (d_config d) end.
Definition Dispatcher_MessageCacheMode (d : option Dispatcher) : MessageCacheMode :=
  match d with None => dc_MessageCacheMode DefaultDispatcherConfig | Some d => dc_MessageCacheMode (d_config d) end.
Definition Dispatcher_MessageCache (d : option Dispatcher) : option (MessageCache Message) := option_map d_messages d.
Definition Dispatcher_PeerCache (d : option Dispatcher) : option (PeerCache Raw) := option_map d_peers d.

Definition Dispatcher_CacheSnapshot (d : Dispatcher) : CacheSnapshot :=
  MkSnapshot (MessageCache_Len (d_messages d)) (MessageCache_Limit (d_messages d))
    (PeerCache_Len (d_peers d)) (PeerCache_Limit (d_peers d))
    (MessageCacheMode_String (dc_MessageCacheMode (d_config d))).

Definition Dispatcher_OnMessage (filter : option MessageFilter) (handler : option MessageHandler)
    (d : Dispatcher) : Dispatcher :=
  match handler with
  | None => d
  | Some h =>
      let f := match filter with Some f => f | None => fun _ => true end in
      MkDispatcher (d_config d) (d_messageRoutes d ++ [MkRoute f h]) (d_messages d) (d_peers d)
  end.

Definition set_peers (p : PeerCache Raw) (d : Dispatcher) : Dispatcher :=
  MkDispatcher (d_config d) (d_messageRoutes d) (d_messages d) p.
Definition set_messages (c : MessageCache Message) (d : Dispatcher) : Dispatcher :=
  MkDispatcher (d_config d) (d_messageRoutes d) c (d_peers d).

Definition Dispatcher_PutPeer (peer : Peer Raw) : M Dispatcher unit :=
  d <- get ;; c <- lift (PeerCache_Put peer (d_peers d)) ;; put (set_peers c d).

Definition matchingRoutes (d : Dispatcher) (msg : Message) : list messageRoute :=
  List.filter (fun route => mr_filter route msg) (d_messageRoutes d).

Definition shouldCacheMessage (d : Dispatcher) (msg : Message) (matched : bool) : bool :=
  if MessageCache_Limit (d_messages d) <=? 0 then false
  else match dc_MessageCacheMode (d_config d) with
       | CacheNone => false
       | CacheAllMessages => true
       | CacheMatchedMessages => matched
       | CacheFilteredMessages =>
           match dc_MessageCacheFilter (d_config d) with Some f => f msg | None => false end
       | _ => matched
       end.

Definition small_peer (id : Z) (kind : string) : Peer Raw :=
  MkPeer id 0 kind EmptyString EmptyString EmptyString EmptyString None.

Definition chat_peer_kind (msg : Message) : string :=
  if (m_ChatType msg =? EmptyString)%string then
    if m_ChatID msg =? m_FromID msg then "user" else "chat"
  else m_ChatType msg.

Definition cachePeers (msg : Message) : M Dispatcher unit :=
  when (negb (m_FromID msg =? 0)) (Dispatcher_PutPeer (small_peer (m_FromID msg) "user")) ;;
  when (negb (m_ChatID msg =? 0)) (Dispatcher_PutPeer (small_peer (m_ChatID msg) (chat_peer_kind msg))).

(** [for _, route := range matched]: stop at the first error. *)
Fixpoint run_routes (routes : list messageRoute) : M (W * Message) unit :=
  match routes with
  | [] => ret tt
  | route :: rest => mr_handler route ;; run_routes rest
  end.

(** A handler that only reads its message. *)
Definition handle (f : Message -> M W unit) : MessageHandler := fun x =>
  zoom fst (fun w x => (w, snd x)) (f (snd x)) x.

(** The part before the handlers: caches and the routes that match. *)
Definition dispatch_caches (msg : Message) : M Dispatcher (list messageRoute) :=
  d <- get ;;
  let matched := matchingRoutes d msg in
  let has_match := negb (len matched =? 0) in
  let cacheThis := shouldCacheMessage d msg has_match in
  when cacheThis
    (c <- lift (MessageCache_Add msg (d_messages d)) ;; modify (set_messages c)) ;;
  when (cacheThis || has_match) (cachePeers msg) ;;
  ret matched.

(** The state of a dispatch: the dispatcher, the world, the message. *)
Definition DispatchMessage : M (Dispatcher * (W * Message)) unit :=
  s <- get ;;
  matched <- zoom fst (fun d s => (d, snd s)) (dispatch_caches (snd (snd s))) ;;
  s <- get ;;
  if negb (dc_UpdatesEnabled (d_config (fst s))) then ret tt
  else zoom snd (fun w s => (fst s, w)) (run_routes matched).

(** ** Caches stay within their limits *)

(** The caches are those of some history. *)
Definition sound (d : Dispatcher) (hist : list Message) (q : list (Peer Raw)) : Prop :=
  ring (d_messages d) hist /\ represents (d_peers d) q.

Lemma NewDispatcher_sound opts : sound (NewDispatcher opts) [] [].
Proof. split; [apply ring_new|apply represents_new]. Qed.

Lemma OnMessage_sound filter handler d hist q :
  sound d hist q -> sound (Dispatcher_OnMessage filter handler d) hist q.
Proof. by destruct handler. Qed.

(** [e] is [d] with other peers in its cache. *)
Definition repeered (d e : Dispatcher) : Prop :=
  d_config e = d_config d /\ d_messageRoutes e = d_messageRoutes d /\ d_messages e = d_messages d /\
  pc_limit (d_peers e) = pc_limit (d_peers d).

Lemma PutPeer_ok peer d q :
  represents (d_peers d) q ->
  exists d', Dispatcher_PutPeer peer d = (Ok tt, d') /\ repeered d d' /\
             represents (d_peers d') (fifo_put (pc_limit (d_peers d)) peer q).
Proof.
  intros R. destruct (represents_put (d_peers d) q peer R) as (c & E & Rc & L).
  exists (set_peers c d). unfold Dispatcher_PutPeer, bind, get, lift, put. by rewrite E.
Qed.

(** The peers a message puts into the cache. *)
Definition msg_peers (msg : Message) : list (Peer Raw) :=
  (if m_FromID msg =? 0 then [] else [small_peer (m_FromID msg) "user"]) ++
  (if m_ChatID msg =? 0 then [] else [small_peer (m_ChatID msg) (chat_peer_kind msg)]).

Definition put_peers (limit : Z) (ps q : list (Peer Raw)) : list (Peer Raw) :=
  fold_left (fun q p => fifo_put limit p q) ps q.

Lemma when_PutPeer c peer d q :
  represents (d_peers d) q ->
  exists d', when c (Dispatcher_PutPeer peer) d = (Ok tt, d') /\ repeered d d' /\
     represents (d_peers d') (put_peers (pc_limit (d_peers d)) (if c then [peer] else []) q).
Proof.
  intros R. destruct c; [by apply PutPeer_ok|]. exists d. done.
Qed.

Lemma cachePeers_ok msg d q :
  represents (d_peers d) q ->
  exists d', cachePeers msg d = (Ok tt, d') /\ repeered d d' /\
     represents (d_peers d') (put_peers (pc_limit (d_peers d)) (msg_peers msg) q).
Proof.
  intros R. unfold cachePeers.
  destruct (when_PutPeer (negb (m_FromID msg =? 0)) (small_peer (m_FromID msg) "user") d q R)
    as (d1 & E1 & (C1 & C2 & C3 & C4) & R1).
  destruct (when_PutPeer (negb (m_ChatID msg =? 0)) (small_peer (m_ChatID msg) (chat_peer_kind msg)) d1 _ R1)
    as (d2 & E2 & (C1' & C2' & C3' & C4') & R2).
  exists d2. erewrite bind_ok by exact E1. rewrite E2. split; [done|].
  split; [unfold repeered; repeat split; congruence|].
  rewrite C4 in R2. unfold msg_peers, put_peers in *. rewrite fold_left_app.
  by destruct (m_FromID msg =? 0), (m_ChatID msg =? 0).
Qed.

(** Does the policy of [d] keep this message? *)
Definition keeps (d : Dispatcher) (msg : Message) : bool :=
  shouldCacheMessage d msg (negb (len (matchingRoutes d msg) =? 0)).
(** Do its peers become known? *)
Definition knows (d : Dispatcher) (msg : Message) : bool :=
  keeps d msg || negb (len (matchingRoutes d msg) =? 0).

Lemma dispatch_caches_ok msg d hist q :
  sound d hist q ->
  exists d', dispatch_caches msg d = (Ok (matchingRoutes d msg), d') /\
    d_config d' = d_config d /\ d_messageRoutes d' = d_messageRoutes d /\
    mc_limit (d_messages d') = mc_limit (d_messages d) /\
    pc_limit (d_peers d') = pc_limit (d_peers d) /\
    sound d' (hist ++ (if keeps d msg then [msg] else []))
      (put_peers (pc_limit (d_peers d)) (if knows d msg then msg_peers msg else []) q).
Proof.
  intros [Rm Rp]. unfold dispatch_caches. rewrite (bind_ok _ _ _ d d) by done.
  unfold knows. fold (keeps d msg). set (m := negb (len (matchingRoutes d msg) =? 0)).
  assert (H1 : exists d1, when (keeps d msg)
      (c <- lift (MessageCache_Add msg (d_messages d)) ;; modify (set_messages c)) d = (Ok tt, d1) /\
      d_config d1 = d_config d /\ d_messageRoutes d1 = d_messageRoutes d /\ d_peers d1 = d_peers d /\
      mc_limit (d_messages d1) = mc_limit (d_messages d) /\
      ring (d_messages d1) (hist ++ (if keeps d msg then [msg] else []))).
  { destruct (keeps d msg); [|exists d; by rewrite app_nil_r].
    destruct (ring_add (d_messages d) hist msg Rm) as (c & E & R & L).
    exists (set_messages c d). unfold when, bind, lift, modify. by rewrite E. }
  destruct H1 as (d1 & E1 & C1 & C2 & C3 & C4 & R1).
  erewrite bind_ok by exact E1.
  destruct (keeps d msg || m).
  - rewrite <- C3 in Rp. destruct (cachePeers_ok msg d1 q Rp) as (d2 & E2 & (D1 & D2 & D3 & D4) & R2).
    exists d2. unfold when. erewrite bind_ok by exact E2. split; [done|].
    rewrite C3 in *. split; [congruence|]. split; [congruence|]. split; [congruence|].
    split; [congruence|]. split; [by rewrite D3|done].
  - exists d1. split; [done|]. split; [done|]. split; [done|]. split; [done|].
    split; [by rewrite C3|]. split; [done|by rewrite C3].
Qed.

(** ** A stream of messages *)

(** The messages one after the other; a handler's error is reported to the
    caller, which goes on with the next message. *)
Fixpoint dispatch_all (msgs : list Message) (d : Dispatcher) (w : W) : Dispatcher * W * list (outcome unit) :=
  match msgs with
  | [] => (d, w, [])
  | msg :: rest =>
      let '(o, (d', (w', _))) := DispatchMessage (d, (w, msg)) in
      let '(d2, w2, os) := dispatch_all rest d' w' in
      (d2, w2, o :: os)
  end.

(** What the application's handlers do with one message. *)
Definition handlers_of (d : Dispatcher) (msg : Message) (w : W) : outcome unit * W :=
  if dc_UpdatesEnabled (d_config d) then
    let '(o, (w', _)) := run_routes (matchingRoutes d msg) (w, msg) in (o, w')
  else (Ok tt, w).

Lemma DispatchMessage_ok msg d w hist q :
  sound d hist q ->
  exists d' msg', DispatchMessage (d, (w, msg)) =
      (fst (handlers_of d msg w), (d', (snd (handlers_of d msg w), msg'))) /\
    d_config d' = d_config d /\ d_messageRoutes d' = d_messageRoutes d /\
    mc_limit (d_messages d') = mc_limit (d_messages d) /\
    pc_limit (d_peers d') = pc_limit (d_peers d) /\
    sound d' (hist ++ (if keeps d msg then [msg] else []))
      (put_peers (pc_limit (d_peers d)) (if knows d msg then msg_peers msg else []) q).
Proof.
  intros Hs. destruct (dispatch_caches_ok msg d hist q Hs) as (d' & E & C1 & C2 & C3 & C4 & S).
  unfold DispatchMessage, handlers_of. rewrite (bind_ok _ _ _ (d, (w, msg)) (d, (w, msg))) by done.
  unfold bind at 1, zoom at 1. cbn [fst snd]. rewrite E. cbn [fst snd].
  rewrite (bind_ok _ _ _ (d', (w, msg)) (d', (w, msg))) by done. cbn [fst snd]. rewrite C1.
  destruct (dc_UpdatesEnabled (d_config d)); cbn [negb].
  - unfold zoom. cbn [fst snd]. destruct (run_routes _ (w, msg)) as [o [w' msg']].
    exists d', msg'. done.
  - exists d', msg. done.
Qed.

(** Policies depend on configuration, routes and limits only. *)
Lemma policy_stable d d' msg :
  d_config d' = d_config d -> d_messageRoutes d' = d_messageRoutes d ->
  mc_limit (d_messages d') = mc_limit (d_messages d) ->
  matchingRoutes d' msg = matchingRoutes d msg /\ keeps d' msg = keeps d msg /\
  knows d' msg = knows d msg /\ forall w, handlers_of d' msg w = handlers_of d msg w.
Proof.
  intros H1 H2 H3.
  assert (Hm : matchingRoutes d' msg = matchingRoutes d msg) by (unfold matchingRoutes; by rewrite H2).
  assert (Hk : keeps d' msg = keeps d msg).
  { unfold keeps, shouldCacheMessage, MessageCache_Limit. by rewrite Hm, H1, H3. }
  split; [done|]. split; [done|]. split; [unfold knows; by rewrite Hk, Hm|].
  intros w. unfold handlers_of. by rewrite H1, Hm.
Qed.

Lemma dispatch_all_ok msgs d w hist q :
  sound d hist q ->
  exists d' w' os, dispatch_all msgs d w = (d', w', os) /\
    mc_limit (d_messages d') = mc_limit (d_messages d) /\
    pc_limit (d_peers d') = pc_limit (d_peers d) /\
    sound d' (hist ++ List.filter (keeps d) msgs)
      (put_peers (pc_limit (d_peers d)) (flat_map msg_peers (List.filter (knows d) msgs)) q).
Proof.
  revert d w hist q. induction msgs as [|msg msgs IH]; intros d w hist q Hs.
  { exists d, w, []. cbn. rewrite app_nil_r. by split_and!. }
  destruct (DispatchMessage_ok msg d w hist q Hs) as (d1 & msg' & E & C1 & C2 & C3 & C4 & S1).
  destruct (IH d1 (snd (handlers_of d msg w)) _ _ S1) as (d2 & w2 & os & E2 & C5 & C6 & S2).
  exists d2, w2, (fst (handlers_of d msg w) :: os). cbn [dispatch_all]. rewrite E, E2.
  split; [done|]. split; [congruence|]. split; [congruence|].
  assert (Hk : forall l, List.filter (keeps d1) l = List.filter (keeps d) l).
  { intros l. apply filter_ext. intros m. by apply policy_stable. }
  assert (Hn : forall l, List.filter (knows d1) l = List.filter (knows d) l).
  { intros l. apply filter_ext. intros m. by apply policy_stable. }
  rewrite Hk, Hn, C4 in S2. cbn [List.filter].
  destruct S2 as [S2a S2b]. split.
  - destruct (keeps d msg); [by rewrite <- app_assoc in S2a|by rewrite app_nil_r in S2a].
  - unfold put_peers in *. destruct (knows d msg); cbn [flat_map]; [by rewrite fold_left_app|done].
Qed.

(** The handlers over a stream, without the caches. *)
Fixpoint handle_all (d : Dispatcher) (msgs : list Message) (w : W) : W * list (outcome unit) :=
  match msgs with
  | [] => (w, [])
  | msg :: rest =>
      let '(o, w1) := handlers_of d msg w in
      let '(w2, os) := handle_all d rest w1 in (w2, o :: os)
  end.

Lemma handle_all_stable d d' msgs w :
  d_config d' = d_config d -> d_messageRoutes d' = d_messageRoutes d ->
  mc_limit (d_messages d') = mc_limit (d_messages d) -> handle_all d' msgs w = handle_all d msgs w.
Proof.
  intros H1 H2 H3. revert w. induction msgs as [|msg msgs IH]; intros w; simpl; [done|].
  destruct (policy_stable d d' msg H1 H2 H3) as (_ & _ & _ & ->).
  destruct (handlers_of d msg w) as [o w1]. by rewrite IH.
Qed.

Lemma dispatch_all_handlers msgs d w hist q :
  sound d hist q ->
  snd (fst (dispatch_all msgs d w)) = fst (handle_all d msgs w) /\
  snd (dispatch_all msgs d w) = snd (handle_all d msgs w).
Proof.
  revert d w hist q. induction msgs as [|msg msgs IH]; intros d w hist q Hs; [done|].
  destruct (DispatchMessage_ok msg d w hist q Hs) as (d1 & msg' & E & C1 & C2 & C3 & C4 & S1).
  cbn [dispatch_all handle_all]. rewrite E. destruct (IH d1 (snd (handlers_of d msg w)) _ _ S1) as [I1 I2].
  rewrite (handle_all_stable d d1) in I1, I2 by done.
  destruct (handlers_of d msg w) as [o w1]. cbn [fst snd] in *.
  destruct (dispatch_all msgs d1 w1) as [[d2 w2] os], (handle_all d msgs w1) as [w3 os3].
  simpl in *. by subst.
Qed.

(** A dispatcher as an application sets it up. *)
Definition register_all (regs : list (option MessageFilter * option MessageHandler)) (d : Dispatcher)
  : Dispatcher := fold_left (fun d r => Dispatcher_OnMessage (fst r) (snd r) d) regs d.

Lemma register_all_sound regs d hist q : sound d hist q -> sound (register_all regs d) hist q.
Proof.
  unfold register_all. revert d. induction regs as [|r regs IH]; intros d Hs; [done|].
  simpl. by apply IH, OnMessage_sound.
Qed.

Lemma register_all_peers regs d : d_peers (register_all regs d) = d_peers d.
Proof.
  unfold register_all. revert d. induction regs as [|[f [h|]] regs IH]; intros d; simpl; [done| |];
    by rewrite IH.
Qed.
End Dispatcher.

(** C27. Dispatching a stream (dispatcher.go, [NewDispatcher], [OnMessage],
    [DispatchMessage]): take any options (negative sizes and unknown modes
    included), any registered routes and any sequence of messages.  No dispatch
    panics; the handlers run exactly as if there were no caches, each message
    through the matching routes in registration order up to the first error; the
    message cache ends up with the last [limit] messages the policy keeps, as
    they were when they arrived; and the peer cache with the bounded queue of the
    peers of the messages that were kept or handled. *)
Theorem dispatcher_stream {W Raw} (opts : list (option (DispatcherOption (W := W) (Raw := Raw))))
    (regs : list (option MessageFilter * option MessageHandler)) (msgs : list (Message W Raw)) (w : W) :
  let d := register_all regs (NewDispatcher opts) in
  let mlimit := MessageCache_Limit (d_messages d) in
  let plimit := PeerCache_Limit (d_peers d) in
  exists d', dispatch_all msgs d w = (d', fst (handle_all d msgs w), snd (handle_all d msgs w)) /\
    MessageCache_All (d_messages d') = Ok (lastn mlimit (List.filter (keeps d) msgs)) /\
    PeerCache_All (d_peers d') =
      put_peers plimit (flat_map msg_peers (List.filter (knows d) msgs)) [] /\
    MessageCache_Len (d_messages d') <= mlimit /\ 0 <= mlimit /\ 0 <= plimit /\
    len (PeerCache_All (d_peers d')) <= plimit.
Proof.
  intros d mlimit plimit.
  assert (Hs : sound d [] []) by apply register_all_sound, NewDispatcher_sound.
  destruct (dispatch_all_ok msgs d w [] [] Hs) as (d' & w' & os & E & L1 & L2 & [Sm Sp]).
  destruct (dispatch_all_handlers msgs d w [] [] Hs) as [H1 H2]. rewrite E in H1, H2. cbn [fst snd] in *.
  exists d'. rewrite E, <- H1, <- H2. split; [done|].
  pose proof (ring_ordered _ _ Sm) as Ho. rewrite L1 in Ho. split; [exact Ho|].
  rewrite (represents_all _ _ Sp). split; [done|].
  assert (H0 : 0 <= plimit).
  { unfold plimit, PeerCache_Limit, d. rewrite register_all_peers. apply NewPeerCache_limit. }
  destruct Sm as [R1 _ _ _ _ _ R7 _ _]. rewrite L1 in *.
  split; [exact R7|]. split; [exact R1|]. split; [done|].
  destruct Sp as [_ _ _ R4]. rewrite L2 in R4.
  change (pc_limit (d_peers d)) with plimit in *. lia.
Qed.

(** Noise is free (dispatcher.go, [DispatchMessage]): under the default
    policy a message that matches no registered route changes nothing at all:
    not the caches, not the world, not the message. *)
Theorem unmatched_message_ignored {W Raw} (d : Dispatcher (W := W) (Raw := Raw)) (w : W)
    (msg : Message W Raw) :
  dc_MessageCacheMode (d_config d) = CacheMatchedMessages -> matchingRoutes d msg = [] ->
  DispatchMessage (d, (w, msg)) = (Ok tt, (d, (w, msg))).
Proof.
  intros Hm Hr. unfold DispatchMessage, dispatch_caches, shouldCacheMessage, bind, zoom, get. cbn [fst snd].
  rewrite Hr, Hm. change (len _) with 0. destruct (_ <=? 0); cbn; by destruct (dc_UpdatesEnabled (d_config d)).
Qed.

Lemma unmatched_message_ignored_witness :
  let d := Dispatcher_OnMessage (Some (fun m => (m_Text m =? "/start")%string)) (Some (ret tt))
             (NewDispatcher (W := unit) (Raw := unit) []) in
  let msg := MkMessage 1 10 10 10 ChatPrivate "noise" 0 None None None None in
  DispatchMessage (d, (tt, msg)) = (Ok tt, (d, (tt, msg))).
Proof.
  intros d msg. apply (unmatched_message_ignored d tt msg); reflexivity.
Defined.
