(* ===== verification/Filters.v ===== *)
(** * Filters: message predicates (src/filters/filters.go)

    A filter receives a pointer, so it is defined on [option Message]; the
    dispatcher only ever passes a message.  [unicode_fold] is the non-ASCII tail
    of [strings.EqualFold] and [regexp_compile] is [regexp.Compile], both outside
    the repository. *)

From S2P Require Import Prelude Strings Updates Dispatcher.

Section Filters.
Context {W Raw : Type}.
Variable unicode_fold : list byte -> list byte -> bool.
Variable regexp_compile : string -> option (string -> bool).
Abbreviation Message := (Message W Raw).

Definition Filter : Type := option Message -> bool.

(** [m != nil && cond] *)
Definition on_message (cond : Message -> bool) : Filter := fun m =>
  match m with None => false | Some m => cond m end.

Definition All : Filter := fun _ => true.
Definition Text : Filter := on_message (fun m => negb (m_Text m =? EmptyString)%string).
Definition Private : Filter := on_message (fun m => (m_ChatType m =? ChatPrivate)%string).
Definition Group : Filter := on_message (fun m =>
  ((m_ChatType m =? ChatGroup) || (m_ChatType m =? ChatSupergroup))%string).
Definition Supergroup : Filter := on_message (fun m => (m_ChatType m =? ChatSupergroup)%string).
Definition Channel : Filter := on_message (fun m =>
  ((m_ChatType m =? ChatChannel) || (m_ChatType m =? ChatSupergroup))%string).
Definition ChatType (kind : string) : Filter := on_message (fun m => (m_ChatType m =? kind)%string).
Definition ChatID (chatID : Z) : Filter := on_message (fun m => m_ChatID m =? chatID).
Definition FromID (userID : Z) : Filter := on_message (fun m => m_FromID m =? userID).

(** [strings.EqualFold], byte by byte while both sides are ASCII. *)
Fixpoint equal_fold (s t : list byte) : bool :=
  match s, t with
  | [], [] => true
  | a :: s', b :: t' =>
      if (128 <=? b2z a) || (128 <=? b2z b) then unicode_fold s t
      else if decide (lower_byte a = lower_byte b) then equal_fold s' t'
      else false
  | _, _ => false
  end.
Definition EqualFold (s t : string) : bool := equal_fold (bytes_of s) (bytes_of t).

(** [if at := strings.IndexByte(cmd, '@'); at >= 0 { cmd = cmd[:at] }] *)
Definition before_at (cmd : string) : string :=
  let i := index_byte (bytes_of cmd) x40 0 in
  if 0 <=? i then string_of (sub (bytes_of cmd) 0 i) else cmd.

Definition command_name (command : string) : string := TrimPrefix (TrimSpace command) "/".

Definition Command (command : string) : Filter :=
  let command := command_name command in
  on_message (fun m =>
    if (command =? EmptyString)%string || negb (HasPrefix (m_Text m) "/") then false
    else match Fields (m_Text m) with
         | [] => false
         | first :: _ => EqualFold (before_at (TrimPrefix first "/")) command
         end).

(** [regexp.MustCompile] panics on a bad pattern. *)
Definition Regex (pattern : string) : outcome Filter :=
  match regexp_compile pattern with
  | None => Panic
  | Some re => Ok (on_message (fun m => re (m_Text m)))
  end.

(** Nil filters are skipped. *)
Fixpoint And (filters : list (option Filter)) : Filter := fun m =>
  match filters with
  | [] => true
  | Some f :: rest => if negb (f m) then false else And rest m
  | None :: rest => And rest m
  end.

Fixpoint Or (filters : list (option Filter)) : Filter := fun m =>
  match filters with
  | [] => false
  | Some f :: rest => if f m then true else Or rest m
  | None :: rest => Or rest m
  end.

(** ** Commands *)

Lemma graphic_not_space b l : graphic b = true -> skip_rune space_runes (b :: l) = None.
Proof.
  intros Hb.
  assert (G : forall runes, forallb (fun r => match r with c :: _ => negb (graphic c) | [] => false end) runes = true ->
              skip_rune runes (b :: l) = None).
  { induction runes as [|r rs IH]; intros H; [done|]. simpl in *.
    apply andb_prop in H as [Hr Hrs]. destruct r as [|c r]; [done|]. simpl.
    destruct (decide (c = b)) as [->|]; [by rewrite Hb in Hr|by apply IH]. }
  by apply G.
Qed.

(** The first field of a text that starts with visible characters. *)
Lemma fields_head w tail cur fuel :
  forallb graphic w = true -> (w <> [] \/ cur <> []) ->
  tail = [] \/ (exists rest, skip_rune space_runes tail = Some rest) ->
  (length (w ++ tail) <= fuel)%nat ->
  exists more, fields_loop fuel (w ++ tail) cur = (rev cur ++ w) :: more.
Proof.
  revert cur fuel. induction w as [|b w IH]; intros cur fuel Hg Hne Ht Hf.
  - rewrite app_nil_r. cbn [app] in *.
    assert (Hcur : exists c cs, cur = c :: cs) by (destruct cur; [by destruct Hne|eauto]).
    destruct Hcur as (c & cs & ->). destruct Ht as [->|[rest Ht]]; [destruct fuel; by eexists|].
    destruct tail as [|t tail]; [destruct fuel; by eexists|].
    destruct fuel as [|fuel]; [simpl in Hf; lia|]. cbn [fields_loop]. rewrite Ht. by eexists.
  - destruct fuel as [|fuel]; [simpl in Hf; lia|]. simpl in Hg, Hf.
    apply andb_prop in Hg as [Hb Hw]. cbn [app fields_loop].
    rewrite graphic_not_space by done.
    destruct (IH (b :: cur) fuel Hw) as [more E]; [by right|done|lia|].
    exists more. rewrite E. cbn [rev]. by rewrite <- app_assoc.
Qed.

Lemma equal_fold_ascii s t :
  is_ascii s = true -> is_ascii t = true -> map lower_byte s = map lower_byte t -> equal_fold s t = true.
Proof.
  revert t. induction s as [|a s IH]; intros [|b t] Hs Ht E; try done. simpl in *.
  apply andb_prop in Hs as [Ha Hs]. apply andb_prop in Ht as [Hb Ht]. injection E as Eab E.
  apply Z.ltb_lt in Ha, Hb.
  rewrite (proj2 (Z.leb_gt 128 _)), (proj2 (Z.leb_gt 128 _)) by lia. cbn [orb].
  rewrite decide_True by done. by apply IH.
Qed.

Lemma equal_fold_differs s t :
  is_ascii s = true -> is_ascii t = true -> map lower_byte s <> map lower_byte t -> equal_fold s t = false.
Proof.
  revert t. induction s as [|a s IH]; intros [|b t] Hs Ht E; try done. simpl in *.
  apply andb_prop in Hs as [Ha Hs]. apply andb_prop in Ht as [Hb Ht]. apply Z.ltb_lt in Ha, Hb.
  rewrite (proj2 (Z.leb_gt 128 _)), (proj2 (Z.leb_gt 128 _)) by lia. cbn [orb].
  destruct (decide (lower_byte a = lower_byte b)) as [Eab|]; [|done]. apply IH; [done..|]. intros E'. apply E. by rewrite Eab, E'.
Qed.

(** What may follow the command: nothing or [@bot], both visible. *)
Definition at_suffix (s : list byte) : Prop :=
  s = [] \/ exists bot, s = x40 :: bot.

Lemma before_at_suffix w s : ~ In x40 w -> at_suffix s -> before_at (string_of (w ++ s)) = string_of w.
Proof.
  intros Hn Hs. unfold before_at. rewrite bytes_of_string_of. destruct Hs as [->|[bot ->]].
  - rewrite app_nil_r, index_byte_absent by done. done.
  - rewrite index_byte_app by done. pose proof (len_nonneg w).
    rewrite (proj2 (Z.leb_le 0 _)) by lia. by rewrite sub_app_head by lia.
Qed.
End Filters.

(** A text made of a slash, a word, [@] and a name or nothing, and then nothing or
    white space and anything: its command is the word. *)
Lemma Command_text {W Raw} (unicode_fold : list byte -> list byte -> bool)
    (command : string) (m : Message W Raw) (w bot args : list byte) :
  bytes_of (command_name command) <> [] ->
  forallb graphic w = true -> ~ In x40 w -> at_suffix bot -> forallb graphic bot = true ->
  (args = [] \/ exists rest, skip_rune space_runes args = Some rest) ->
  m_Text m = string_of (x2f :: w ++ bot ++ args) ->
  Command unicode_fold command (Some m) = equal_fold unicode_fold w (bytes_of (command_name command)).
Proof.
  intros Hname Hw Hat Hbot Hbotg Hargs Ht. unfold Command, on_message.
  assert (Hne : (command_name command =? EmptyString)%string = false).
  { apply String.eqb_neq. intros E. apply Hname. by rewrite E. }
  rewrite Hne. cbn [orb].
  assert (Hp : HasPrefix (m_Text m) "/" = true).
  { unfold HasPrefix. rewrite Ht, bytes_of_string_of. simpl. done. }
  rewrite Hp. cbn [negb]. unfold Fields. rewrite Ht, bytes_of_string_of.
  destruct (fields_head (x2f :: w ++ bot) args [] (S (length (w ++ bot ++ args)))) as [more E].
  { cbn [forallb]. rewrite forallb_app, Hw, Hbotg. done. }
  { by left. } { done. }
  { cbn [length app]. rewrite !length_app. lia. }
  cbn [length]. rewrite (app_assoc w bot args) in *. cbn [app] in E. rewrite E. cbn [map rev app].
  assert (Htrim : TrimPrefix (string_of (x2f :: w ++ bot)) "/" = string_of (w ++ bot)).
  { unfold TrimPrefix. rewrite bytes_of_string_of. done. }
  rewrite Htrim, before_at_suffix by done. unfold EqualFold. by rewrite bytes_of_string_of.
Qed.

(** Commands (filters.go, [Command]): let the registered command, trimmed
    and without a leading slash, be [name], in visible ASCII.  A message text
    made of a slash, the name in any mixture of cases, optionally [@] and any
    visible bot name, and then nothing or white space and any arguments (in any
    encoding) matches; a text that does not start with a slash never does. *)
Theorem command_matches {W Raw} (unicode_fold : list byte -> list byte -> bool)
    (command : string) (m : Message W Raw) (w bot args : list byte) :
  let name := bytes_of (command_name command) in
  name <> [] -> is_ascii name = true -> is_ascii w = true ->
  forallb graphic w = true -> ~ In x40 w -> map lower_byte w = map lower_byte name ->
  at_suffix bot -> forallb graphic bot = true ->
  (args = [] \/ exists rest, skip_rune space_runes args = Some rest) ->
  (m_Text m = string_of (x2f :: w ++ bot ++ args) -> Command unicode_fold command (Some m) = true) /\
  (HasPrefix (m_Text m) "/" = false -> Command unicode_fold command (Some m) = false).
Proof.
  intros name Hname Hna Hwa Hw Hat Hcase Hbot Hbotg Hargs. split.
  - intros Ht. rewrite (Command_text unicode_fold command m w bot args) by done. by apply equal_fold_ascii.
  - intros H. unfold Command, on_message. rewrite H. by rewrite orb_true_r.
Qed.

Lemma command_matches_witness :
  let m := MkMessage (W := unit) (Raw := unit) 1 1 1 1 ChatPrivate "/Start@my_bot now" 0 None None None None in
  Command (fun _ _ => false) " /start " (Some m) = true.
Proof.
  intros m. apply (command_matches (fun _ _ => false) " /start " m (bytes_of "Start") (bytes_of "@my_bot")
                     (bytes_of " now")); try reflexivity; try discriminate.
  - vm_compute. intuition discriminate.
  - right. eexists. reflexivity.
  - right. eexists. reflexivity.
Defined.
