(* ===== verification/Config.v ===== *)
(** * Config: configuration of the clients (src/client.go, src/options.go)

    [Config], its options and [New].  The store of a configuration is one of the
    package's stores, a memory store with its contents, or the application's
    own, known by its number. *)

From S2P Require Import Prelude Strings Transport Updates Dispatcher Filters Session Saved.

(** The session store of a configuration. *)
Inductive ConfigStore :=
| Store (s : SessionStore)
| StoreWith (memory : gmap string SessionData)
| CustomStore (n : nat).

Section Config.
Context {W Raw : Type}.
Abbreviation Message := (Message W Raw).

Record Config := MkConfig {
  cf_APIID : Z; cf_APIHash : string; cf_Session : ConfigStore; cf_SessionName : string;
  cf_Updates : bool; cf_MessageCacheSize : Z; cf_MessageCacheMode : MessageCacheMode;
  cf_MessageCacheFilter : option (Message -> bool); cf_PeerCacheSize : Z; cf_UpdateQueueSize : Z;
  cf_Debug : bool; cf_AutoReconnect : bool; cf_MaxReconnectAttempts : Z;
  cf_ReconnectInitialBackoff : Z; cf_ReconnectMaxBackoff : Z;
  cf_AutoFloodWait : bool; cf_MaxFloodWait : Z }.

Definition Option : Type := Config -> Config.

Definition set_session (s : ConfigStore) (c : Config) : Config :=
  MkConfig (cf_APIID c) (cf_APIHash c) s (cf_SessionName c) (cf_Updates c) (cf_MessageCacheSize c)
    (cf_MessageCacheMode c) (cf_MessageCacheFilter c) (cf_PeerCacheSize c) (cf_UpdateQueueSize c) (cf_Debug c)
    (cf_AutoReconnect c) (cf_MaxReconnectAttempts c) (cf_ReconnectInitialBackoff c) (cf_ReconnectMaxBackoff c)
    (cf_AutoFloodWait c) (cf_MaxFloodWait c).

Definition set_name (name : string) (c : Config) : Config :=
  MkConfig (cf_APIID c) (cf_APIHash c) (cf_Session c) name (cf_Updates c) (cf_MessageCacheSize c)
    (cf_MessageCacheMode c) (cf_MessageCacheFilter c) (cf_PeerCacheSize c) (cf_UpdateQueueSize c) (cf_Debug c)
    (cf_AutoReconnect c) (cf_MaxReconnectAttempts c) (cf_ReconnectInitialBackoff c) (cf_ReconnectMaxBackoff c)
    (cf_AutoFloodWait c) (cf_MaxFloodWait c).

(** The fields of the updates and their caches. *)
Definition set_caching (updates : bool) (messages : Z) (mode : MessageCacheMode) (filter : option (Message -> bool))
    (peers queue : Z) (c : Config) : Config :=
  MkConfig (cf_APIID c) (cf_APIHash c) (cf_Session c) (cf_SessionName c) updates messages mode filter peers queue
    (cf_Debug c) (cf_AutoReconnect c) (cf_MaxReconnectAttempts c) (cf_ReconnectInitialBackoff c)
    (cf_ReconnectMaxBackoff c) (cf_AutoFloodWait c) (cf_MaxFloodWait c).

(** The fields of the connection. *)
Definition set_network (debug reconnect : bool) (attempts initial max : Z) (flood : bool) (maxFlood : Z) (c : Config)
  : Config :=
  MkConfig (cf_APIID c) (cf_APIHash c) (cf_Session c) (cf_SessionName c) (cf_Updates c) (cf_MessageCacheSize c)
    (cf_MessageCacheMode c) (cf_MessageCacheFilter c) (cf_PeerCacheSize c) (cf_UpdateQueueSize c) debug reconnect
    attempts initial max flood maxFlood.

(** ** Options *)

Definition WithMemorySession : Option := set_session (Store MemorySession).
Definition WithSessionName (name : string) : Option := fun c =>
  if negb (name =? EmptyString)%string then set_name name c else c.
Definition WithSessionFile (path : string) : Option := fun c =>
  if negb (path =? EmptyString)%string then set_session (Store (FileSession path)) c else c.
Definition WithEncryptedSessionFile (path password : string) : Option := fun c =>
  if negb (path =? EmptyString)%string then set_session (Store (EncryptedFileSession path password)) c else c.
Definition WithSessionStore (store : option ConfigStore) : Option := fun c =>
  match store with Some s => set_session s c | None => c end.

(** [now] is the Unix time when the option is applied. *)
Definition WithStringSession (now : Z) (value : string) : Option := fun c =>
  if (value =? EmptyString)%string then c
  else match parseRootStringSession now value with
       | Ok sess => set_session (StoreWith (memorySessionWithData "string" sess)) (set_name "string" c)
       | _ => c
       end.

Definition WithUpdates (enabled : bool) : Option := fun c =>
  set_caching enabled (cf_MessageCacheSize c) (cf_MessageCacheMode c) (cf_MessageCacheFilter c)
    (cf_PeerCacheSize c) (cf_UpdateQueueSize c) c.
Definition WithMessageCacheSize (size : Z) : Option := fun c =>
  set_caching (cf_Updates c) size (cf_MessageCacheMode c) (cf_MessageCacheFilter c)
    (cf_PeerCacheSize c) (cf_UpdateQueueSize c) c.
Definition WithMessageCacheMode (mode : MessageCacheMode) : Option := fun c =>
  set_caching (cf_Updates c) (cf_MessageCacheSize c) mode (cf_MessageCacheFilter c)
    (cf_PeerCacheSize c) (cf_UpdateQueueSize c) c.
Definition WithMessageCacheFilter (filter : option (Message -> bool)) : Option := fun c =>
  set_caching (cf_Updates c) (cf_MessageCacheSize c) CacheFilteredMessages filter
    (cf_PeerCacheSize c) (cf_UpdateQueueSize c) c.
(** [filters.Command] is defined for a table of Unicode foldings. *)
Definition commandFilters (fold : list byte -> list byte -> bool) (commands : list string) : list (option (Filters.Filter (W := W) (Raw := Raw))) :=
  map (fun command => Some (Command fold command)) commands.
Definition WithMessageCacheCommands (fold : list byte -> list byte -> bool) (commands : list string) : Option :=
  WithMessageCacheFilter (Some (fun m => Or (commandFilters fold commands) (Some m))).

Definition WithPeerCacheSize (size : Z) : Option := fun c =>
  set_caching (cf_Updates c) (cf_MessageCacheSize c) (cf_MessageCacheMode c) (cf_MessageCacheFilter c)
    size (cf_UpdateQueueSize c) c.
Definition WithUpdateQueueSize (size : Z) : Option := fun c =>
  set_caching (cf_Updates c) (cf_MessageCacheSize c) (cf_MessageCacheMode c) (cf_MessageCacheFilter c)
    (cf_PeerCacheSize c) size c.

Definition WithDebug (enabled : bool) : Option := fun c =>
  set_network enabled (cf_AutoReconnect c) (cf_MaxReconnectAttempts c) (cf_ReconnectInitialBackoff c)
    (cf_ReconnectMaxBackoff c) (cf_AutoFloodWait c) (cf_MaxFloodWait c) c.
Definition WithAutoReconnect (enabled : bool) : Option := fun c =>
  set_network (cf_Debug c) enabled (cf_MaxReconnectAttempts c) (cf_ReconnectInitialBackoff c)
    (cf_ReconnectMaxBackoff c) (cf_AutoFloodWait c) (cf_MaxFloodWait c) c.
Definition WithReconnectBackoff (initial max : Z) : Option := fun c =>
  set_network (cf_Debug c) (cf_AutoReconnect c) (cf_MaxReconnectAttempts c)
    (if 0 <? initial then initial else cf_ReconnectInitialBackoff c)
    (if 0 <? max then max else cf_ReconnectMaxBackoff c) (cf_AutoFloodWait c) (cf_MaxFloodWait c) c.
Definition WithMaxReconnectAttempts (n : Z) : Option := fun c =>
  set_network (cf_Debug c) (cf_AutoReconnect c) n (cf_ReconnectInitialBackoff c)
    (cf_ReconnectMaxBackoff c) (cf_AutoFloodWait c) (cf_MaxFloodWait c) c.
Definition WithAutoFloodWait (enabled : bool) (maxWait : Z) : Option := fun c =>
  set_network (cf_Debug c) (cf_AutoReconnect c) (cf_MaxReconnectAttempts c) (cf_ReconnectInitialBackoff c)
    (cf_ReconnectMaxBackoff c) enabled (if 0 <? maxWait then maxWait else cf_MaxFloodWait c) c.

(** ** Construction *)

(** What [New] and [NewMTProtoBot] start from. *)
Definition default_config (apiID : Z) (apiHash sessionName : string) : Config :=
  MkConfig apiID apiHash (Store MemorySession) sessionName true DefaultMessageCacheSize CacheMatchedMessages None
    DefaultPeerCacheSize 256 false true 0 second (30 * second) false (60 * second).

Definition positive_or (d n : Z) : Z := if n <=? 0 then d else n.

(** What they do to the result of the options. *)
Definition checked_config (c : Config) : Config :=
  MkConfig (cf_APIID c) (cf_APIHash c) (cf_Session c) (cf_SessionName c) (cf_Updates c)
    (at_least_0 (cf_MessageCacheSize c)) (cf_MessageCacheMode c) (cf_MessageCacheFilter c)
    (at_least_0 (cf_PeerCacheSize c)) (at_least_0 (cf_UpdateQueueSize c)) (cf_Debug c) (cf_AutoReconnect c)
    (cf_MaxReconnectAttempts c) (positive_or second (cf_ReconnectInitialBackoff c))
    (positive_or (30 * second) (cf_ReconnectMaxBackoff c)) (cf_AutoFloodWait c)
    (positive_or (60 * second) (cf_MaxFloodWait c)).

(** A nil option is skipped. *)
Definition apply_options (opts : list (option Option)) (c : Config) : Config :=
  fold_left (fun c opt => match opt with Some f => f c | None => c end) opts c.

Definition config_dispatcher (c : Config) : Dispatcher (W := W) (Raw := Raw) :=
  NewDispatcher [
    Some (Dispatcher.WithUpdates (cf_Updates c));
    Some (Dispatcher.WithMessageCacheSize (cf_MessageCacheSize c));
    Some (Dispatcher.WithMessageCacheMode (cf_MessageCacheMode c));
    Some (Dispatcher.WithMessageCacheFilter (cf_MessageCacheFilter c));
    Some (Dispatcher.WithPeerCacheSize (cf_PeerCacheSize c));
    Some (Dispatcher.WithUpdateQueueSize (cf_UpdateQueueSize c))].

Record Client := MkClient { cl_config : Config; cl_dispatcher : Dispatcher (W := W) (Raw := Raw) }.

Definition New (apiID : Z) (apiHash : string) (opts : list (option Option)) : outcome Client :=
  if apiID <=? 0 then Err (ErrNew "api id must be greater than zero")
  else if (apiHash =? EmptyString)%string then Err (ErrNew "api hash is required")
  else let cfg := checked_config (apply_options opts (default_config apiID apiHash "default")) in
       Ok (MkClient cfg (config_dispatcher cfg)).

Definition Client_OnMessage (filter : option (Message -> bool)) (handler : option (MessageHandler (W := W) (Raw := Raw)))
    (c : Client) : Client :=
  MkClient (cl_config c) (Dispatcher_OnMessage filter handler (cl_dispatcher c)).

Definition Client_CacheSnapshot (c : option Client) : CacheSnapshot :=
  match c with None => MkSnapshot 0 0 0 0 EmptyString | Some c => Dispatcher_CacheSnapshot (cl_dispatcher c) end.

(** The accessors of options.go. *)
Definition Client_APIID (c : Client) : Z := cf_APIID (cl_config c).
Definition Client_APIHash (c : Client) : string := cf_APIHash (cl_config c).
Definition Client_SessionName (c : Client) : string := cf_SessionName (cl_config c).
Definition Client_UpdatesEnabled (c : Client) : bool := cf_Updates (cl_config c).
Definition Client_MessageCacheSize (c : Client) : Z := cf_MessageCacheSize (cl_config c).
Definition Client_PeerCacheSize (c : Client) : Z := cf_PeerCacheSize (cl_config c).
Definition Client_UpdateQueueSize (c : Client) : Z := cf_UpdateQueueSize (cl_config c).
Definition Client_MessageCacheMode (c : Client) : MessageCacheMode := cf_MessageCacheMode (cl_config c).
Definition Client_DebugEnabled (c : Client) : bool := cf_Debug (cl_config c).
Definition Client_AutoReconnectEnabled (c : Client) : bool := cf_AutoReconnect (cl_config c).
Definition Client_MaxReconnectAttempts (c : Client) : Z := cf_MaxReconnectAttempts (cl_config c).
Definition Client_ReconnectInitialBackoff (c : Client) : Z := cf_ReconnectInitialBackoff (cl_config c).
Definition Client_ReconnectMaxBackoff (c : Client) : Z := cf_ReconnectMaxBackoff (cl_config c).
Definition Client_AutoFloodWaitEnabled (c : Client) : bool := cf_AutoFloodWait (cl_config c).
Definition Client_MaxFloodWait (c : Client) : Z := cf_MaxFloodWait (cl_config c).

(** [Run] waits for the context and returns its error. *)
Definition Client_Run (cancel : goerr) : outcome unit := Err cancel.

End Config.

(** [Must]: a value or a panic. *)
Definition Must {A} (r : outcome A) : outcome A := match r with Ok a => Ok a | _ => Panic end.
Definition Must0 (r : outcome unit) : outcome unit := match r with Ok _ => Ok tt | _ => Panic end.

(** ** What a new client is *)

Section NewClient.
Context {W Raw : Type}.

Lemma config_dispatcher_config (c : Config (W := W) (Raw := Raw)) :
  d_config (config_dispatcher c) =
  clean_config (Dispatcher.MkConfig (cf_Updates c) (cf_MessageCacheSize c) (cf_PeerCacheSize c) (cf_UpdateQueueSize c)
    (match cf_MessageCacheFilter c with Some _ => CacheFilteredMessages | None => cf_MessageCacheMode c end)
    (cf_MessageCacheFilter c)).
Proof. unfold config_dispatcher, NewDispatcher. cbn. by destruct (cf_MessageCacheFilter c). Qed.

Lemma positive_or_pos d n : 0 < d -> 0 < positive_or d n.
Proof. intros Hd. unfold positive_or. destruct (Z.leb_spec n 0); lia. Qed.

(** Whatever its options, a new client has caches within limits that are not
    negative, the ones of its configuration, and positive delays. *)
Lemma New_spec apiID apiHash opts :
  match New (W := W) (Raw := Raw) apiID apiHash opts with
  | Ok c =>
      0 < apiID /\ apiHash <> EmptyString /\
      0 <= cf_MessageCacheSize (cl_config c) /\ 0 <= cf_PeerCacheSize (cl_config c) /\
      0 <= cf_UpdateQueueSize (cl_config c) /\ 0 < cf_ReconnectInitialBackoff (cl_config c) /\
      0 < cf_ReconnectMaxBackoff (cl_config c) /\ 0 < cf_MaxFloodWait (cl_config c) /\
      Client_CacheSnapshot (Some c) =
        MkSnapshot 0 (cf_MessageCacheSize (cl_config c)) 0 (cf_PeerCacheSize (cl_config c))
          (MessageCacheMode_String (dc_MessageCacheMode (d_config (cl_dispatcher c)))) /\
      sound (cl_dispatcher c) [] []
  | Err _ => apiID <= 0 \/ apiHash = EmptyString
  | Panic => False
  end.
Proof.
  unfold New. destruct (Z.leb_spec apiID 0) as [Hid|Hid]; [by left|].
  destruct (String.eqb_spec apiHash EmptyString) as [Hh|Hh]; [by right|]. cbv zeta.
  set (c := apply_options _ _). set (cfg := checked_config c). cbn [cl_config cl_dispatcher].
  assert (Hn : forall n, 0 <= at_least_0 n) by (intros n; unfold at_least_0; destruct (Z.ltb_spec n 0); lia).
  assert (H1 : 0 <= cf_MessageCacheSize cfg) by apply Hn. assert (H2 : 0 <= cf_PeerCacheSize cfg) by apply Hn.
  do 3 (split; [done|]). split; [done|]. split; [apply Hn|]. do 3 (split; [apply positive_or_pos; unfold second; lia|]).
  split; [|apply NewDispatcher_sound].
  unfold Client_CacheSnapshot, Dispatcher_CacheSnapshot, MessageCache_Limit, PeerCache_Limit. cbn [cl_dispatcher].
  assert (Hi : forall n, 0 <= n -> at_least_0 (at_least_0 n) = n)
    by (intros n Hp; unfold at_least_0; destruct (Z.ltb_spec n 0); [lia|]; destruct (Z.ltb_spec n 0); lia).
  f_equal; [etransitivity; [|exact (Hi _ H1)]|etransitivity; [|exact (Hi _ H2)]];
    unfold config_dispatcher, NewDispatcher; cbn; by destruct (cf_MessageCacheFilter c).
Qed.

(** A cache mode set after a cache filter is not the one in force: the filter,
    passed to the dispatcher last, sets the mode again. *)
Theorem cache_mode_ignored (apiID : Z) (apiHash : string) (filter : Message W Raw -> bool) (mode : MessageCacheMode) :
  match New apiID apiHash [Some (WithMessageCacheFilter (Some filter)); Some (WithMessageCacheMode mode)] with
  | Ok c => cf_MessageCacheMode (cl_config c) = mode /\
            dc_MessageCacheMode (d_config (cl_dispatcher c)) = CacheFilteredMessages
  | _ => True
  end.
Proof. unfold New. destruct (apiID <=? 0); [done|]. by destruct (apiHash =? "")%string. Qed.
End NewClient.
