(* ===== verification/Bot.v ===== *)
(** * Bot: peers and messages of the MTProto bot (src/mtproto_bot.go)

    The bot's own peer map, the conversion of messages, the merging of update
    states and the reconnect delays. *)

From S2P Require Import Prelude Strings TL Transport Hash AES Crypto Envelope Auth Invoke Queries Client Peers Difference Updates.

(** ** Peers

    [b.peers] and the peer cache of the bot's dispatcher. *)
Record peer_book := Book { bk_peers : gmap Z PeerRef; bk_cache : PeerCache TextMessage }.

Definition updateChatType (kind : string) : string :=
  if (kind =? "user")%string then ChatPrivate
  else if (kind =? "chat")%string then ChatGroup
  else if (kind =? "supergroup")%string then ChatSupergroup
  else if (kind =? "channel")%string then ChatChannel
  else EmptyString.

Definition publicPeerID (peer : PeerRef) : Z := NormalizeChatID (pr_ID peer) (updateChatType (pr_Kind peer)).

Definition blank_or (old new : string) : string := if (new =? EmptyString)%string then old else new.

(** What [mergePeerLocked] takes over from the entry of one key. *)
Definition merge_old (peer old : PeerRef) : PeerRef :=
  MkPeerRef (pr_ID peer)
    (if pr_AccessHash peer =? 0 then pr_AccessHash old else pr_AccessHash peer)
    (if (pr_Kind peer =? EmptyString)%string || ((pr_Kind peer =? "channel")%string && (pr_Kind old =? "supergroup")%string)
     then pr_Kind old else pr_Kind peer)
    (blank_or (pr_Title old) (pr_Title peer))
    (blank_or (pr_Username old) (pr_Username peer)).

Fixpoint merge_keys (peers : gmap Z PeerRef) (keys : list Z) (peer : PeerRef) : PeerRef :=
  match keys with
  | [] => peer
  | key :: rest =>
      if key =? 0 then merge_keys peers rest peer
      else match peers !! key with
           | None => merge_keys peers rest peer
           | Some old => merge_keys peers rest (merge_old peer old)
           end
  end.

Definition mergePeerLocked (peers : gmap Z PeerRef) (peer : PeerRef) : PeerRef :=
  if pr_ID peer =? 0 then peer else merge_keys peers [pr_ID peer; publicPeerID peer] peer.

(** The map after storing, and what goes to the dispatcher's cache. *)
Definition store_peer (peer : PeerRef) (peers : gmap Z PeerRef) : gmap Z PeerRef :=
  let peers := <[pr_ID peer := peer]> peers in
  let publicID := publicPeerID peer in
  if negb (publicID =? 0) then <[publicID := peer]> peers else peers.

Definition cache_peer (peer : PeerRef) : Peer TextMessage :=
  MkPeer (publicPeerID peer) (pr_AccessHash peer) (pr_Kind peer) (pr_Username peer) EmptyString EmptyString
    (pr_Title peer) None.

Definition storePeerLocked (peer : PeerRef) : M peer_book unit :=
  if pr_ID peer =? 0 then ret tt
  else
    modify (fun b => Book (store_peer peer (bk_peers b)) (bk_cache b)) ;;
    b <- get ;;
    cache <- lift (PeerCache_Put (cache_peer peer) (bk_cache b)) ;;
    put (Book (bk_peers b) cache).

Fixpoint rememberPeers (peers : list PeerRef) : M peer_book unit :=
  match peers with
  | [] => ret tt
  | peer :: rest =>
      if pr_ID peer =? 0 then rememberPeers rest
      else
        b <- get ;;
        storePeerLocked (mergePeerLocked (bk_peers b) peer) ;;
        rememberPeers rest
  end.

Definition getPeer (peers : gmap Z PeerRef) (id : Z) : option PeerRef :=
  match peers !! id with
  | Some peer => Some peer
  | None => peers !! RawChatID id
  end.

(** [GetUser]. *)
Definition GetUser (peers : gmap Z PeerRef) (userID : Z) : outcome PeerRef :=
  match getPeer peers userID with
  | Some peer => if (pr_Kind peer =? "user")%string then Ok peer else Err (ErrNew "mtproto: user %d is not cached yet")
  | None => Err (ErrNew "mtproto: user %d is not cached yet")
  end.

Definition GetChat (peers : gmap Z PeerRef) (chatID : Z) : outcome PeerRef :=
  match getPeer peers chatID with
  | Some peer => Ok peer
  | None => Err (ErrNew "mtproto: peer %d is not cached yet")
  end.

(** [snapshotPeers] deduplicates by kind and id; [values] is the order in which
    Go's [range] delivers the values of the map. *)
Fixpoint snapshot_loop (values : list PeerRef) (seen : gset string) (out : list PeerRef) : list PeerRef :=
  match values with
  | [] => out
  | peer :: rest =>
      let key := (pr_Kind peer ++ ":" ++ FormatInt (pr_ID peer))%string in
      if bool_decide (key ∈ seen) || (pr_ID peer =? 0) then snapshot_loop rest seen out
      else snapshot_loop rest ({[key]} ∪ seen) (out ++ [peer])
  end.
Definition snapshotPeers (values : list PeerRef) : list PeerRef := snapshot_loop values ∅ [].

(** ** Messages *)

Definition peersFromTextMessage (msg : TextMessage) : list PeerRef :=
  (if negb (tm_ChatID msg =? 0) && negb (tm_ChatKind msg =? EmptyString)%string
   then [MkPeerRef (tm_ChatID msg) 0 (tm_ChatKind msg) EmptyString EmptyString] else []) ++
  (if negb (tm_FromID msg =? 0) && negb (tm_FromKind msg =? EmptyString)%string
   then [MkPeerRef (tm_FromID msg) 0 (tm_FromKind msg) EmptyString EmptyString] else []).

(** The kind of the chat: the cached one when there is one. *)
Definition chat_kind (peers : gmap Z PeerRef) (msg : TextMessage) : string :=
  match getPeer peers (tm_ChatID msg) with
  | Some peer => if negb (pr_Kind peer =? EmptyString)%string then pr_Kind peer else tm_ChatKind msg
  | None => tm_ChatKind msg
  end.

Section Message.
Context {W : Type}.
Variable reply : Z -> Z -> string -> M W unit.
Variable edit : Z -> Z -> string -> M W unit.
Variable del : Z -> list Z -> M W unit.

(** The message handed to the handlers, which reply through the bot's methods. *)
Definition mtprotoTextMessageToUpdate (peers : gmap Z PeerRef) (msg : TextMessage) : Message W TextMessage :=
  let fromID := if tm_FromID msg =? 0 then tm_ChatID msg else tm_FromID msg in
  let chatType := updateChatType (chat_kind peers msg) in
  let chatType := if (chatType =? EmptyString)%string && (tm_ChatID msg =? fromID) then ChatPrivate else chatType in
  MkMessage (tm_ID msg) (NormalizeChatID (tm_ChatID msg) chatType) (tm_ChatID msg) fromID chatType (tm_Text msg) 0
    (Some msg) (Some reply) (Some edit) (Some del).
End Message.

(** ** Update states *)

Definition or_new (old new : Z) : Z := if new =? 0 then old else new.

Definition mergeUpdateState (old next : option UpdatesState) : option UpdatesState :=
  match old, next with
  | None, _ => next
  | _, None => old
  | Some o, Some n =>
      Some (MkState (or_new (us_PTS o) (us_PTS n)) (or_new (us_QTS o) (us_QTS n)) (or_new (us_Date o) (us_Date n))
              (or_new (us_Seq o) (us_Seq n)) (or_new (us_UnreadCount o) (us_UnreadCount n))
              (match us_Raw n with [] => us_Raw o | raw => raw end))
  end.

(** ** Reconnect delays *)

(** [for i := 1; i < attempt; i++ { delay *= 2; if delay >= max { return max } }] *)
Fixpoint backoff_loop (n : nat) (delay max : Z) : Z + Z :=
  match n with
  | O => inl delay
  | S n' => let delay := i64 (delay * 2) in if max <=? delay then inr max else backoff_loop n' delay max
  end.

Definition reconnectBackoff (attempt initial max : Z) : Z :=
  if attempt <=? 0 then 0
  else
    let initial := if initial <=? 0 then second else initial in
    let max := if max <=? 0 then 30 * second else max in
    match backoff_loop (Z.to_nat (attempt - 1)) initial max with
    | inr d => d
    | inl delay => if max <? delay then max else delay
    end.

(** ** The peer map *)

(** The map alone. *)
Definition remember (m : gmap Z PeerRef) (peer : PeerRef) : gmap Z PeerRef :=
  if pr_ID peer =? 0 then m else store_peer (mergePeerLocked m peer) m.

Lemma merge_keys_ID m keys peer : pr_ID (merge_keys m keys peer) = pr_ID peer.
Proof.
  revert peer. induction keys as [|k keys IH]; intros peer; [done|]. cbn [merge_keys].
  destruct (k =? 0); [done|]. destruct (m !! k); by rewrite IH.
Qed.

Lemma mergePeerLocked_ID m peer : pr_ID (mergePeerLocked m peer) = pr_ID peer.
Proof. unfold mergePeerLocked. destruct (pr_ID peer =? 0); [done|]. apply merge_keys_ID. Qed.

(** [rememberPeers] never fails, whatever the peers. *)
Lemma rememberPeers_run l b q :
  represents (bk_cache b) q ->
  exists c q', rememberPeers l b = (Ok tt, Book (fold_left remember l (bk_peers b)) c) /\ represents c q' /\
    pc_limit c = pc_limit (bk_cache b).
Proof.
  revert b q. induction l as [|p l IH]; intros b q R; [by exists (bk_cache b), q; destruct b|].
  cbn [rememberPeers fold_left]. unfold remember at 2. destruct (Z.eqb_spec (pr_ID p) 0) as [|Hp]; [by apply IH with q|].
  erewrite bind_ok by reflexivity. set (p' := mergePeerLocked _ p).
  destruct (represents_put (bk_cache b) q (cache_peer p') R) as (c & E & Rc & L).
  assert (E1 : storePeerLocked p' b = (Ok tt, Book (store_peer p' (bk_peers b)) c)).
  { unfold storePeerLocked. rewrite (proj2 (Z.eqb_neq _ _)) by (by unfold p'; rewrite mergePeerLocked_ID).
    unfold bind, modify, get, lift, put. cbn [bk_cache bk_peers]. by rewrite E. }
  rewrite (bind_ok _ _ _ _ _ E1).
  destruct (IH (Book (store_peer p' (bk_peers b)) c) _ Rc) as (c' & q' & E' & R' & L'). exists c', q'.
  split; [exact E'|]. split; [done|]. cbn [bk_cache] in L'. by rewrite L'.
Qed.

(** Each key is the id or the dialog id of its peer. *)
Definition book_ok (m : gmap Z PeerRef) : Prop :=
  map_Forall (fun k p => pr_ID p <> 0 /\ k <> 0 /\ (k = pr_ID p \/ k = publicPeerID p)) m.

Lemma store_peer_lookup p m k :
  store_peer p m !! k =
  if decide (publicPeerID p <> 0 /\ k = publicPeerID p \/ k = pr_ID p) then Some p else m !! k.
Proof.
  unfold store_peer. cbv zeta. destruct (Z.eqb_spec (publicPeerID p) 0) as [E|E]; cbn [negb].
  - destruct (decide _) as [[[E' _]| ->]|H]; [done|by rewrite lookup_insert_eq|]. apply lookup_insert_ne. intros <-. tauto.
  - destruct (decide _) as [[[_ ->]| ->]|H]; [by rewrite lookup_insert_eq| |].
    + destruct (decide (publicPeerID p = pr_ID p)) as [->|]; [by rewrite lookup_insert_eq|].
      by rewrite lookup_insert_ne, lookup_insert_eq.
    + rewrite !lookup_insert_ne; [done|..]; intros <-; tauto.
Qed.

Lemma remember_ok m p : book_ok m -> book_ok (remember m p).
Proof.
  intros Hm. unfold remember. destruct (Z.eqb_spec (pr_ID p) 0) as [|Hp]; [done|].
  set (p' := mergePeerLocked m p). assert (Hp' : pr_ID p' <> 0) by (unfold p'; by rewrite mergePeerLocked_ID).
  intros k x. rewrite store_peer_lookup. destruct (decide _) as [H|H]; [|apply Hm].
  intros [= <-]. split; [done|]. destruct H as [[H1 ->]| ->]; auto.
Qed.

(** A negative id is its own dialog id. *)
Lemma publicPeerID_negative p : pr_ID p < 0 -> publicPeerID p = pr_ID p.
Proof.
  intros H. unfold publicPeerID, NormalizeChatID. rewrite (proj2 (Z.eqb_neq _ 0)), (proj2 (Z.ltb_lt _ 0)) by lia.
  by repeat case_match.
Qed.

(** The entry of a group's or channel's dialog id has that dialog id. *)
Lemma book_negative m k p : book_ok m -> m !! k = Some p -> k < 0 -> publicPeerID p = k.
Proof.
  intros Hm Hk Hn. destruct (Hm k p Hk) as (_ & _ & [->| ->]); [|done]. by apply publicPeerID_negative.
Qed.

(** The kinds the scanners produce. *)
Definition known_kind (p : PeerRef) : Prop :=
  In (pr_Kind p) ["user"; "chat"; "channel"; "supergroup"]%string.

(** The kind of a merged peer: a channel may turn out to be a supergroup. *)
Definition refines (p q : PeerRef) : Prop :=
  pr_Kind q = pr_Kind p \/ pr_Kind p = "channel"%string /\ pr_Kind q = "supergroup"%string.

Lemma merge_old_public p old : known_kind p ->
  publicPeerID (merge_old p old) = publicPeerID p /\ known_kind (merge_old p old) /\ refines p (merge_old p old).
Proof.
  intros Hk. unfold refines, known_kind, publicPeerID, merge_old in *. cbn [pr_ID pr_Kind].
  cbn in Hk. destruct Hk as [<-|[<-|[<-|[<-|[]]]]]; cbn [String.eqb Ascii.eqb Bool.eqb orb andb]; try (split; [done|cbn; tauto]).
  destruct (String.eqb_spec (pr_Kind old) "supergroup") as [->|]; cbn [andb]; (split; [done|cbn; tauto]).
Qed.

Lemma refines_trans p q r : refines p q -> refines q r -> refines p r.
Proof. unfold refines. intros [H1|[H1 H2]] [H3|[H3 H4]]; [left|right|right|]; try split; congruence. Qed.

(** What merging does to a peer of a known kind. *)
Lemma merge_keys_known m keys p : known_kind p ->
  (known_kind (merge_keys m keys p) /\ refines p (merge_keys m keys p)) /\
  publicPeerID (merge_keys m keys p) = publicPeerID p /\
  (pr_AccessHash p <> 0 -> pr_AccessHash (merge_keys m keys p) = pr_AccessHash p) /\
  (forall k old, In k keys -> k <> 0 -> m !! k = Some old -> pr_AccessHash old <> 0 ->
     pr_AccessHash (merge_keys m keys p) <> 0).
Proof.
  revert p. induction keys as [|k keys IH]; intros p Hp; [split; [split; [done|by left]|]; do 2 (split; [done|]); intros ? ? []|]. cbn [merge_keys].
  destruct (Z.eqb_spec k 0) as [->|Hk].
  { destruct (IH p Hp) as (H1 & H2 & H3 & H4). do 3 (split; [done|]). intros k old [<-|Hin]; [done|by apply H4]. }
  destruct (m !! k) as [old|] eqn:E.
  - destruct (merge_old_public p old Hp) as (Hq & Hq' & Hr). destruct (IH _ Hq') as (H1 & H2 & H3 & H4).
    assert (Hh : pr_AccessHash (merge_old p old) = if pr_AccessHash p =? 0 then pr_AccessHash old else pr_AccessHash p)
      by done.
    split; [split; [apply H1|by eapply refines_trans; [|apply H1]]|]. split; [congruence|]. split.
    + intros Hn. rewrite H3; rewrite Hh, (proj2 (Z.eqb_neq _ 0)) by done; done.
    + intros k' old' [<-|Hin] Hk' E' Hn; [|by eapply H4]. rewrite E in E'. injection E' as <-.
      destruct (Z.eqb_spec (pr_AccessHash p) 0); rewrite H3; by rewrite Hh.
  - destruct (IH p Hp) as (H1 & H2 & H3 & H4). do 3 (split; [done|]).
    intros k' old' [<-|Hin]; [congruence|by apply H4].
Qed.

(** A remembered peer of a known kind keeps an access hash its keys had. *)
Lemma remember_hash m p k old : known_kind p ->
  m !! k = Some old -> k <> 0 -> pr_AccessHash old <> 0 ->
  exists new, remember m p !! k = Some new /\ pr_AccessHash new <> 0.
Proof.
  intros Hp Hk Hk0 Hh. unfold remember. destruct (Z.eqb_spec (pr_ID p) 0) as [|Hid]; [by exists old|].
  unfold mergePeerLocked. rewrite (proj2 (Z.eqb_neq _ 0)) by done.
  destruct (merge_keys_known m [pr_ID p; publicPeerID p] p Hp) as (_ & H2 & _ & H4). set (p' := merge_keys _ _ p) in *.
  rewrite store_peer_lookup. destruct (decide _) as [H|H]; [|by exists old]. exists p'. split; [done|].
  apply (H4 k old); [|done..]. unfold p' in H at 3. rewrite merge_keys_ID in H.
  destruct H as [[_ ->]|H]; [right; left; by rewrite H2|by left].
Qed.

Lemma remember_all_hash l m k old : Forall known_kind l -> book_ok m ->
  m !! k = Some old -> pr_AccessHash old <> 0 ->
  exists new, fold_left remember l m !! k = Some new /\ pr_AccessHash new <> 0.
Proof.
  intros Hl. revert m old. induction Hl as [|p l Hp _ IH]; intros m old Hm Hk Hh; [by exists old|].
  destruct (Hm k old Hk) as (_ & Hk0 & _). destruct (remember_hash m p k old Hp Hk Hk0 Hh) as (new & E & Hn).
  by apply (IH (remember m p) new (remember_ok m p Hm)).
Qed.

Lemma remember_all_ok l m : book_ok m -> book_ok (fold_left remember l m).
Proof. revert m. induction l as [|p l IH]; intros m Hm; [done|]. by apply IH, remember_ok. Qed.

Lemma publicPeerID_nonzero p : pr_ID p <> 0 -> is_i64 (pr_ID p) -> publicPeerID p <> 0.
Proof.
  intros H0 Hi. unfold publicPeerID, NormalizeChatID, channelDialogIDOffset. rewrite (proj2 (Z.eqb_neq _ 0)) by done.
  repeat case_match; try done; repeat match goal with H : (_ <? _) = false |- _ => apply Z.ltb_ge in H end; zlia.
Qed.

(** A peer just remembered is found under its id and under its dialog id. *)
Lemma remember_found m p : pr_ID p <> 0 -> is_i64 (pr_ID p) -> known_kind p ->
  exists p', pr_ID p' = pr_ID p /\ publicPeerID p' = publicPeerID p /\
    remember m p !! pr_ID p = Some p' /\ remember m p !! publicPeerID p = Some p' /\ (known_kind p' /\ refines p p') /\
    (pr_AccessHash p <> 0 -> pr_AccessHash p' = pr_AccessHash p).
Proof.
  intros H0 Hi Hk. unfold remember, mergePeerLocked. rewrite (proj2 (Z.eqb_neq _ 0)) by done.
  destruct (merge_keys_known m [pr_ID p; publicPeerID p] p Hk) as (H1 & H2 & H3 & _).
  pose proof (merge_keys_ID m [pr_ID p; publicPeerID p] p) as H4. set (p' := merge_keys _ _ p) in *.
  exists p'. do 2 (split; [done|]). rewrite !store_peer_lookup.
  rewrite decide_True by (right; congruence).
  rewrite decide_True by (left; rewrite H2; split; [by apply publicPeerID_nonzero|done]). done.
Qed.



(** ** Answering a message *)

(** Dialog ids of raw ids in Telegram's range. *)
Lemma publicPeerID_cases p : known_kind p -> 0 < pr_ID p < channelDialogIDOffset ->
  publicPeerID p = pr_ID p \/ publicPeerID p = - pr_ID p \/ publicPeerID p = - channelDialogIDOffset - pr_ID p.
Proof.
  intros Hk Hr. unfold known_kind, publicPeerID, NormalizeChatID, channelDialogIDOffset in *.
  rewrite (proj2 (Z.eqb_neq _ 0)), !(proj2 (Z.ltb_ge _ 0)), (proj2 (Z.leb_gt _ _)) by lia.
  cbn in Hk. destruct Hk as [<-|[<-|[<-|[<-|[]]]]]; cbn; rewrite ?i64_id by (unfold_words; lia); auto.
Qed.

Lemma remember_other m p k : known_kind p -> k <> pr_ID p -> k <> publicPeerID p -> remember m p !! k = m !! k.
Proof.
  intros Hp H1 H2. unfold remember, mergePeerLocked. destruct (Z.eqb_spec (pr_ID p) 0) as [|H0]; [done|].
  destruct (merge_keys_known m [pr_ID p; publicPeerID p] p Hp) as (_ & H3 & _ & _).
  rewrite store_peer_lookup, H3, merge_keys_ID. by rewrite decide_False by tauto.
Qed.

Section Answer.
Context {W : Type}.
Variables (reply edit : Z -> Z -> string -> M W unit) (del : Z -> list Z -> M W unit).

(** The update of a message whose chat is cached. *)
Lemma update_of_cached m msg p :
  m !! tm_ChatID msg = Some p -> known_kind p -> pr_ID p = tm_ChatID msg ->
  let u := mtprotoTextMessageToUpdate reply edit del m msg in
  m_ChatID u = publicPeerID p /\ m_ChatType u = updateChatType (pr_Kind p) /\ m_RawChatID u = tm_ChatID msg.
Proof.
  intros Hm Hk Hp u. unfold u, mtprotoTextMessageToUpdate, chat_kind, getPeer, publicPeerID. cbv zeta. rewrite Hm, Hp.
  cbn [m_ChatID m_ChatType m_RawChatID].
  unfold known_kind in Hk. cbn in Hk. destruct Hk as [<-|[<-|[<-|[<-|[]]]]]; cbn [String.eqb Ascii.eqb Bool.eqb negb]; done.
Qed.
End Answer.

(** The peers of a message, as [peersFromTextMessage] lists them. *)
Definition chat_ref (msg : TextMessage) : PeerRef := MkPeerRef (tm_ChatID msg) 0 (tm_ChatKind msg) EmptyString EmptyString.
Definition from_ref (msg : TextMessage) : PeerRef := MkPeerRef (tm_FromID msg) 0 (tm_FromKind msg) EmptyString EmptyString.

Lemma peersFromTextMessage_cases msg : tm_ChatID msg <> 0 -> known_kind (chat_ref msg) ->
  tm_FromID msg = 0 \/ known_kind (from_ref msg) ->
  peersFromTextMessage msg = [chat_ref msg] \/
  (peersFromTextMessage msg = [chat_ref msg; from_ref msg] /\ known_kind (from_ref msg)).
Proof.
  intros Hc Hk Hf. assert (Hn : forall p, known_kind p -> (pr_Kind p =? EmptyString)%string = false).
  { intros p Hp. unfold known_kind in Hp. cbn in Hp. by destruct Hp as [<-|[<-|[<-|[<-|[]]]]]. }
  unfold peersFromTextMessage. rewrite (proj2 (Z.eqb_neq _ 0)) by done. cbn [negb andb].
  pose proof (Hn _ Hk) as Hk'. cbn in Hk'. rewrite Hk'. cbn [negb].
  destruct (Z.eqb_spec (tm_FromID msg) 0) as [E|E]; cbn [negb andb]; [by left|].
  destruct Hf as [|Hf]; [done|]. pose proof (Hn _ Hf) as Hf'. cbn in Hf'. rewrite Hf'. by right.
Qed.

(** C28. A reply goes where its message came from (mtproto_bot.go, [Run]'s
    [rememberPeers(peersFromTextMessage(msg))] and [mtprotoTextMessageToUpdate],
    then [getPeer] on the message's [ChatID]): whatever the map held before, for
    chat and sender ids in Telegram's range that are not equal by accident (a
    sender of the same raw id has the chat's kind), the dialog id handed to the
    handlers leads back to a peer with the chat's raw id and kind, a channel
    possibly known to be a supergroup, and the chat type is that peer's. *)
Theorem reply_reaches_chat {W : Type} (reply edit : Z -> Z -> string -> M W unit) (del : Z -> list Z -> M W unit)
    (b : peer_book) (q : list (Peer TextMessage)) (msg : TextMessage) :
  represents (bk_cache b) q -> 0 < tm_ChatID msg < channelDialogIDOffset -> known_kind (chat_ref msg) ->
  (tm_FromID msg = 0 \/ 0 < tm_FromID msg < channelDialogIDOffset /\ known_kind (from_ref msg)) ->
  (tm_FromID msg = tm_ChatID msg -> tm_FromKind msg = tm_ChatKind msg) ->
  exists b' p, rememberPeers (peersFromTextMessage msg) b = (Ok tt, b') /\
    let u := mtprotoTextMessageToUpdate reply edit del (bk_peers b') msg in
    getPeer (bk_peers b') (m_ChatID u) = Some p /\ pr_ID p = tm_ChatID msg /\ refines (chat_ref msg) p /\
    m_ChatType u = updateChatType (pr_Kind p) /\ m_RawChatID u = tm_ChatID msg.
Proof.
  intros R Hc Hk Hf Hsame. destruct (rememberPeers_run (peersFromTextMessage msg) b q R) as (c & _ & E & _).
  assert (G : forall m p, m !! tm_ChatID msg = Some p -> m !! publicPeerID p = Some p -> known_kind p ->
    pr_ID p = tm_ChatID msg -> refines (chat_ref msg) p ->
    let u := mtprotoTextMessageToUpdate reply edit del m msg in
    getPeer m (m_ChatID u) = Some p /\ pr_ID p = tm_ChatID msg /\ refines (chat_ref msg) p /\
    m_ChatType u = updateChatType (pr_Kind p) /\ m_RawChatID u = tm_ChatID msg).
  { intros m p H1 H2 H3 H4 H5 u. destruct (update_of_cached reply edit del m msg p H1 H3 H4) as (U1 & U2 & U3).
    fold u in U1, U2, U3. rewrite U1. unfold getPeer. by rewrite H2. }
  assert (Hoff : channelDialogIDOffset < two63) by done.
  destruct (remember_found (bk_peers b) (chat_ref msg)) as (p & P1 & P2 & P3 & P4 & [P5 P6] & _);
    [cbn; lia|unfold is_i64; cbn; unfold_words; lia|done|]. rewrite <- P2 in P4. cbn [chat_ref pr_ID] in P1, P3.
  destruct (peersFromTextMessage_cases msg) as [El|[El Hkf]]; [lia|done|by destruct Hf as [|[]]; auto|..];
    rewrite El in E.
  - eexists _, p. rewrite El. split; [exact E|]. by apply G.
  - destruct (decide (tm_FromID msg = 0)) as [E0|E0].
    { eexists _, p. rewrite El. split; [exact E|]. cbn [fold_left bk_peers].
      assert (Er : forall m, remember m (from_ref msg) = m) by (intros m; unfold remember, from_ref; cbn; by rewrite E0).
      rewrite Er. by apply G. }
    destruct Hf as [|[Hr _]]; [done|]. destruct (decide (tm_FromID msg = tm_ChatID msg)) as [Es|Es].
    + assert (Er : from_ref msg = chat_ref msg) by (unfold from_ref, chat_ref; by rewrite Es, Hsame).
      destruct (remember_found (remember (bk_peers b) (chat_ref msg)) (chat_ref msg)) as (p' & Q1 & Q2 & Q3 & Q4 & [Q5 Q6] & _);
        [cbn; lia|unfold is_i64; cbn; unfold_words; lia|done|]. rewrite <- Q2 in Q4. cbn [chat_ref pr_ID] in Q1, Q3.
      eexists _, p'. rewrite El. split; [exact E|]. cbn [fold_left bk_peers]. rewrite Er. by apply G.
    + eexists _, p. rewrite El. split; [exact E|]. cbn [fold_left bk_peers].
      pose proof (publicPeerID_cases p P5 ltac:(lia)) as C1.
      pose proof (publicPeerID_cases (from_ref msg) Hkf ltac:(cbn; lia)) as C2. cbn [from_ref pr_ID] in C2.
      apply G; [..|done|done|done]; rewrite remember_other; try done; cbn [from_ref pr_ID];
        unfold channelDialogIDOffset in *; lia.
Qed.

(** A post in a channel already known as a supergroup. *)
Lemma reply_reaches_chat_witness :
  let room := MkPeerRef 5 77 "supergroup" "Room" EmptyString in
  let post := MkText 9 5 6 "channel" "user" 0 "hi" [] in
  let say := fun _ _ _ => ret tt : M unit unit in
  let del := fun _ _ => ret tt : M unit unit in
  let b := Book {[5 := room; -1000000000005 := room]} (NewPeerCache 10) in
  exists b' p, rememberPeers (peersFromTextMessage post) b = (Ok tt, b') /\
    m_ChatID (mtprotoTextMessageToUpdate say say del (bk_peers b') post) = -1000000000005 /\
    getPeer (bk_peers b') (-1000000000005) = Some p /\ pr_ID p = 5 /\ pr_AccessHash p = 77.
Proof.
  destruct (reply_reaches_chat (fun _ _ _ => ret tt : M unit unit) (fun _ _ _ => ret tt) (fun _ _ => ret tt)
    (Book {[5 := MkPeerRef 5 77 "supergroup" "Room" EmptyString; -1000000000005 := MkPeerRef 5 77 "supergroup" "Room" EmptyString]}
      (NewPeerCache 10)) [] (MkText 9 5 6 "channel" "user" 0 "hi" [])) as (b' & p & E & H1 & H2 & _).
  - apply represents_new.
  - by vm_compute.
  - unfold known_kind. cbn. tauto.
  - right. split; [by vm_compute|]. unfold known_kind. cbn. tauto.
  - done.
  - exists b', p. split; [exact E|]. vm_compute in E. injection E as <-. vm_compute in H1. injection H1 as <-. by vm_compute.
Defined.

(** *** Where raw ids collide *)

Definition user5 : PeerRef := MkPeerRef 5 11 "user" EmptyString EmptyString.
Definition channel5 : PeerRef := MkPeerRef 5 22 "channel" EmptyString EmptyString.

(** The dialog id of a channel that is not cached leads to the user of the same
    raw id: [getPeer] falls back on the raw id whatever its peer's kind. *)
Theorem unknown_channel_is_user : getPeer (remember ∅ user5) (publicPeerID channel5) = Some user5.
Proof. by vm_compute. Qed.

(** A channel replaces the user of the same raw id, and a user seen without an
    access hash then takes the channel's. *)
Theorem raw_ids_collide :
  getPeer (remember (remember ∅ user5) channel5) 5 = Some channel5 /\
  pr_AccessHash <$> getPeer (remember (remember ∅ channel5) (MkPeerRef 5 0 "user" EmptyString EmptyString)) 5 = Some 22.
Proof. by vm_compute. Qed.

(** ** Reconnect delays *)

Lemma backoff_loop_spec n delay max : 0 < delay -> delay < max -> max <= 2 ^ 62 ->
  match backoff_loop n delay max with
  | inr d => d = max /\ max <= delay * 2 ^ Z.of_nat n
  | inl d => d = delay * 2 ^ Z.of_nat n /\ d < max
  end.
Proof.
  revert delay. induction n as [|n IH]; intros delay Hd Hlt Hmax; cbn [backoff_loop].
  { change (2 ^ Z.of_nat 0) with 1. lia. }
  cbv zeta. rewrite i64_id by (change (2 ^ 62) with 4611686018427387904 in Hmax; unfold_words; lia).
  assert (Hp : 2 ^ Z.of_nat (S n) = 2 * 2 ^ Z.of_nat n) by (rewrite Nat2Z.inj_succ, Z.pow_succ_r; lia).
  assert (H1 : 1 <= 2 ^ Z.of_nat n) by (pose proof (Z.pow_pos_nonneg 2 (Z.of_nat n)); lia). rewrite Hp.
  destruct (Z.leb_spec max (delay * 2)); [nia|]. specialize (IH (delay * 2) ltac:(lia) ltac:(lia) Hmax).
  destruct (backoff_loop n (delay * 2) max); lia.
Qed.

(** C40. The reconnect delay (mtproto_bot.go, [reconnectBackoff]) of attempt n is
    the initial delay doubled n-1 times and capped at the maximum, exactly, for
    delays up to 2{^62} nanoseconds (146 years), so that no doubling wraps; it
    is positive, never above the maximum, and no shorter than that of the
    attempt before. *)
Theorem reconnectBackoff_doubles (attempt initial max : Z) :
  0 < attempt -> 0 < initial <= 2 ^ 61 -> 0 < max <= 2 ^ 62 ->
  reconnectBackoff attempt initial max = Z.min max (initial * 2 ^ (attempt - 1)) /\
  0 < reconnectBackoff attempt initial max <= max /\
  reconnectBackoff attempt initial max <= reconnectBackoff (attempt + 1) initial max.
Proof.
  intros Ha Hi Hm.
  assert (G : forall a, 0 < a -> reconnectBackoff a initial max = Z.min max (initial * 2 ^ (a - 1))).
  { intros a H0. unfold reconnectBackoff. rewrite !(proj2 (Z.leb_gt _ 0)) by lia. cbv zeta.
    destruct (Z.to_nat (a - 1)) as [|n] eqn:E.
    { replace (a - 1) with 0 by lia. cbn [backoff_loop]. rewrite Z.pow_0_r, Z.mul_1_r.
      destruct (Z.ltb_spec max initial); lia. }
    replace (a - 1) with (Z.of_nat (S n)) by lia. destruct (Z.lt_ge_cases initial max) as [Hlt|Hge].
    - pose proof (backoff_loop_spec (S n) initial max ltac:(lia) Hlt ltac:(lia)) as R.
      destruct (backoff_loop (S n) initial max) as [d|d]; [destruct (Z.ltb_spec max d)|]; lia.
    - change (2 ^ 61) with 2305843009213693952 in Hi. cbn [backoff_loop]. cbv zeta.
      rewrite i64_id by (unfold_words; lia).
      rewrite (proj2 (Z.leb_le _ _)) by lia. pose proof (Z.pow_pos_nonneg 2 (Z.of_nat (S n))). nia. }
  rewrite !G by lia. replace (attempt + 1 - 1) with (Z.succ (attempt - 1)) by lia. rewrite Z.pow_succ_r by lia.
  pose proof (Z.pow_pos_nonneg 2 (attempt - 1) ltac:(lia) ltac:(lia)). split; [done|]. nia.
Qed.

Lemma reconnectBackoff_doubles_witness :
  reconnectBackoff 4 second (30 * second) = 8 * second /\ reconnectBackoff 6 second (30 * second) = 30 * second.
Proof.
  split.
  - etransitivity; [apply (reconnectBackoff_doubles 4 second (30 * second)); by vm_compute|]. by vm_compute.
  - etransitivity; [apply (reconnectBackoff_doubles 6 second (30 * second)); by vm_compute|]. by vm_compute.
Defined.

(** Beyond that the doubling wraps, and the delay comes down to nothing. *)
Example backoff_wraps : reconnectBackoff 65 second (two63 - 1) = 0.
Proof. by vm_compute. Qed.

(** ** Update states *)

(** Merging is associative: a sequence of differences can be merged in any
    grouping. *)
Lemma mergeUpdateState_assoc a b c :
  mergeUpdateState (mergeUpdateState a b) c = mergeUpdateState a (mergeUpdateState b c).
Proof.
  destruct a as [a|], b as [b|], c as [c|]; try done. unfold mergeUpdateState. f_equal. cbn.
  assert (H : forall x y z, or_new (or_new x y) z = or_new x (or_new y z)).
  { intros x y z. unfold or_new. destruct (Z.eqb_spec z 0); [done|]. by rewrite (proj2 (Z.eqb_neq _ 0)). }
  rewrite !H. f_equal. by destruct (us_Raw b), (us_Raw c).
Qed.

(** A known counter is only replaced by one the server sent. *)
Lemma mergeUpdateState_keeps o n s :
  mergeUpdateState (Some o) n = Some s -> us_PTS o <> 0 ->
  us_PTS s <> 0 /\ (us_PTS s = us_PTS o \/ exists n', n = Some n' /\ us_PTS s = us_PTS n').
Proof.
  intros H Ho. destruct n as [n|]; cbn in H; injection H as <-; cbn; [|auto].
  unfold or_new. destruct (Z.eqb_spec (us_PTS n) 0); eauto.
Qed.
