(* ===== verification/Calls.v ===== *)
(** * Calls: the methods of the MTProto bot (src/mtproto_bot.go,
    mtproto_bot_methods.go, mtproto_bot_media.go)

    What the application calls on a bot that is logged in: each method finds its
    peers in the bot's map and repeats one request of the client through
    FLOOD_WAITs.  The conversions of api_types.go copy options of the same
    fields; the model has one record for both sides. *)

From S2P Require Import Prelude Strings TL Transport Hash AES Crypto Envelope Auth Invoke Queries Client Peers Difference Api Media Flood Life Updates Dispatcher Config Bot.

(** ** The bot and its surroundings

    [bw_sleeps]: how the next sleeps end, [None] for the timer and [Some err] for
    a context done first; past the end the timer fires.  [bw_slept]: the sleeps
    asked for so far.  [bw_reader] and [bw_writer] are the reader and the writer
    that the application passes to the next transfer, [bw_files] the files it can
    open. *)
Record bot := MkBot { bt_client : option EncryptedClient; bt_book : peer_book }.

Record bworld := BW {
  bw_bot : bot; bw_env : env; bw_sleeps : list (option goerr); bw_slept : list Z;
  bw_reader : upload_io; bw_writer : download_io; bw_files : gmap string (list byte) }.

Definition set_bot (b : bot) (w : bworld) : bworld :=
  BW b (bw_env w) (bw_sleeps w) (bw_slept w) (bw_reader w) (bw_writer w) (bw_files w).
Definition set_book (k : peer_book) (w : bworld) : bworld := set_bot (MkBot (bt_client (bw_bot w)) k) w.
Definition set_reader (r : upload_io) (w : bworld) : bworld :=
  BW (bw_bot w) (bw_env w) (bw_sleeps w) (bw_slept w) r (bw_writer w) (bw_files w).
Definition set_writer (d : download_io) (w : bworld) : bworld :=
  BW (bw_bot w) (bw_env w) (bw_sleeps w) (bw_slept w) (bw_reader w) d (bw_files w).

Definition nil_client : EncryptedClient :=
  Client.Client None (DC 0 EmptyString) (AuthKey 0 EmptyString [] [] [] [] [] [] 0 0 [] [] [] [] 0 0 0 0 EmptyString) None.

(** [b.client] and the environment, and the bot after a call on them: a nil
    client stays nil. *)
Definition client_state (w : bworld) : EncryptedClient * env := (default nil_client (bt_client (bw_bot w)), bw_env w).
Definition set_client (s : EncryptedClient * env) (w : bworld) : bworld :=
  BW (MkBot (match bt_client (bw_bot w) with Some _ => Some (fst s) | None => None end) (bt_book (bw_bot w)))
    (snd s) (bw_sleeps w) (bw_slept w) (bw_reader w) (bw_writer w) (bw_files w).

Definition on_bot_client {A} (m : Method A) : M bworld A := zoom client_state set_client m.
Definition on_book {A} (m : M peer_book A) : M bworld A := zoom (fun w => bt_book (bw_bot w)) set_book m.

(** [select { case <-ctx.Done(): ... case <-timer.C: ... }] *)
Definition sleep (wait : Z) : M bworld (option goerr) := fun w =>
  (Ok (match bw_sleeps w with [] => None | r :: _ => r end),
   BW (bw_bot w) (bw_env w) (tl (bw_sleeps w)) (bw_slept w ++ [wait]) (bw_reader w) (bw_writer w) (bw_files w)).

(** Bytes the server has yet to be read. *)
Definition bot_stream (w : bworld) : nat := client_stream (client_state w).

Section Calls.
Context {W Raw : Type}.
Variable o : Config (W := W) (Raw := Raw).
Variable gunzip : list byte -> outcome (list byte).
Variable range_values : seen_map -> list PeerRef.
(** [mime.TypeByExtension(strings.ToLower(filepath.Ext(path)))], tables of the
    system. *)
Variable mime_type : string -> string.

(** The wait before the next round, if there is to be one. *)
Definition flood_wait (err : goerr) : option Z :=
  match FloodWaitDuration err with
  | Some wait => if negb (cf_AutoFloodWait o) || (cf_MaxFloodWait o <? wait) then None else Some wait
  | None => None
  end.

(** [withFloodWait]: [fn] returns the variables it sets and its error. *)
Fixpoint withFloodWait_loop {A} (fuel : nat) (fn : M bworld (A * option goerr)) : M bworld (A * option goerr) :=
  match fuel with
  | O => fail out_of_fuel
  | S fuel' =>
      r <- fn ;;
      match snd r with
      | None => ret r
      | Some err =>
          match flood_wait err with
          | None => ret r
          | Some wait =>
              d <- sleep wait ;;
              match d with
              | Some done => ret (fst r, Some done)
              | None => withFloodWait_loop fuel' fn
              end
          end
      end
  end.

(** A request with its result and its error. *)
Definition attempted {A} (m : M bworld A) : M bworld (option A * option goerr) :=
  r <- try m ;;
  ret (match r with inl a => (Some a, None) | inr err => (None, Some err) end).

(** [return user, err]: the error of a result without value. *)
Definition returned {A} (r : option A * option goerr) : M bworld A :=
  match r with
  | (Some a, None) => ret a
  | (_, Some err) => fail err
  | (None, None) => panic
  end.

(** A call with [fuel] rounds. *)
Definition withFloodWait {A} (fuel : nat) (m : M bworld A) : M bworld A :=
  r <- withFloodWait_loop fuel (attempted m) ;; returned r.

(** [if b == nil || b.client == nil] *)
Definition logged_in : M bworld unit :=
  w <- get ;;
  guard (bool_decide (is_Some (bt_client (bw_bot w)))) (ErrNew "mtproto bot is not logged in").

Definition cached (text : string) (chatID : Z) : M bworld PeerRef :=
  w <- get ;;
  match getPeer (bk_peers (bt_book (bw_bot w))) chatID with
  | Some peer => ret peer
  | None => fail (ErrFmt text [FZ chatID])
  end.
Definition not_cached : string := "mtproto: peer %d is not cached yet".

(** The positive message ids, as [int32]. *)
Definition message_ids (ids : list Z) : list Z := map i32 (List.filter (fun id => 0 <? id) ids).

Section Fuel.
Variable fuel : nat.

Definition Bot_SendMessage (c : ctx) (chatID : Z) (text : string) (opts : SendOptions) : M bworld unit :=
  logged_in ;;
  peer <- cached not_cached chatID ;;
  withFloodWait fuel
    (on_bot_client (MessagesSendMessageToPeerWithOptions gunzip c peer text opts) ;; ret tt).

(** [SendMessage], without options, and [Reply]. *)
Definition Bot_SendText (c : ctx) (chatID : Z) (text : string) : M bworld unit :=
  Bot_SendMessage c chatID text (MkSendOptions 0 false false false).
Definition Bot_Reply (c : ctx) (chatID replyTo : Z) (text : string) : M bworld unit :=
  Bot_SendMessage c chatID text (MkSendOptions replyTo false false false).

Definition Bot_EditMessage (c : ctx) (chatID messageID : Z) (text : string) (opts : EditOptions) : M bworld unit :=
  logged_in ;;
  peer <- cached not_cached chatID ;;
  withFloodWait fuel
    (on_bot_client (MessagesEditMessageToPeerWithOptions gunzip c peer (i32 messageID) text opts) ;; ret tt).
(** [EditMessage], without options. *)
Definition Bot_EditText (c : ctx) (chatID messageID : Z) (text : string) : M bworld unit :=
  Bot_EditMessage c chatID messageID text (MkEditOptions false).

Definition Bot_DeleteMessages (c : ctx) (chatID : Z) (messageIDs : list Z) : M bworld unit :=
  logged_in ;;
  let ids := message_ids messageIDs in
  peer <- cached not_cached chatID ;;
  withFloodWait fuel
    (on_bot_client
       (if ((pr_Kind peer =? "channel") || (pr_Kind peer =? "supergroup"))%string
        then ChannelsDeleteMessages gunzip c peer ids
        else MessagesDeleteMessages gunzip c true ids) ;; ret tt).

Definition Bot_GetMe (c : ctx) : M bworld User :=
  logged_in ;; withFloodWait fuel (on_bot_client (value_of (GetMe gunzip c))).

Definition Bot_ResolveUsername (c : ctx) (username : string) : M bworld PeerRef :=
  logged_in ;;
  let username := TrimPrefix (TrimSpace username) "@" in
  guard (negb (username =? EmptyString)%string) (ErrNew "username is required") ;;
  withFloodWait fuel
    (p <- on_bot_client (value_of (ResolveUsername gunzip range_values c username)) ;;
     on_book (rememberPeers [p]) ;; ret p).

Definition Bot_ForwardMessages (c : ctx) (fromChatID toChatID : Z) (messageIDs : list Z) (opts : ForwardOptions)
  : M bworld unit :=
  logged_in ;;
  from <- cached "mtproto: source peer %d is not cached yet" fromChatID ;;
  to <- cached "mtproto: target peer %d is not cached yet" toChatID ;;
  let ids := message_ids messageIDs in
  guard (negb (len ids =? 0)) (ErrNew "at least one message id is required") ;;
  withFloodWait fuel (on_bot_client (MessagesForwardMessagesToPeer gunzip c from to ids opts) ;; ret tt).

Definition Bot_ForwardMessage (c : ctx) (fromChatID toChatID messageID : Z) (opts : ForwardOptions) : M bworld unit :=
  Bot_ForwardMessages c fromChatID toChatID [messageID] opts.

Definition Bot_GetHistory (c : ctx) (chatID limit : Z) : M bworld (list byte) :=
  logged_in ;;
  peer <- cached not_cached chatID ;;
  input <- (match PeerRef_InputPeer peer with
            | Some input => ret input
            | None => fail (ErrFmt missing_access [FZ (pr_ID peer); FS (pr_Kind peer)])
            end) ;;
  withFloodWait fuel (res <- on_bot_client (MessagesGetHistory gunzip c input limit) ;; ret (ir_Body res)).

(** ** Media *)

#[local] Instance the_client : Invoker (EncryptedClient * env) := client_invoker gunzip.

(** A transfer with the reader or the writer of the world. *)
Definition with_reader {A} (m : M ((EncryptedClient * env) * upload_io) A) : M bworld A :=
  zoom (fun w => (client_state w, bw_reader w)) (fun s w => set_reader (snd s) (set_client (fst s) w)) m.
Definition with_writer {A} (m : M ((EncryptedClient * env) * download_io) A) : M bworld A :=
  zoom (fun w => (client_state w, bw_writer w)) (fun s w => set_writer (snd s) (set_client (fst s) w)) m.

Definition Bot_UploadFile (c : ctx) (size : Z) (name : string) (opts : UploadOptions) : M bworld UploadedFile :=
  logged_in ;; withFloodWait fuel (with_reader (UploadFile c size name opts)).

Definition Bot_SendUploaded (asPhoto : bool) (c : ctx) (chatID : Z) (file : option UploadedFile) (opts : SendMediaOptions)
  : M bworld unit :=
  logged_in ;;
  peer <- cached not_cached chatID ;;
  withFloodWait fuel
    (on_bot_client ((if asPhoto then MessagesSendUploadedPhotoToPeer else MessagesSendUploadedDocumentToPeer) c peer file opts) ;;
     ret tt).
Definition Bot_SendUploadedDocument := Bot_SendUploaded false.
Definition Bot_SendUploadedPhoto := Bot_SendUploaded true.

(** The options of a local file. *)
Definition file_options (path : string) (opts : SendMediaOptions) : SendMediaOptions :=
  let name := if (sm_FileName opts =? EmptyString)%string then filepath_Base path else sm_FileName opts in
  let mime := if (sm_MIMEType opts =? EmptyString)%string then mime_type path else sm_MIMEType opts in
  let mime := if (mime =? EmptyString)%string then "application/octet-stream"%string else mime in
  MkSendMedia (sm_Caption opts) (sm_ReplyToMessageID opts) (sm_Silent opts) (sm_Background opts) (sm_Spoiler opts)
    (sm_ForceFile opts) mime name.

(** [os.Open] and [Stat]: the file becomes the reader. *)
Definition open_file (path : string) : M bworld Z :=
  w <- get ;;
  match bw_files w !! path with
  | Some data => put (set_reader (UploadIO (Some data) (ui_progress (bw_reader w))) w) ;; ret (len data)
  | None => fail (ErrEnv "open")
  end.

Definition sendLocalMedia (c : ctx) (chatID : Z) (path : string) (asPhoto : bool) (opts : SendMediaOptions) : M bworld unit :=
  logged_in ;;
  size <- open_file path ;;
  let name := filepath_Base path in
  let opts := file_options path opts in
  uploaded <- Bot_UploadFile c size name (MkUpload 0 false) ;;
  Bot_SendUploaded asPhoto c chatID (Some uploaded) opts.
Definition Bot_SendDocument (c : ctx) (chatID : Z) (path : string) := sendLocalMedia c chatID path false.
Definition Bot_SendPhoto (c : ctx) (chatID : Z) (path : string) := sendLocalMedia c chatID path true.

(** The bytes of the last round and the error; a part needs a reply, so the
    stream bounds the parts. *)
Definition Bot_DownloadFile (c : ctx) (loc : option InputFileLocation) (opts : DownloadOptions)
  : M bworld (Z * option goerr) :=
  r <- try logged_in ;;
  match r with
  | inr err => ret (0, Some err)
  | inl _ => withFloodWait_loop fuel (with_writer (DownloadFile (fail out_of_fuel) fuel c loc opts))
  end.

End Fuel.
End Calls.

(** ** The calls *)

Inductive bot_call :=
| DoSend (chatID : Z) (text : string) (opts : SendOptions)
| DoEdit (chatID messageID : Z) (text : string) (opts : EditOptions)
| DoDelete (chatID : Z) (ids : list Z)
| DoGetMe
| DoResolve (username : string)
| DoForward (fromChatID toChatID : Z) (ids : list Z) (opts : ForwardOptions)
| DoGetHistory (chatID limit : Z)
| DoUpload (reader : option (list byte)) (size : Z) (name : string) (opts : UploadOptions)
| DoSendUploaded (asPhoto : bool) (chatID : Z) (file : option UploadedFile) (opts : SendMediaOptions)
| DoSendLocal (asPhoto : bool) (chatID : Z) (path : string) (opts : SendMediaOptions)
| DoDownload (loc : option InputFileLocation) (writer : download_io) (opts : DownloadOptions).

Section Run.
Context {W Raw : Type}.
Variable o : Config (W := W) (Raw := Raw).
Variable gunzip : list byte -> outcome (list byte).
Variable range_values : seen_map -> list PeerRef.
Variable mime_type : string -> string.

Definition bot_run (fuel : nat) (c : ctx) (k : bot_call) : M bworld unit :=
  match k with
  | DoSend chatID text opts => Bot_SendMessage o gunzip fuel c chatID text opts
  | DoEdit chatID id text opts => Bot_EditMessage o gunzip fuel c chatID id text opts
  | DoDelete chatID ids => Bot_DeleteMessages o gunzip fuel c chatID ids
  | DoGetMe => _ <- Bot_GetMe o gunzip fuel c ;; ret tt
  | DoResolve username => _ <- Bot_ResolveUsername o gunzip range_values fuel c username ;; ret tt
  | DoForward from to ids opts => Bot_ForwardMessages o gunzip fuel c from to ids opts
  | DoGetHistory chatID limit => _ <- Bot_GetHistory o gunzip fuel c chatID limit ;; ret tt
  | DoUpload reader size name opts =>
      modify (set_reader (UploadIO reader [])) ;; _ <- Bot_UploadFile o gunzip fuel c size name opts ;; ret tt
  | DoSendUploaded asPhoto chatID file opts => Bot_SendUploaded o gunzip fuel asPhoto c chatID file opts
  | DoSendLocal asPhoto chatID path opts => sendLocalMedia o gunzip mime_type fuel c chatID path asPhoto opts
  | DoDownload loc writer opts =>
      modify (set_writer writer) ;; _ <- Bot_DownloadFile o gunzip fuel c loc opts ;; ret tt
  end.

(** ** Enough rounds *)

Lemma sleep_stream wait w : bot_stream (snd (sleep wait w)) = bot_stream w.
Proof. done. Qed.

(** What one round leaves: a result, or an error that cost something if it can
    lead to another round. *)
Definition round_drops {A} (m : M bworld (A * option goerr)) : Prop :=
  forall w, match m w with
            | (Ok (_, None), w') => (bot_stream w' <= bot_stream w)%nat
            | (Ok (_, Some e), w') | (Err e, w') =>
                (bot_stream w' <= bot_stream w)%nat /\ (plain e \/ (bot_stream w' < bot_stream w)%nat)
            | (Panic, _) => True
            end.

Lemma plain_no_flood e : plain e -> flood_wait o e = None.
Proof. intros He. unfold flood_wait, FloodWaitDuration. by rewrite He. Qed.

Lemma withFloodWait_fuel {A} (fn1 fn2 : M bworld (A * option goerr)) f1 f2 w :
  round_drops fn1 -> (forall w', (bot_stream w' <= bot_stream w)%nat -> fn1 w' = fn2 w') ->
  (bot_stream w < f1)%nat -> (bot_stream w < f2)%nat ->
  withFloodWait_loop o f1 fn1 w = withFloodWait_loop o f2 fn2 w.
Proof.
  intros Hfn. revert f2 w. induction f1 as [|f1 IH]; intros f2 w Heq H1 H2; [lia|]. destruct f2 as [|f2]; [lia|].
  cbn [withFloodWait_loop]. unfold bind at 1 3. rewrite <- Heq by lia. specialize (Hfn w).
  destruct (fn1 w) as [[[a [e|]]|e|] w1]; [|done..]. cbn [fst snd].
  destruct (flood_wait o e) as [wait|] eqn:Ew; [|done].
  unfold bind, sleep. destruct (match bw_sleeps w1 with [] => None | r :: _ => r end); [done|].
  destruct Hfn as [H3 [Hp|H4]]; [by rewrite plain_no_flood in Ew|].
  pose proof (sleep_stream wait w1) as Hs. unfold sleep in Hs. cbn [snd] in Hs. apply IH; rewrite Hs; [|lia..].
  intros w' Hw'. apply Heq. lia.
Qed.

Lemma attempted_drops {A} (m : M bworld A) : drains bot_stream m -> round_drops (attempted m).
Proof. intros Hm w. specialize (Hm w). unfold attempted, bind, try, ret. by destruct (m w) as [[a|e|] w']. Qed.

Lemma withFloodWait_enough {A} (m : M bworld A) f1 f2 w :
  drains bot_stream m -> (bot_stream w < f1)%nat -> (bot_stream w < f2)%nat ->
  withFloodWait o f1 m w = withFloodWait o f2 m w.
Proof.
  intros Hm H1 H2. unfold withFloodWait, bind. by rewrite (withFloodWait_fuel _ (attempted m) f1 f2 w (attempted_drops m Hm)).
Qed.

(** A call that returns leaves no longer a stream. *)
Lemma withFloodWait_stream {A} (m : M bworld A) f w a w' :
  drains bot_stream m -> withFloodWait o f m w = (Ok a, w') -> (bot_stream w' <= bot_stream w)%nat.
Proof.
  intros Hm. unfold withFloodWait. intros (r & w1 & H & Hr)%bind_inv.
  assert (w' = w1) as -> by (destruct r as [[x|] [e|]]; cbn in Hr; by inversion Hr). clear Hr.
  revert w H. induction f as [|f IH]; intros w H; cbn [withFloodWait_loop] in H; [done|].
  apply bind_inv in H as (x & w2 & Hx & H). pose proof (attempted_drops m Hm w) as D. rewrite Hx in D.
  destruct x as [x [e|]]; cbn [fst snd] in H.
  - destruct D as [D _]. destruct (flood_wait o e); [|by injection H as _ <-].
    unfold bind, sleep in H. destruct (match bw_sleeps w2 with [] => None | r :: _ => r end).
    + injection H as _ <-. pose proof (sleep_stream z w2) as Hs. unfold sleep in Hs. cbn [snd] in Hs. by rewrite Hs.
    + apply IH in H. pose proof (sleep_stream z w2) as Hs. unfold sleep in Hs. cbn [snd] in Hs. rewrite Hs in H. lia.
  - by injection H as _ <-.
Qed.

Lemma client_state_stream s w :
  bot_stream (set_client s w) = match bt_client (bw_bot w) with Some _ => client_stream s | None => O end.
Proof. unfold bot_stream, client_state, set_client, client_stream. cbn. by destruct (bt_client (bw_bot w)). Qed.

Lemma nil_stream w : bt_client (bw_bot w) = None -> bot_stream w = O.
Proof. intros E. unfold bot_stream, client_state, client_stream. by rewrite E. Qed.

(** The bot's methods drain its stream as the client's do its own. *)
Lemma drains_client_zoom {R A} (get_io : bworld -> R) (set_io : R -> bworld -> bworld)
    (m : M ((EncryptedClient * env) * R) A) :
  (forall r w, bot_stream (set_io r w) = bot_stream w) ->
  drains (fun s => client_stream (fst s)) m ->
  drains bot_stream (zoom (fun w => (client_state w, get_io w)) (fun s w => set_io (snd s) (set_client (fst s) w)) m).
Proof.
  intros Hio Hm w. specialize (Hm (client_state w, get_io w)). unfold zoom. cbn [fst] in Hm. fold (bot_stream w) in Hm.
  destruct (m (client_state w, get_io w)) as [[a|e|] s']; [..|done]; rewrite Hio, client_state_stream;
    destruct (bt_client (bw_bot w)) eqn:E; try exact Hm; rewrite ?nil_stream in Hm |- * by done; [lia|].
  split; [lia|]. destruct Hm as [_ [Hp|]]; [by left|lia].
Qed.

Lemma drains_on_bot {A} (m : Method A) : drains client_stream m -> drains bot_stream (on_bot_client m).
Proof.
  intros Hm w. specialize (Hm (client_state w)). unfold on_bot_client, zoom. fold (bot_stream w) in Hm.
  destruct (m (client_state w)) as [[a|e|] s']; [..|done]; rewrite client_state_stream;
    destruct (bt_client (bw_bot w)) eqn:E; try exact Hm; rewrite ?nil_stream in Hm |- * by done; [lia|].
  split; [lia|]. destruct Hm as [_ [Hp|]]; [by left|lia].
Qed.

Lemma drains_with_reader {A} (m : M ((EncryptedClient * env) * upload_io) A) :
  drains (fun s => client_stream (fst s)) m -> drains bot_stream (with_reader m).
Proof. by apply (drains_client_zoom bw_reader set_reader). Qed.

Lemma plain_rememberPeers l : plain_m (rememberPeers l).
Proof.
  assert (Hput : forall p c, plain_o (PeerCache_Put (Raw := TextMessage) p c)).
  { intros p c e. unfold PeerCache_Put. repeat case_match; done. }
  induction l as [|p l IH]; cbn [rememberPeers]; [apply plain_ret|]. destruct (pr_ID p =? 0); [done|].
  apply plain_bind; [apply plain_get|intros b]. apply plain_bind; [|intros _; exact IH].
  unfold storePeerLocked. plain_steps; first [apply Hput|by intros ?].
Qed.

Lemma drains_seq {A B} (m : M bworld A) (b : B) : drains bot_stream m -> drains bot_stream (_ <- m ;; ret b).
Proof. intros Hm. apply drains_bind; [done|intros _; apply drains_ret]. Qed.

(** Two runs of a call that agree after each of its steps. *)
Lemma same_after {A B} (m : M bworld A) (k h : A -> M bworld B) w :
  (forall a w', m w = (Ok a, w') -> k a w' = h a w') -> (x <- m ;; k x) w = (x <- m ;; h x) w.
Proof. apply bind_ext_ok. Qed.

Lemma logged_in_same w u w' : logged_in w = (Ok u, w') -> w' = w.
Proof. unfold logged_in, bind, get, guard. destruct (bool_decide _); by intros [= _ <-]. Qed.
Lemma cached_same text id w p w' : cached text id w = (Ok p, w') -> w' = w.
Proof. unfold cached, bind, get. by destruct (getPeer _ id); intros [= _ <-]. Qed.

(** The requests of the calls. *)
Lemma drains_send_uploaded (asPhoto : bool) c peer file opts :
  drains client_stream ((if asPhoto then @MessagesSendUploadedPhotoToPeer _ (client_invoker gunzip)
                         else @MessagesSendUploadedDocumentToPeer _ (client_invoker gunzip)) c peer file opts).
Proof.
  destruct asPhoto; apply drains_send_to_peer; intros input;
    apply (drains_send_media (H := client_invoker gunzip) client_stream (InvokerDrains0 := client_drains gunzip)).
Qed.

Lemma drains_upload c size name opts :
  drains bot_stream (with_reader (@UploadFile _ (client_invoker gunzip) c size name opts)).
Proof. apply drains_with_reader. apply (drains_UploadFile (H := client_invoker gunzip) client_stream (InvokerDrains0 := client_drains gunzip)). Qed.

Lemma download_round_drops_bot c loc opts f :
  round_drops (with_writer (@DownloadFile _ (client_invoker gunzip) (fail out_of_fuel) f c loc opts)).
Proof.
  intros w. unfold with_writer, zoom. set (s := (client_state w, bw_writer w)).
  assert (D : result_drops client_stream s (@DownloadFile _ (client_invoker gunzip) (fail out_of_fuel) f c loc opts s)).
  { unfold DownloadFile, bind at 1, get at 1. destruct (di_out (snd s)); [|split; [apply Nat.le_refl|by left]].
    apply (download_loop_drops (H := client_invoker gunzip) client_stream (InvokerDrains0 := client_drains gunzip)).
    intros s'. split; [apply Nat.le_refl|by left]. }
  fold (bot_stream w) in D. destruct (DownloadFile _ _ _ _ _ s) as [[[n [e|]]|e|] s']; cbn [result_drops] in D; [..|done];
    unfold mu_fst in D; change (client_stream (fst s)) with (bot_stream w) in D;
    change (bot_stream (set_writer (snd s') (set_client (fst s') w))) with (bot_stream (set_client (fst s') w));
    rewrite client_state_stream; destruct (bt_client (bw_bot w)) eqn:E; try exact D;
    rewrite ?nil_stream in D |- * by done; try lia; (split; [lia|]; destruct D as [_ [Hp|]]; [by left|lia]).
Qed.

Lemma download_same c loc opts f1 f2 w :
  (bot_stream w < f1)%nat -> (bot_stream w < f2)%nat ->
  with_writer (@DownloadFile _ (client_invoker gunzip) (fail out_of_fuel) f1 c loc opts) w =
  with_writer (@DownloadFile _ (client_invoker gunzip) (fail out_of_fuel) f2 c loc opts) w.
Proof.
  intros H1 H2. unfold with_writer, zoom. set (s := (client_state w, bw_writer w)).
  assert (D : @DownloadFile _ (client_invoker gunzip) (fail out_of_fuel) f1 c loc opts s =
              @DownloadFile _ (client_invoker gunzip) (fail out_of_fuel) f2 c loc opts s); [|by rewrite D].
  unfold DownloadFile, bind at 1 2, get at 1 2. destruct (di_out (snd s)); [|done].
  apply (download_loop_fuel (H := client_invoker gunzip) client_stream (InvokerDrains0 := client_drains gunzip)); done.
Qed.

(** Two computations that agree from states with a stream below [n]. *)
Definition agree {A} (n : nat) (m1 m2 : M bworld A) : Prop := forall w, (bot_stream w < n)%nat -> m1 w = m2 w.

(** Steps that leave the stream. *)
Definition keeps_stream {A} (m : M bworld A) : Prop := forall w a w', m w = (Ok a, w') -> (bot_stream w' <= bot_stream w)%nat.

Lemma agree_after {A B} n (m : M bworld A) (k1 k2 : A -> M bworld B) :
  keeps_stream m -> (forall a, agree n (k1 a) (k2 a)) -> agree n (x <- m ;; k1 x) (x <- m ;; k2 x).
Proof. intros Hm Hk w Hw. apply bind_ext_ok. intros a w' E. apply Hk. specialize (Hm _ _ _ E). lia. Qed.
Lemma agree_before {A B} n (m1 m2 : M bworld A) (k : A -> M bworld B) :
  agree n m1 m2 -> agree n (x <- m1 ;; k x) (x <- m2 ;; k x).
Proof. intros Hm w Hw. unfold bind. by rewrite (Hm w Hw). Qed.
Lemma agree_bind {A B} n (m1 m2 : M bworld A) (k1 k2 : A -> M bworld B) :
  agree n m1 m2 -> keeps_stream m2 -> (forall a, agree n (k1 a) (k2 a)) -> agree n (x <- m1 ;; k1 x) (x <- m2 ;; k2 x).
Proof. intros Hm Hs Hk w Hw. etransitivity; [by apply (agree_before n m1 m2)|]. by apply (agree_after n m2). Qed.

Lemma keeps_logged_in : keeps_stream logged_in.
Proof. by intros w u w' ->%logged_in_same. Qed.
Lemma keeps_cached text id : keeps_stream (cached text id).
Proof. by intros w u w' ->%cached_same. Qed.
Lemma keeps_guard b e : keeps_stream (guard b e).
Proof. intros w u w'. by destruct b; intros [= _ <-]. Qed.
Lemma keeps_input peer (t : goerr) :
  keeps_stream (match PeerRef_InputPeer peer with Some input => ret input | None => fail t end).
Proof. intros w u w'. destruct (PeerRef_InputPeer peer); by intros [= _ <-]. Qed.
Lemma keeps_open path : keeps_stream (open_file path).
Proof. intros w u w'. unfold open_file, bind, get, put, ret, fail. destruct (bw_files w !! path); by intros [= _ <-]. Qed.
Lemma keeps_modify f : (forall w, bot_stream (f w) = bot_stream w) -> keeps_stream (modify f).
Proof. intros Hf w u w' [= _ <-]. by rewrite Hf. Qed.
Lemma keeps_try {A} (m : M bworld A) : keeps_stream m -> (forall w e w', m w = (Err e, w') -> w' = w) -> keeps_stream (try m).
Proof.
  intros Hm He w u w'. unfold try. destruct (m w) as [[a|e|] w1] eqn:E; intros [= _ <-]; [by eapply Hm|by rewrite (He _ _ _ E)].
Qed.
Hint Resolve keeps_logged_in keeps_cached keeps_guard keeps_input keeps_open : core.

Lemma keeps_upload f c size name opts : keeps_stream (Bot_UploadFile o gunzip f c size name opts).
Proof.
  intros w a w' H. unfold Bot_UploadFile in H. run_inv. apply logged_in_same in Hrun as ->.
  eapply withFloodWait_stream; [apply drains_upload|exact H].
Qed.

Hint Resolve drains_send drains_edit drains_delete drains_delete_channel drains_forward drains_history drains_GetMe
  drains_ResolveUsername drains_send_uploaded drains_on_bot drains_seq drains_upload : drains.

(** Any fuel above the length of the stream gives the same call. *)
Lemma bot_run_fuel f1 f2 c k : agree (Nat.min f1 f2) (bot_run f1 c k) (bot_run f2 c k).
Proof.
  assert (E : forall A (m : M bworld A), drains bot_stream m -> agree (Nat.min f1 f2) (withFloodWait o f1 m) (withFloodWait o f2 m)).
  { intros A m Hm w Hw. apply withFloodWait_enough; [done|lia..]. }
  assert (Eu : forall size name opts, agree (Nat.min f1 f2) (Bot_UploadFile o gunzip f1 c size name opts) (Bot_UploadFile o gunzip f2 c size name opts)).
  { intros. apply agree_after; [done|intros _]. apply E, drains_upload. }
  assert (Es : forall b chatID file opts, agree (Nat.min f1 f2) (Bot_SendUploaded o gunzip f1 b c chatID file opts) (Bot_SendUploaded o gunzip f2 b c chatID file opts)).
  { intros. apply agree_after; [done|intros _]. apply agree_after; [done|intros p]. apply E. auto with drains. }
  destruct k; cbn [bot_run].
  - apply agree_after; [done|intros _]. apply agree_after; [done|intros p]. apply E. auto with drains.
  - apply agree_after; [done|intros _]. apply agree_after; [done|intros p]. apply E. auto with drains.
  - apply agree_after; [done|intros _]. apply agree_after; [done|intros p]. apply E.
    destruct (_ || _)%bool; auto with drains.
  - apply agree_before. apply agree_after; [done|intros _]. apply E. auto with drains.
  - apply agree_before. apply agree_after; [done|intros _]. cbv zeta. apply agree_after; [done|intros _]. apply E.
    apply drains_bind; [auto with drains|intros p]. apply drains_bind; [|intros _; apply drains_ret].
    apply drains_zoom; [done|apply plain_rememberPeers].
  - apply agree_after; [done|intros _]. apply agree_after; [done|intros p]. apply agree_after; [done|intros q].
    cbv zeta. apply agree_after; [done|intros _]. apply E. auto with drains.
  - apply agree_before. apply agree_after; [done|intros _]. apply agree_after; [done|intros p].
    apply agree_after; [done|intros i]. apply E. apply drains_bind; [auto with drains|intros r; apply drains_ret].
  - apply agree_after; [by apply keeps_modify|intros _]. by apply agree_before.
  - apply Es.
  - apply agree_after; [done|intros _]. apply agree_after; [done|intros n]. cbv zeta.
    apply agree_bind; [apply Eu|apply keeps_upload|intros up]. apply Es.
  - apply agree_after; [by apply keeps_modify|intros _]. apply agree_before. unfold Bot_DownloadFile.
    apply agree_after.
    { apply keeps_try; [done|]. intros w e w'. unfold logged_in, bind, get, guard, ret, fail.
      destruct (bool_decide _); by intros [= _ <-]. }
    intros [u|e]; [|done]. intros w Hw. apply withFloodWait_fuel; [apply download_round_drops_bot| |lia..].
    intros w' Hw'. apply download_same; lia.
Qed.
End Run.

(** ** No panic, and what a call keeps *)

(** A file's size is an int64. *)
Definition bot_call_ok (k : bot_call) : Prop := match k with DoUpload _ size _ _ => is_i64 size | _ => True end.
Definition files_ok (files : gmap string (list byte)) : Prop := map_Forall (fun _ data => is_i64 (len data)) files.

(** A bot logged in with a client that is still the one of [s0], its peers in
    order. *)
Record bot_inv (s0 : EncryptedClient * env) (w : bworld) : Prop := {
  bi_client : is_Some (bt_client (bw_bot w));
  bi_kept : kept s0 (client_state w);
  bi_book : book_ok (bk_peers (bt_book (bw_bot w)));
  bi_cache : exists q, represents (bk_cache (bt_book (bw_bot w))) q;
  bi_files : files_ok (bw_files w) }.

Section Safety.
Context {W Raw : Type}.
Variable o : Config (W := W) (Raw := Raw).
Variable gunzip : list byte -> outcome (list byte).
Hypothesis gunzip_returns : forall d, gunzip d <> Panic.
Variable range_values : seen_map -> list PeerRef.
Variable mime_type : string -> string.

Definition bot_ok {A} (m : M bworld A) : Prop := forall s0, hoare (bot_inv s0) m (fun _ => bot_inv s0) (bot_inv s0).

Lemma bot_ok_bind {A B} (m : M bworld A) (k : A -> M bworld B) :
  bot_ok m -> (forall a, bot_ok (k a)) -> bot_ok (x <- m ;; k x).
Proof. intros Hm Hk s0. eapply hoare_bind; [apply Hm|intros a; apply Hk]. Qed.
Lemma bot_ok_ret {A} (a : A) : bot_ok (ret a).
Proof. by intros s0 w Hw. Qed.
Lemma bot_ok_fail {A} e : bot_ok (A := A) (fail e).
Proof. by intros s0 w Hw. Qed.
Lemma bot_ok_guard b e : bot_ok (guard b e).
Proof. intros s0 w Hw. by destruct b. Qed.
Lemma bot_ok_try {A} (m : M bworld A) : bot_ok m -> bot_ok (try m).
Proof. intros Hm s0 w Hw. specialize (Hm s0 w Hw). unfold try. by destruct (m w) as [[a|e|] w']. Qed.
Lemma bot_ok_io {f} : (forall s0 w, bot_inv s0 w -> bot_inv s0 (f w)) -> bot_ok (modify f).
Proof. intros Hf s0 w Hw. by apply Hf. Qed.

Lemma set_reader_inv s0 r w : bot_inv s0 w -> bot_inv s0 (set_reader r w).
Proof. intros []. by split. Qed.
Lemma set_writer_inv s0 r w : bot_inv s0 w -> bot_inv s0 (set_writer r w).
Proof. intros []. by split. Qed.
Lemma set_client_inv s0 s w : bot_inv s0 w -> kept s0 s -> bot_inv s0 (set_client s w).
Proof.
  intros [[c Hc] _ H3 H4 H5] Hs. split; [by cbn; rewrite Hc| |done..].
  unfold client_state, set_client. cbn. rewrite Hc. by destruct s.
Qed.

Lemma bot_ok_client {A} (m : Method A) : method_ok m -> bot_ok (on_bot_client m).
Proof.
  intros Hm s0 w Hw. unfold on_bot_client, zoom. pose proof (Hm s0 (client_state w) (bi_kept _ _ Hw)) as R.
  destruct (m (client_state w)) as [[a|e|] s']; [..|done]; by apply set_client_inv.
Qed.

Lemma value_of_ok {A} (m : Method ((A + goerr) * InvokeResult)) : method_ok m -> method_ok (value_of m).
Proof. intros Hm. apply method_ok_bind; [done|]. intros [[a|e] r]; [apply method_ok_ret|apply method_ok_fail]. Qed.

Lemma preserves_P {R A} (m : M ((EncryptedClient * env) * R) A) s0 s io :
  preserves (kept s0) m -> kept s0 s ->
  match m (s, io) with (Ok _, s') | (Err _, s') => kept s0 (fst s') | (Panic, _) => False end.
Proof. intros Hm Hs. exact (Hm (s, io) Hs). Qed.

Lemma bot_ok_reader {A} (m : M ((EncryptedClient * env) * upload_io) A) :
  (forall s0, preserves (kept s0) m) -> bot_ok (with_reader m).
Proof.
  intros Hm s0 w Hw. unfold with_reader, zoom. pose proof (preserves_P m s0 _ (bw_reader w) (Hm s0) (bi_kept _ _ Hw)) as R.
  destruct (m _) as [[a|e|] s']; [..|done]; by apply set_reader_inv, set_client_inv.
Qed.
Lemma bot_ok_writer {A} (m : M ((EncryptedClient * env) * download_io) A) :
  (forall s0, preserves (kept s0) m) -> bot_ok (with_writer m).
Proof.
  intros Hm s0 w Hw. unfold with_writer, zoom. pose proof (preserves_P m s0 _ (bw_writer w) (Hm s0) (bi_kept _ _ Hw)) as R.
  destruct (m _) as [[a|e|] s']; [..|done]; by apply set_writer_inv, set_client_inv.
Qed.

Lemma bot_ok_remember l : bot_ok (on_book (rememberPeers l)).
Proof.
  intros s0 w [Hc Hk Hb [q Hq] Hf]. unfold on_book, zoom.
  destruct (rememberPeers_run l (bt_book (bw_bot w)) q Hq) as (c & q' & -> & Hq' & _).
  split; [done|done|by apply remember_all_ok|by exists q'|done].
Qed.

Lemma bot_ok_logged_in : bot_ok logged_in.
Proof. intros s0 w Hw. unfold logged_in, bind, get, guard. by destruct (bool_decide _). Qed.
Lemma bot_ok_cached text id : bot_ok (cached text id).
Proof. intros s0 w Hw. unfold cached, bind, get. by destruct (getPeer _ id). Qed.
Lemma bot_ok_sleep wait : bot_ok (sleep wait).
Proof. intros s0 w []. by split. Qed.

Lemma bot_ok_loop {A} fuel (fn : M bworld (A * option goerr)) : bot_ok fn -> bot_ok (withFloodWait_loop o fuel fn).
Proof.
  intros Hfn. induction fuel as [|fuel IH]; cbn [withFloodWait_loop]; [apply bot_ok_fail|].
  apply bot_ok_bind; [exact Hfn|intros [a [e|]]]; [|apply bot_ok_ret]. cbn [snd]. destruct (flood_wait o e); [|apply bot_ok_ret].
  apply bot_ok_bind; [apply bot_ok_sleep|]. intros [d|]; [apply bot_ok_ret|exact IH].
Qed.

(** Every round gives a value or an error. *)
Lemma loop_attempted {A} fuel (m : M bworld A) w r w' :
  withFloodWait_loop o fuel (attempted m) w = (Ok r, w') -> r <> (None, None).
Proof.
  revert w. induction fuel as [|fuel IH]; intros w H; cbn [withFloodWait_loop] in H; [done|].
  apply bind_inv in H as ([a [e|]] & w1 & H1 & H); cbn [fst snd] in H.
  - destruct (flood_wait o e); [|by injection H as <- _]. apply bind_inv in H as ([d|] & w2 & _ & H); [by injection H as <- _|by eapply IH].
  - injection H as <- _. unfold attempted in H1. run_inv. destruct a0; by simplify_eq.
Qed.

Lemma bot_ok_flood {A} fuel (m : M bworld A) : bot_ok m -> bot_ok (withFloodWait o fuel m).
Proof.
  intros Hm s0 w Hw. unfold withFloodWait, bind.
  assert (Ha : bot_ok (attempted m)) by (apply bot_ok_bind; [by apply bot_ok_try|intros r; apply bot_ok_ret]).
  pose proof (bot_ok_loop fuel _ Ha s0 w Hw) as R.
  destruct (withFloodWait_loop o fuel (attempted m) w) as [[r|e|] w'] eqn:E; [|done..]. apply loop_attempted in E.
  destruct r as [[a|] [e|]]; done.
Qed.

Hint Resolve bot_ok_logged_in bot_ok_cached bot_ok_guard bot_ok_ret : core.

Lemma bot_ok_upload fuel c size name opts : is_i64 size -> bot_ok (Bot_UploadFile o gunzip fuel c size name opts).
Proof.
  intros Hs. apply bot_ok_bind; [done|intros _]. apply bot_ok_flood, bot_ok_reader. intros s0.
  by apply (UploadFile_keeps (H := client_invoker gunzip) (kept s0) (InvokerKeeps0 := client_keeps gunzip gunzip_returns s0)).
Qed.

Lemma bot_ok_send_uploaded fuel asPhoto c chatID file opts :
  bot_ok (Bot_SendUploaded o gunzip fuel asPhoto c chatID file opts).
Proof.
  apply bot_ok_bind; [done|intros _]. apply bot_ok_bind; [done|intros p]. apply bot_ok_flood, bot_ok_bind; [|done].
  apply bot_ok_client. intros s0.
  destruct asPhoto; apply send_to_peer_keeps; intros i;
    apply (send_media_keeps (H := client_invoker gunzip) (kept s0) (InvokerKeeps0 := client_keeps gunzip gunzip_returns s0)).
Qed.

Lemma bot_run_ok fuel c k : bot_call_ok k -> bot_ok (bot_run o gunzip range_values mime_type fuel c k).
Proof.
  intros Hk. destruct k; cbn [bot_run bot_call_ok] in *.
  - do 2 (apply bot_ok_bind; [done|intros ?]). apply bot_ok_flood, bot_ok_bind; [|done]. apply bot_ok_client. auto with methods.
  - do 2 (apply bot_ok_bind; [done|intros ?]). apply bot_ok_flood, bot_ok_bind; [|done]. apply bot_ok_client. auto with methods.
  - do 2 (apply bot_ok_bind; [done|intros ?]). apply bot_ok_flood, bot_ok_bind; [|done]. apply bot_ok_client.
    destruct (_ || _)%bool; auto with methods.
  - apply bot_ok_bind; [|done]. apply bot_ok_bind; [done|intros ?]. apply bot_ok_flood, bot_ok_client, value_of_ok. auto with methods.
  - apply bot_ok_bind; [|done]. apply bot_ok_bind; [done|intros ?]. cbv zeta. apply bot_ok_bind; [done|intros ?].
    apply bot_ok_flood, bot_ok_bind; [apply bot_ok_client, value_of_ok; auto with methods|intros p].
    apply bot_ok_bind; [apply bot_ok_remember|done].
  - do 3 (apply bot_ok_bind; [done|intros ?]). cbv zeta. apply bot_ok_bind; [done|intros ?].
    apply bot_ok_flood, bot_ok_bind; [|done]. apply bot_ok_client. auto with methods.
  - apply bot_ok_bind; [|done]. do 2 (apply bot_ok_bind; [done|intros ?]).
    apply bot_ok_bind; [destruct (PeerRef_InputPeer _); [apply bot_ok_ret|apply bot_ok_fail]|intros i].
    apply bot_ok_flood, bot_ok_bind; [|done]. apply bot_ok_client. auto with methods.
  - apply bot_ok_bind; [apply bot_ok_io; intros; by apply set_reader_inv|intros _]. apply bot_ok_bind; [by apply bot_ok_upload|done].
  - apply bot_ok_send_uploaded.
  - apply bot_ok_bind; [done|intros _]. intros s0. unfold open_file.
    eapply (hoare_bind _ _ _ (fun size w => is_i64 size /\ bot_inv s0 w)).
    { intros w Hw. unfold bind, get, put, ret, fail. destruct (bw_files w !! path) as [data|] eqn:E; [|done].
      split; [by apply (bi_files _ _ Hw path)|by apply set_reader_inv]. }
    intros size. apply hoare_pure. intros Hs. cbv zeta. apply bot_ok_bind; [by apply bot_ok_upload|intros up].
    apply bot_ok_send_uploaded.
  - apply bot_ok_bind; [apply bot_ok_io; intros; by apply set_writer_inv|intros _]. apply bot_ok_bind; [|done].
    apply bot_ok_bind; [by apply bot_ok_try|]. intros [u|e]; [|done]. apply bot_ok_loop, bot_ok_writer. intros s0.
    apply (DownloadFile_keeps (H := client_invoker gunzip) (kept s0) (InvokerKeeps0 := client_keeps gunzip gunzip_returns s0)).
    by intros s Hs.
Qed.
End Safety.

(** C9. The methods of a bot that is logged in (mtproto_bot.go,
    mtproto_bot_methods.go, mtproto_bot_media.go; [withFloodWait]): with any
    configuration, arguments, peers, files and server, no call panics, and each
    leaves the client the working one it was, with its endpoint, key and session
    id, and the peer map in order.  Every call ends: a round that FLOOD_WAIT can
    repeat, and a part of a download that another one follows, has consumed some
    of the server's bytes, so the length of the stream bounds the rounds, and
    more of them change nothing. *)
Theorem bot_calls_sound {W Raw : Type} (o : Config (W := W) (Raw := Raw)) (gunzip : list byte -> outcome (list byte))
    (range_values : seen_map -> list PeerRef) (mime_type : string -> string) (c : ctx) (k : bot_call)
    (s0 : EncryptedClient * env) (w : bworld) :
  (forall d, gunzip d <> Panic) -> bot_inv s0 w -> bot_call_ok k ->
  let r := bot_run o gunzip range_values mime_type (S (bot_stream w)) c k w in
  fst r <> Panic /\ bot_inv s0 (snd r) /\
  forall fuel, (bot_stream w < fuel)%nat -> bot_run o gunzip range_values mime_type fuel c k w = r.
Proof.
  intros Hg Hw Hk. cbv zeta. pose proof (bot_run_ok o gunzip Hg range_values mime_type (S (bot_stream w)) c k Hk s0 w Hw) as R.
  split; [|split].
  - by destruct (bot_run _ _ _ _ _ _ _ w) as [[u|e|] w'].
  - by destruct (bot_run _ _ _ _ _ _ _ w) as [[u|e|] w'].
  - intros fuel Hf. apply (bot_run_fuel o gunzip range_values mime_type fuel (S (bot_stream w))). lia.
Qed.

Definition demo_config : Config (W := unit) (Raw := TextMessage) := default_config 1 "hash" "bot".
Definition demo_world : bworld :=
  BW (MkBot (Some demo_client) (Book (remember ∅ user5) (NewPeerCache 10))) quiet_env [] [] (UploadIO None [])
    (DownloadIO None [] []) ∅.

Lemma bot_calls_sound_witness :
  bot_inv (demo_client, quiet_env) demo_world /\
  fst (bot_run demo_config (fun _ => Err (ErrNew "EOF")) (fun m => (map_to_list m).*2) (fun _ => EmptyString) 1 None
    (DoSend 5 "hi" (MkSendOptions 0 false false false)) demo_world) <> Panic.
Proof.
  assert (Hi : bot_inv (demo_client, quiet_env) demo_world).
  { assert (Hc : client_wf demo_client).
    { exists (Link (Conn [] [] []) None), demo_state. do 3 (split; [reflexivity|]). exact demo_state_wf. }
    split; [by eexists|by apply kept_refl|apply remember_ok, map_Forall_empty|exists []; apply represents_new|apply map_Forall_empty]. }
  split; [exact Hi|].
  apply (bot_calls_sound demo_config (fun _ => Err (ErrNew "EOF")) (fun m => (map_to_list m).*2) (fun _ => EmptyString) None
    (DoSend 5 "hi" (MkSendOptions 0 false false false)) (demo_client, quiet_env) demo_world); [done|exact Hi|done].
Defined.

(** ** Downloads repeated after FLOOD_WAIT *)

Definition written_bytes (d : download_io) : list byte := default [] (di_out d).

Lemma w_Write_appends p d n failed d' : w_Write p d = (Ok (n, failed), d') ->
  exists part, written_bytes d' = written_bytes d ++ part /\ n = len part.
Proof.
  unfold w_Write. destruct (di_script d) as [|[m f] rest]; intros [= <- <- <-]; [by exists p|].
  eexists. split; [done|]. pose proof (len_nonneg p). rewrite len_sub by lia. lia.
Qed.

Section Appends.
Context {S : Type} `{Invoker S}.

(** What a download leaves in the writer, and the count it returns. *)
Definition appended (offset : Z) (s : S * download_io) (r : outcome (Z * option goerr) * (S * download_io)) : Prop :=
  match r with
  | (Ok (n, _), s') => exists d, written_bytes (snd s') = written_bytes (snd s) ++ d /\ n = i64 (offset + len d)
  | _ => True
  end.

Lemma download_loop_appends fuel c loc opts ps offset s : is_i64 offset ->
  appended offset s (download_loop (fail out_of_fuel) fuel c loc opts ps offset s).
Proof.
  assert (H0 : forall (s s' : S) w o x, is_i64 o -> appended o (s, w) (Ok (o, x), (s', w))).
  { intros s1 s2 w1 o x Ho. exists []. rewrite app_nil_r, len_nil, Z.add_0_r. by rewrite i64_id. }
  revert offset s. induction fuel as [|fuel IH]; intros offset [s w] Ho; cbn [download_loop]; [done|].
  unfold bind at 1, download_round. cbv zeta. set (limit := part_limit opts ps offset).
  destruct (limit <=? 0); [by apply H0|]. unfold bind at 1, try, on_source, zoom. cbn [fst snd].
  destruct (UploadGetFilePart c loc offset limit opts s) as [[part|e|] s1]; [|by apply H0|done].
  destruct (dp_CDNRedirect part); [by apply H0|]. destruct (_ =? 0); [by apply H0|].
  unfold bind at 1, on_writer at 1, zoom at 1. cbn [fst snd].
  destruct (w_Write (dp_Bytes part) w) as [[[n failed]|e|] w1] eqn:Ew; [|done|done].
  apply w_Write_appends in Ew as (d & Ed & ->). cbn [fst snd].
  assert (Hend : forall p x, written_bytes p = written_bytes w1 -> appended offset (s, w) (Ok (i64 (offset + len d), x), (s1, p))).
  { intros p x Ep. exists d. split; [|done]. cbn [snd]. by rewrite Ep, Ed. }
  assert (Hrest : forall p r, written_bytes p = written_bytes w1 -> appended (i64 (offset + len d)) (s1, p) r -> appended offset (s, w) r).
  { intros p [[[m x]|e|] s2] Ep; [|done..]. intros (d2 & E2 & ->). exists (d ++ d2). cbn [snd] in *.
    split; [by rewrite E2, Ep, Ed, app_assoc|]. rewrite len_app. pose proof (i64_range (offset + len d)). zlia. }
  unfold bind, on_writer, zoom. cbn [fst snd].
  destruct (do_Progress opts); cbn [when report_download modify ret];
    (destruct failed; [by apply Hend|]; destruct (negb _); [by apply Hend|];
     destruct (_ <? limit); [by apply Hend|]; cbn [ret];
     eapply Hrest; [|apply IH, i64_range]; done).
Qed.

Lemma DownloadFile_appends fuel c loc opts s : appended 0 s (DownloadFile (fail out_of_fuel) fuel c loc opts s).
Proof.
  unfold DownloadFile, bind, get. destruct (di_out (snd s)); [by apply download_loop_appends|].
  exists []. by rewrite app_nil_r.
Qed.
End Appends.

(** A download repeated after FLOOD_WAIT starts again at the beginning of the
    file but goes on in the same writer: the bytes of both rounds are there, and
    the count is that of the last. *)
Theorem download_retry_duplicates {W Raw : Type} (o : Config (W := W) (Raw := Raw))
    (gunzip : list byte -> outcome (list byte)) (fuel : nat) (c : ctx) (loc : option InputFileLocation)
    (opts : DownloadOptions) (w w1 w2 : bworld) (n1 n2 wait : Z) (err : goerr) :
  let round := with_writer (@DownloadFile _ (client_invoker gunzip) (fail out_of_fuel) (S (S fuel)) c loc opts) in
  is_Some (bt_client (bw_bot w)) ->
  round w = (Ok (n1, Some err), w1) -> flood_wait o err = Some wait -> fst (sleep wait w1) = Ok None ->
  round (snd (sleep wait w1)) = (Ok (n2, None), w2) ->
  Bot_DownloadFile o gunzip (S (S fuel)) c loc opts w = (Ok (n2, None), w2) /\
  exists d1 d2, written_bytes (bw_writer w2) = written_bytes (bw_writer w) ++ d1 ++ d2 /\
    n1 = i64 (len d1) /\ n2 = i64 (len d2).
Proof.
  intros round [cl Hc] H1 Hf Hs H2.
  assert (Ha : forall w n x w', round w = (Ok (n, x), w') ->
    exists d, written_bytes (bw_writer w') = written_bytes (bw_writer w) ++ d /\ n = i64 (len d)).
  { intros v n x v' E. unfold round, with_writer, zoom in E.
    pose proof (@DownloadFile_appends _ (client_invoker gunzip) (S (S fuel)) c loc opts (client_state v, bw_writer v)) as A.
    destruct (DownloadFile _ _ _ _ _ _) as [[[m y]|e|] s']; injection E as <- <- <- || discriminate E.
    destruct A as (d & Ed & ->). by exists d. }
  split.
  - assert (Hr : Bot_DownloadFile o gunzip (S (S fuel)) c loc opts =
      (r <- try logged_in ;;
       match r with inr err => ret (0, Some err) | inl _ => withFloodWait_loop o (S (S fuel)) round end)) by reflexivity.
    rewrite Hr. clear Hr. clearbody round.
    assert (Hl : try logged_in w = (Ok (inl tt), w)).
    { unfold try, logged_in, bind, get, guard. by rewrite Hc, bool_decide_true by done. }
    rewrite (bind_ok _ _ _ _ _ Hl). cbn [withFloodWait_loop]. rewrite (bind_ok _ _ _ _ _ H1). cbn [snd fst]. rewrite Hf.
    assert (Hsl : sleep wait w1 = (Ok None, snd (sleep wait w1))) by (rewrite <- Hs; by destruct (sleep wait w1)).
    rewrite (bind_ok _ _ _ _ _ Hsl). cbn [withFloodWait_loop]. by rewrite (bind_ok _ _ _ _ _ H2).
  - destruct (Ha _ _ _ _ H1) as (d1 & E1 & ->). destruct (Ha _ _ _ _ H2) as (d2 & E2 & ->). exists d1, d2.
    split; [|done]. rewrite E2. cbn [sleep snd bw_writer]. by rewrite E1, app_assoc.
Qed.
