(* ===== verification/Runtime.v ===== *)
(** * Runtime: the MTProto bot's life (src/mtproto_bot.go)

    [NewMTProtoBot], [Login] with the saved session, [SaveSession], reconnecting
    and [Run]: the loop that polls for differences, remembers their peers and
    dispatches their messages to the handlers. *)

From S2P Require Import Prelude Strings TL Transport Hash AES Crypto Envelope Auth Invoke Queries Seal Client Peers Difference Api Media Flood Life Session Json Codec Saved Updates Dispatcher Config Bot Calls.

Record MTProtoBotConfig := MkBotConfig {
  bc_APIID : Z; bc_APIHash : string; bc_Token : string; bc_PollInterval : Z; bc_PTSLimit : Z }.

Section Runtime.
(** The application's own state; a handler acts on it and on the bot. *)
Context {App : Type}.
Abbreviation World := (bworld * App)%type.
Abbreviation BotDispatcher := (Dispatcher (W := World) (Raw := TextMessage)).
Abbreviation BotConfig := (Config (W := World) (Raw := TextMessage)).

(** ** The bot

    The dispatcher's peer cache is the one in the bot's [peer_book]: handlers that
    call the bot's methods change it too.  [rt_ctx]: what the next looks at the
    context find, [Some err] when it is done; past the end it is not done.  The
    stores have a random source of their own. *)
Record runtime := Rt {
  rt_app : World; rt_disp : BotDispatcher; rt_loaded : bool; rt_last : option UpdatesState;
  rt_stores : stores; rt_ctx : list (option goerr) }.

Definition set_app (a : World) (r : runtime) : runtime :=
  Rt a (rt_disp r) (rt_loaded r) (rt_last r) (rt_stores r) (rt_ctx r).
Definition set_world (w : bworld) (r : runtime) : runtime := set_app (w, snd (rt_app r)) r.
Definition set_loaded (b : bool) (r : runtime) : runtime :=
  Rt (rt_app r) (rt_disp r) b (rt_last r) (rt_stores r) (rt_ctx r).
Definition set_last (s : option UpdatesState) (r : runtime) : runtime :=
  Rt (rt_app r) (rt_disp r) (rt_loaded r) s (rt_stores r) (rt_ctx r).
Definition set_rt_stores (s : stores) (r : runtime) : runtime :=
  Rt (rt_app r) (rt_disp r) (rt_loaded r) (rt_last r) s (rt_ctx r).

Definition rt_world (r : runtime) : bworld := fst (rt_app r).
Definition rt_bot (r : runtime) : bot := bw_bot (rt_world r).
Definition on_world {A} (m : M bworld A) : M runtime A := zoom rt_world set_world m.
Definition on_stores {A} (m : M stores A) : M runtime A := zoom rt_stores set_rt_stores m.
Definition on_process {A} (m : M env A) : M runtime A :=
  on_world (zoom bw_env (fun e w =>
    BW (bw_bot w) e (bw_sleeps w) (bw_slept w) (bw_reader w) (bw_writer w) (bw_files w)) m).
Definition set_bot_client (c : option EncryptedClient) : M runtime unit :=
  on_world (modify (fun w => set_bot (MkBot c (bt_book (bw_bot w))) w)).

(** A look at the context. *)
Definition poll_ctx : M runtime (option goerr) := fun r =>
  (Ok (match rt_ctx r with [] => None | d :: _ => d end),
   Rt (rt_app r) (rt_disp r) (rt_loaded r) (rt_last r) (rt_stores r) (tail (rt_ctx r))).

(** ** Construction *)

Definition checked_bot_config (c : MTProtoBotConfig) : MTProtoBotConfig :=
  MkBotConfig (bc_APIID c) (bc_APIHash c) (bc_Token c) (positive_or (2 * second) (bc_PollInterval c))
    (positive_or 100 (bc_PTSLimit c)).

(** The memory of a store that has contents of its own. *)
Definition initial_memory (s : ConfigStore) (w : stores) : stores :=
  match s with StoreWith memory => set_mem memory w | _ => w end.

(** [NewMTProtoBot], with the environment the bot finds. *)
Definition NewMTProtoBot (config : MTProtoBotConfig) (opts : list (option (Option (W := World) (Raw := TextMessage))))
    (w : bworld) (a : App) (st : stores) (cx : list (option goerr)) : outcome (MTProtoBotConfig * BotConfig * runtime) :=
  if bc_APIID config <=? 0 then Err (ErrNew "api id is required")
  else if (bc_APIHash config =? EmptyString)%string then Err (ErrNew "api hash is required")
  else if (bc_Token config =? EmptyString)%string then Err (ErrNew "bot token is required")
  else
    let config := checked_bot_config config in
    let cfg := checked_config (apply_options opts (default_config (bc_APIID config) (bc_APIHash config) "mtproto_bot")) in
    let d := config_dispatcher cfg in
    Ok (config, cfg, Rt (set_bot (MkBot None (Book ∅ (d_peers d))) w, a) d false None (initial_memory (cf_Session cfg) st) cx).

Definition MTProtoBot_OnMessage (filter : option (Message World TextMessage -> bool))
    (handler : option (MessageHandler (W := World) (Raw := TextMessage))) (r : runtime) : runtime :=
  Rt (rt_app r) (Dispatcher_OnMessage filter handler (rt_disp r)) (rt_loaded r) (rt_last r) (rt_stores r) (rt_ctx r).

(** [OnMessageClient]: the handler is given the bot too, which is in its world. *)
Definition ClientMessageHandler := MessageHandler (W := World) (Raw := TextMessage).
Definition OnMessageClient (filter : option (Message World TextMessage -> bool)) (handler : option ClientMessageHandler)
    (r : runtime) : runtime :=
  match handler with None => r | Some h => MTProtoBot_OnMessage filter (Some h) r end.

(** The dispatcher with the cache of the book. *)
Definition live_dispatcher (r : runtime) : BotDispatcher := set_peers (bk_cache (bt_book (rt_bot r))) (rt_disp r).
Definition set_dispatcher (d : BotDispatcher) (r : runtime) : runtime :=
  let w := rt_world r in
  Rt (set_book (Book (bk_peers (bt_book (bw_bot w))) (d_peers d)) w, snd (rt_app r)) d (rt_loaded r) (rt_last r)
    (rt_stores r) (rt_ctx r).

Definition MTProtoBot_CacheSnapshot (r : runtime) : CacheSnapshot := Dispatcher_CacheSnapshot (live_dispatcher r).

(** ** The session *)

Variable bc : MTProtoBotConfig.
Variable o : BotConfig.
Variable c : ctx.
Variable ProbablyPrime : Z -> bool.
Variable keys : list RSAPublicKey.
Variable gunzip : list byte -> outcome (list byte).
Variable range_values : seen_map -> list PeerRef.
(** The values of the peer map in the order of a [range]. *)
Variable peer_values : gmap Z PeerRef -> list PeerRef.
(** The application's own stores. *)
Variable custom_Load : nat -> option goerr -> string -> M stores (option SessionData).
Variable custom_Save : nat -> option goerr -> SessionData -> M stores unit.
Variable custom_Delete : nat -> option goerr -> string -> M stores unit.
(** Which errors of the environment are [net.Error]s. *)
Variable net_error : string -> bool.

Definition store_Load (s : ConfigStore) : option goerr -> string -> M stores (option SessionData) :=
  match s with Store s => Store_Load s | StoreWith _ => Store_Load MemorySession | CustomStore n => custom_Load n end.
Definition store_Save (s : ConfigStore) : option goerr -> SessionData -> M stores unit :=
  match s with Store s => Store_Save s | StoreWith _ => Store_Save MemorySession | CustomStore n => custom_Save n end.
Definition store_Delete (s : ConfigStore) : option goerr -> string -> M stores unit :=
  match s with Store s => Store_Delete s | StoreWith _ => Store_Delete MemorySession | CustomStore n => custom_Delete n end.

Definition sessionName : string :=
  if negb (cf_SessionName o =? EmptyString)%string then cf_SessionName o else "mtproto_bot"%string.

Definition setState (s : option UpdatesState) : M runtime unit :=
  match s with None => ret tt | Some _ => modify (set_last s) end.
Definition snapshotState : M runtime (option UpdatesState) := r <- get ;; ret (rt_last r).

Definition loadSession : M runtime (option (EncryptedClient * option UpdatesState * list PeerRef)) :=
  done <- poll_ctx ;;
  data <- on_stores (store_Load (cf_Session o) done sessionName) ;;
  match data with
  | None => ret None
  | Some data =>
      bundle <- lift (parseRuntimeSession (sd_Data data)) ;;
      client <- on_process (DialEncryptedFromSession c (rb_MTProto bundle)) ;;
      ret (Some (client, rb_State bundle, rb_Peers bundle))
  end.

(** [SaveSession], with what the store finds of its context. *)
Definition SaveSession (done : option goerr) : M runtime unit :=
  r <- get ;;
  match bt_client (rt_bot r) with
  | None => ret tt
  | Some _ =>
      sess <- on_world (on_bot_client (ExportSession "bot")) ;;
      match sess with
      | None => ret tt
      | Some _ =>
          state <- snapshotState ;;
          now <- on_process env_Now ;;
          data <- lift (marshalRuntimeSession (unix now) "bot" sess state
                          (snapshotPeers (peer_values (bk_peers (bt_book (rt_bot r)))))) ;;
          on_stores (store_Save (cf_Session o) done (MkSessionData sessionName data))
      end
  end.

(** [SaveSession(ctx)], its error printed or dropped. *)
Definition save_session : M runtime unit :=
  done <- poll_ctx ;; _ <- try (SaveSession done) ;; ret tt.

Definition ExportStringSession : M runtime string :=
  r <- get ;;
  match bt_client (rt_bot r) with
  | None => fail (ErrNew "mtproto bot is not logged in")
  | Some _ =>
      sess <- on_world (on_bot_client (ExportSession "bot")) ;;
      match sess with
      | None => fail (ErrNew "mtproto bot session is unavailable")
      | Some _ => now <- on_process env_Now ;; lift (EncodeString (unix now) sess)
      end
  end.

Definition ClearSession : M runtime unit :=
  done <- poll_ctx ;; on_stores (store_Delete (cf_Session o) done sessionName).

Definition Close : M runtime unit :=
  r <- get ;;
  match bt_client (rt_bot r) with
  | None => ret tt
  | Some client => on_process (Client_Close client)
  end.

Definition remember_peers (peers : list PeerRef) : M runtime unit := on_world (on_book (rememberPeers peers)).

(** A login with the token, when there is no session to load. *)
Definition login_anew : M runtime unit :=
  cr <- on_process (ImportBotAuthorizationDefault ProbablyPrime keys gunzip c (bc_APIID bc) (bc_APIHash bc) (bc_Token bc)) ;;
  set_bot_client (Some (fst cr)) ;;
  modify (set_loaded false) ;;
  save_session.

Definition Login : M runtime unit :=
  loaded <- try loadSession ;;
  match loaded with
  | inl (Some (client, state, peers)) =>
      set_bot_client (Some client) ;;
      modify (set_loaded true) ;;
      modify (set_last state) ;;
      remember_peers peers
  | _ => login_anew
  end.

(** ** Reconnecting *)

Definition reconnect : M runtime unit :=
  save_session ;;
  _ <- try Close ;;
  set_bot_client None ;;
  modify (set_loaded false) ;;
  Login.

Fixpoint isTemporaryNetworkError (err : goerr) : bool :=
  match err with
  | ErrWrap _ _ inner => isTemporaryNetworkError inner
  | ErrEnv what => net_error what
  | _ => false
  end.

Definition handleFloodWait (err : goerr) : M runtime bool :=
  match flood_wait o err with
  | None => ret false
  | Some wait => _ <- on_world (sleep wait) ;; ret true
  end.

Definition reconnectWithBackoff (attempt : Z) : M runtime unit :=
  guard (negb ((0 <? cf_MaxReconnectAttempts o) && (cf_MaxReconnectAttempts o <? attempt)))
    (ErrFmt "mtproto: reconnect attempt limit reached: %d" [FZ (cf_MaxReconnectAttempts o)]) ;;
  let delay := reconnectBackoff attempt (cf_ReconnectInitialBackoff o) (cf_ReconnectMaxBackoff o) in
  d <- (if 0 <? delay then on_world (sleep delay) else ret None) ;;
  match d with
  | Some err => fail err
  | None => reconnect
  end.

(** ** The loop *)

(** What the bot's messages reply, edit and delete with. *)
Definition bot_reply (chatID replyTo : Z) (text : string) : M World unit :=
  zoom fst (fun w a => (w, snd a)) (fun w => Bot_Reply o gunzip (S (bot_stream w)) c chatID replyTo text w).
Definition bot_edit (chatID messageID : Z) (text : string) : M World unit :=
  zoom fst (fun w a => (w, snd a))
    (fun w => Bot_EditText o gunzip (S (bot_stream w)) c chatID messageID text w).
Definition bot_delete (chatID : Z) (ids : list Z) : M World unit :=
  zoom fst (fun w a => (w, snd a)) (fun w => Bot_DeleteMessages o gunzip (S (bot_stream w)) c chatID ids w).

(** [DispatchMessage] of [Dispatcher] with the cache the bot shares. *)
Definition dispatch (msg : Message World TextMessage) : M runtime unit :=
  matched <- zoom live_dispatcher set_dispatcher (dispatch_caches msg) ;;
  r <- get ;;
  if negb (dc_UpdatesEnabled (d_config (rt_disp r))) then ret tt
  else zoom (fun r => (rt_app r, msg)) (fun s r => set_app (fst s) r) (run_routes matched).

Definition deliver (msg : TextMessage) : M runtime unit :=
  remember_peers (peersFromTextMessage msg) ;;
  r <- get ;;
  _ <- try (dispatch (mtprotoTextMessageToUpdate bot_reply bot_edit bot_delete (bk_peers (bt_book (rt_bot r))) msg)) ;;
  ret tt.

Fixpoint deliver_all (msgs : list TextMessage) : M runtime unit :=
  match msgs with [] => ret tt | msg :: rest => deliver msg ;; deliver_all rest end.

(** What the loop does with a difference; it returns the state to poll from. *)
Definition apply_difference (state : UpdatesState) (diff : DifferenceResult) : M runtime UpdatesState :=
  remember_peers (df_Peers diff) ;;
  deliver_all (df_Messages diff) ;;
  state <- (match df_State diff with
            | None => ret state
            | Some _ =>
                let merged := mergeUpdateState (Some state) (df_State diff) in
                setState merged ;; ret (default state merged)
            end) ;;
  save_session ;;
  ret state.

(** [for { select { case <-ctx.Done(): return ctx.Err() case <-ticker.C: } ... }]:
    the ticker is chosen [ticks] times, then the context, whose error is
    [cancel]. *)
Fixpoint run_loop (ticks : nat) (cancel : goerr) (state : UpdatesState) (consecutiveErrors : Z) : M runtime unit :=
  match ticks with
  | O => fail cancel
  | S ticks' =>
      r <- try (on_world (on_bot_client (value_of (UpdatesGetDifference gunzip range_values c state (bc_PTSLimit bc))))) ;;
      match r with
      | inr err =>
          done <- poll_ctx ;;
          match done with
          | Some e => fail e
          | None =>
              waited <- handleFloodWait err ;;
              if waited : bool then run_loop ticks' cancel state consecutiveErrors
              else if cf_AutoReconnect o && isTemporaryNetworkError err then
                let consecutiveErrors := i64 (consecutiveErrors + 1) in
                _ <- try (reconnectWithBackoff consecutiveErrors) ;;
                run_loop ticks' cancel state consecutiveErrors
              else run_loop ticks' cancel state consecutiveErrors
          end
      | inl diff =>
          state <- apply_difference state diff ;;
          run_loop ticks' cancel state 0
      end
  end.

(** [Run] after the login, to the return. *)
Definition run_body (ticks : nat) (cancel : goerr) : M runtime unit :=
  saved <- snapshotState ;;
  state <- (match saved with
            | Some state => ret state
            | None =>
                fresh <- on_world (on_bot_client (value_of (UpdatesGetState gunzip c))) ;;
                setState (Some fresh) ;; ret fresh
            end) ;;
  save_session ;;
  if negb (cf_Updates o) then fail cancel else run_loop ticks cancel state 0.

(** The deferred calls run on every return: [SaveSession] with a context that is
    never done, then [Close]. *)
Definition deferred : M runtime unit := _ <- try (SaveSession None) ;; _ <- try Close ;; ret tt.

Definition Run (ticks : nat) (cancel : goerr) : M runtime unit :=
  r <- get ;;
  (match bt_client (rt_bot r) with None => Login | Some _ => ret tt end) ;;
  result <- try (run_body ticks cancel) ;;
  deferred ;;
  match result with inl u => ret u | inr err => fail err end.

End Runtime.

(** ** What every step keeps *)

Section Safety.
Context {App : Type}.
Abbreviation World := (bworld * App)%type.
Abbreviation BotConfig := (Config (W := World) (Raw := TextMessage)).
Abbreviation runtime := (runtime (App := App)).

Variable bc : MTProtoBotConfig.
Variable o : BotConfig.
Variable c : ctx.
Variable ProbablyPrime : Z -> bool.
Variable keys : list RSAPublicKey.
Variable gunzip : list byte -> outcome (list byte).
Variable range_values : seen_map -> list PeerRef.
Variable peer_values : gmap Z PeerRef -> list PeerRef.
Variable custom_Load : nat -> option goerr -> string -> M stores (option SessionData).
Variable custom_Save : nat -> option goerr -> SessionData -> M stores unit.
Variable net_error : string -> bool.

Hypothesis gunzip_returns : forall d, gunzip d <> Panic.
Hypothesis custom_Load_returns : forall n done name, nopanic (custom_Load n done name).
Hypothesis custom_Save_returns : forall n done data, nopanic (custom_Save n done data).

(** Code that leaves a bot that is logged in the way the bot's methods do. *)
Definition keeps_bot (m : M World unit) : Prop :=
  forall s0, hoare (fun x => bot_inv s0 (fst x)) m (fun _ x => bot_inv s0 (fst x)) (fun x => bot_inv s0 (fst x)).

(** So does a handler, given a message whose interfaces do. *)
Definition message_ok : Message World TextMessage -> Prop := message_all keeps_bot.
Definition handling (s0 : EncryptedClient * env) (x : World * Message World TextMessage) : Prop :=
  bot_inv s0 (fst (fst x)) /\ message_ok (snd x).
Definition handler_ok (h : MessageHandler (W := World) (Raw := TextMessage)) : Prop :=
  forall s0, hoare (handling s0) h (fun _ => handling s0) (handling s0).

Lemma handle_ok (f : Message World TextMessage -> M World unit) :
  (forall m, message_ok m -> keeps_bot (f m)) -> handler_ok (handle f).
Proof.
  intros Hf s0 [w m] [Hw Hm]. unfold handle, zoom. cbn [fst snd] in *. specialize (Hf m Hm s0 w Hw).
  by destruct (f m w) as [[u|e|] w'].
Qed.

Lemma keeps_bot_fail e : keeps_bot (fail e).
Proof. by intros s0 x Hx. Qed.
Lemma keeps_bot_ret : keeps_bot (ret tt).
Proof. by intros s0 x Hx. Qed.
Lemma keeps_bot_bind {A} (m : M World A) (k : A -> M World unit) :
  (forall s0, hoare (fun x => bot_inv s0 (fst x)) m (fun _ x => bot_inv s0 (fst x)) (fun x => bot_inv s0 (fst x))) ->
  (forall a, keeps_bot (k a)) -> keeps_bot (x <- m ;; k x).
Proof. intros Hm Hk s0. eapply hoare_bind; [apply Hm|intros a; apply Hk]. Qed.
Lemma keeps_bot_reply m text : message_ok m -> keeps_bot (Message_Reply m text).
Proof. intros Hm. by apply (message_all_actions keeps_bot m Hm (keeps_bot_fail _)). Qed.

(** The bot's methods on the bot of a world. *)
Lemma keeps_bot_method (m : M bworld unit) : bot_ok m -> keeps_bot (zoom fst (fun w x => (w, snd x)) m).
Proof.
  intros Hm s0 [w a] Hw. unfold zoom. cbn [fst snd] in *. specialize (Hm s0 w Hw). by destruct (m w) as [[u|e|] w'].
Qed.

(** The process has [k] connections besides the bot's own. *)
Record rt_inv (k : Z) (r : runtime) : Prop := {
  ri_client : match bt_client (rt_bot r) with
              | Some cl => client_wf cl /\ e_open (bw_env (rt_world r)) = k + 1
              | None => e_open (bw_env (rt_world r)) = k
              end;
  ri_book : book_ok (bk_peers (bt_book (rt_bot r)));
  ri_cache : exists q, represents (bk_cache (bt_book (rt_bot r))) q;
  ri_files : files_ok (bw_files (rt_world r));
  ri_messages : exists hist, ring (d_messages (rt_disp r)) hist;
  ri_routes : Forall (fun route => handler_ok (mr_handler route)) (d_messageRoutes (rt_disp r)) }.

Definition live (k : Z) (r : runtime) : Prop := rt_inv k r /\ is_Some (bt_client (rt_bot r)).
Definition down (k : Z) (r : runtime) : Prop := rt_inv k r /\ bt_client (rt_bot r) = None.

(** Steps that keep the bot up, and steps that keep it as it is. *)
Definition up {A} (m : M runtime A) : Prop := forall k, hoare (live k) m (fun _ => live k) (live k).
Definition same {A} (m : M runtime A) : Prop :=
  forall P, (P = live \/ P = down) -> forall k, hoare (P k) m (fun _ => P k) (P k).

Lemma same_up {A} (m : M runtime A) : same m -> up m.
Proof. intros Hm k. exact (Hm live (or_introl eq_refl) k). Qed.

Lemma up_bind {A B} (m : M runtime A) (f : A -> M runtime B) : up m -> (forall a, up (f a)) -> up (x <- m ;; f x).
Proof. intros Hm Hf k. eapply hoare_bind; [apply Hm|intros a; apply Hf]. Qed.
Lemma same_bind {A B} (m : M runtime A) (f : A -> M runtime B) : same m -> (forall a, same (f a)) -> same (x <- m ;; f x).
Proof. intros Hm Hf P HP k. eapply hoare_bind; [by apply Hm|intros a; by apply Hf]. Qed.
Lemma same_ret {A} (a : A) : same (ret a).
Proof. by intros P _ k r Hr. Qed.
Lemma same_fail {A} e : same (A := A) (fail e).
Proof. by intros P _ k r Hr. Qed.
Lemma same_get : same get.
Proof. by intros P _ k r Hr. Qed.
Lemma up_try {A} (m : M runtime A) : up m -> up (try m).
Proof. intros Hm k r Hr. specialize (Hm k r Hr). unfold try. by destruct (m r) as [[a|e|] r']. Qed.
Lemma same_try {A} (m : M runtime A) : same m -> same (try m).
Proof. intros Hm P HP k r Hr. specialize (Hm P HP k r Hr). unfold try. by destruct (m r) as [[a|e|] r']. Qed.
Lemma same_lift {A} (x : outcome A) : x <> Panic -> same (lift x).
Proof. intros Hx P _ k r Hr. unfold lift. by destruct x. Qed.
Lemma same_guard b e : same (guard b e).
Proof. intros P _ k r Hr. by destruct b. Qed.

(** A change of the parts that are not spoken of. *)
Lemma inv_change k (r r' : runtime) :
  bw_bot (rt_world r') = bw_bot (rt_world r) -> e_open (bw_env (rt_world r')) = e_open (bw_env (rt_world r)) ->
  bw_files (rt_world r') = bw_files (rt_world r) -> rt_disp r' = rt_disp r -> rt_inv k r -> rt_inv k r'.
Proof. intros E1 E2 E3 E4 [H1 H2 H3 H4 H5 H6]. split; unfold rt_bot in *; by rewrite ?E1, ?E2, ?E3, ?E4. Qed.

Lemma change (P : Z -> runtime -> Prop) k r r' : (P = live \/ P = down) ->
  bw_bot (rt_world r') = bw_bot (rt_world r) -> e_open (bw_env (rt_world r')) = e_open (bw_env (rt_world r)) ->
  bw_files (rt_world r') = bw_files (rt_world r) -> rt_disp r' = rt_disp r -> P k r -> P k r'.
Proof.
  intros HP E1 E2 E3 E4 H. destruct HP as [->| ->]; destruct H as [H1 H2]; (split; [by eapply inv_change|]);
    unfold rt_bot in *; by rewrite E1.
Qed.

Lemma same_modify f : (forall r, rt_app (f r) = rt_app r /\ rt_disp (f r) = rt_disp r) -> same (modify f).
Proof. intros Hf P HP k r Hr. destruct (Hf r) as [E1 E2]. by eapply change; [..|exact Hr]; unfold rt_world; rewrite ?E1. Qed.

Lemma same_loaded b : same (modify (set_loaded b)).
Proof. by apply same_modify. Qed.
Lemma same_last s : same (modify (set_last s)).
Proof. by apply same_modify. Qed.

Lemma same_poll : same poll_ctx.
Proof. intros P HP k r Hr. by eapply change; [..|exact Hr]. Qed.

Lemma same_stores {A} (m : M stores A) : nopanic m -> same (on_stores m).
Proof.
  intros Hm P HP k r Hr. unfold on_stores, zoom. specialize (Hm (rt_stores r) I).
  destruct (m (rt_stores r)) as [[a|e|] w]; [..|done]; by eapply change; [..|exact Hr].
Qed.

(** Steps on the environment that open and close nothing. *)
Lemma same_process {A} (m : M env A) :
  (forall e, match m e with (Ok _, e') | (Err _, e') => e_open e' = e_open e | (Panic, _) => False end) ->
  same (on_process m).
Proof.
  intros Hm P HP k r Hr. unfold on_process, on_world, zoom. specialize (Hm (bw_env (rt_world r))).
  destruct (m (bw_env (rt_world r))) as [[a|e|] e']; [..|done]; by eapply change; [..|exact Hr].
Qed.

Lemma same_sleep wait : same (on_world (sleep wait)).
Proof. intros P HP k r Hr. by eapply change; [..|exact Hr]. Qed.

(** The bot's methods on a bot that is up. *)
Lemma live_bot k r : live k r -> bot_inv (client_state (rt_world r)) (rt_world r).
Proof.
  intros [[H1 H2 H3 H4 H5 H6] [cl Hc]]. rewrite Hc in H1. split; [by eexists| |done..].
  apply kept_refl. unfold client_state. unfold rt_bot in Hc. rewrite Hc. apply H1.
Qed.

Lemma bot_live k r a : live k r -> bot_inv (client_state (rt_world r)) (fst a) -> live k (set_app a r).
Proof.
  intros [[H1 H2 H3 H4 H5 H6] [cl Hc]] [[cl' Hc'] K B1 B2 B3]. rewrite Hc in H1. destruct H1 as [H1 H1'].
  split; [split|]; unfold rt_bot, rt_world, set_app in *; cbn [rt_app rt_disp fst] in *; try done.
  rewrite Hc'. destruct K as [K1 _ _ _ K5 _ _]. unfold client_state in K1, K5. cbn in K1, K5. rewrite Hc' in K1.
  split; [exact K1|]. congruence.
Qed.

Lemma up_world {A} (m : M bworld A) : bot_ok m -> up (on_world m).
Proof.
  intros Hm k r Hr. unfold on_world, zoom. specialize (Hm _ _ (live_bot k r Hr)).
  destruct (m (rt_world r)) as [[a|e|] w]; [..|done]; by apply bot_live.
Qed.

(** ** Peers and messages *)

Lemma same_remember l : same (remember_peers l).
Proof.
  intros P HP k r Hr. unfold remember_peers, on_world, on_book, zoom.
  assert (Hi : rt_inv k r) by (by destruct HP as [->| ->]; destruct Hr).
  destruct (ri_cache _ _ Hi) as [q Hq]. unfold rt_bot in Hq.
  destruct (rememberPeers_run l (bt_book (bw_bot (rt_world r))) q Hq) as (cc & q' & -> & Hq' & _).
  assert (Hn : rt_inv k (set_world (set_book (Book (fold_left remember l (bk_peers (bt_book (bw_bot (rt_world r))))) cc)
    (rt_world r)) r)).
  { destruct Hi as [H1 H2 H3 H4 H5 H6]. split; try done; [|by exists q']. by apply remember_all_ok. }
  destruct HP as [->| ->]; destruct Hr as [_ Hr]; by split.
Qed.

Lemma up_caches msg k r : live k r ->
  exists d', zoom live_dispatcher set_dispatcher (dispatch_caches msg) r = (Ok (matchingRoutes (live_dispatcher r) msg), set_dispatcher d' r) /\
    live k (set_dispatcher d' r).
Proof.
  intros [[H1 H2 [q H3] H4 [hist H5] H6] Hc].
  destruct (dispatch_caches_ok msg (live_dispatcher r) hist q) as (d' & E & E1 & E2 & _ & _ & [S1 S2]); [by split|].
  exists d'. unfold zoom. rewrite E. split; [done|]. split; [|done].
  split; try done; [by eexists|by eexists|]. cbn [set_dispatcher rt_disp]. by rewrite E2.
Qed.

Lemma run_routes_ok routes s0 : Forall (fun route => handler_ok (mr_handler route)) routes ->
  hoare (handling s0) (run_routes routes) (fun _ => handling s0) (handling s0).
Proof.
  induction 1 as [|route routes Hh _ IH]; cbn [run_routes]; [by intros x Hx|].
  eapply hoare_bind; [apply Hh|intros u; exact IH].
Qed.

Lemma up_dispatch msg : message_ok msg -> up (dispatch msg).
Proof.
  intros Hmsg k r Hr. unfold dispatch. destruct (up_caches msg k r Hr) as (d' & E & Hr').
  rewrite (bind_ok _ _ _ _ _ E). set (r1 := set_dispatcher d' r) in *. rewrite (bind_ok get _ r1 r1 r1) by done.
  destruct (negb _); [done|]. unfold zoom.
  assert (Hm : Forall (fun route => handler_ok (mr_handler route)) (matchingRoutes (live_dispatcher r) msg)).
  { apply Forall_forall. intros route Hin. apply list_elem_of_In, filter_In in Hin as [Hin _].
    pose proof (ri_routes _ _ (proj1 Hr)) as Hf. rewrite Forall_forall in Hf. by apply Hf, list_elem_of_In. }
  pose proof (run_routes_ok _ (client_state (rt_world r1)) Hm (rt_app r1, msg) (conj (live_bot k r1 Hr') Hmsg)) as R.
  destruct (run_routes _ _) as [[u|e|] x]; [..|done]; (apply bot_live; [done|apply R]).
Qed.

(** The messages the loop hands on. *)
Lemma bot_message_ok peers msg : message_ok
  (mtprotoTextMessageToUpdate (bot_reply o c gunzip) (bot_edit o c gunzip) (bot_delete o c gunzip) peers msg).
Proof.
  assert (Hk : forall k, bot_call_ok k ->
    keeps_bot (zoom fst (fun w a => (w, snd a)) (fun w => bot_run o gunzip range_values (fun _ => EmptyString) (S (bot_stream w)) c k w))).
  { intros k Hk. apply keeps_bot_method. intros s0 w Hw. by apply (bot_run_ok o gunzip gunzip_returns). }
  split_and!; intros f [= <-] chatID.
  - intros replyTo text. by apply (Hk (DoSend chatID text (MkSendOptions replyTo false false false))).
  - intros id text. by apply (Hk (DoEdit chatID id text (MkEditOptions false))).
  - intros ids. by apply (Hk (DoDelete chatID ids)).
Qed.

Lemma up_deliver msg : up (deliver o c gunzip msg).
Proof.
  unfold deliver. apply up_bind; [apply same_up, same_remember|intros _]. apply up_bind; [apply same_up, same_get|intros r].
  apply up_bind; [apply up_try, up_dispatch, bot_message_ok|intros _; apply same_up, same_ret].
Qed.

Lemma up_deliver_all msgs : up (deliver_all o c gunzip msgs).
Proof.
  induction msgs as [|msg msgs IH]; cbn [deliver_all]; [apply same_up, same_ret|].
  apply up_bind; [apply up_deliver|done].
Qed.

Lemma inv_cases k r : rt_inv k r <-> live k r \/ down k r.
Proof.
  split; [|by intros [[H _]|[H _]]]. intros H. destruct (bt_client (rt_bot r)) as [cl|] eqn:E; [left|right]; by split.
Qed.

(** A step that keeps the bot as it is, from any state. *)
Lemma same_inv {A} (m : M runtime A) k : same m -> hoare (rt_inv k) m (fun _ => rt_inv k) (rt_inv k).
Proof.
  intros Hm r Hr. apply inv_cases in Hr as [Hr|Hr].
  - pose proof (Hm live (or_introl eq_refl) k r Hr) as R. destruct (m r) as [[a|e|] r']; [..|done]; apply R.
  - pose proof (Hm down (or_intror eq_refl) k r Hr) as R. destruct (m r) as [[a|e|] r']; [..|done]; apply R.
Qed.

(** ** The session *)

Lemma store_Load_returns s done name : nopanic (store_Load custom_Load s done name).
Proof.
  destruct s as [s|m|n]; [| |apply custom_Load_returns]; intros w _; cbn [store_Load];
    [pose proof (stores_load s done name w) as H|pose proof (stores_load MemorySession done name w) as H];
    by destruct (Store_Load _ _ _ w) as [[a|e|] w'].
Qed.
Lemma store_Save_returns s done data : nopanic (store_Save custom_Save s done data).
Proof.
  destruct s as [s|m|n]; [| |apply custom_Save_returns]; intros w _; cbn [store_Save];
    [pose proof (stores_save s done data w) as H|pose proof (stores_save MemorySession done data w) as H];
    by destruct (Store_Save _ _ _ w) as [[a|e|] w'].
Qed.

Lemma same_Now : same (on_process env_Now).
Proof. by apply same_process. Qed.

Abbreviation SaveSession := (SaveSession o peer_values custom_Save).
Abbreviation save_session := (save_session o peer_values custom_Save).

Lemma up_SaveSession done : up (SaveSession done).
Proof.
  unfold SaveSession. apply up_bind; [apply same_up, same_get|intros r]. destruct (bt_client (rt_bot r)); [|apply same_up, same_ret].
  apply up_bind; [apply up_world, bot_ok_client, ExportSession_ok|]. intros [s|]; [|apply same_up, same_ret].
  apply same_up. apply same_bind; [apply same_bind; [apply same_get|intros ?; apply same_ret]|intros state].
  apply same_bind; [apply same_Now|intros now]. apply same_bind; [by apply same_lift|intros data].
  apply same_stores, store_Save_returns.
Qed.

Lemma SaveSession_down done r : bt_client (rt_bot r) = None -> SaveSession done r = (Ok tt, r).
Proof. intros H. unfold SaveSession, bind, get. by rewrite H. Qed.

Lemma same_SaveSession done : same (SaveSession done).
Proof.
  intros P [->| ->] k r Hr; [by apply up_SaveSession|]. by rewrite SaveSession_down by apply Hr.
Qed.

Lemma same_save : same save_session.
Proof.
  apply same_bind; [apply same_poll|intros done]. apply same_bind; [apply same_try, same_SaveSession|intros _; apply same_ret].
Qed.

(** Steps that return no error. *)
Lemma save_total k E : hoare (live k) save_session (fun _ => live k) E.
Proof.
  intros r Hr. pose proof (same_save live (or_introl eq_refl) k r Hr) as R. unfold save_session in *.
  unfold bind, poll_ctx, try, ret in *. by destruct (SaveSession _ _) as [[u|e|] r'].
Qed.

Lemma remember_total l k E : hoare (live k) (remember_peers l) (fun _ => live k) E.
Proof.
  intros r Hr. pose proof (same_remember l live (or_introl eq_refl) k r Hr) as R.
  destruct Hr as [Hr _]. destruct (ri_cache _ _ Hr) as [q Hq]. unfold remember_peers, on_world, on_book, zoom in *.
  destruct (rememberPeers_run l (bt_book (bw_bot (rt_world r))) q Hq) as (cc & q' & E' & _). by rewrite E' in *.
Qed.

(** ** Opening and closing *)

(** A step that may open a connection. *)
Lemma process_opens {A} (m : M env A) (Q : A -> Prop) k :
  (forall n, hoare (opened k n) m (fun a e => Q a /\ opened (k + 1) n e) (opened k n)) ->
  hoare (down k) (on_process m) (fun a r => Q a /\ down (k + 1) r) (down k).
Proof.
  intros Hm r [[H1 H2 H3 H4 H5 H6] Hc]. rewrite Hc in H1. unfold on_process, on_world, zoom.
  assert (Ho : opened k (S (length (e_dials (bw_env (rt_world r))))) (bw_env (rt_world r))) by (split; [done|lia]).
  specialize (Hm _ _ Ho). destruct (m (bw_env (rt_world r))) as [[a|e|] e']; [..|done].
  - destruct Hm as [Ha [Hm _]]. split; [done|]. split; [|done]. split; try done.
    unfold rt_bot, rt_world in *. cbn. by rewrite Hc.
  - destruct Hm as [Hm _]. split; [|done]. split; try done. unfold rt_bot, rt_world in *. cbn. by rewrite Hc.
Qed.

Lemma set_client_up cl k : client_wf cl -> hoare (down (k + 1)) (set_bot_client (Some cl)) (fun _ => live k) (down k).
Proof.
  intros Hw r [[H1 H2 H3 H4 H5 H6] Hc]. rewrite Hc in H1. split; [split; [by split|done..]|by eexists].
Qed.

Lemma dial_saved sess k : session_typed sess ->
  hoare (down k) (on_process (DialEncryptedFromSession c (Some sess))) (fun cl r => client_wf cl /\ down (k + 1) r) (down k).
Proof.
  intros Hs. apply process_opens. intros n. eapply hoare_conseq; [by apply dial_from_session|done| |done].
  intros cl e [[Hw _ _ _] Ho]. split; [done|by apply opened_pred].
Qed.

Abbreviation loadSession := (loadSession o c custom_Load).

Lemma loadSession_spec k :
  hoare (down k) loadSession
    (fun found r => match found with Some (cl, _, _) => client_wf cl /\ down (k + 1) r | None => down k r end) (down k).
Proof.
  unfold loadSession. eapply hoare_bind; [by apply (same_poll down); right|intros done].
  eapply hoare_bind; [by apply (same_stores _ (store_Load_returns _ _ _) down); right|]. intros [data|]; [|by intros r Hr].
  pose proof (parseRuntimeSession_sound (sd_Data data)) as Hs.
  destruct (parseRuntimeSession (sd_Data data)) as [b|e|] eqn:E; [|by intros r Hr|done].
  apply parseRuntimeSession_typed in E. eapply hoare_lift_ok; [done|].
  destruct (rb_MTProto b) as [sess|] eqn:Es; [|by destruct Hs].
  assert (Ht : session_typed sess).
  { destruct E as (_ & E & _). specialize (E sess Es). unfold session_ranges, session_typed in *. tauto. }
  eapply hoare_bind; [by apply dial_saved|]. intros cl. apply hoare_pure. intros Hw r Hr. by split.
Qed.

Abbreviation login_anew := (login_anew bc o c ProbablyPrime keys gunzip peer_values custom_Save).
Abbreviation Login := (Login bc o c ProbablyPrime keys gunzip peer_values custom_Load custom_Save).

Lemma login_anew_spec k : hoare (down k) login_anew (fun _ => live k) (down k).
Proof.
  unfold login_anew. eapply (hoare_bind _ _ _ (fun cr r => client_wf (fst cr) /\ down (k + 1) r)).
  { apply process_opens. intros n. eapply hoare_conseq; [|done| |done].
    - apply (loginDefault_spec ProbablyPrime keys _ (ImportBotAuthorization_ok gunzip gunzip_returns c _ _ _)).
    - done. }
  intros cr. apply hoare_pure. intros Hw. eapply hoare_bind; [by apply set_client_up|intros []].
  eapply (hoare_bind _ _ _ (fun _ => live k)); [intros r Hr; exact (same_loaded false live (or_introl eq_refl) k r Hr)|].
  intros _. apply save_total.
Qed.

Lemma Login_spec k : hoare (down k) Login (fun _ => live k) (down k).
Proof.
  unfold Login. eapply hoare_bind; [apply hoare_try, loadSession_spec|].
  intros [[[[cl state] peers]|]|e]; [|apply login_anew_spec..].
  apply hoare_pure. intros Hw. eapply hoare_bind; [by apply set_client_up|intros []].
  eapply (hoare_bind _ _ _ (fun _ => live k)); [intros r Hr; exact (same_loaded true live (or_introl eq_refl) k r Hr)|intros _].
  eapply (hoare_bind _ _ _ (fun _ => live k)); [intros r Hr; exact (same_last state live (or_introl eq_refl) k r Hr)|intros _].
  apply remember_total.
Qed.

(** ** Reconnecting *)

(** Closing, then forgetting the client. *)
Lemma Close_spec k E :
  hoare (live k) Close (fun _ r => rt_inv k (set_world (set_bot (MkBot None (bt_book (rt_bot r))) (rt_world r)) r)) E.
Proof.
  intros r [[H1 H2 H3 H4 H5 H6] [cl Hc]]. rewrite Hc in H1. destruct H1 as [(l & es & Hl & _) H1].
  unfold Close, bind, get. rewrite Hc. unfold on_process, on_world, zoom, Client_Close. rewrite Hl.
  split; try done. unfold rt_bot, rt_world in *. cbn in *. lia.
Qed.

Lemma Close_nil (r : runtime) : bt_client (rt_bot r) = None -> Close r = (Ok tt, r).
Proof. intros H. unfold Close. rewrite (bind_ok get _ r r r) by done. by rewrite H. Qed.

Lemma close_down k E : hoare (rt_inv k) (_ <- try Close ;; set_bot_client None) (fun _ => down k) E.
Proof.
  intros r [Hr|Hr]%inv_cases.
  - pose proof (Close_spec k (fun _ => False) r Hr) as R. unfold try, bind.
    destruct (Close r) as [[u|e|] r']; [|done..]. by split.
  - destruct Hr as [Hr Hc]. unfold try, bind. rewrite Close_nil by done. split; [|done].
    destruct Hr as [H1 H2 H3 H4 H5 H6]. rewrite Hc in H1. by split.
Qed.

Abbreviation reconnect := (reconnect bc o c ProbablyPrime keys gunzip peer_values custom_Load custom_Save).
Abbreviation reconnectWithBackoff := (reconnectWithBackoff bc o c ProbablyPrime keys gunzip peer_values custom_Load custom_Save).

Lemma reconnect_spec k : hoare (rt_inv k) reconnect (fun _ => live k) (rt_inv k).
Proof.
  unfold reconnect. eapply hoare_bind; [apply same_inv, same_save|intros u].
  assert (H : hoare (rt_inv k) (_ <- try Close ;; set_bot_client None) (fun _ => down k) (rt_inv k)) by apply close_down.
  intros r Hr. specialize (H r Hr). unfold bind in *. destruct (try Close r) as [[x|e|] r1]; [|done..].
  destruct (set_bot_client None r1) as [[y|e|] r2]; [|done..]. unfold modify.
  pose proof (same_loaded false down (or_intror eq_refl) k r2 H) as H3. unfold modify in H3.
  pose proof (Login_spec k _ H3) as R. destruct (Login _) as [[z|e|] r']; [done|apply R|done].
Qed.

Lemma reconnectWithBackoff_spec attempt k : hoare (rt_inv k) (reconnectWithBackoff attempt) (fun _ => live k) (rt_inv k).
Proof.
  unfold reconnectWithBackoff. eapply hoare_bind; [apply same_inv, same_guard|intros []]. cbv zeta.
  eapply (hoare_bind _ _ _ (fun _ => rt_inv k)).
  { destruct (0 <? _); [apply same_inv, same_sleep|apply same_inv, same_ret]. }
  intros [e|]; [by apply hoare_fail|apply reconnect_spec].
Qed.

(** ** The loop *)

(** A method of a nil client is an error and changes nothing. *)
Lemma nil_invoke body s : ec_conn (fst s) = None ->
  Client_Invoke gunzip c body s = (Err (ErrNew "mtproto: nil encrypted client"), s).
Proof. intros H. unfold Client_Invoke, bind, with_session. destruct s as [cl e]. cbn in H. by rewrite H. Qed.

Lemma nil_difference state (r : runtime) : bt_client (rt_bot r) = None ->
  on_world (App := App) (on_bot_client (value_of (UpdatesGetDifference gunzip range_values c state (bc_PTSLimit bc)))) r =
  (Err (ErrNew "mtproto: nil encrypted client"), r).
Proof.
  intros H. unfold on_world, on_bot_client, zoom, value_of, UpdatesGetDifference.
  assert (Hn : ec_conn (fst (client_state (rt_world r))) = None).
  { unfold client_state. cbn. unfold rt_bot in H. by rewrite H. }
  rewrite (bind_err _ _ _ (ErrNew "mtproto: nil encrypted client") (client_state (rt_world r)))
    by (apply bind_err; by apply nil_invoke).
  f_equal. destruct r as [[w a] d l s st cx]. unfold set_world, set_app, set_client, client_state, rt_bot, rt_world in *.
  cbn in *. destruct w as [[cl bk] e sl sp rd wr fl]. cbn in *. by subst cl.
Qed.

Lemma poll_difference state k E :
  hoare (rt_inv k) (try (on_world (App := App) (on_bot_client (value_of (UpdatesGetDifference gunzip range_values c state (bc_PTSLimit bc))))))
    (fun res r => match res with inl _ => live k r | inr _ => rt_inv k r end) E.
Proof.
  intros r [Hr|Hr]%inv_cases; unfold try.
  - assert (Hu : up (on_world (App := App) (on_bot_client (value_of (UpdatesGetDifference gunzip range_values c state (bc_PTSLimit bc)))))).
    { apply up_world, bot_ok_client, value_of_ok. auto with methods. }
    specialize (Hu k r Hr). destruct (on_world _ r) as [[d|e|] r']; [done|apply Hu|done].
  - rewrite nil_difference by apply Hr. apply Hr.
Qed.

Abbreviation apply_difference := (apply_difference o c gunzip peer_values custom_Save).
Abbreviation run_loop := (run_loop bc o c ProbablyPrime keys gunzip range_values peer_values custom_Load custom_Save net_error).

Lemma up_apply state diff : up (apply_difference state diff).
Proof.
  unfold apply_difference. apply up_bind; [apply same_up, same_remember|intros _].
  apply up_bind; [apply up_deliver_all|intros _]. apply same_up. apply same_bind.
  - destruct (df_State diff); [|apply same_ret]. cbv zeta. apply same_bind; [|intros _; apply same_ret].
    unfold setState. destruct (mergeUpdateState _ _); [apply same_last|apply same_ret].
  - intros s. apply same_bind; [apply same_save|intros _; apply same_ret].
Qed.

Lemma run_loop_spec ticks cancel state errors k :
  hoare (rt_inv k) (run_loop ticks cancel state errors) (fun _ _ => False) (rt_inv k).
Proof.
  revert state errors. induction ticks as [|ticks IH]; intros state errors; cbn [run_loop]; [by apply hoare_fail|].
  eapply hoare_bind; [apply poll_difference|]. intros [diff|err].
  - eapply (hoare_bind _ _ _ (fun _ => rt_inv k)); [|intros s; apply IH].
    eapply hoare_conseq; [apply up_apply|done|by intros s r [Hr _]|by intros r [Hr _]].
  - eapply hoare_bind; [apply same_inv, same_poll|]. intros [e|]; [by apply hoare_fail|].
    eapply (hoare_bind _ _ _ (fun _ => rt_inv k)).
    { unfold handleFloodWait. destruct (flood_wait o err); [|apply same_inv, same_ret].
      apply same_inv, same_bind; [apply same_sleep|intros ?; apply same_ret]. }
    intros [|]; [apply IH|]. destruct (_ && _); [|apply IH]. cbv zeta.
    eapply (hoare_bind _ _ _ (fun _ => rt_inv k)); [|intros ?; apply IH].
    eapply hoare_conseq; [apply hoare_try, reconnectWithBackoff_spec|done| |by intros r Hr].
    by intros [u|e] r; [intros [Hr _]|].
Qed.

Abbreviation run_body := (run_body bc o c ProbablyPrime keys gunzip range_values peer_values custom_Load custom_Save net_error).
Abbreviation Run := (Run bc o c ProbablyPrime keys gunzip range_values peer_values custom_Load custom_Save net_error).

Lemma run_body_spec ticks cancel k : hoare (live k) (run_body ticks cancel) (fun _ _ => False) (rt_inv k).
Proof.
  assert (Hu : forall A (m : M runtime A), up m -> hoare (live k) m (fun _ => live k) (rt_inv k)).
  { intros A m Hm. eapply hoare_conseq; [apply Hm|done|done|by intros r [Hr _]]. }
  unfold run_body. eapply hoare_bind; [apply Hu, same_up, same_bind; [apply same_get|intros ?; apply same_ret]|].
  intros saved. eapply (hoare_bind _ _ _ (fun _ => live k)).
  { destruct saved as [s|]; [apply Hu, same_up, same_ret|]. apply Hu. apply up_bind.
    - apply up_world, bot_ok_client, value_of_ok. auto with methods.
    - intros s. apply same_up, same_bind; [apply same_last|intros _; apply same_ret]. }
  intros state. eapply hoare_bind; [apply save_total|intros u]. destruct (negb _).
  - apply hoare_fail. by intros r [Hr _].
  - eapply hoare_conseq; [apply run_loop_spec|by intros r [Hr _]|done|done].
Qed.

(** When [Run] has returned: its connections are closed. *)
Record ended (k : Z) (r : runtime) : Prop := {
  en_open : e_open (bw_env (rt_world r)) = k;
  en_book : book_ok (bk_peers (bt_book (rt_bot r)));
  en_cache : exists q, represents (bk_cache (bt_book (rt_bot r))) q;
  en_messages : exists hist, ring (d_messages (rt_disp r)) hist }.

Lemma down_ended k r : down k r -> ended k r.
Proof. intros [[H1 H2 H3 H4 H5 H6] Hc]. rewrite Hc in H1. by split. Qed.

Lemma deferred_spec k E : hoare (rt_inv k) (deferred o peer_values custom_Save) (fun _ => ended k) E.
Proof.
  unfold deferred. intros r Hr.
  assert (Hs : hoare (rt_inv k) (try (SaveSession None)) (fun _ => rt_inv k) E).
  { intros r0 Hr0. pose proof (same_inv (SaveSession None) k (same_SaveSession None) r0 Hr0) as R. unfold try.
    by destruct (SaveSession None r0) as [[u|e|] r1]. }
  revert r Hr. eapply hoare_bind; [exact Hs|]. intros ? r [Hr|Hr]%inv_cases.
  - pose proof (Close_spec k (fun _ => False) r Hr) as R. unfold try, bind.
    destruct (Close r) as [[u|e|] r']; [|done..]. destruct R as [R1 R2 R3 R4 R5 R6]. by split.
  - unfold try, bind. rewrite Close_nil by apply Hr. by apply down_ended.
Qed.

Lemma Run_spec ticks cancel k :
  hoare (rt_inv k) (Run ticks cancel) (fun _ _ => False) (ended k).
Proof.
  unfold Run. intros r Hr. rewrite (bind_ok get _ r r r) by done.
  assert (Hrest : hoare (live k) (result <- try (run_body ticks cancel) ;; deferred o peer_values custom_Save ;;
    match result with inl u => ret u | inr err => fail err end) (fun _ _ => False) (ended k)).
  { eapply (hoare_bind _ _ _ (fun res r => match res with inl _ => False | inr _ => rt_inv k r end)).
    - eapply hoare_conseq; [apply hoare_try, run_body_spec|done|by intros [u|e] r0|done].
    - intros [u|e]; [by intros r0 []|]. eapply hoare_bind; [apply deferred_spec|intros ?; apply hoare_fail; done]. }
  apply inv_cases in Hr as [Hr|Hr].
  - destruct Hr as [Hi [cl Hc]]. rewrite Hc. rewrite bind_ret. apply Hrest. split; [done|by eexists].
  - rewrite (proj2 Hr). pose proof (Login_spec k r Hr) as L. unfold bind at 1. destruct (Login r) as [[u|e|] r'];
      [by apply Hrest|by apply down_ended|done].
Qed.

(** ** After a reconnection that failed

    The loop goes on polling a nil client, whose error is no network error: it
    never dials again. *)

Lemma run_loop_down ticks cancel state errors (r : runtime) : bt_client (rt_bot r) = None ->
  exists e r', run_loop ticks cancel state errors r = (Err e, r') /\ rt_app r' = rt_app r.
Proof.
  revert r. induction ticks as [|ticks IH]; intros r Hc; cbn [run_loop]; [by eexists _, _|].
  assert (Ht : try (on_world (App := App) (on_bot_client (value_of (UpdatesGetDifference gunzip range_values c state (bc_PTSLimit bc))))) r =
    (Ok (inr (ErrNew "mtproto: nil encrypted client")), r)) by (unfold try; by rewrite nil_difference).
  rewrite (bind_ok _ _ _ _ _ Ht). unfold bind at 1, poll_ctx. cbv beta iota.
  destruct (match rt_ctx r with [] => None | d :: _ => d end) as [e|]; [by eexists _, _|].
  set (r1 := Rt _ _ _ _ _ _).
  assert (Hf : handleFloodWait o (ErrNew "mtproto: nil encrypted client") r1 = (Ok false, r1)).
  { unfold handleFloodWait. rewrite plain_no_flood by done. done. }
  rewrite (bind_ok _ _ _ _ _ Hf). cbn [isTemporaryNetworkError]. rewrite andb_false_r.
  destruct (IH r1) as (e & r' & E & Ha); [done|]. by exists e, r'.
Qed.

(** A reconnection that ends with an error, other than by its limit or its
    context, leaves the bot without client. *)
Lemma reconnect_fails k (r : runtime) e r' : rt_inv k r -> reconnect r = (Err e, r') -> bt_client (rt_bot r') = None.
Proof.
  intros Hr H. unfold reconnect in H.
  pose proof (same_inv _ k same_save r Hr) as R. unfold bind at 1 in H.
  assert (Hsave : forall x, exists u y, save_session x = (Ok u, y) \/ exists y, save_session x = (Panic, y)).
  { intros x. unfold save_session, bind, poll_ctx, try, ret. destruct (SaveSession _ _) as [[u|e'|] y];
      [exists tt, y; by left|exists tt, y; by left|exists tt, y; right; by eexists]. }
  destruct (save_session r) as [[u|e'|] r1] eqn:E1; [| |done].
  2:{ destruct (Hsave r) as (u & y & [Hy|[z Hz]]); congruence. }
  pose proof (close_down k (fun _ => False) r1 R) as D. unfold bind in D, H.
  destruct (try Close r1) as [[x|e'|] r2]; [|done..]. destruct (set_bot_client None r2) as [[y|e'|] r3]; [|done..].
  unfold modify in H. pose proof (same_loaded false down (or_intror eq_refl) k r3 D) as D'. unfold modify in D'.
  pose proof (Login_spec k _ D') as L. rewrite H in L. apply L.
Qed.
End Safety.

(** ** The bot from its construction to its end *)

Section Construction.
Context {App : Type}.
Abbreviation World := (bworld * App)%type.

(** The handlers an application registers. *)
Fixpoint register (regs : list (option (Message World TextMessage -> bool) * option (MessageHandler (W := World) (Raw := TextMessage))))
    (r : runtime (App := App)) : runtime (App := App) :=
  match regs with [] => r | (f, h) :: regs => register regs (MTProtoBot_OnMessage f h r) end.

Definition regs_ok (regs : list (option (Message World TextMessage -> bool) * option (MessageHandler (W := World) (Raw := TextMessage)))) : Prop :=
  Forall (fun fh => forall h, snd fh = Some h -> handler_ok (App := App) h) regs.

Lemma register_down k regs r : regs_ok regs -> down k r -> down k (register regs r).
Proof.
  intros Hr. revert r. induction Hr as [|[f h] regs Hh _ IH]; intros r Hd; [done|]. cbn [register]. apply IH.
  destruct Hd as [[H1 H2 H3 H4 H5 H6] Hc]. split; [|done]. split; try done; cbn [MTProtoBot_OnMessage rt_disp]; destruct h as [h|]; try done.
  cbn [Dispatcher_OnMessage d_messageRoutes]. apply Forall_app. split; [done|]. constructor; [|constructor]. by apply Hh.
Qed.

Lemma New_down config opts w (a : App) st cx bc o r k :
  NewMTProtoBot config opts w a st cx = Ok (bc, o, r) -> e_open (bw_env w) = k -> files_ok (bw_files w) -> down k r.
Proof.
  unfold NewMTProtoBot. destruct (_ <=? 0); [discriminate|]. destruct (_ =? _)%string; [discriminate|].
  destruct (bc_Token config =? _)%string; [discriminate|]. cbv zeta.
  set (d := config_dispatcher _). assert (Hs : sound d [] []) by apply NewDispatcher_sound.
  assert (Hr : d_messageRoutes d = []) by done. clearbody d.
  intros [= <- <- <-] Hk Hf.
  split; [|done]. split; [done|apply map_Forall_empty|by exists []; apply Hs|done|by exists []; apply Hs|].
  cbn [rt_disp]. rewrite Hr. constructor.
Qed.
End Construction.


(** A reconnection that fails is the last one: from then on, however often the
    ticker fires, the loop polls a nil client and dials no more, although
    reconnecting is on and no limit is set. *)
Theorem failed_reconnect_is_last {App : Type} (bc : MTProtoBotConfig) (o : Config (W := bworld * App) (Raw := TextMessage))
    (c : ctx) (PP : Z -> bool) (keys : list RSAPublicKey) (gunzip : list byte -> outcome (list byte))
    (range_values : seen_map -> list PeerRef) (peer_values : gmap Z PeerRef -> list PeerRef)
    (custom_Load : nat -> option goerr -> string -> M stores (option SessionData))
    (custom_Save : nat -> option goerr -> SessionData -> M stores unit)
    (net_error : string -> bool) (k : Z) (r r1 : runtime (App := App)) (e : goerr) :
  (forall d, gunzip d <> Panic) ->
  (forall n done name, nopanic (custom_Load n done name)) ->
  (forall n done data, nopanic (custom_Save n done data)) ->
  rt_inv k r -> reconnect bc o c PP keys gunzip peer_values custom_Load custom_Save r = (Err e, r1) ->
  forall ticks cancel state errors, exists e' r',
    run_loop bc o c PP keys gunzip range_values peer_values custom_Load custom_Save net_error ticks cancel state errors r1 = (Err e', r') /\
    rt_app r' = rt_app r1.
Proof.
  intros Hg Hl Hs Hr H ticks cancel state errors. apply run_loop_down.
  by apply (reconnect_fails bc o c PP keys gunzip peer_values custom_Load custom_Save Hg Hl Hs k r e r1 Hr).
Qed.

(** A handler that makes a call of the bot's. *)
Lemma call_handler_ok {App : Type} (o : Config (W := bworld * App) (Raw := TextMessage)) gunzip range_values mime c
    (k : Message (bworld * App) TextMessage -> bot_call) :
  (forall d, gunzip d <> Panic) -> (forall msg, bot_call_ok (k msg)) ->
  handler_ok (App := App) (handle (fun msg =>
    zoom fst (fun w x => (w, snd x)) (fun w => bot_run o gunzip range_values mime (S (bot_stream w)) c (k msg) w))).
Proof.
  intros Hg Hk. apply handle_ok. intros msg _. apply keeps_bot_method. intros s0 w Hw.
  by apply (bot_run_ok o gunzip Hg).
Qed.

Definition demo_bot_config : MTProtoBotConfig := MkBotConfig 1 "hash" "1:token" 0 0.
Definition demo_gunzip : list byte -> outcome (list byte) := fun _ => Err (ErrNew "EOF").
Definition demo_range (m : seen_map) : list PeerRef := (map_to_list m).*2.
Definition demo_values (m : gmap Z PeerRef) : list PeerRef := (map_to_list m).*2.

(** A handler that answers whoever writes. *)
Definition greeter : MessageHandler (W := bworld * unit) (Raw := TextMessage) :=
  handle (fun msg => Message_Reply msg "hello").

Lemma greeter_ok : handler_ok greeter.
Proof. apply handle_ok. intros msg Hm. by apply keeps_bot_reply. Qed.


(** ** Restarting *)

Section Restart.
Context {App : Type}.
Abbreviation World := (bworld * App)%type.
Abbreviation runtime := (runtime (App := App)).
Variable o : Config (W := World) (Raw := TextMessage).
Variable c : ctx.
Variable peer_values : gmap Z PeerRef -> list PeerRef.
Variable custom_Load : nat -> option goerr -> string -> M stores (option SessionData).
Variable custom_Save : nat -> option goerr -> SessionData -> M stores unit.

(** What a successful [SaveSession] leaves in the store. *)
Lemma SaveSession_stores done (r r' : runtime) cl es st :
  bt_client (rt_bot r) = Some cl -> exportable cl es -> cf_Session o = Store st ->
  SaveSession o peer_values custom_Save done r = (Ok tt, r') ->
  exists now1 now2, is_i64 now2 /\
    contents st (rt_stores r') (sessionName o) =
      Ok (Some (MkSessionData (sessionName o) (json_print (enc_bundle
        (MkBundle runtimeSessionVersion "bot" (Some (exported "bot" cl es now1)) (rt_last r)
          (snapshotPeers (peer_values (bk_peers (bt_book (rt_bot r))))) now2 now2))))).
Proof.
  intros Hc Hx Hst H. unfold SaveSession in H. rewrite (bind_ok get _ r r r) in H by done. rewrite Hc in H.
  pose proof (ex_state _ _ Hx) as Hs. unfold rt_bot in Hc.
  apply bind_inv in H as (sess & r1 & H1 & H). unfold on_world, on_bot_client, zoom in H1.
  assert (E1 : ExportSession "bot" (client_state (rt_world r)) =
    (Ok (Some (exported "bot" cl es (e_clock (bw_env (rt_world r)) (e_tick (bw_env (rt_world r)))))),
     (cl, snd (env_Now (bw_env (rt_world r)))))).
  { unfold client_state. rewrite Hc. by apply ExportSession_run. }
  rewrite E1 in H1. injection H1 as <- <-. set (r1 := set_world _ r) in H.
  apply bind_inv in H as (state & r2 & H2 & H). unfold snapshotState, bind, get, ret in H2. injection H2 as <- <-.
  apply bind_inv in H as (now & r3 & H3 & H). unfold on_process, on_world, zoom, env_Now in H3. injection H3 as <- <-.
  set (r3 := set_world _ r1) in H. unfold marshalRuntimeSession in H.
  apply bind_inv in H as (data & r4 & H4 & H). unfold lift in H4. injection H4 as <- <-.
  rewrite Hst in H. unfold store_Save, on_stores, zoom in H.
  pose proof (stores_save st done (MkSessionData (sessionName o) (json_print (enc_bundle
    (MkBundle runtimeSessionVersion "bot"
      (Some (exported "bot" cl es (e_clock (bw_env (rt_world r)) (e_tick (bw_env (rt_world r)))))) (rt_last r)
      (snapshotPeers (peer_values (bk_peers (bt_book (rt_bot r)))))
      (unix (e_clock (bw_env (rt_world r1)) (e_tick (bw_env (rt_world r1)))))
      (unix (e_clock (bw_env (rt_world r1)) (e_tick (bw_env (rt_world r1))))))))) (rt_stores r)) as W.
  change (rt_stores r3) with (rt_stores r) in H. change (rt_last r1) with (rt_last r) in H.
  destruct (Store_Save st done _ (rt_stores r)) as [[u|e|] st']; [|discriminate..]. injection H as _ <-.
  destruct W as [W _]. do 2 eexists. split; [apply unix_range|exact W].
Qed.

End Restart.

(** C13. A restart goes on where the bot was ([SaveSession], then [Login]'s
    [loadSession] of a new process; mtproto_bot.go): if [SaveSession] returned
    nil with one of the package's stores, encrypted or not, then whenever a bot
    with the same store and session name loads the session later and the store
    can be read, it finds it, and what [loadSession] returns is a working client
    of the same endpoint, key, salt and clock offset on a new connection, with
    exactly the saved update state (so the updates in between are fetched) and
    the saved peers, their strings in valid UTF-8; otherwise it returns an error
    and no connection is left open. *)
Theorem bot_restart_resumes {App : Type} (o : Config (W := bworld * App) (Raw := TextMessage)) (c : ctx)
    (peer_values : gmap Z PeerRef -> list PeerRef)
    (custom_Load : nat -> option goerr -> string -> M stores (option SessionData))
    (custom_Save : nat -> option goerr -> SessionData -> M stores unit)
    (done : option goerr) (r r' : runtime (App := App)) (cl : EncryptedClient) (es : encryptedState) (st : SessionStore) (k : Z) :
  bt_client (rt_bot r) = Some cl -> exportable cl es -> cf_Session o = Store st ->
  (forall s, rt_last r = Some s -> state_ranges s) ->
  Forall peer_ranges (snapshotPeers (peer_values (bk_peers (bt_book (rt_bot r))))) ->
  SaveSession o peer_values custom_Save done r = (Ok tt, r') ->
  hoare (fun r2 => down k r2 /\ ss_mem (rt_stores r2) = ss_mem (rt_stores r') /\ ss_fs (rt_stores r2) = ss_fs (rt_stores r'))
    (loadSession o c custom_Load)
    (fun found r3 => down (k + 1) r3 /\ exists cl' now,
       found = Some (cl', rt_last r, map clean_Peer (snapshotPeers (peer_values (bk_peers (bt_book (rt_bot r)))))) /\
       resumed (exported "bot" cl es now) cl')
    (down k).
Proof.
  intros Hc Hx Hst Hlast Hpeers Hsave.
  destruct (SaveSession_stores o peer_values custom_Save done r r' cl es st Hc Hx Hst Hsave) as (now1 & now2 & Hn2 & W).
  destruct (exported_ok "bot" cl es now1 eq_refl Hx) as (X1 & X2 & X3).
  unfold loadSession. intros r2 (Hr2 & Hm & Hf). rewrite Hst. unfold store_Load.
  rewrite (bind_ok poll_ctx _ r2 (match rt_ctx r2 with [] => None | d :: _ => d end) (snd (poll_ctx r2))) by done.
  set (r2' := snd (poll_ctx r2)).
  assert (Hd : down k r2') by (by eapply (change down k r2); [right|..]).
  change (rt_stores r2) with (rt_stores r2') in Hm, Hf.
  pose proof (stores_load st (match rt_ctx r2 with [] => None | d :: _ => d end) (sessionName o) (rt_stores r2')) as L.
  unfold on_stores, zoom, bind at 1. destruct (Store_Load st _ _ (rt_stores r2')) as [[found|e|] st2] eqn:E; [| |done].
  2:{ by eapply (change down k r2'); [right|..]. }
  destruct L as (L & Lm & Lf). rewrite (contents_eq st _ (rt_stores r')) in L by congruence.
  match type of W with _ = Ok ?x => assert (found = x) as -> by congruence end.
  cbn [sd_Data]. rewrite parseRuntimeSession_marshal by done. unfold lift, clean_bundle.
  cbn [rb_MTProto rb_State rb_Peers rb_Version rb_Kind rb_CreatedAt rb_UpdatedAt fmap option_fmap option_map]. rewrite X3.
  assert (Hd2 : down k (set_rt_stores st2 r2')) by (by eapply (change down k r2'); [right|..]).
  assert (Ht : session_typed (exported "bot" cl es now1)).
  { destruct X1 as (_ & _ & T1 & T2 & _ & T3 & _). by split_and!. }
  pose proof (process_opens (App := App) (DialEncryptedFromSession c (Some (exported "bot" cl es now1))) (resumed (exported "bot" cl es now1)) k) as P.
  assert (Hdial : forall n, hoare (opened k n) (DialEncryptedFromSession c (Some (exported "bot" cl es now1)))
    (fun a e => resumed (exported "bot" cl es now1) a /\ opened (k + 1) n e) (opened k n)).
  { intros n. eapply hoare_conseq; [by apply dial_from_session|done| |done].
    intros a e [Ha Ho]. split; [done|by apply opened_pred]. }
  specialize (P Hdial _ Hd2). unfold bind. destruct (on_process _ _) as [[cl'|e|] r3]; [|done..].
  destruct P as [P1 P2]. split; [done|]. by exists cl', now1.
Qed.

(** The bot of [Calls], its session saved, and a new process with the same store. *)
Definition plain_config : Config (W := bworld * unit) (Raw := TextMessage) := default_config 1 "hash" "mtproto_bot".
Definition saved_bot : runtime (App := unit) :=
  Rt (demo_world, tt) (config_dispatcher plain_config) false (Some (MkState 7 0 3 1 0 [x01])) (Stores ∅ ∅ [] []) [].
Definition saved_stores : stores :=
  rt_stores (snd (SaveSession plain_config demo_values (fun _ _ _ => ret tt) None saved_bot)).
Definition fresh_world : bworld :=
  BW (MkBot None (Book ∅ (NewPeerCache 10))) dial_env [] [] (UploadIO None []) (DownloadIO None [] []) ∅.
Definition fresh_bot : runtime (App := unit) :=
  Rt (fresh_world, tt) (config_dispatcher plain_config) false None saved_stores [].

Lemma fresh_bot_down : down 1 fresh_bot.
Proof.
  assert (Hs : sound (config_dispatcher plain_config) [] []) by apply NewDispatcher_sound.
  split; [|done]. split; [done|apply map_Forall_empty|exists []; apply represents_new|apply map_Forall_empty|by exists []; apply Hs|].
  constructor.
Qed.

Lemma demo_exportable : exportable demo_client demo_state.
Proof.
  split; [done|exact demo_state_wf|by vm_compute|by split; vm_compute|by vm_compute|by vm_compute].
Qed.

Lemma saved_bot_peers : snapshotPeers (demo_values (bk_peers (bt_book (rt_bot saved_bot)))) = [user5].
Proof. vm_compute. reflexivity. Qed.

Lemma bot_restart_resumes_witness :
  exists cl' r3, loadSession plain_config None (fun _ _ _ => ret None) fresh_bot =
    (Ok (Some (cl', Some (MkState 7 0 3 1 0 [x01]), [user5])), r3) /\ ak_AuthKey (ec_auth cl') = replicate 256 x2a.
Proof.
  assert (H := bot_restart_resumes (App := unit) plain_config None demo_values (fun _ _ _ => ret None) (fun _ _ _ => ret tt) None
    saved_bot (snd (SaveSession plain_config demo_values (fun _ _ _ => ret tt) None saved_bot)) demo_client demo_state
    MemorySession 1 eq_refl demo_exportable eq_refl).
  assert (Hlast : forall s, rt_last saved_bot = Some s -> state_ranges s) by (intros s [= <-]; by vm_compute).
  assert (Hpeers : Forall peer_ranges (snapshotPeers (demo_values (bk_peers (bt_book (rt_bot saved_bot))))))
    by (rewrite saved_bot_peers; constructor; [by vm_compute|constructor]).
  specialize (H Hlast Hpeers).
  assert (Hs : SaveSession plain_config demo_values (fun _ _ _ => ret tt) None saved_bot =
    (Ok tt, snd (SaveSession plain_config demo_values (fun _ _ _ => ret tt) None saved_bot))) by (vm_compute; reflexivity).
  specialize (H Hs fresh_bot (conj fresh_bot_down (conj eq_refl eq_refl))).
  assert (Hok : is_ok (fst (loadSession plain_config None (fun _ _ _ => ret None) fresh_bot)) = true) by (vm_compute; reflexivity).
  destruct (loadSession _ _ _ _) as [[found|e|] r3]; [|discriminate..].
  destruct H as [_ (cl' & now & -> & Hr)]. exists cl', r3. split.
  - do 4 f_equal; vm_compute; reflexivity.
  - by destruct (rs_auth _ _ Hr) as [-> _].
Defined.

(** ** A connection the server has closed

    [io.EOF] and [io.ErrUnexpectedEOF], what a read returns then, are not
    [net.Error]s. *)

Definition not_eof (what : string) : bool := negb ((what =? "EOF") || (what =? "unexpected EOF"))%string.

(** The bot of [Calls] while the network would let it dial. *)
Definition dialling_env : env := Env (replicate 300 x07) (fun n => Z.of_nat n * second) 0 [Some (Conn [] [] [])] 1 [].
Definition cut_off_bot : runtime (App := unit) :=
  Rt (BW (bw_bot demo_world) dialling_env [] [] (UploadIO None []) (DownloadIO None [] []) ∅, tt)
    (config_dispatcher plain_config) false (Some (MkState 7 0 3 1 0 [x01])) (Stores ∅ ∅ [] []) [].
Definition cut_off_run (ticks : nat) : outcome unit * runtime (App := unit) :=
  run_loop demo_bot_config plain_config None (fun _ => true) [] demo_gunzip demo_range demo_values (fun _ _ _ => ret None)
    (fun _ _ _ => ret tt) not_eof ticks (ErrEnv "context canceled") (MkState 7 0 3 1 0 [x01]) 0 cut_off_bot.

(** Five polls of a closed connection, with reconnecting on: none dials or waits. *)
Lemma closed_connection_stays :
  let r := snd (cut_off_run 5) in
  cf_AutoReconnect plain_config = true /\ fst (cut_off_run 5) = Err (ErrEnv "context canceled") /\
  e_dials (bw_env (rt_world r)) = e_dials dialling_env /\ bw_slept (rt_world r) = [].
Proof. vm_compute. repeat split; reflexivity. Qed.
