(* ===== verification/Delivery.v ===== *)
(** * Delivery: what the MTProto bot's handlers are given (src/mtproto_bot.go)

    The loop of [Run] seen from the handlers: the answers to its polls, the
    messages dispatched, and the update state it goes on from. *)

From S2P Require Import Prelude Strings TL Transport Hash AES Crypto Envelope Auth Invoke Queries Seal Client Peers Difference Api Media Flood Life Session Json Codec Saved Updates Dispatcher Config Bot Calls Runtime.

(** ** Frames

    [frames f m]: [m] leaves [f] of the state as it is, unless it panics. *)

Section Frames.
Context {S X : Type}.
Variable f : S -> X.

Definition frames {A} (m : M S A) : Prop := forall s,
  match m s with (Panic, _) => True | (_, s') => f s' = f s end.

Lemma frames_bind {A B} (m : M S A) (k : A -> M S B) : frames m -> (forall a, frames (k a)) -> frames (x <- m ;; k x).
Proof.
  intros Hm Hk s. specialize (Hm s). unfold bind. destruct (m s) as [[a|e|] s1]; [|done..].
  specialize (Hk a s1). rewrite <- Hm. exact Hk.
Qed.
Lemma frames_try {A} (m : M S A) : frames m -> frames (try m).
Proof. intros Hm s. specialize (Hm s). unfold try. by destruct (m s) as [[a|e|] s1]. Qed.
Lemma frames_lift {A} (o : outcome A) : frames (lift o).
Proof. intros s. by destruct o. Qed.
Lemma frames_guard c e : frames (guard c e).
Proof. by destruct c. Qed.
Lemma frames_modify (g : S -> S) : (forall s, f (g s) = f s) -> frames (modify g).
Proof. intros H s. apply H. Qed.
Lemma frames_zoom {T A} (g : S -> T) u (m : M T A) : (forall t s, f (u t s) = f s) -> frames (zoom g u m).
Proof. intros H s. unfold zoom. destruct (m (g s)) as [[a|e|] t]; [apply H|apply H|done]. Qed.
End Frames.

(** Go through the steps of a composed computation. *)
Ltac frames_steps :=
  cbv zeta;
  repeat lazymatch goal with
  | |- frames _ (bind _ _) => apply frames_bind; [|intros ?]
  | |- frames _ (try _) => apply frames_try
  | |- frames _ (lift _) => apply frames_lift
  | |- frames _ (guard _ _) => apply frames_guard
  | |- frames _ (zoom _ _ _) => apply frames_zoom; done
  | |- frames _ (if ?c then _ else _) => destruct c
  | |- frames _ (match ?x with _ => _ end) => destruct x
  | _ => solve [auto with frames | done | by intros ?]
  end.
Create HintDb frames.

Section Delivery.
Context {A : Type}.
Abbreviation App := (list TextMessage * A)%type.
Abbreviation World := (bworld * App)%type.
Abbreviation BotHandler := (MessageHandler (W := World) (Raw := TextMessage)).
Abbreviation runtime := (runtime (App := App)).
Abbreviation BotConfig := (Config (W := World) (Raw := TextMessage)).

Definition rt_log (r : runtime) : list TextMessage := fst (snd (rt_app r)).

(** What the handlers see, and with the saved state. *)
Definition seen (r : runtime) := (rt_log r, d_messageRoutes (rt_disp r), d_config (rt_disp r)).
Definition seen_last (r : runtime) := (seen r, rt_last r).

Variable bc : MTProtoBotConfig.
Variable o : BotConfig.
Variable c : ctx.
Variable ProbablyPrime : Z -> bool.
Variable keys : list RSAPublicKey.
Variable gunzip : list byte -> outcome (list byte).
Variable range_values : seen_map -> list PeerRef.
Variable peer_values : gmap Z PeerRef -> list PeerRef.
Variable custom_Load : nat -> option goerr -> string -> M stores (option SessionData).
Variable custom_Save : nat -> option goerr -> SessionData -> M stores unit.
Variable net_error : string -> bool.

(** *** The steps of the loop but the dispatch and the login keep both *)

Lemma last_world {B} (m : M bworld B) : frames seen_last (on_world (App := App) m).
Proof. by apply frames_zoom. Qed.
Lemma last_process {B} (m : M env B) : frames seen_last (on_process (App := App) m).
Proof. apply last_world. Qed.
Lemma last_stores {B} (m : M stores B) : frames seen_last (on_stores (App := App) m).
Proof. by apply frames_zoom. Qed.
Lemma last_poll : frames seen_last (poll_ctx (App := App)).
Proof. done. Qed.
#[local] Hint Resolve last_world last_process last_stores last_poll : frames.

Lemma last_SaveSession done : frames seen_last (SaveSession o peer_values custom_Save done).
Proof. unfold SaveSession, snapshotState. frames_steps. Qed.
#[local] Hint Resolve last_SaveSession : frames.
Lemma last_save_session : frames seen_last (save_session o peer_values custom_Save).
Proof. unfold save_session. frames_steps. Qed.
Lemma last_Close : frames seen_last (Close (App := App)).
Proof. unfold Close. frames_steps. Qed.
Lemma last_handleFloodWait err : frames seen_last (handleFloodWait o err).
Proof. unfold handleFloodWait. frames_steps. Qed.
#[local] Hint Resolve last_save_session last_Close last_handleFloodWait : frames.
Lemma last_deferred : frames seen_last (deferred o peer_values custom_Save).
Proof. unfold deferred. frames_steps. Qed.

(** What keeps both keeps what the handlers see. *)
Lemma seen_of_last {B} (m : M runtime B) : frames seen_last m -> frames seen m.
Proof. intros H r. specialize (H r). destruct (m r) as [[a|e|] r']; [exact (f_equal fst H)..|done]. Qed.

(** *** Logging in again sets the state that was loaded *)

Lemma seen_world {B} (m : M bworld B) : frames seen (on_world (App := App) m).
Proof. apply seen_of_last, last_world. Qed.
Lemma seen_process {B} (m : M env B) : frames seen (on_process (App := App) m).
Proof. apply seen_of_last, last_process. Qed.
Lemma seen_stores {B} (m : M stores B) : frames seen (on_stores (App := App) m).
Proof. apply seen_of_last, last_stores. Qed.
Lemma seen_save_session : frames seen (save_session o peer_values custom_Save).
Proof. apply seen_of_last, last_save_session. Qed.
Lemma seen_Close : frames seen (Close (App := App)).
Proof. apply seen_of_last, last_Close. Qed.
#[local] Hint Resolve seen_world seen_process seen_stores seen_save_session seen_Close : frames.

Lemma seen_loadSession : frames seen (loadSession o c custom_Load).
Proof. unfold loadSession. frames_steps. Qed.
#[local] Hint Resolve seen_loadSession : frames.
Lemma seen_set_client cl : frames seen (set_bot_client (App := App) cl).
Proof. apply seen_world. Qed.
Lemma seen_remember ps : frames seen (remember_peers (App := App) ps).
Proof. apply seen_world. Qed.
#[local] Hint Resolve seen_set_client seen_remember : frames.
Lemma seen_Login : frames seen (Login bc o c ProbablyPrime keys gunzip peer_values custom_Load custom_Save).
Proof. unfold Login, login_anew. frames_steps. Qed.
#[local] Hint Resolve seen_Login : frames.
Lemma seen_reconnect attempt :
  frames seen (reconnectWithBackoff bc o c ProbablyPrime keys gunzip peer_values custom_Load custom_Save attempt).
Proof. unfold reconnectWithBackoff, reconnect. frames_steps. Qed.

(** ** The dispatch *)

(** The handler that notes what it is given, and handlers that leave the notes
    alone. *)
Definition recorder : BotHandler :=
  modify (fun x => let '((w, (l, a)), m) := x in ((w, (l ++ match m_Raw m with Some t => [t] | None => [] end, a)), m)).
Definition world_log (x : World * Message World TextMessage) : list TextMessage := fst (snd (fst x)).
(** Code that leaves them alone, and a handler that does if what its message
    offers does. *)
Definition quiet : M World unit -> Prop := frames (fun w => fst (snd w)).
Definition observer (h : BotHandler) : Prop := forall x, message_all quiet (snd x) ->
  match h x with
  | (Panic, _) => True
  | (_, x') => world_log x' = world_log x /\ message_all quiet (snd x')
  end.

Lemma observer_handle (f : Message World TextMessage -> M World unit) :
  (forall m, message_all quiet m -> quiet (f m)) -> observer (handle f).
Proof.
  intros Hf [w m] Hm. unfold handle, zoom. cbn [fst snd] in *. specialize (Hf m Hm w).
  by destruct (f m w) as [[u|e|] w'].
Qed.

(** A dispatcher that is on, with the recorder first. *)
Record listening (r : runtime) : Prop := {
  ls_on : dc_UpdatesEnabled (d_config (rt_disp r)) = true;
  ls_routes : exists rest, d_messageRoutes (rt_disp r) = MkRoute (fun _ => true) recorder :: rest /\
    Forall (fun route => observer (mr_handler route)) rest }.

Lemma listening_seen r r' : seen r' = seen r -> listening r -> listening r'.
Proof.
  intros [= _ Hr Hc] [H1 (rest & H2 & H3)]. split; [by rewrite Hc|]. exists rest. by rewrite Hr.
Qed.

(** Steps of the caches: no error, the same routes. *)
Definition routing (d : Dispatcher (W := World) (Raw := TextMessage)) := (d_config d, d_messageRoutes d).
Definition cache_step {B} (m : M (Dispatcher (W := World) (Raw := TextMessage)) B) : Prop := forall d,
  match m d with (Ok _, d') => routing d' = routing d | (Err _, _) => False | (Panic, _) => True end.

Lemma cache_bind {B C} (m : M _ B) (k : B -> M _ C) : cache_step m -> (forall b, cache_step (k b)) -> cache_step (x <- m ;; k x).
Proof.
  intros Hm Hk d. specialize (Hm d). unfold bind. destruct (m d) as [[b|e|] d1]; [|done..].
  specialize (Hk b d1). rewrite <- Hm. exact Hk.
Qed.
Lemma cache_when b m : cache_step m -> cache_step (when b m).
Proof. by destruct b. Qed.
Lemma put_no_error (p : Peer TextMessage) cache e : PeerCache_Put p cache <> Err e.
Proof.
  unfold PeerCache_Put. destruct (_ =? 0); [done|]. destruct (_ <=? 0); [done|].
  destruct (_ !! _); [done|]. cbv zeta. destruct (_ <=? _); [|done]. by destruct (pc_order _).
Qed.
Lemma cache_put p : cache_step (Dispatcher_PutPeer p).
Proof.
  intros d. unfold Dispatcher_PutPeer, bind, get, lift, put. pose proof (put_no_error p (d_peers d)) as H.
  destruct (PeerCache_Put p (d_peers d)) as [x|e|]; [done|by destruct (H e)|done].
Qed.

Lemma caches_spec msg d :
  match dispatch_caches (W := World) (Raw := TextMessage) msg d with
  | (Ok matched, d') => matched = matchingRoutes d msg /\ routing d' = routing d
  | (Err _, _) => False
  | (Panic, _) => True
  end.
Proof.
  unfold dispatch_caches. rewrite (bind_ok get _ d d d) by done. cbv zeta.
  set (b := shouldCacheMessage _ _ _). set (b' := b || _).
  assert (H1 : cache_step (when b (c0 <- lift (MessageCache_Add msg (d_messages d)) ;; modify (set_messages c0)))).
  { apply cache_when. intros d0. unfold bind, lift, modify.
    assert (H : forall e, MessageCache_Add msg (d_messages d) <> Err e).
    { intros e. unfold MessageCache_Add. destruct (_ <=? 0); [done|]. destruct (_ <? _); [done|]. by destruct (_ && _). }
    destruct (MessageCache_Add _ _) as [x|e|]; [done|by destruct (H e)|done]. }
  assert (H2 : cache_step (when b' (cachePeers (Raw := TextMessage) msg))).
  { apply cache_when, cache_bind; [apply cache_when, cache_put|intros; apply cache_when, cache_put]. }
  specialize (H1 d). unfold bind. destruct (when b _ d) as [[[]|e|] d1]; [|done..].
  specialize (H2 d1). destruct (when b' _ d1) as [[[]|e|] d2]; [|done..]. by split; [|congruence].
Qed.

Lemma routes_log routes : Forall (fun route => observer (mr_handler route)) routes -> observer (run_routes routes).
Proof.
  induction 1 as [|route routes Hh _ IH]; cbn [run_routes]; [done|]. intros x Hx. specialize (Hh x Hx). unfold bind.
  destruct (mr_handler route x) as [[u|e|] x1]; [|done..]. destruct Hh as [<- Hx1]. exact (IH x1 Hx1).
Qed.

(** A message has been dispatched, whatever the handlers returned. *)
Lemma dispatch_spec msg t r : m_Raw msg = Some t -> message_all quiet msg -> listening r ->
  match try (dispatch msg) r with
  | (Ok _, r') => rt_log r' = rt_log r ++ [t] /\ listening r' /\ rt_last r' = rt_last r
  | (Err _, _) => False
  | (Panic, _) => True
  end.
Proof.
  intros Ht Hq [Hon (rest & Hr & Hf)]. unfold try, dispatch. unfold bind at 1, zoom at 1.
  pose proof (caches_spec msg (live_dispatcher r)) as C.
  destruct (dispatch_caches msg (live_dispatcher r)) as [[matched|e|] d']; [|done..].
  destruct C as [-> [= C1 C2]]. set (r1 := set_dispatcher d' r).
  rewrite (bind_ok get _ r1 r1 r1) by done. change (rt_disp r1) with d'.
  change (d_config (live_dispatcher r)) with (d_config (rt_disp r)) in C1.
  change (d_messageRoutes (live_dispatcher r)) with (d_messageRoutes (rt_disp r)) in C2.
  rewrite C1, Hon. cbn [negb]. unfold zoom, matchingRoutes. cbn [live_dispatcher set_peers d_messageRoutes]. rewrite Hr.
  cbn [List.filter mr_filter run_routes mr_handler]. unfold bind, recorder, modify.
  change (rt_app r1) with (fst (rt_app r1), snd (rt_app r)). destruct (snd (rt_app r)) as [l a] eqn:El. rewrite Ht.
  assert (Hl : listening r1) by (split; [change (rt_disp r1) with d'; by rewrite C1|exists rest; change (rt_disp r1) with d'; by rewrite C2]).
  assert (Hf' : Forall (fun route => observer (mr_handler route)) (List.filter (fun route => mr_filter route msg) rest)).
  { rewrite List.Forall_forall in *. intros x [Hin _]%filter_In. by apply Hf. }
  pose proof (routes_log _ Hf' ((fst (rt_app r1), (l ++ [t], a)), msg) Hq) as R.
  unfold rt_log at 2. rewrite El. cbn [fst].
  destruct (run_routes _ _) as [[u|e|] [w' m']]; [| |done]; destruct R as [R _]; (split; [exact R|]; split; [|done]);
    (destruct Hl as [L1 L2]; by split).
Qed.

(** ** A difference *)

(** The state to poll from after a difference. *)
Definition advance (state : UpdatesState) (d : DifferenceResult) : UpdatesState :=
  default state (mergeUpdateState (Some state) (df_State d)).

(** [m] ends well, having handed on [msgs] and left [last] as the state to save. *)
Definition hands_on {B} (m : M runtime B) (msgs : list TextMessage) (r : runtime) (Q : B -> runtime -> Prop) : Prop :=
  match m r with
  | (Ok b, r') => rt_log r' = rt_log r ++ msgs /\ listening r' /\ Q b r'
  | (Err _, _) => False
  | (Panic, _) => True
  end.

Lemma hands_bind {B C} (m : M runtime B) (k : B -> M runtime C) l1 l2 l r Q Q' :
  hands_on m l1 r Q -> l = l1 ++ l2 -> (forall b r1, listening r1 -> Q b r1 -> hands_on (k b) l2 r1 Q') ->
  hands_on (x <- m ;; k x) l r Q'.
Proof.
  intros Hm -> Hk. unfold hands_on, bind in *. destruct (m r) as [[b|e|] r1]; [|done..]. destruct Hm as (H1 & H2 & H3).
  specialize (Hk b r1 H2 H3). destruct (k b r1) as [[x|e|] r2]; [|done..]. destruct Hk as (K1 & K2 & K3).
  split; [|done]. by rewrite K1, H1, app_assoc.
Qed.

(** A step that hands on nothing and cannot fail. *)
Lemma hands_nothing {B} (m : M runtime B) r : frames seen_last m -> (forall s e s', m s <> (Err e, s')) -> listening r ->
  hands_on m [] r (fun _ r' => rt_last r' = rt_last r).
Proof.
  intros Hf Hn Hl. unfold hands_on. specialize (Hf r). destruct (m r) as [[b|e|] r'] eqn:E; [|by apply Hn in E|done].
  unfold seen_last, seen in Hf. injection Hf as H1 H2 H3 Hlast. rewrite app_nil_r. split; [done|]. split; [|done].
  apply (listening_seen r); [|done]. unfold seen. congruence.
Qed.

Lemma rememberPeers_no_error ps : forall b e b', rememberPeers ps b <> (Err e, b').
Proof.
  induction ps as [|p ps IH]; intros b e b'; cbn [rememberPeers]; [done|]. destruct (pr_ID p =? 0); [apply IH|].
  rewrite (bind_ok get _ b b b) by done. unfold bind, storePeerLocked. destruct (pr_ID _ =? 0); [apply IH|].
  unfold modify, bind, get, lift, put. cbn [bk_cache]. set (q := cache_peer _).
  pose proof (put_no_error q (bk_cache b)) as H.
  destruct (PeerCache_Put q (bk_cache b)) as [x|y|]; [apply IH|by destruct (H y)|done].
Qed.

Lemma remember_no_error ps s e s' : remember_peers (App := App) ps s <> (Err e, s').
Proof.
  unfold remember_peers, on_world, on_book, zoom.
  pose proof (rememberPeers_no_error ps (bt_book (bw_bot (rt_world s)))) as H.
  destruct (rememberPeers ps _) as [[u|x|] b]; [done|by destruct (H x b)|done].
Qed.

(** The messages handed on. *)
Lemma quiet_message peers t : message_all quiet
  (mtprotoTextMessageToUpdate (bot_reply o c gunzip) (bot_edit o c gunzip) (bot_delete o c gunzip) peers t).
Proof. split_and!; intros f [= <-]; intros; by apply frames_zoom. Qed.

Lemma deliver_spec t r : listening r ->
  hands_on (deliver o c gunzip t) [t] r (fun _ r' => rt_last r' = rt_last r).
Proof.
  intros Hl. unfold deliver. eapply (hands_bind _ _ [] [t]); [|done|].
  - apply hands_nothing; [apply last_world|apply remember_no_error|done].
  - intros u r1 H1 E1. cbv beta in E1. rewrite <- E1. unfold hands_on. rewrite (bind_ok get _ r1 r1 r1) by done.
    pose proof (dispatch_spec (mtprotoTextMessageToUpdate (bot_reply o c gunzip) (bot_edit o c gunzip) (bot_delete o c gunzip)
      (bk_peers (bt_book (rt_bot r1))) t) t r1 eq_refl (quiet_message _ t) H1) as D.
    unfold bind. by destruct (try (dispatch _) r1) as [[x|e|] r2].
Qed.

Lemma deliver_all_spec msgs : forall r, listening r ->
  hands_on (deliver_all o c gunzip msgs) msgs r (fun _ r' => rt_last r' = rt_last r).
Proof.
  induction msgs as [|t msgs IH]; intros r Hl; cbn [deliver_all].
  { unfold hands_on, ret. by rewrite app_nil_r. }
  eapply (hands_bind _ _ [t] msgs); [by apply deliver_spec|done|].
  intros u r1 H1 E1. cbv beta in E1. rewrite <- E1. by apply IH.
Qed.

Lemma save_no_error s e s' : save_session o peer_values custom_Save s <> (Err e, s').
Proof.
  unfold save_session, bind, poll_ctx, try. by destruct (SaveSession _ _ _ _ _) as [[u|x|] r1].
Qed.

Lemma apply_spec state d r : listening r ->
  hands_on (apply_difference o c gunzip peer_values custom_Save state d) (df_Messages d) r
    (fun state' r' => state' = advance state d /\ (rt_last r = Some state -> rt_last r' = Some state')).
Proof.
  intros Hl. unfold apply_difference. eapply (hands_bind _ _ [] (df_Messages d)); [|done|].
  { apply hands_nothing; [apply last_world|apply remember_no_error|done]. }
  intros u r1 H1 E1. cbv beta in E1. rewrite <- E1.
  eapply (hands_bind _ _ (df_Messages d) []); [by apply deliver_all_spec|by rewrite app_nil_r|].
  intros u2 r2 H2 E2. cbv beta in E2. rewrite <- E2. eapply (hands_bind _ _ [] [] []); [|done|].
  - instantiate (1 := fun state' r' => state' = advance state d /\ (rt_last r2 = Some state -> rt_last r' = Some state')).
    unfold hands_on, advance. destruct (df_State d) as [n|] eqn:En.
    + cbn. rewrite app_nil_r. split; [done|]. split; [|done]. by apply (listening_seen r2).
    + cbn. by rewrite app_nil_r.
  - intros state' r3 H3 [-> E3]. eapply (hands_bind _ _ [] [] []); [|done|].
    { apply hands_nothing; [apply last_save_session|apply save_no_error|done]. }
    intros u4 r4 H4 E4. cbv beta in E4. unfold hands_on, ret. rewrite app_nil_r. split; [done|]. split; [done|].
    split; [done|]. by rewrite E4.
Qed.

(** ** The polls *)

(** [updates.getDifference] for a state. *)
Definition poll (state : UpdatesState) : M runtime DifferenceResult :=
  on_world (on_bot_client (value_of (UpdatesGetDifference gunzip range_values c state (bc_PTSLimit bc)))).

(** A sequence of answers, each to a request for the state the ones before it
    led to. *)
Inductive polled (from : UpdatesState) : list (DifferenceResult + goerr) -> UpdatesState -> Prop :=
| polled_none : polled from [] from
| polled_difference answers state d r r' :
    polled from answers state -> poll state r = (Ok d, r') -> polled from (answers ++ [inl d]) (advance state d)
| polled_error answers state e r r' :
    polled from answers state -> poll state r = (Err e, r') -> polled from (answers ++ [inr e]) state.

Definition messages (answers : list (DifferenceResult + goerr)) : list TextMessage :=
  flat_map (fun a => match a with inl d => df_Messages d | inr _ => [] end) answers.

(** After [answers], from a bot with the notes [l0]. *)
Record delivered (from : UpdatesState) (l0 : list TextMessage) (answers : list (DifferenceResult + goerr))
    (state : UpdatesState) (r : runtime) : Prop := {
  dl_polled : polled from answers state;
  dl_log : rt_log r = l0 ++ messages answers;
  dl_last : cf_AutoReconnect o = false -> rt_last r = Some state;
  dl_listening : listening r }.

(** How a loop of [ticks] rounds ended. *)
Definition loop_ended (ticks : nat) (answers : list (DifferenceResult + goerr)) : Prop :=
  length answers = ticks \/ exists e, last answers = Some (inr e).

Lemma delivered_frame from l0 answers state r r' : seen_last r' = seen_last r -> delivered from l0 answers state r ->
  delivered from l0 answers state r'.
Proof.
  intros E [H1 H2 H3 H4]. unfold seen_last, seen in E. injection E as E1 E2 E3 E4. split; [done| | |].
  - by rewrite E1.
  - by rewrite E4.
  - apply (listening_seen r); [|done]. unfold seen. congruence.
Qed.

Lemma poll_no_panic_frame state r : match poll state r with (Panic, _) => True | (_, r') => seen_last r' = seen_last r end.
Proof. exact (last_world _ r). Qed.

Abbreviation run_loop := (run_loop bc o c ProbablyPrime keys gunzip range_values peer_values custom_Load custom_Save net_error).

Lemma loop_delivers from l0 cancel ticks : forall state errors answers r,
  delivered from l0 answers state r ->
  match run_loop ticks cancel state errors r with
  | (Ok _, _) => False
  | (Err _, r') => exists answers' state', delivered from l0 answers' state' r' /\ loop_ended (length answers + ticks) answers'
  | (Panic, _) => True
  end.
Proof.
  induction ticks as [|ticks IH]; intros state errors answers r H; cbn [Runtime.run_loop].
  { exists answers, state. split; [done|]. left. lia. }
  replace (length answers + S ticks)%nat with (S (length answers) + ticks)%nat by lia.
  fold (poll state). pose proof (poll_no_panic_frame state r) as F. unfold bind at 1, try at 1.
  destruct (poll state r) as [[d|e|] r1] eqn:E; [| |done].
  - apply (delivered_frame _ _ _ _ _ _ F) in H. destruct H as [H1 H2 H3 H4].
    pose proof (apply_spec state d r1 H4) as P. unfold hands_on in P. unfold bind.
    destruct (apply_difference _ _ _ _ _ state d r1) as [[state'|e|] r2]; [|done..]. destruct P as (P1 & P2 & -> & P3).
    specialize (IH (advance state d) 0 (answers ++ [inl d]) r2). rewrite length_app, Nat.add_1_r in IH. apply IH.
    split; [by eapply polled_difference| |by intros Ha; apply P3, H3|done].
    unfold messages. rewrite P1, H2, flat_map_app, app_assoc. cbn. by rewrite app_nil_r.
  - apply (delivered_frame _ _ _ _ _ _ F) in H.
    assert (H' : delivered from l0 (answers ++ [inr e]) state r1).
    { destruct H as [H1 H2 H3 H4]. split; [by eapply polled_error| |done|done].
      unfold messages in *. rewrite H2, flat_map_app. cbn. by rewrite app_nil_r. }
    assert (Hlen : length (answers ++ [inr e]) = S (length answers)) by (rewrite length_app; cbn; lia).
    rewrite <- Hlen. unfold bind at 1, poll_ctx. set (r2 := Rt _ _ _ _ _ _).
    assert (H2 : delivered from l0 (answers ++ [inr e]) state r2) by (by apply (delivered_frame _ _ _ _ r1)).
    destruct (match rt_ctx r1 with [] => None | d :: _ => d end) as [x|].
    { eexists _, _. split; [exact H2|]. right. exists e. apply last_snoc. }
    pose proof (last_handleFloodWait e r2) as F2. unfold bind at 1.
    destruct (handleFloodWait o e r2) as [[w|x|] r3] eqn:E3; [| |done].
    2:{ eexists _, _. split; [by apply (delivered_frame _ _ _ _ r2)|]. right. exists e. apply last_snoc. }
    apply (delivered_frame _ _ _ _ _ _ F2) in H2.
    destruct w; [by apply IH|]. destruct (cf_AutoReconnect o) eqn:Ea; cbn [andb]; [|by apply IH].
    destruct (isTemporaryNetworkError net_error e); [|by apply IH]. cbv zeta.
    pose proof (seen_reconnect (i64 (errors + 1)) r3) as F4. unfold bind, try.
    destruct (reconnectWithBackoff _ _ _ _ _ _ _ _ _ _ r3) as [[u|x|] r4]; [| |done]; apply IH;
      (destruct H2 as [D1 D2 D3 D4]; split; [done| |congruence|by apply (listening_seen r3)]);
      unfold seen in F4; injection F4 as F5 _ _; by rewrite F5.
Qed.

(** *** The run of a bot that is logged in and has a state *)

Abbreviation Run := (Run bc o c ProbablyPrime keys gunzip range_values peer_values custom_Load custom_Save net_error).

Lemma Run_delivers ticks cancel r from : listening r -> is_Some (bt_client (rt_bot r)) -> rt_last r = Some from ->
  cf_Updates o = true ->
  match Run ticks cancel r with
  | (Ok _, _) => False
  | (Err _, r') => exists answers state, delivered from (rt_log r) answers state r' /\ loop_ended ticks answers
  | (Panic, _) => True
  end.
Proof.
  intros Hl [cl Hc] Hs Hu. unfold Runtime.Run. rewrite (bind_ok get _ r r r) by done. rewrite Hc, bind_ret.
  assert (H0 : delivered from (rt_log r) [] from r) by (split; [constructor|by rewrite app_nil_r|done|done]).
  unfold run_body, snapshotState. unfold bind at 1, try at 1. rewrite !bind_assoc.
  rewrite (bind_ok get _ r r r) by done. rewrite bind_ret, Hs, bind_ret.
  pose proof (last_save_session r) as F. unfold bind at 1.
  pose proof (save_no_error r) as N. destruct (save_session o peer_values custom_Save r) as [[u|e|] r1]; [|by destruct (N e r1)|done].
  apply (delivered_frame _ _ _ _ _ _ F) in H0. rewrite Hu. cbn [negb].
  pose proof (loop_delivers from (rt_log r) cancel ticks from 0 [] r1 H0) as L.
  destruct (run_loop ticks cancel from 0 r1) as [[x|e|] r2]; [done| |done]. destruct L as (answers & state & L1 & L2).
  pose proof (last_deferred r2) as D. unfold bind.
  assert (Nd : forall y r3, deferred o peer_values custom_Save r2 <> (Err y, r3)).
  { intros y r3. unfold deferred, bind, try. destruct (SaveSession _ _ _ _ _) as [[?|?|] r4]; [..|done]; by destruct (Close r4) as [[?|?|] ?]. }
  destruct (deferred o peer_values custom_Save r2) as [[y|y|] r3]; [|by destruct (Nd y r3)|done].
  exists answers, state. split; [by apply (delivered_frame _ _ _ _ r2)|done].
Qed.
End Delivery.


(** The bot of [Calls], with the recorder. *)
Definition heard_config : Config (W := bworld * (list TextMessage * unit)) (Raw := TextMessage) :=
  default_config 1 "hash" "mtproto_bot".
Definition heard_state : UpdatesState := MkState 7 0 3 1 0 [].
Definition heard_bot : runtime (App := list TextMessage * unit) :=
  Rt (demo_world, ([], tt)) (Dispatcher_OnMessage None (Some recorder) (config_dispatcher heard_config)) false
    (Some heard_state) (Stores ∅ ∅ [] []) [].

Lemma heard_bot_inv : rt_inv 0 heard_bot.
Proof.
  assert (Hs : sound (config_dispatcher heard_config) [] []) by apply NewDispatcher_sound.
  split.
  - split; [|done]. exists (Link (Conn [] [] []) None), demo_state. do 3 (split; [reflexivity|]). exact demo_state_wf.
  - apply remember_ok, map_Forall_empty.
  - exists []. apply represents_new.
  - apply map_Forall_empty.
  - exists []. apply Hs.
  - constructor; [|constructor]. intros s0 [[w [l a]] m] H. exact H.
Qed.

