(* ===== verification/BotClient.v ===== *)
(** * BotClient: the Bot API client (src/internal/botapi/client.go)

    Forms as [net/url] encodes them, the exchange of a form for a JSON document
    over HTTP, and the three methods.  The network is a parameter: a function
    from the endpoint and the body of a request to what comes back. *)

From S2P Require Import Prelude Strings Json Codec.

(** ** Forms ([net/url])

    [url.Values] by its keys in order, as [Encode] writes them. *)

Definition Values := list (string * string).

Fixpoint Values_Set (key value : string) (vs : Values) : Values :=
  match vs with
  | [] => [(key, value)]
  | (k, v) :: rest =>
      match String.compare key k with
      | Eq => (key, value) :: rest
      | Lt => (key, value) :: vs
      | Gt => (k, v) :: Values_Set key value rest
      end
  end.

(** What [url.QueryEscape] leaves as it is: letters, digits and [-._~]. *)
Definition unreserved (b : byte) : bool :=
  between 65 b 90 || between 97 b 122 || between 48 b 57 ||
  match b with x2d | x2e | x5f | x7e => true | _ => false end.
Definition upper_hex (d : Z) : byte := z2b (if d <? 10 then 48 + d else 55 + d).
Definition escape_byte (b : byte) : list byte :=
  if unreserved b then [b]
  else match b with
       | x20 => [x2b]
       | _ => [x25; upper_hex (b2z b / 16); upper_hex (b2z b mod 16)]
       end.
Definition QueryEscape (s : string) : list byte := flat_map escape_byte (bytes_of s).

Definition encode_pair (kv : string * string) : list byte := QueryEscape (fst kv) ++ x3d :: QueryEscape (snd kv).
Fixpoint join_amp (l : list (list byte)) : list byte :=
  match l with [] => [] | [p] => p | p :: rest => p ++ x26 :: join_amp rest end.
Definition Values_Encode (vs : Values) : list byte := join_amp (map encode_pair vs).

(** What the form means to the other side: pairs separated by [&], cut at the
    first [=], with [+] for a space and [%XX]. *)
Fixpoint unescape (l : list byte) : option (list byte) :=
  match l with
  | [] => Some []
  | x25 :: r =>
      match r with
      | a :: b :: r =>
          match hex_val a, hex_val b with
          | Some h, Some l => option_map (cons (z2b (h * 16 + l))) (unescape r)
          | _, _ => None
          end
      | _ => None
      end
  | x2b :: r => option_map (cons x20) (unescape r)
  | b :: r => option_map (cons b) (unescape r)
  end.

Fixpoint split_on (c : byte) (l cur : list byte) : list (list byte) :=
  match l with
  | [] => [rev cur]
  | b :: r => if Byte.eqb b c then rev cur :: split_on c r [] else split_on c r (b :: cur)
  end.
Fixpoint cut_at (c : byte) (l : list byte) : list byte * list byte :=
  match l with
  | [] => ([], [])
  | b :: r => if Byte.eqb b c then ([], r) else let '(x, y) := cut_at c r in (b :: x, y)
  end.
Definition parse_pair (part : list byte) : option (string * string) :=
  let '(k, v) := cut_at x3d part in
  match unescape k, unescape v with Some k, Some v => Some (string_of k, string_of v) | _, _ => None end.
Definition parse_form (body : list byte) : option Values :=
  match body with [] => Some [] | _ => mapM parse_pair (split_on x26 body []) end.

Example escape_1 : map QueryEscape ["a b&c=d"; "/start@me"; string_of [xc3; xa9; x0a]]%string =
  map bytes_of ["a+b%26c%3Dd"; "%2Fstart%40me"; "%C3%A9%0A"]%string.
Proof. vm_compute. reflexivity. Qed.
Example encode_1 : Values_Encode (Values_Set "text" "hi" (Values_Set "chat_id" "-5" [])) = bytes_of "chat_id=-5&text=hi".
Proof. vm_compute. reflexivity. Qed.

(** *** A form reads back *)

Definition form_char (b : byte) : bool := unreserved b || match b with x2b | x25 => true | _ => false end.

Lemma hex_val_upper d : 0 <= d < 16 -> hex_val (upper_hex d) = Some d /\ form_char (upper_hex d) = true.
Proof.
  intros H. assert (Hd : In d (map Z.of_nat (seq 0 16))).
  { apply in_map_iff. exists (Z.to_nat d). rewrite in_seq. lia. }
  cbn in Hd. by repeat destruct Hd as [<-|Hd]; vm_compute.
Qed.

Lemma escape_byte_spec b r :
  forallb form_char (escape_byte b) = true /\ unescape (escape_byte b ++ r) = option_map (cons b) (unescape r).
Proof.
  unfold escape_byte. destruct (unreserved b) eqn:U.
  { split; [cbn; unfold form_char; by rewrite U|]. destruct b; first [reflexivity|discriminate U]. }
  assert (Hz : 0 <= b2z b < 256) by apply b2z_range.
  destruct (hex_val_upper (b2z b / 16)) as [H1 H2]; [split; [apply Z.div_pos|apply Z.div_lt_upper_bound]; lia|].
  destruct (hex_val_upper (b2z b mod 16)) as [H3 H4]; [apply Z.mod_pos_bound; lia|].
  assert (Hb : b = x20 \/ (match b with x20 => [x2b] | _ => [x25; upper_hex (b2z b / 16); upper_hex (b2z b mod 16)] end =
     [x25; upper_hex (b2z b / 16); upper_hex (b2z b mod 16)])) by (clear; destruct b; first [left; reflexivity|right; reflexivity]).
  clear U. destruct Hb as [->|Hb]; [by split|]. rewrite Hb. clear Hb. split; [cbn [forallb]; by rewrite H2, H4|].
  cbn [app unescape]. rewrite H1, H3. do 2 f_equal.
  replace (b2z b / 16 * 16 + b2z b mod 16) with (b2z b) by (pose proof (Z.div_mod (b2z b) 16); lia). by rewrite z2b_b2z.
Qed.

Lemma QueryEscape_chars s : forallb form_char (QueryEscape s) = true.
Proof.
  unfold QueryEscape. induction (bytes_of s) as [|b l IH]; [done|]. cbn [flat_map]. rewrite forallb_app, IH.
  by rewrite (proj1 (escape_byte_spec b [])).
Qed.

Lemma unescape_escape s : unescape (QueryEscape s) = Some (bytes_of s).
Proof.
  unfold QueryEscape. induction (bytes_of s) as [|b l IH]; [done|]. cbn [flat_map].
  rewrite (proj2 (escape_byte_spec b _)), IH. done.
Qed.

Lemma eqb_refl_byte c : Byte.eqb c c = true.
Proof. by destruct c. Qed.

Lemma split_on_app c p r cur : forallb (fun b => negb (Byte.eqb b c)) p = true ->
  split_on c (p ++ c :: r) cur = (rev cur ++ p) :: split_on c r [].
Proof.
  revert cur. induction p as [|b p IH]; intros cur H; cbn [app split_on].
  { rewrite eqb_refl_byte. by rewrite app_nil_r. }
  cbn [forallb] in H. apply andb_true_iff in H as [H1 H2]. destruct (Byte.eqb b c); [done|].
  rewrite IH by done. cbn [rev]. by rewrite <- app_assoc.
Qed.
Lemma split_on_all c p cur : forallb (fun b => negb (Byte.eqb b c)) p = true -> split_on c p cur = [rev cur ++ p].
Proof.
  revert cur. induction p as [|b p IH]; intros cur H; cbn [split_on]; [by rewrite app_nil_r|].
  cbn [forallb] in H. apply andb_true_iff in H as [H1 H2]. destruct (Byte.eqb b c); [done|].
  rewrite IH by done. cbn [rev]. by rewrite <- app_assoc.
Qed.
Lemma cut_at_app c p r : forallb (fun b => negb (Byte.eqb b c)) p = true -> cut_at c (p ++ c :: r) = (p, r).
Proof.
  induction p as [|b p IH]; intros H; cbn [app cut_at].
  { by rewrite eqb_refl_byte. }
  cbn [forallb] in H. apply andb_true_iff in H as [H1 H2]. destruct (Byte.eqb b c); [done|]. by rewrite IH.
Qed.

(** What an escaped text does not contain. *)
Lemma form_char_no c : form_char c = false -> forall l, forallb form_char l = true -> forallb (fun b => negb (Byte.eqb b c)) l = true.
Proof.
  intros Hc l. induction l as [|b l IH]; [done|]. cbn [forallb]. intros [H1 H2]%andb_true_iff. rewrite IH, andb_true_r by done.
  destruct (Byte.eqb b c) eqn:E; [|done]. apply Byte.byte_dec_bl in E. congruence.
Qed.

Lemma parse_pair_encode kv : parse_pair (encode_pair kv) = Some kv.
Proof.
  unfold parse_pair, encode_pair. rewrite cut_at_app by (apply form_char_no; [done|apply QueryEscape_chars]).
  rewrite !unescape_escape, !string_of_bytes_of. by destruct kv.
Qed.

Lemma encode_pair_no_amp kv : forallb (fun b => negb (Byte.eqb b x26)) (encode_pair kv) = true.
Proof.
  unfold encode_pair. rewrite forallb_app. cbn [forallb]. rewrite !(form_char_no x26) by (done || apply QueryEscape_chars). done.
Qed.

Lemma parse_form_encode vs : parse_form (Values_Encode vs) = Some vs.
Proof.
  destruct vs as [|kv vs]; [done|]. unfold parse_form.
  assert (H : mapM parse_pair (split_on x26 (Values_Encode (kv :: vs)) []) = Some (kv :: vs)).
  { unfold Values_Encode. revert kv. induction vs as [|kv' vs IH]; intros kv; cbn [map].
    - cbn [join_amp]. rewrite split_on_all by apply encode_pair_no_amp. cbn. by rewrite parse_pair_encode.
    - change (join_amp (?p :: ?q :: ?r)) with (p ++ x26 :: join_amp (q :: r)).
      rewrite split_on_app by apply encode_pair_no_amp. cbn [rev app mapM]. rewrite parse_pair_encode.
      cbn [mbind option_bind]. cbn [map] in IH. by rewrite IH. }
  destruct (Values_Encode (kv :: vs)) eqn:E; [|done]. unfold Values_Encode in E. cbn [map join_amp] in E.
  destruct vs; cbn [map] in E; unfold encode_pair in E; by destruct (QueryEscape kv.1).
Qed.

(** ** The API's types *)

Record ApiUser := MkApiUser { u_ID : Z; u_IsBot : bool; u_FirstName : string; u_Username : string }.
Record ApiChat := MkApiChat { c_ID : Z; c_Type : string; c_Title : string; c_Username : string }.
Record ApiMessage := MkApiMessage { am_MessageID : Z; am_From : option ApiUser; am_Chat : ApiChat; am_Text : string }.
Record Update := MkUpdate { up_UpdateID : Z; up_Message : option ApiMessage }.
Record apiResponse (T : Type) := MkResponse { rs_OK : bool; rs_Description : string; rs_Result : T }.
Arguments MkResponse {T} rs_OK rs_Description rs_Result.
Arguments rs_OK {T} a.
Arguments rs_Description {T} a.
Arguments rs_Result {T} a.

Definition zero_User : ApiUser := MkApiUser 0 false EmptyString EmptyString.
Definition zero_Chat : ApiChat := MkApiChat 0 EmptyString EmptyString EmptyString.
Definition zero_ApiMessage : ApiMessage := MkApiMessage 0 None zero_Chat EmptyString.
Definition zero_Update : Update := MkUpdate 0 None.

Definition User_fields : list (field ApiUser) :=
  [field_of "id" u_ID (fun x u => MkApiUser x (u_IsBot u) (u_FirstName u) (u_Username u)) dec_int64;
   field_of "is_bot" u_IsBot (fun x u => MkApiUser (u_ID u) x (u_FirstName u) (u_Username u)) dec_bool;
   field_of "first_name" u_FirstName (fun x u => MkApiUser (u_ID u) (u_IsBot u) x (u_Username u)) dec_string;
   field_of "username" u_Username (fun x u => MkApiUser (u_ID u) (u_IsBot u) (u_FirstName u) x) dec_string].

Definition Chat_fields : list (field ApiChat) :=
  [field_of "id" c_ID (fun x c => MkApiChat x (c_Type c) (c_Title c) (c_Username c)) dec_int64;
   field_of "type" c_Type (fun x c => MkApiChat (c_ID c) x (c_Title c) (c_Username c)) dec_string;
   field_of "title" c_Title (fun x c => MkApiChat (c_ID c) (c_Type c) x (c_Username c)) dec_string;
   field_of "username" c_Username (fun x c => MkApiChat (c_ID c) (c_Type c) (c_Title c) x) dec_string].

Definition ApiMessage_fields : list (field ApiMessage) :=
  [field_of "message_id" am_MessageID (fun x m => MkApiMessage x (am_From m) (am_Chat m) (am_Text m)) dec_int64;
   field_of "from" am_From (fun x m => MkApiMessage (am_MessageID m) x (am_Chat m) (am_Text m))
     (dec_pointer (dec_struct User_fields) zero_User);
   field_of "chat" am_Chat (fun x m => MkApiMessage (am_MessageID m) (am_From m) x (am_Text m)) (dec_struct Chat_fields);
   field_of "text" am_Text (fun x m => MkApiMessage (am_MessageID m) (am_From m) (am_Chat m) x) dec_string].

Definition Update_fields : list (field Update) :=
  [field_of "update_id" up_UpdateID (fun x u => MkUpdate x (up_Message u)) dec_int64;
   field_of "message" up_Message (fun x u => MkUpdate (up_UpdateID u) x)
     (dec_pointer (dec_struct ApiMessage_fields) zero_ApiMessage)].

Definition response_fields {T} (dec : decoder T) : list (field (apiResponse T)) :=
  [field_of "ok" rs_OK (fun x r => MkResponse x (rs_Description r) (rs_Result r)) dec_bool;
   field_of "description" rs_Description (fun x r => MkResponse (rs_OK r) x (rs_Result r)) dec_string;
   field_of "result" rs_Result (fun x r => MkResponse (rs_OK r) (rs_Description r) x) dec].

(** [var result apiResponse[T]], decoded. *)
Definition parse_response {T} (dec : decoder T) (zero : T) (data : list byte) : outcome (apiResponse T) :=
  Unmarshal (dec_struct (response_fields dec)) (MkResponse false EmptyString zero) data.

(** ** The client *)

Record BotApiClient := MkBotApiClient { ba_token : string; ba_baseURL : string }.

Definition BotApi_New (token : string) : outcome BotApiClient :=
  if (TrimSpace token =? EmptyString)%string then Err (ErrNew "bot token is required")
  else Ok (MkBotApiClient token ("https://api.telegram.org/bot" ++ token ++ "/")%string).

(** What comes back of a request: an error of [NewRequestWithContext] or of
    [Do], or a status with a body, whose reading may end with an error. *)
Inductive http_result :=
| HttpFails (err : goerr)
| HttpReply (status : Z) (body : list byte) (cut : option goerr).

Section Client.
Context {Net : Type}.
(** The network: what a POST of a form to an endpoint brings. *)
Variable exchange : string -> list byte -> Net -> http_result * Net.
Variable c : BotApiClient.

(** The request, and the body that comes back with a good status. *)
Definition post (method : string) (form : Values) : M Net (list byte) :=
  resp <- (fun n => let '(r, n') := exchange (ba_baseURL c ++ method)%string (Values_Encode form) n in (Ok r, n')) ;;
  match resp with
  | HttpFails err => fail err
  | HttpReply _ _ (Some err) => fail err
  | HttpReply status body None =>
      guard (negb ((status <? 200) || (300 <=? status)))
        (ErrFmt "telegram bot api http %d: %s" [FZ status; FS (TrimSpace (string_of body))]) ;;
      ret body
  end.

Definition postForm {T} (dec : decoder T) (zero : T) (method : string) (form : Values) : M Net (apiResponse T) :=
  body <- post method form ;; lift (parse_response dec zero body).

(** [if !result.OK { return errors.New(result.Description) }] *)
Definition checked {T} (r : apiResponse T) : outcome T :=
  if rs_OK r then Ok (rs_Result r) else Err (ErrNew (rs_Description r)).

Definition BotApi_GetMe : M Net ApiUser :=
  result <- postForm (dec_struct User_fields) zero_User "getMe" [] ;; lift (checked result).

Definition updates_form (offset timeoutSeconds : Z) : Values :=
  let form := if negb (offset =? 0) then Values_Set "offset" (FormatInt offset) [] else [] in
  let form := if 0 <? timeoutSeconds then Values_Set "timeout" (FormatInt timeoutSeconds) form else form in
  Values_Set "allowed_updates" ("[" ++ qt ++ "message" ++ qt ++ "]")%string form.

Definition GetUpdates (offset timeoutSeconds : Z) : M Net (list Update) :=
  result <- postForm (dec_slice (dec_struct Update_fields) zero_Update) [] "getUpdates" (updates_form offset timeoutSeconds) ;;
  lift (checked result).

Definition message_form (chatID : Z) (text : string) (replyToMessageID : Z) : Values :=
  let form := Values_Set "text" text (Values_Set "chat_id" (FormatInt chatID) []) in
  if 0 <? replyToMessageID then Values_Set "reply_to_message_id" (FormatInt replyToMessageID) form else form.

Definition BotApi_SendMessage (chatID : Z) (text : string) (replyToMessageID : Z) : M Net unit :=
  result <- postForm (dec_struct ApiMessage_fields) zero_ApiMessage "sendMessage" (message_form chatID text replyToMessageID) ;;
  _ <- lift (checked result) ;; ret tt.

End Client.

(** ** Properties *)

Lemma User_fields_total : total (dec_struct User_fields).
Proof. fields_total. Qed.
Lemma Chat_fields_total : total (dec_struct Chat_fields).
Proof. fields_total. Qed.
#[local] Hint Resolve User_fields_total Chat_fields_total : json.
Lemma ApiMessage_fields_total : total (dec_struct ApiMessage_fields).
Proof. fields_total. Qed.
#[local] Hint Resolve ApiMessage_fields_total : json.
Lemma Update_fields_total : total (dec_struct Update_fields).
Proof. fields_total. Qed.
#[local] Hint Resolve Update_fields_total : json.

Lemma parse_response_total {T} (dec : decoder T) zero data : total dec -> parse_response dec zero data <> Panic.
Proof. intros H. apply Unmarshal_total. fields_total. Qed.

Section Total.
Context {Net : Type}.
Variable exchange : string -> list byte -> Net -> http_result * Net.
Variable c : BotApiClient.

Lemma post_nopanic method form : nopanic (post exchange c method form).
Proof.
  unfold post. apply nopanic_bind; [|intros [e|s b [e|]]; auto with nopanic].
  - intros n _. by destruct (exchange _ _ n).
  - by apply nopanic_bind; [apply nopanic_guard|intros _; apply nopanic_ret].
Qed.

Lemma postForm_nopanic {T} (dec : decoder T) zero method form : total dec -> nopanic (postForm exchange c dec zero method form).
Proof. intros H. apply nopanic_bind; [apply post_nopanic|intros b; by apply nopanic_lift, parse_response_total]. Qed.

Lemma checked_total {T} (r : apiResponse T) : checked r <> Panic.
Proof. unfold checked. by destruct (rs_OK r). Qed.

Lemma BotApi_GetMe_nopanic : nopanic (BotApi_GetMe exchange c).
Proof. apply nopanic_bind; [apply postForm_nopanic, User_fields_total|intros r; apply nopanic_lift, checked_total]. Qed.
Lemma GetUpdates_nopanic offset timeout : nopanic (GetUpdates exchange c offset timeout).
Proof.
  apply nopanic_bind; [apply postForm_nopanic, dec_slice_total, Update_fields_total|intros r; apply nopanic_lift, checked_total].
Qed.
Lemma BotApi_SendMessage_nopanic chatID text reply : nopanic (BotApi_SendMessage exchange c chatID text reply).
Proof.
  apply nopanic_bind; [apply postForm_nopanic, ApiMessage_fields_total|intros r].
  apply nopanic_bind; [apply nopanic_lift, checked_total|intros; apply nopanic_ret].
Qed.
End Total.

(** What the Bot API client sends can be read back
    (internal/botapi/client.go, [SendMessage], [GetUpdates]): the form of a
    message decodes to exactly the chat, the reply if there is one, and the text,
    whatever bytes the text has; the form of a poll to the offset and timeout,
    each left out when it does not apply, so that polls for different offsets
    differ. *)
Theorem forms_read_back (chatID : Z) (text : string) (reply offset timeout : Z) :
  parse_form (Values_Encode (message_form chatID text reply)) =
    Some ([("chat_id"%string, FormatInt chatID)] ++
          (if 0 <? reply then [("reply_to_message_id"%string, FormatInt reply)] else []) ++ [("text"%string, text)]) /\
  parse_form (Values_Encode (updates_form offset timeout)) =
    Some ([("allowed_updates"%string, ("[" ++ qt ++ "message" ++ qt ++ "]")%string)] ++
          (if offset =? 0 then [] else [("offset"%string, FormatInt offset)]) ++
          (if 0 <? timeout then [("timeout"%string, FormatInt timeout)] else [])) /\
  (is_i64 offset -> forall offset', is_i64 offset' ->
   Values_Encode (updates_form offset timeout) = Values_Encode (updates_form offset' timeout) -> offset = offset').
Proof.
  rewrite !parse_form_encode.
  assert (E : forall o, updates_form o timeout =
    [("allowed_updates"%string, ("[" ++ qt ++ "message" ++ qt ++ "]")%string)] ++
          (if o =? 0 then [] else [("offset"%string, FormatInt o)]) ++
          (if 0 <? timeout then [("timeout"%string, FormatInt timeout)] else [])).
  { intros o. unfold updates_form. by destruct (o =? 0), (0 <? timeout). }
  split; [unfold message_form; by destruct (0 <? reply)|]. split; [by rewrite E|].
  intros H1 o' H2 H. assert (Hp := parse_form_encode (updates_form offset timeout)).
  rewrite H, parse_form_encode, !E in Hp. injection Hp as Hp.
  destruct (Z.eqb_spec o' 0) as [->|N1], (Z.eqb_spec offset 0) as [->|N2], (0 <? timeout); try done;
    injection Hp; intros; try discriminate; by apply FormatInt_inj.
Qed.

Lemma forms_read_back_witness :
  parse_form (Values_Encode (message_form (-1001) "a & b = c%" 7)) =
    Some [("chat_id", "-1001"); ("reply_to_message_id", "7"); ("text", "a & b = c%")]%string /\
  Values_Encode (updates_form 5 30) <> Values_Encode (updates_form 6 30).
Proof.
  destruct (forms_read_back (-1001) "a & b = c%" 7 5 30) as (H1 & _ & H3). split; [exact H1|].
  intros H. assert (W : forall z, 0 <= z < 10 -> is_i64 z) by (unfold is_i64, two63; lia).
  specialize (H3 (W 5 ltac:(lia)) 6 (W 6 ltac:(lia)) H). discriminate.
Defined.
