(* ===== verification/BotApi.v ===== *)
(** * BotApi: the Bot API runtime (src/bot.go)

    Construction of the bot, its login, and the long-polling loop that hands the
    messages of the updates to the dispatcher. *)

From S2P Require Import Prelude Strings Transport Json Codec Updates Dispatcher Filters Session Saved Config BotClient.

(** ** The bot's surroundings

    The network, the clock and the sleeps. *)
Record surroundings (Net : Type) := Around {
  sr_net : Net; sr_clock : nat -> Z; sr_tick : nat; sr_slept : list Z }.
Arguments Around {Net} sr_net sr_clock sr_tick sr_slept.
Arguments sr_net {Net} s.
Arguments sr_clock {Net} s.
Arguments sr_tick {Net} s.
Arguments sr_slept {Net} s.

Section Polling.
Context {Net App : Type}.
Abbreviation World := (surroundings Net * App)%type.
Abbreviation Message := (Message World ApiMessage).
Abbreviation BotDispatcher := (Dispatcher (W := World) (Raw := ApiMessage)).
Abbreviation BotHandler := (MessageHandler (W := World) (Raw := ApiMessage)).
Abbreviation BotOption := (Option (W := World) (Raw := ApiMessage)).

Variable exchange : string -> list byte -> Net -> http_result * Net.

Definition on_net {A} (m : M Net A) : M (surroundings Net) A :=
  zoom sr_net (fun n s => Around n (sr_clock s) (sr_tick s) (sr_slept s)) m.
Definition time_Now : M (surroundings Net) Z := fun s =>
  (Ok (sr_clock s (sr_tick s)), Around (sr_net s) (sr_clock s) (S (sr_tick s)) (sr_slept s)).
Definition time_Sleep (d : Z) : M (surroundings Net) unit :=
  modify (fun s => Around (sr_net s) (sr_clock s) (sr_tick s) (sr_slept s ++ [d])).

Record BotConfig := MkBotConfig {
  bc_APIID : Z; bc_APIHash : string; bc_Token : string; bc_Session : string; bc_PollTimeout : Z;
  bc_Updates : bool; bc_DropPendingUpdates : bool;
  bc_MessageCacheSize : Z; bc_MessageCacheMode : MessageCacheMode;
  bc_MessageCacheFilter : option (Message -> bool); bc_PeerCacheSize : Z; bc_UpdateQueueSize : Z }.

(** [bo_ctx]: what the next looks at the context find. *)
Record Bot := MkBot {
  bo_config : BotConfig; bo_api : BotApiClient; bo_disp : BotDispatcher; bo_me : ApiUser;
  bo_world : World; bo_ctx : list (option goerr) }.

Definition set_disp (d : BotDispatcher) (b : Bot) : Bot :=
  MkBot (bo_config b) (bo_api b) d (bo_me b) (bo_world b) (bo_ctx b).
Definition set_me (u : ApiUser) (b : Bot) : Bot :=
  MkBot (bo_config b) (bo_api b) (bo_disp b) u (bo_world b) (bo_ctx b).
Definition set_world (w : World) (b : Bot) : Bot :=
  MkBot (bo_config b) (bo_api b) (bo_disp b) (bo_me b) w (bo_ctx b).

Definition around {A} (m : M (surroundings Net) A) : M Bot A :=
  zoom (fun b => fst (bo_world b)) (fun s b => set_world (s, snd (bo_world b)) b) m.
Definition poll_ctx : M Bot (option goerr) := fun b =>
  (Ok (match bo_ctx b with [] => None | d :: _ => d end),
   MkBot (bo_config b) (bo_api b) (bo_disp b) (bo_me b) (bo_world b) (tail (bo_ctx b))).

(** ** Construction *)

Definition set_caches (updates : bool) (messages : Z) (mode : MessageCacheMode) (filter : option (Message -> bool))
    (peers queue : Z) (c : BotConfig) : BotConfig :=
  MkBotConfig (bc_APIID c) (bc_APIHash c) (bc_Token c) (bc_Session c) (bc_PollTimeout c) updates
    (bc_DropPendingUpdates c) messages mode filter peers queue.
Definition set_timeout (t : Z) (c : BotConfig) : BotConfig :=
  MkBotConfig (bc_APIID c) (bc_APIHash c) (bc_Token c) (bc_Session c) t (bc_Updates c) (bc_DropPendingUpdates c)
    (bc_MessageCacheSize c) (bc_MessageCacheMode c) (bc_MessageCacheFilter c) (bc_PeerCacheSize c) (bc_UpdateQueueSize c).

Definition bot_dispatcher (c : BotConfig) : BotDispatcher :=
  NewDispatcher [
    Some (Dispatcher.WithUpdates (bc_Updates c));
    Some (Dispatcher.WithMessageCacheSize (bc_MessageCacheSize c));
    Some (Dispatcher.WithMessageCacheMode (bc_MessageCacheMode c));
    Some (Dispatcher.WithMessageCacheFilter (bc_MessageCacheFilter c));
    Some (Dispatcher.WithPeerCacheSize (bc_PeerCacheSize c));
    Some (Dispatcher.WithUpdateQueueSize (bc_UpdateQueueSize c))].

(** The bot of a configuration, in the world it finds. *)
Definition bot_of (config : BotConfig) (w : World) (cx : list (option goerr)) : outcome Bot :=
  omap_outcome (fun api => MkBot config api (bot_dispatcher config) zero_User w cx) (BotApi_New (bc_Token config)).

Definition zero_or (d n : Z) : Z := if n =? 0 then d else n.

Definition NewBot (config : BotConfig) (w : World) (cx : list (option goerr)) : outcome Bot :=
  if (bc_Token config =? EmptyString)%string then Err (ErrNew "bot token is required")
  else
    let config := set_timeout (positive_or (30 * second) (bc_PollTimeout config)) config in
    let mode := if decide (bc_MessageCacheMode config = CacheDefault) then CacheMatchedMessages
                else bc_MessageCacheMode config in
    bot_of (set_caches true (zero_or DefaultMessageCacheSize (bc_MessageCacheSize config)) mode
              (bc_MessageCacheFilter config) (zero_or DefaultPeerCacheSize (bc_PeerCacheSize config))
              (zero_or 256 (bc_UpdateQueueSize config)) config) w cx.

Definition newBotExact (config : BotConfig) (w : World) (cx : list (option goerr)) : outcome Bot :=
  if (bc_Token config =? EmptyString)%string then Err (ErrNew "bot token is required")
  else
    let config := set_timeout (positive_or (30 * second) (bc_PollTimeout config)) config in
    bot_of (set_caches (bc_Updates config) (at_least_0 (bc_MessageCacheSize config)) (bc_MessageCacheMode config)
              (bc_MessageCacheFilter config) (at_least_0 (bc_PeerCacheSize config))
              (at_least_0 (bc_UpdateQueueSize config)) config) w cx.

Definition NewBotWithOptions (config : BotConfig) (opts : list (option BotOption)) (w : World) (cx : list (option goerr))
  : outcome Bot :=
  let cfg := apply_options opts
    (Config.MkConfig (bc_APIID config) (bc_APIHash config) (Store MemorySession) EmptyString true DefaultMessageCacheSize
       CacheMatchedMessages None DefaultPeerCacheSize 256 false false 0 0 0 false 0) in
  newBotExact (set_caches (cf_Updates cfg) (cf_MessageCacheSize cfg) (cf_MessageCacheMode cfg)
                 (cf_MessageCacheFilter cfg) (cf_PeerCacheSize cfg) (cf_UpdateQueueSize cfg) config) w cx.

Definition Bot_OnMessage (filter : option (Message -> bool)) (handler : option BotHandler) (b : Bot) : Bot :=
  set_disp (Dispatcher_OnMessage filter handler (bo_disp b)) b.
Definition Bot_CacheSnapshot (b : Bot) : CacheSnapshot := Dispatcher_CacheSnapshot (bo_disp b).
Definition Bot_Me (b : Bot) : ApiUser := bo_me b.

(** ** The loop *)

Definition Bot_Login : M Bot unit :=
  b <- get ;; me <- around (on_net (BotApi_GetMe exchange (bo_api b))) ;; modify (set_me me).

(** [Reply] and [SendMessage], on the bot's surroundings. *)
Definition Bot_Reply (api : BotApiClient) (chatID replyToMessageID : Z) (text : string) : M World unit :=
  zoom fst (fun s w => (s, snd w)) (on_net (BotApi_SendMessage exchange api chatID text replyToMessageID)).
Definition Bot_SendMessage (api : BotApiClient) (chatID : Z) (text : string) : M World unit :=
  Bot_Reply api chatID 0 text.

(** A zero [Date] is 0. *)
Definition botAPIMessageToUpdate (api : BotApiClient) (message : ApiMessage) : M (surroundings Net) Message :=
  let fromID := match am_From message with Some u => u_ID u | None => 0 end in
  let chatID := c_ID (am_Chat message) in
  date <- (if negb (fromID =? 0) && (chatID =? fromID) then time_Now else ret 0) ;;
  ret (MkMessage (am_MessageID message) chatID 0 fromID EmptyString (TrimSpace (am_Text message)) date (Some message)
         (Some (Bot_Reply api)) None None).

Definition bot_dispatch (msg : Message) : M Bot unit :=
  zoom (fun b => (bo_disp b, (bo_world b, msg))) (fun s b => set_world (fst (snd s)) (set_disp (fst s) b))
    (DispatchMessage (W := World) (Raw := ApiMessage)).

Definition next_offset (offset id : Z) : Z := if offset <=? id then i64 (id + 1) else offset.

(** [for _, update := range batch] *)
Fixpoint handle_batch (batch : list Update) (offset : Z) : M Bot Z :=
  match batch with
  | [] => ret offset
  | update :: rest =>
      let offset := next_offset offset (up_UpdateID update) in
      match up_Message update with
      | None => handle_batch rest offset
      | Some message =>
          b <- get ;;
          msg <- around (botAPIMessageToUpdate (bo_api b) message) ;;
          _ <- try (bot_dispatch msg) ;;
          handle_batch rest offset
      end
  end.

(** The context is done, with [cancel], at its [rounds]-th look at the top of
    the loop; the looks after an error are in [bo_ctx]. *)
Fixpoint poll_loop (rounds : nat) (cancel : goerr) (timeoutSeconds offset : Z) : M Bot unit :=
  match rounds with
  | O => fail cancel
  | S rounds' =>
      b <- get ;;
      batch <- try (around (on_net (GetUpdates exchange (bo_api b) offset timeoutSeconds))) ;;
      match batch with
      | inr err =>
          done <- poll_ctx ;;
          match done with
          | Some e => fail e
          | None => around (time_Sleep (2 * second)) ;; poll_loop rounds' cancel timeoutSeconds offset
          end
      | inl batch => offset <- handle_batch batch offset ;; poll_loop rounds' cancel timeoutSeconds offset
      end
  end.

(** The offset to start from. *)
Definition first_offset : M Bot Z :=
  b <- get ;;
  if bc_DropPendingUpdates (bo_config b) then
    old <- try (around (on_net (GetUpdates exchange (bo_api b) (-1) 0))) ;;
    match old with
    | inl old => ret (match last old with Some u => i64 (up_UpdateID u + 1) | None => 0 end)
    | inr _ => ret 0
    end
  else ret 0.

Definition timeout_seconds (c : BotConfig) : Z := positive_or 30 (Z.quot (bc_PollTimeout c) second).

Definition Bot_Run (rounds : nat) (cancel : goerr) : M Bot unit :=
  b <- get ;;
  (if u_ID (bo_me b) =? 0 then Bot_Login else ret tt) ;;
  if negb (bc_Updates (bo_config b)) then fail cancel
  else
    offset <- first_offset ;;
    poll_loop rounds cancel (timeout_seconds (bo_config b)) offset.

End Polling.

(** ** The other side of a poll

    What the Bot API promises about getUpdates: the updates for the bot form a
    stream with growing ids; a poll with an offset confirms the updates below it
    and brings the first of the others, or fails, before or after confirming.
    [sv_low]: the updates below are confirmed and never come again; [sv_next]:
    where new ids start. *)

Definition since (lo : Z) (l : list Update) : list Update := List.filter (fun u => lo <=? up_UpdateID u) l.
Definition ids (lo hi : Z) (l : list Update) : list Update :=
  List.filter (fun u => (lo <=? up_UpdateID u) && (up_UpdateID u <? hi)) l.

(** The offset of a form, 0 without one. *)
Definition form_offset (body : list byte) : Z :=
  match parse_form body with
  | Some vs =>
      match List.find (fun kv => (fst kv =? "offset")%string) vs with
      | Some (_, v) => ok_or 0 (ParseInt64 v)
      | None => 0
      end
  | None => 0
  end.

(** The updates a reply brings. *)
Definition brought (r : http_result) : option (list Update) :=
  match r with
  | HttpReply status body None =>
      if (status <? 200) || (300 <=? status) then None
      else match parse_response (dec_slice (dec_struct Update_fields) zero_Update) [] body with
           | Ok resp => if rs_OK resp then Some (rs_Result resp) else None
           | _ => None
           end
  | _ => None
  end.

Class UpdateServer {Net} (exchange : string -> list byte -> Net -> http_result * Net) (url : string) := {
  sv_stream : Net -> list Update;
  sv_low : Net -> Z;
  sv_next : Net -> Z;
  sv_range : forall n, 0 <= sv_low n <= sv_next n /\ sv_next n < two63;
  sv_sorted : forall n, Sorted.StronglySorted (fun u v => up_UpdateID u < up_UpdateID v) (sv_stream n);
  sv_below : forall n, Forall (fun u => up_UpdateID u < sv_next n) (sv_stream n);
  sv_grown := fun n n' =>
    (exists news, sv_stream n' = sv_stream n ++ news /\ Forall (fun u => sv_next n <= up_UpdateID u) news) /\
    sv_next n <= sv_next n';
  sv_poll : forall body n, 0 <= form_offset body <= sv_next n ->
    let '(r, n') := exchange url body n in
    sv_grown n n' /\ sv_low n <= sv_low n' <= Z.max (sv_low n) (form_offset body) /\
    forall batch, brought r = Some batch ->
      exists k, batch = take k (since (Z.max (sv_low n) (form_offset body)) (sv_stream n'));
  sv_other : forall other body n, other <> url ->
    sv_grown n (snd (exchange other body n)) /\ sv_low (snd (exchange other body n)) = sv_low n }.

Section Stream.
Implicit Types (l : list Update) (u : Update).

Lemma filter_none {A} (p : A -> bool) (l : list A) : Forall (fun x => p x = false) l -> List.filter p l = [].
Proof. induction 1 as [|x l Hx _ IH]; [done|]. cbn. by rewrite Hx. Qed.

(** The first update that is still to come. *)
Lemma since_cons lo hi l u t :
  Sorted.StronglySorted (fun u v => up_UpdateID u < up_UpdateID v) l -> lo <= hi -> since hi l = u :: t ->
  since (up_UpdateID u + 1) l = t /\ ids lo (up_UpdateID u + 1) l = ids lo hi l ++ [u] /\ hi <= up_UpdateID u.
Proof.
  intros Hs Hle. induction Hs as [|v l Hs IH Hv]; [done|]. unfold since, ids in *. cbn [List.filter].
  destruct (Z.leb_spec hi (up_UpdateID v)) as [H|H].
  - intros [= -> <-]. rewrite (proj2 (Z.leb_gt _ _)), (proj2 (Z.leb_le lo _)), (proj2 (Z.ltb_lt _ (_ + 1))),
      (proj2 (Z.ltb_ge _ hi)) by lia. cbn [andb]. split; [|split; [|done]].
    + rewrite !filter_all; [done|..]; (eapply Forall_impl; [exact Hv|]); intros w Hw; cbn in Hw; apply Z.leb_le; lia.
    + rewrite !filter_none; [done|..]; (eapply Forall_impl; [exact Hv|]); intros w Hw; cbn in Hw;
        apply andb_false_iff; right; apply Z.ltb_ge; lia.
  - intros E. destruct (IH E) as (I1 & I2 & I3). split; [|split; [|done]].
    + by rewrite (proj2 (Z.leb_gt _ _)) by lia.
    + rewrite (proj2 (Z.ltb_lt _ hi)), (proj2 (Z.ltb_lt _ (_ + 1))), I2 by lia. by destruct (lo <=? _).
Qed.

Lemma ids_self lo l : ids lo lo l = [].
Proof.
  unfold ids. apply filter_none, Forall_forall. intros u _. apply andb_false_iff.
  destruct (Z.leb_spec lo (up_UpdateID u)); [right; by apply Z.ltb_ge|by left].
Qed.

Lemma ids_since lo hi l : lo <= hi -> Sorted.StronglySorted (fun u v => up_UpdateID u < up_UpdateID v) l ->
  since lo l = ids lo hi l ++ since hi l.
Proof.
  intros Hle. induction 1 as [|v l Hs IH Hv]; [done|]. unfold since, ids in *. cbn [List.filter]. rewrite IH.
  destruct (Z.leb_spec lo (up_UpdateID v)), (Z.ltb_spec (up_UpdateID v) hi), (Z.leb_spec hi (up_UpdateID v));
    cbn [andb]; try done; try lia.
  rewrite (filter_none (fun u => (lo <=? up_UpdateID u) && (up_UpdateID u <? hi)) l); [done|].
  eapply Forall_impl; [exact Hv|]. intros w Hw. cbn in Hw. apply andb_false_iff. right. apply Z.ltb_ge. lia.
Qed.

Lemma since_app lo l news : since lo (l ++ news) = since lo l ++ since lo news.
Proof. apply List.filter_app. Qed.
Lemma ids_app lo hi l news : ids lo hi (l ++ news) = ids lo hi l ++ ids lo hi news.
Proof. apply List.filter_app. Qed.
Lemma ids_news lo hi next news : hi <= next -> Forall (fun u => next <= up_UpdateID u) news -> ids lo hi news = [].
Proof.
  intros Hle Hn. apply filter_none. eapply Forall_impl; [exact Hn|]. intros u Hu. cbn in Hu.
  apply andb_false_iff. right. apply Z.ltb_ge. lia.
Qed.
End Stream.

Section Delivery.
Context {Net A : Type}.
Abbreviation World := (surroundings Net * (list ApiMessage * A))%type.
Abbreviation Message := (Message World ApiMessage).
Abbreviation BotHandler := (MessageHandler (W := World) (Raw := ApiMessage)).
Abbreviation Bot := (Bot (Net := Net) (App := list ApiMessage * A)).
Variable exchange : string -> list byte -> Net -> http_result * Net.
Variable api : BotApiClient.
Context {server : UpdateServer exchange (ba_baseURL api ++ "getUpdates")%string}.

(** ** Steps that add nothing but new updates *)

Definition steady (n n' : Net) : Prop := sv_grown n n' /\ sv_low n' = sv_low n.

Lemma grown_refl n : sv_grown n n.
Proof. split; [exists []; by rewrite app_nil_r|done]. Qed.
Lemma grown_trans n1 n2 n3 : sv_grown n1 n2 -> sv_grown n2 n3 -> sv_grown n1 n3.
Proof.
  intros [(l1 & E1 & F1) N1] [(l2 & E2 & F2) N2]. split; [|lia]. exists (l1 ++ l2).
  split; [by rewrite E2, E1, app_assoc|]. apply Forall_app. split; [done|].
  eapply Forall_impl; [exact F2|]. intros u Hu. cbn in *. lia.
Qed.
Lemma steady_refl n : steady n n.
Proof. split; [apply grown_refl|done]. Qed.
Lemma steady_trans n1 n2 n3 : steady n1 n2 -> steady n2 n3 -> steady n1 n3.
Proof. intros [G1 L1] [G2 L2]. split; [by eapply grown_trans|congruence]. Qed.

Definition world_net (w : World) : Net := sr_net (fst w).
Definition world_log (w : World) : list ApiMessage := fst (snd w).
Definition bo_net (b : Bot) : Net := world_net (bo_world b).
Definition bo_log (b : Bot) : list ApiMessage := world_log (bo_world b).

(** ** The handlers

    The first handler notes what it is given; the others do what they like with
    the messages and the API, other than polling, and leave the notes alone. *)
Definition recorder : BotHandler :=
  modify (fun x => let '((s, (l, a)), m) := x in ((s, (l ++ match m_Raw m with Some r => [r] | None => [] end, a)), m)).

Definition unheard (n : Net) (l : list ApiMessage) (w : World) : Prop := steady n (world_net w) /\ world_log w = l.
Definition quiet (m : M World unit) : Prop := forall n l, hoare (unheard n l) m (fun _ => unheard n l) (unheard n l).
Definition unheard_by (n : Net) (l : list ApiMessage) (x : World * Message) : Prop :=
  unheard n l (fst x) /\ message_all quiet (snd x).
Definition bystander (h : BotHandler) : Prop := forall n l,
  hoare (unheard_by n l) h (fun _ => unheard_by n l) (unheard_by n l).

Lemma bystander_handle (f : Message -> M World unit) :
  (forall m, message_all quiet m -> quiet (f m)) -> bystander (handle f).
Proof.
  intros Hf n l [w m] [Hw Hm]. unfold handle, zoom. cbn [fst snd] in *. specialize (Hf m Hm n l w Hw).
  by destruct (f m w) as [[u|e|] w'].
Qed.

Lemma run_bystanders n l routes E :
  Forall (fun r => bystander (mr_handler r)) routes ->
  (forall x, unheard_by n l x -> E x) -> hoare (unheard_by n l) (run_routes routes) (fun _ => unheard_by n l) E.
Proof.
  intros Hr HE. induction Hr as [|r routes Hh _ IH]; cbn [run_routes]; [by intros x Hx|].
  eapply hoare_bind; [|intros u; exact IH]. eapply hoare_conseq; [exact (Hh n l)|done|done|done].
Qed.

(** A dispatcher whose first handler is the recorder. *)
Record recording (b : Bot) : Prop := {
  rc_api : bo_api b = api;
  rc_sound : exists hist q, sound (bo_disp b) hist q;
  rc_on : dc_UpdatesEnabled (d_config (bo_disp b)) = true;
  rc_routes : exists rest, d_messageRoutes (bo_disp b) = MkRoute (fun _ => true) recorder :: rest /\
    Forall (fun r => bystander (mr_handler r)) rest }.

(** The state of the handlers after a message. *)
Lemma handlers_record d msg (w : World) n l rest :
  dc_UpdatesEnabled (d_config d) = true -> d_messageRoutes d = MkRoute (fun _ => true) recorder :: rest ->
  Forall (fun r => bystander (mr_handler r)) rest -> message_all quiet msg -> steady n (world_net w) -> world_log w = l ->
  let '(o, w') := handlers_of d msg w in
  o <> Panic /\ steady n (world_net w') /\ world_log w' = l ++ match m_Raw msg with Some r => [r] | None => [] end.
Proof.
  intros Hon Hr Hf Hq Hn Hl. unfold handlers_of, matchingRoutes. rewrite Hon, Hr. cbn [List.filter mr_filter run_routes mr_handler].
  set (l' := l ++ _). pose proof (run_bystanders n l' (List.filter (fun r => mr_filter r msg) rest)
    (unheard_by n l')) as R.
  assert (Hf' : Forall (fun r => bystander (mr_handler r)) (List.filter (fun r => mr_filter r msg) rest)).
  { rewrite List.Forall_forall in *. intros r [Hin _]%filter_In. by apply Hf. }
  specialize (R Hf' ltac:(done)). destruct w as [s [l0 a]]. cbn in Hl. subst l0.
  unfold bind, recorder, modify. fold l'. specialize (R ((s, (l', a)), msg) (conj (conj Hn eq_refl) Hq)).
  destruct (run_routes _ _) as [[u|e|] [w' m']]; [..|done]; by destruct R as [[R1 R2] _].
Qed.

Lemma dispatch_records msg n l r E : m_Raw msg = Some r -> message_all quiet msg ->
  hoare (fun b => recording b /\ steady n (bo_net b) /\ bo_log b = l) (try (bot_dispatch msg))
    (fun _ b => recording b /\ steady n (bo_net b) /\ bo_log b = l ++ [r]) E.
Proof.
  intros Hm Hq b ([H1 (hist & q & H2) H3 (rest & H4 & H5)] & Hn & Hl). unfold try, bot_dispatch, zoom.
  destruct (DispatchMessage_ok msg (bo_disp b) (bo_world b) hist q H2) as (d' & m' & -> & C1 & C2 & _ & _ & S).
  pose proof (handlers_record (bo_disp b) msg (bo_world b) n l rest H3 H4 H5 Hq Hn Hl) as R.
  destruct (handlers_of _ _ _) as [o w']. destruct R as (R1 & R2 & R3). rewrite Hm in R3. cbn [fst snd].
  assert (Hr : recording (set_world w' (set_disp d' b))).
  { split; [done|by do 2 eexists|cbn; by rewrite C1|exists rest; split; [cbn; by rewrite C2|done]]. }
  by destruct o.
Qed.

Lemma append_inj p s t : (p ++ s = p ++ t -> s = t)%string.
Proof. induction p as [|x p IH]; cbn; [done|]. intros H. apply IH. by injection H. Qed.

(** The other methods of the API. *)
Lemma post_steady {T} (dec : decoder T) zero method form {B} (k : apiResponse T -> outcome B) n :
  method <> "getUpdates"%string -> steady n (snd ((result <- postForm exchange api dec zero method form ;; lift (k result)) n)).
Proof.
  intros Hm. set (r := exchange (ba_baseURL api ++ method)%string (Values_Encode form) n).
  assert (E : snd ((result <- postForm exchange api dec zero method form ;; lift (k result)) n) = snd r).
  { unfold postForm, post, bind. fold r. destruct r as [[e|s body [e|]] n']; [done..|].
    unfold guard, lift. destruct (negb _); [|done]. cbn [ret]. by destruct (parse_response _ _ body). }
  rewrite E. apply sv_other. by intros H%append_inj.
Qed.

(** Replies and messages sent. *)
Lemma reply_quiet chatID replyTo text : quiet (Bot_Reply exchange api chatID replyTo text).
Proof.
  intros n l w [Hn Hl]. unfold Bot_Reply, on_net, zoom. change (sr_net (fst w)) with (world_net w).
  pose proof (post_steady (dec_struct ApiMessage_fields) zero_ApiMessage "sendMessage" (message_form chatID text replyTo)
    checked (world_net w) ltac:(done)) as S.
  assert (E : snd (BotApi_SendMessage exchange api chatID text replyTo (world_net w)) =
    snd ((result <- postForm exchange api (dec_struct ApiMessage_fields) zero_ApiMessage "sendMessage"
            (message_form chatID text replyTo) ;; lift (checked result)) (world_net w))).
  { unfold BotApi_SendMessage, bind. destruct (postForm _ _ _ _ _ _ _) as [[r|e|] n']; [|done..].
    unfold lift. by destruct (checked r). }
  rewrite <- E in S. pose proof (BotApi_SendMessage_nopanic exchange api chatID text replyTo (world_net w) I) as N.
  destruct (BotApi_SendMessage _ _ _ _ _ _) as [[u|e|] n']; [| |done]; (split; [by eapply steady_trans|done]).
Qed.

(** The conversion looks at the clock at most. *)
Lemma convert_spec message n l E :
  hoare (fun b : Bot => recording b /\ steady n (bo_net b) /\ bo_log b = l)
    (around (botAPIMessageToUpdate (App := list ApiMessage * A) exchange api message))
    (fun msg b => (m_Raw msg = Some message /\ message_all quiet msg) /\ recording b /\ steady n (bo_net b) /\ bo_log b = l) E.
Proof.
  assert (Hq : forall date, message_all quiet (MkMessage (am_MessageID message) (c_ID (am_Chat message)) 0
    (match am_From message with Some u => u_ID u | None => 0 end) EmptyString (TrimSpace (am_Text message)) date (Some message)
    (Some (Bot_Reply exchange api)) None None)).
  { intros date. split_and!; intros f [= <-]. intros. apply reply_quiet. }
  intros b ([H1 H2 H3 H4] & Hn & Hl). unfold around, zoom, botAPIMessageToUpdate, bind.
  destruct (negb _ && _); (split; [by split|]); by split.
Qed.

(** ** Between two polls

    With the offset [o]: what the handlers were given is the messages of the
    updates from [lo] on and below the offset, and nothing else is confirmed. *)
Record polling (lo o : Z) (b : Bot) : Prop := {
  pl_recording : recording b;
  pl_offset : 0 <= o /\ Z.max o lo <= sv_next (bo_net b);
  pl_low : lo <= sv_low (bo_net b) <= Z.max o lo;
  pl_log : bo_log b = omap up_Message (ids lo (Z.max o lo) (sv_stream (bo_net b))) }.

(** How many updates are done with; how many there were or are. *)
Definition progress (lo o done total : Z) (b : Bot) : Prop :=
  done <= len (ids lo (Z.max o lo) (sv_stream (bo_net b))) /\ total <= len (since lo (sv_stream (bo_net b))).

(** New updates change nothing to what is done with. *)
Lemma grown_ids lo hi n n' : sv_grown n n' -> hi <= sv_next n -> ids lo hi (sv_stream n') = ids lo hi (sv_stream n).
Proof.
  intros [(news & -> & Hf) _] Hh. rewrite ids_app, (ids_news lo hi (sv_next n) news Hh Hf). apply app_nil_r.
Qed.
Lemma grown_since lo n n' : sv_grown n n' -> exists t, since lo (sv_stream n') = since lo (sv_stream n) ++ t.
Proof. intros [(news & -> & _) _]. rewrite since_app. by eexists. Qed.

Lemma polling_grown lo o (b b' : Bot) : recording b' -> sv_grown (bo_net b) (bo_net b') ->
  sv_low (bo_net b) <= sv_low (bo_net b') <= Z.max o lo -> bo_log b' = bo_log b -> polling lo o b -> polling lo o b'.
Proof.
  intros Hr G Hlow Hlog [_ H2 H3 H4]. split; [done| |lia|].
  - destruct G as [_ G]. lia.
  - rewrite (grown_ids lo _ _ _ G) by apply H2. by rewrite Hlog.
Qed.
Lemma progress_grown lo o k t (b b' : Bot) : sv_grown (bo_net b) (bo_net b') -> Z.max o lo <= sv_next (bo_net b) ->
  progress lo o k t b -> progress lo o k t b'.
Proof.
  intros G Ho [H1 H2]. split; [by rewrite (grown_ids lo _ _ _ G)|].
  destruct (grown_since lo _ _ G) as [x ->]. rewrite len_app. pose proof (len_nonneg x). lia.
Qed.

(** An update at the front of those to come. *)
Lemma next_update lo o u t k total (b : Bot) :
  polling lo o b -> progress lo o k total b -> since (Z.max o lo) (sv_stream (bo_net b)) = u :: t ->
  let o' := next_offset o (up_UpdateID u) in
  Z.max o lo < o' /\ Z.max o' lo = o' /\ o' <= sv_next (bo_net b) /\ sv_low (bo_net b) <= o' /\
  since o' (sv_stream (bo_net b)) = t /\ progress lo o' (k + 1) total b /\
  omap up_Message (ids lo o' (sv_stream (bo_net b))) =
    bo_log b ++ match up_Message u with Some m => [m] | None => [] end.
Proof.
  intros [H1 [H2 H2'] H3 H4] [P1 P2] E o'.
  destruct (since_cons lo _ _ _ _ (sv_sorted (bo_net b)) (Z.le_max_r o lo) E) as (S1 & S2 & S3).
  assert (Hin : In u (sv_stream (bo_net b))).
  { assert (Hu : In u (since (Z.max o lo) (sv_stream (bo_net b)))) by (rewrite E; by left). by apply filter_In in Hu as [Hu _]. }
  pose proof (sv_below (bo_net b)) as Hb. rewrite List.Forall_forall in Hb. specialize (Hb u Hin).
  pose proof (sv_range (bo_net b)) as Hn.
  assert (Ho : o' = up_UpdateID u + 1).
  { unfold o', next_offset. rewrite (proj2 (Z.leb_le _ _)) by lia. apply i64_id. unfold is_i64. lia. }
  assert (Hm : Z.max (up_UpdateID u + 1) lo = up_UpdateID u + 1) by lia.
  rewrite Ho, Hm. clear o' Ho. split_and!; try done; try lia; unfold progress.
  - rewrite Hm, S2, len_app. change (len [u]) with 1. lia.
  - rewrite S2, H4. rewrite omap_app. cbn. by destruct (up_Message u).
Qed.

(** ** A batch *)

(** The state when the updates [batch] are next. *)
Definition before (lo o k total : Z) (batch : list Update) (b : Bot) : Prop :=
  polling lo o b /\ progress lo o k total b /\ exists t, since (Z.max o lo) (sv_stream (bo_net b)) = batch ++ t.

(** The update at the front has been handed on. *)
Lemma after_update lo o o' u k total batch (b b' : Bot) :
  before lo o k total (u :: batch) b -> o' = next_offset o (up_UpdateID u) ->
  recording b' -> steady (bo_net b) (bo_net b') ->
  bo_log b' = bo_log b ++ match up_Message u with Some m => [m] | None => [] end ->
  before lo o' (k + 1) total batch b'.
Proof.
  intros (H & P & t & Et) -> Hr [G L] Hl. cbn [app] in Et.
  destruct (next_update lo o u (batch ++ t) k total b H P Et) as (Ho & Hm & N1 & N2 & N3 & N4 & N5).
  set (o' := next_offset o (up_UpdateID u)) in *. destruct H as [H1 H2 H3 H4].
  pose proof (grown_ids lo o' _ _ G N1) as Gi. destruct G as [G Gn]. split; [|split].
  - split; rewrite ?Hm; [done|lia|lia|]. by rewrite Gi, Hl, N5.
  - apply (progress_grown lo o' _ _ b b'); [by split|lia|done].
  - destruct (grown_since o' (bo_net b) (bo_net b')) as [x Hx]; [by split|]. exists (t ++ x).
    by rewrite Hm, Hx, N3, app_assoc.
Qed.

Lemma batch_spec lo total batch E : forall o k,
  hoare (before lo o k total batch) (handle_batch exchange batch o)
    (fun o' b => polling lo o' b /\ progress lo o' (k + len batch) total b) E.
Proof.
  induction batch as [|u batch IH]; intros o k; cbn [handle_batch].
  { intros b (H & P & _). change (len []) with 0. by rewrite Z.add_0_r. }
  cbv zeta. rewrite len_cons. replace (k + (1 + len batch)) with (k + 1 + len batch) by lia.
  set (o' := next_offset o (up_UpdateID u)). intros b Hb.
  assert (Hr : recording b) by (destruct Hb as [[H _ _ _] _]; exact H).
  pose proof (fun b' => after_update lo o o' u k total batch b b' Hb eq_refl) as Next.
  destruct (up_Message u) as [m|].
  2:{ apply (IH o' (k + 1) b), Next; [done|apply steady_refl|by rewrite app_nil_r]. }
  rewrite (bind_ok get _ b b b) by done. rewrite (rc_api _ Hr).
  assert (W : hoare (fun b' => recording b' /\ steady (bo_net b) (bo_net b') /\ bo_log b' = bo_log b)
    (msg <- around (botAPIMessageToUpdate exchange api m) ;; _ <- try (bot_dispatch msg) ;; handle_batch exchange batch o')
    (fun o' b => polling lo o' b /\ progress lo o' (k + 1 + len batch) total b) E).
  { eapply hoare_bind; [apply convert_spec|]. intros msg. apply hoare_pure. intros [Hm Hq].
    eapply hoare_bind; [by apply (dispatch_records msg _ _ m)|]. intros r.
    eapply hoare_conseq; [apply (IH o' (k + 1))| |done|done]. intros b' (R1 & R2 & R3). by apply Next. }
  apply W. split; [done|]. split; [apply steady_refl|done].
Qed.

(** ** A poll *)

Lemma form_offset_updates o t : 0 <= o < two63 -> form_offset (Values_Encode (updates_form o t)) = o.
Proof.
  intros Ho. unfold form_offset. rewrite parse_form_encode. unfold updates_form.
  destruct (Z.eqb_spec o 0) as [->|H]; [by destruct (0 <? t)|].
  assert (E : ok_or 0 (ParseInt64 (FormatInt o)) = o) by (rewrite ParseInt64_FormatInt; [done|unfold is_i64; lia]).
  by destruct (0 <? t).
Qed.

(** [GetUpdates] returns what the reply brings. *)
Lemma GetUpdates_brought o t n :
  let r := exchange (ba_baseURL api ++ "getUpdates")%string (Values_Encode (updates_form o t)) n in
  snd (GetUpdates exchange api o t n) = snd r /\
  match brought (fst r) with
  | Some batch => fst (GetUpdates exchange api o t n) = Ok batch
  | None => exists e, fst (GetUpdates exchange api o t n) = Err e
  end.
Proof.
  cbv zeta. unfold GetUpdates, postForm, post, bind.
  destruct (exchange _ _ n) as [[e|status body [e|]] n']; cbn [fst snd brought]; [by split; [|eexists]..|].
  destruct (_ || _); [by split; [|eexists]|]. cbn.
  pose proof (parse_response_total (dec_slice (dec_struct Update_fields) zero_Update) [] body
    (dec_slice_total _ _ Update_fields_total)) as Ht.
  unfold lift. destruct (parse_response _ _ body) as [resp|e|]; [|by split; [|eexists]|done].
  unfold checked. destruct (rs_OK resp); [done|by split; [|eexists]].
Qed.

(** A service that always answers: every poll with the first of the updates to
    come, if there are any. *)
Definition reliable : Prop :=
  (forall n, is_ok (fst (BotApi_GetMe exchange api n)) = true) /\
  forall body n, 0 <= form_offset body <= sv_next n ->
    let r := exchange (ba_baseURL api ++ "getUpdates")%string body n in
    exists batch, brought (fst r) = Some batch /\
      (since (Z.max (sv_low n) (form_offset body)) (sv_stream (snd r)) <> [] -> batch <> []).

Lemma poll_spec lo o k total t E :
  hoare (fun b => polling lo o b /\ progress lo o k total b) (try (around (on_net (GetUpdates exchange api o t))))
    (fun r b => match r with
                | inl batch => before lo o k total batch b /\
                    (reliable -> since (Z.max o lo) (sv_stream (bo_net b)) <> [] -> batch <> [])
                | inr _ => (polling lo o b /\ progress lo o k total b) /\ ~ reliable
                end) E.
Proof.
  intros b [H P]. pose proof H as [H1 [H2 H2'] H3 H4]. pose proof (sv_range (bo_net b)) as Hn.
  set (body := Values_Encode (updates_form o t)).
  assert (Ho : form_offset body = o) by (apply form_offset_updates; lia).
  pose proof (sv_poll body (bo_net b) ltac:(rewrite Ho; lia)) as V. rewrite Ho in V.
  pose proof (GetUpdates_brought o t (bo_net b)) as [G1 G2]. fold body in G1, G2.
  assert (Hrel : reliable -> exists batch, brought (fst (exchange (ba_baseURL api ++ "getUpdates")%string body (bo_net b))) = Some batch /\
     (since (Z.max (sv_low (bo_net b)) o) (sv_stream (snd (exchange (ba_baseURL api ++ "getUpdates")%string body (bo_net b)))) <> [] -> batch <> [])).
  { intros [_ R]. specialize (R body (bo_net b) ltac:(rewrite Ho; lia)). by rewrite Ho in R. }
  destruct (exchange _ body (bo_net b)) as [r n']. cbn [fst snd] in *. destruct V as (V1 & V2 & V3).
  unfold try, around, on_net, zoom. change (sr_net (fst (bo_world b))) with (bo_net b).
  destruct (GetUpdates exchange api o t (bo_net b)) as [res n'']. cbn [fst snd] in *. subst n''.
  replace (Z.max (sv_low (bo_net b)) o) with (Z.max o lo) in V3, Hrel by lia.
  set (b' := set_world _ b). assert (En : n' = bo_net b') by done. assert (El : bo_log b' = bo_log b) by done.
  assert (Hr : recording b') by (destruct H1 as [R1 R2 R3 R4]; by split).
  clearbody b'. subst n'.
  assert (H' : polling lo o b') by (apply (polling_grown lo o b b'); [done|done|lia|done|done]).
  assert (P' : progress lo o k total b') by (by apply (progress_grown lo o k total b b')).
  destruct (brought r) as [batch|].
  - subst res. destruct (V3 batch eq_refl) as [j Hj]. split.
    + split; [done|]. split; [done|]. exists (drop j (since (Z.max o lo) (sv_stream (bo_net b')))). by rewrite Hj, take_drop.
    + intros R Hne. destruct (Hrel R) as (x & [= <-] & Hx). by apply Hx.
  - destruct G2 as [e ->]. split; [by split|]. intros R. by destruct (Hrel R) as (x & ? & _).
Qed.

(** After [r] rounds. *)
Definition after_rounds (lo total r o : Z) (b : Bot) : Prop :=
  polling lo o b /\ exists k, progress lo o k total b /\ (reliable -> Z.min r total <= k).

Lemma loop_spec lo total rounds cancel t : forall r o,
  hoare (after_rounds lo total r o) (poll_loop exchange rounds cancel t o) (fun _ _ => False)
    (fun b => exists o', after_rounds lo total (r + Z.of_nat rounds) o' b).
Proof.
  induction rounds as [|rounds IH]; intros r o; cbn [poll_loop].
  { apply hoare_fail. intros b H. exists o. by rewrite Z.add_0_r. }
  replace (r + Z.of_nat (S rounds)) with (r + 1 + Z.of_nat rounds) by lia.
  intros b (H & k & P & Hk). rewrite (bind_ok get _ b b b) by done. rewrite (rc_api _ (pl_recording _ _ _ H)).
  pose proof (poll_spec lo o k total t (fun _ => False) b (conj H P)) as Q. unfold bind at 1.
  destruct (try _ b) as [[[batch|err]|e|] b1]; [| |done..].
  - destruct Q as [B R]. pose proof (batch_spec lo total batch (fun _ => False) o k b1 B) as S.
    unfold bind. destruct (handle_batch exchange batch o b1) as [[o'|e|] b2] eqn:Eb; [|done..].
    apply (IH (r + 1) o'). destruct S as [S1 S2]. split; [done|]. destruct batch as [|u batch].
    + injection Eb as <- <-. destruct B as (B1 & B2 & _).
      exists (len (ids lo (Z.max o lo) (sv_stream (bo_net b1)))). split; [split; [lia|apply B2]|]. intros Rel.
      assert (E : since (Z.max o lo) (sv_stream (bo_net b1)) = []).
      { destruct (since _ _) eqn:E; [done|]. by destruct (R Rel ltac:(done)). }
      destruct B2 as [_ B2]. rewrite (ids_since lo (Z.max o lo)), E, app_nil_r in B2 by (lia || apply sv_sorted). lia.
    + exists (k + len (u :: batch)). split; [done|]. intros Rel. specialize (Hk Rel). rewrite len_cons.
      pose proof (len_nonneg batch). lia.
  - destruct Q as [[Q1 Q2] Rel].
    assert (J : forall b2 : Bot, bo_world b2 = bo_world b1 \/ (exists s, bo_world b2 = (s, snd (bo_world b1)) /\ sr_net s = bo_net b1) ->
      bo_api b2 = bo_api b1 -> bo_disp b2 = bo_disp b1 -> after_rounds lo total (r + 1) o b2).
    { intros b2 Hw Ha Hd. assert (En : bo_net b2 = bo_net b1).
      { destruct Hw as [E|(s & E & Es)]; unfold bo_net, world_net in *; by rewrite E. }
      assert (El : bo_log b2 = bo_log b1).
      { destruct Hw as [E|(s & E & _)]; unfold bo_log, world_log; by rewrite E. }
      assert (Hr : recording b2) by (destruct Q1 as [[R1 R2 R3 R4] _ _ _]; split; rewrite ?Ha, ?Hd; done).
      split; [|exists k; split; [by unfold progress; rewrite En|done]].
      apply (polling_grown lo o b1 b2); rewrite ?En; [done|apply grown_refl|pose proof (pl_low _ _ _ Q1); lia|done|done]. }
    unfold bind, poll_ctx. destruct (match bo_ctx b1 with [] => None | d :: _ => d end) as [e|].
    + destruct (J (MkBot (bo_config b1) (bo_api b1) (bo_disp b1) (bo_me b1) (bo_world b1) (tail (bo_ctx b1)))) as (J1 & k' & J2 & J3); [by left|done..|].
      exists o. split; [done|]. exists k'. split; [done|]. intros X. by destruct (Rel X).
    + apply (IH (r + 1) o). apply J; [right|done|done]. by eexists.
Qed.

(** ** The whole run *)

Lemma GetMe_steady n : steady n (snd (BotApi_GetMe exchange api n)).
Proof. by apply post_steady. Qed.

Lemma after_rounds_steady lo total r o (b b' : Bot) :
  bo_api b' = bo_api b -> bo_disp b' = bo_disp b -> steady (bo_net b) (bo_net b') -> bo_log b' = bo_log b ->
  after_rounds lo total r o b -> after_rounds lo total r o b'.
Proof.
  intros Ha Hd [G L] Hl ([[R1 R2 R3 R4] H2 H3 H4] & k & P & Hk).
  assert (Hr : recording b') by (split; rewrite ?Ha, ?Hd; done).
  split; [apply (polling_grown lo o b b'); [done|done|lia|done|by split]|].
  exists k. split; [apply (progress_grown lo o k total b b'); [done|apply H2|done]|done].
Qed.

Lemma Bot_Login_spec lo total :
  hoare (after_rounds lo total 0 0) (Bot_Login exchange) (fun _ => after_rounds lo total 0 0)
    (fun b => after_rounds lo total 0 0 b /\ ~ reliable).
Proof.
  intros b H. unfold Bot_Login. rewrite (bind_ok get _ b b b) by done. rewrite (rc_api _ (pl_recording _ _ _ (proj1 H))).
  unfold bind, around, on_net, zoom. change (sr_net (fst (bo_world b))) with (bo_net b).
  pose proof (GetMe_steady (bo_net b)) as S. pose proof (BotApi_GetMe_nopanic exchange api (bo_net b) I) as N.
  assert (R : reliable -> is_ok (fst (BotApi_GetMe exchange api (bo_net b))) = true) by (intros [R _]; apply R).
  destruct (BotApi_GetMe exchange api (bo_net b)) as [[u|e|] n']; cbn [fst snd] in *; [| |done].
  - unfold modify. by apply (after_rounds_steady lo total 0 0 b).
  - split; [by apply (after_rounds_steady lo total 0 0 b)|]. intros X. discriminate (R X).
Qed.

Lemma Bot_Run_spec lo total rounds cancel (b : Bot) :
  bc_DropPendingUpdates (bo_config b) = false -> bc_Updates (bo_config b) = true -> after_rounds lo total 0 0 b ->
  match Bot_Run exchange rounds cancel b with
  | (Err _, b') => exists o, after_rounds lo total (Z.of_nat rounds) o b'
  | _ => False
  end.
Proof.
  intros Hd Hu H. unfold Bot_Run. rewrite (bind_ok get _ b b b) by done. rewrite Hu. cbn [negb].
  assert (F : forall b1, bo_config b1 = bo_config b -> after_rounds lo total 0 0 b1 ->
    match (offset <- first_offset exchange ;; poll_loop exchange rounds cancel (timeout_seconds (bo_config b)) offset) b1 with
    | (Err _, b') => exists o, after_rounds lo total (Z.of_nat rounds) o b'
    | _ => False
    end).
  { intros b1 Hc H1. assert (E : first_offset exchange b1 = (Ok 0, b1)).
    { unfold first_offset. rewrite (bind_ok get _ b1 b1 b1) by done. by rewrite Hc, Hd. }
    rewrite (bind_ok _ _ _ _ _ E). apply (loop_spec lo total rounds cancel _ 0 0 b1 H1). }
  unfold bind at 1. destruct (u_ID (bo_me b) =? 0); [|by apply F].
  pose proof (Bot_Login_spec lo total b H) as L. 
  assert (Hc : bo_config (snd (Bot_Login exchange b)) = bo_config b).
  { unfold Bot_Login, bind, get, around, zoom, modify. by destruct (on_net _ _) as [[?|?|] ?]. }
  destruct (Bot_Login exchange b) as [[u|e|] b1]; [by apply F| |done].
  destruct L as [[L (k & P & _)] X]. exists 0. split; [done|]. by exists k.
Qed.

(** The handlers of an application, the recorder first. *)
Fixpoint register (regs : list (option (Message -> bool) * option BotHandler)) (b : Bot) : Bot :=
  match regs with [] => b | (f, h) :: regs => register regs (Bot_OnMessage f h b) end.

Definition recorded_bot (regs : list (option (Message -> bool) * option BotHandler)) (b : Bot) : Bot :=
  register regs (Bot_OnMessage None (Some recorder) b).

Definition bystanders (regs : list (option (Message -> bool) * option BotHandler)) : Prop :=
  Forall (fun fh => forall h, snd fh = Some h -> bystander h) regs.

Lemma register_recording regs (b : Bot) : bystanders regs -> recording b ->
  recording (register regs b) /\ bo_world (register regs b) = bo_world b /\ bo_config (register regs b) = bo_config b.
Proof.
  intros Hr. revert b. induction Hr as [|[f h] regs Hh _ IH]; intros b Hb; [done|]. cbn [register].
  destruct (IH (Bot_OnMessage f h b)) as (I1 & I2 & I3); [|by split_and!; [|rewrite I2|rewrite I3]].
  destruct Hb as [H1 (hist & q & H2) H3 (rest & H4 & H5)]. split; [done| | |]; cbn [Bot_OnMessage set_disp bo_disp].
  - exists hist, q. by apply OnMessage_sound.
  - by destruct h.
  - destruct h as [h|]; [|by exists rest]. exists (rest ++ [MkRoute (match f with Some f => f | None => fun _ => true end) h]).
    split; [cbn [Dispatcher_OnMessage d_messageRoutes]; by rewrite H4|]. apply Forall_app. split; [done|]. constructor; [|constructor].
    by apply Hh.
Qed.

(** A bot as it comes from its construction. *)
Lemma recorded_start regs (b : Bot) (a : A) s : bystanders regs -> bo_api b = api -> bo_world b = (s, ([], a)) ->
  (exists c, bo_disp b = bot_dispatcher c /\ bc_Updates c = true) ->
  after_rounds (sv_low (sr_net s)) (len (since (sv_low (sr_net s)) (sv_stream (sr_net s)))) 0 0 (recorded_bot regs b) /\
  bo_config (recorded_bot regs b) = bo_config b.
Proof.
  intros Hr Ha Hw (c & Hd & Hu). unfold recorded_bot. set (b1 := Bot_OnMessage None (Some recorder) b).
  assert (R : recording b1).
  { split; [done| | |]; unfold b1; cbn [Bot_OnMessage set_disp bo_disp]; rewrite Hd.
    - exists [], []. apply OnMessage_sound, NewDispatcher_sound.
    - cbn. rewrite Hu. by destruct (bc_MessageCacheFilter c).
    - exists []. split; [|constructor]. done. }
  destruct (register_recording regs b1 Hr R) as (R' & Ew & Ec). rewrite Ec. split; [|done].
  assert (En : bo_net (register regs b1) = sr_net s) by (unfold bo_net, world_net; rewrite Ew; cbn; by rewrite Hw).
  assert (El : bo_log (register regs b1) = []) by (unfold bo_log, world_log; rewrite Ew; cbn; by rewrite Hw).
  pose proof (sv_range (sr_net s)) as Hs.
  split; [split; rewrite ?En, ?El; [done|lia|lia|]|]; rewrite ?Z.max_r by lia.
  - by rewrite ids_self.
  - exists 0. split; [|lia]. split; rewrite ?En; [apply len_nonneg|done].
Qed.
End Delivery.

Definition token_api (token : string) : BotApiClient :=
  MkBotApiClient token ("https://api.telegram.org/bot" ++ token ++ "/")%string.

(** What either constructor makes. *)
Lemma constructed {Net A : Type} (config : BotConfig (Net := Net) (App := list ApiMessage * A)) opts w cx b :
  NewBot config w cx = Ok b \/ (NewBotWithOptions config opts w cx = Ok b /\ bc_Updates (bo_config b) = true) ->
  bo_api b = token_api (bc_Token config) /\ bo_world b = w /\ bo_disp b = bot_dispatcher (bo_config b) /\
  bc_Updates (bo_config b) = true /\ bc_DropPendingUpdates (bo_config b) = bc_DropPendingUpdates config.
Proof.
  assert (H : forall c, bot_of c w cx = Ok b ->
    bo_api b = token_api (bc_Token c) /\ bo_world b = w /\ bo_disp b = bot_dispatcher (bo_config b) /\ bo_config b = c).
  { intros c. unfold bot_of, BotApi_New. destruct (_ =? _)%string; [done|]. by intros [= <-]. }
  unfold NewBotWithOptions, newBotExact, NewBot. cbn [set_caches bc_Token].
  destruct (bc_Token config =? EmptyString)%string; [by intros [?|[? _]]|]. cbv zeta.
  intros [E|[E Hu]]; apply H in E as (E1 & E2 & E3 & E4); split_and!; try done; by rewrite E4.
Qed.

(** C14. The Bot API bot delivers every update once, in order (bot.go, [NewBot],
    [NewBotWithOptions], [OnMessage], [Run]; internal/botapi).  Take any service
    that keeps the documented contract of getUpdates, failing as often as it
    likes, before or after it confirms, and any handlers, whatever they do with
    messages and the API other than polling.  Then [Run] ends only when its
    context does or the login fails, never with a panic; what the handlers were
    given is the messages of the updates from the first that was pending up to
    some id, each once and in order; and no update above that id has been
    confirmed, so nothing is lost for the next run.  When the service always
    answers, each poll brings it at least one update further while there are
    any. *)
Theorem updates_delivered_once {Net A : Type} (exchange : string -> list byte -> Net -> http_result * Net)
    (config : BotConfig (Net := Net) (App := list ApiMessage * A))
    {server : UpdateServer exchange (ba_baseURL (token_api (bc_Token config)) ++ "getUpdates")%string}
    (opts : list (option (Option (W := surroundings Net * (list ApiMessage * A)) (Raw := ApiMessage))))
    (s : surroundings Net) (a : A) (cx : list (option goerr))
    (regs : list (option (Message (surroundings Net * (list ApiMessage * A)) ApiMessage -> bool) *
                  option (MessageHandler (W := surroundings Net * (list ApiMessage * A)) (Raw := ApiMessage))))
    (rounds : nat) (cancel : goerr) (b : Bot) :
  bc_DropPendingUpdates config = false -> bystanders exchange (token_api (bc_Token config)) regs ->
  NewBot config (s, ([], a)) cx = Ok b \/
    (NewBotWithOptions config opts (s, ([], a)) cx = Ok b /\ bc_Updates (bo_config b) = true) ->
  let first := sv_low (sr_net s) in
  match Bot_Run exchange rounds cancel (recorded_bot regs b) with
  | (Err _, b') =>
      exists hi, let handled := ids first hi (sv_stream (bo_net b')) in
        bo_log b' = omap up_Message handled /\ first <= sv_low (bo_net b') <= hi /\
        (reliable exchange (token_api (bc_Token config)) ->
         Z.min (Z.of_nat rounds) (len (since first (sv_stream (sr_net s)))) <= len handled)
  | _ => False
  end.
Proof.
  intros Hd Hr Hb first. destruct (constructed config opts _ cx b Hb) as (Ha & Hw & Hdisp & Hu & Hd').
  destruct (recorded_start exchange (token_api (bc_Token config)) regs b a s Hr Ha Hw) as [H0 Hc]; [by eexists|].
  pose proof (Bot_Run_spec exchange (token_api (bc_Token config)) first (len (since first (sv_stream (sr_net s)))) rounds cancel
    (recorded_bot regs b)) as R. rewrite Hc, Hd', Hu in R. specialize (R Hd eq_refl H0).
  destruct (Bot_Run _ _ _ _) as [[u|e|] b']; [done| |done]. destruct R as (o & [H1 H2 H3 H4] & k & [P _] & Hk).
  exists (Z.max o first). cbv zeta. split; [done|]. split; [done|]. intros X. specialize (Hk X). lia.
Qed.

(** A service with two updates; its state is where the pending ones start. *)
Definition demo_update (id : Z) (text : string) : Update :=
  MkUpdate id (Some (MkApiMessage (10 + id) (Some (MkApiUser 7 false "Ann" EmptyString)) (MkApiChat 7 "private" EmptyString EmptyString) text)).
Definition demo_stream : list Update := [demo_update 5 "one"; demo_update 6 "two"].

Definition enc_update (u : Update) : json :=
  JObj [member "update_id" (enc_int (up_UpdateID u));
        member "message" (match up_Message u with
          | None => JNull
          | Some m => JObj [member "message_id" (enc_int (am_MessageID m));
              member "from" (match am_From m with
                             | Some f => JObj [member "id" (enc_int (u_ID f)); member "first_name" (enc_string (u_FirstName f))]
                             | None => JNull end);
              member "chat" (JObj [member "id" (enc_int (c_ID (am_Chat m))); member "type" (enc_string (c_Type (am_Chat m)))]);
              member "text" (enc_string (am_Text m))]
          end)].
Definition enc_response (result : json) : list byte := json_print (JObj [member "ok" (JBool true); member "result" result]).

Definition demo_url : string := "https://api.telegram.org/bot1:token/getUpdates".
Definition demo_low (n : Z) : Z := Z.max 0 (Z.min n 7).
Definition demo_exchange (url : string) (body : list byte) (n : Z) : http_result * Z :=
  if (url =? demo_url)%string then
    let lo := Z.max (demo_low n) (form_offset body) in
    (HttpReply 200 (enc_response (JArr (map enc_update (since lo demo_stream)))) None, lo)
  else (HttpReply 200 (enc_response (JObj [member "id" (enc_int 1)])) None, n).

Lemma demo_brought lo :
  brought (HttpReply 200 (enc_response (JArr (map enc_update (since lo demo_stream)))) None) = Some (since lo demo_stream).
Proof.
  unfold since, demo_stream. cbn [List.filter up_UpdateID demo_update].
  destruct (lo <=? 5), (lo <=? 6); vm_compute; reflexivity.
Qed.

#[export] Program Instance demo_server : UpdateServer demo_exchange demo_url := {|
  sv_stream := fun _ => demo_stream; sv_low := demo_low; sv_next := fun _ => 7 |}.
Next Obligation. unfold demo_low, two63. lia. Qed.
Next Obligation. by repeat constructor. Qed.
Next Obligation. by repeat constructor. Qed.
Next Obligation.
  intros body n Ho. unfold demo_exchange. rewrite (proj2 (String.eqb_eq _ _)) by done. cbv zeta.
  split; [split; [|done]; exists []; by rewrite app_nil_r|]. split; [unfold demo_low in *; lia|].
  intros batch. rewrite demo_brought. intros [= <-]. exists 2%nat. unfold since, demo_stream. cbn [List.filter].
  by destruct (_ <=? _), (_ <=? _).
Qed.
Next Obligation.
  intros other body n Ho. unfold demo_exchange. rewrite (proj2 (String.eqb_neq _ _)) by done.
  split; [|done]. split; [|done]. exists []. by rewrite app_nil_r.
Qed.

Definition demo_config : BotConfig (Net := Z) (App := list ApiMessage * unit) :=
  MkBotConfig 0 EmptyString "1:token" EmptyString 0 false false 0 CacheDefault None 0 0.
Definition demo_around : surroundings Z := Around 0 (fun n => Z.of_nat n * second) 0 [].
(** A handler that answers each message. *)
Definition thanks : MessageHandler (W := surroundings Z * (list ApiMessage * unit)) (Raw := ApiMessage) :=
  handle (fun msg => Message_Reply msg ("you said " ++ m_Text msg)).

Lemma updates_delivered_once_witness :
  exists b, NewBot demo_config (demo_around, ([], tt)) [] = Ok b /\
  match Bot_Run demo_exchange 3 (ErrEnv "context canceled")
          (recorded_bot [(None, Some thanks)] b) with
  | (Err _, b') => exists hi, bo_log b' = omap up_Message (ids 0 hi demo_stream) /\ 2 <= len (ids 0 hi demo_stream)
  | _ => False
  end.
Proof.
  eexists. split; [reflexivity|].
  pose proof (updates_delivered_once demo_exchange demo_config (server := demo_server) [] demo_around tt []
    [(None, Some thanks)] 3 (ErrEnv "context canceled")) as H.
  assert (Hr : bystanders (server := demo_server) demo_exchange (token_api "1:token")
    [(None, Some thanks)]).
  { constructor; [|constructor]. intros h [= <-]. apply bystander_handle. intros m Hm.
    apply (message_all_actions _ m Hm). by intros n l w Hw. }
  specialize (fun b Hb => H b eq_refl Hr (or_introl Hb)). specialize (H _ eq_refl). cbv zeta in H.
  destruct (Bot_Run _ _ _ _) as [[u|e|] b']; [done| |done]. destruct H as (hi & H1 & _ & H3).
  exists hi. split; [exact H1|]. apply H3. split; [intros n; vm_compute; reflexivity|].
  intros body n Ho. cbv zeta. unfold demo_exchange. rewrite (proj2 (String.eqb_eq _ _)) by done. cbn [fst snd].
  rewrite demo_brought. by eexists.
Defined.

(** ** Filters by the type of the chat

    The conversion leaves [ChatType] empty: no message of a Bot API bot passes
    [Private], [Group], [Supergroup] or [Channel], a private chat's included. *)
Lemma chat_filters_match_nothing {Net App : Type} (exchange : string -> list byte -> Net -> http_result * Net)
    (api : BotApiClient) (message : ApiMessage) (s : surroundings Net) :
  match botAPIMessageToUpdate (App := App) exchange api message s with
  | (Ok msg, _) => Private (Some msg) = false /\ Group (Some msg) = false /\ Supergroup (Some msg) = false /\
      Channel (Some msg) = false
  | _ => False
  end.
Proof. unfold botAPIMessageToUpdate, bind. by destruct (negb _ && _). Qed.

(** ** Long polls

    The HTTP client gives up after 90 seconds, whatever [PollTimeout] asks the
    server to wait; below a second it becomes thirty. *)
Example poll_timeouts :
  let seconds t := timeout_seconds (set_timeout (Net := unit) (App := unit) t
    (MkBotConfig 0 EmptyString "1:t" EmptyString 0 true false 0 CacheDefault None 0 0)) in
  seconds (120 * second) = 120 /\ seconds (second / 2) = 30.
Proof. vm_compute. split; reflexivity. Qed.
