(* ===== verification/Console.v ===== *)
(** * Console: the standard input and output of the example programs

    The programs of src/examples read answers with [bufio] and print.  Standard
    input is the list of what the next reads find: on a terminal a line each, on
    a pipe as much as was written; past the end, and at an empty chunk, a read
    finds the end of the file. *)

From S2P Require Import Prelude Strings.

(** An operand of [fmt.Println]; what is printed is kept by its operands. *)
Inductive operand :=
| PS (s : string)
| PZ (z : Z)
| PB (b : bool)
| PErr (e : goerr)
| PList (l : list Z).

Inductive printed :=
| Text (s : string)
| Line (operands : list operand)
| Formatted (format : string) (operands : list operand).

Record console := Console { cn_reads : list (list byte); cn_out : list printed }.

Definition print (p : printed) : M console unit :=
  modify (fun s => Console (cn_reads s) (cn_out s ++ [p])).
Definition Println (l : list operand) : M console unit := print (Line l).

Definition EOF : goerr := ErrEnv "EOF".

(** [os.Stdin.Read] into [n] bytes. *)
Definition stdin_Read (n : Z) : M console (list byte) := fun s =>
  match cn_reads s with
  | [] => (Err EOF, s)
  | [] :: rest => (Err EOF, Console rest (cn_out s))
  | chunk :: rest =>
      if len chunk <=? n then (Ok chunk, Console rest (cn_out s))
      else (Ok (sub chunk 0 n), Console (sub chunk n (len chunk) :: rest) (cn_out s))
  end.

(** ** [bufio.Reader] *)

Definition buffer_size : Z := 4096.

Definition newline : byte := x0a.

(** The part of the buffer up to and with the delimiter, and what follows. *)
Definition cut_line (b : list byte) : option (list byte * list byte) :=
  let i := index_byte b newline 0 in
  if 0 <=? i then Some (sub b 0 (i + 1), sub b (i + 1) (len b)) else None.

(** [ReadString('\n')] of a reader with the buffer [b], after the full buffers
    [acc]: the text, what remains in the buffer, and the error.  A full buffer
    without the delimiter is put aside. *)
Fixpoint read_string (fuel : nat) (acc b : list byte) : M console (list byte * list byte * option goerr) :=
  match fuel with
  | O => fail out_of_fuel
  | S fuel' =>
      match cut_line b with
      | Some (line, rest) => ret (acc ++ line, rest, None)
      | None =>
          if buffer_size <=? len b then read_string fuel' (acc ++ b) []
          else
            r <- try (stdin_Read (buffer_size - len b)) ;;
            match r with
            | inl chunk => read_string fuel' acc (b ++ chunk)
            | inr err => ret (acc ++ b, [], Some err)
            end
      end
  end.

(** The bytes still to be read. *)
Definition pending (s : console) : Z := len (concat (cn_reads s)).

(** Every round but one per full buffer reads a byte. *)
Definition rounds_left (b : list byte) (s : console) : Z :=
  2 * pending s + (if buffer_size <=? len b then 1 else 0).

Definition ReadString (b : list byte) : M console (list byte * list byte * option goerr) := fun s =>
  read_string (S (Z.to_nat (rounds_left b s))) [] b s.

(** ** Panics and deferred calls

    A program returns or panics. *)

(** [defer d], then [m] to its end. *)
Definition defer {S A} (d : M S unit) (m : M S A) : M S A := fun s =>
  let '(o, s1) := m s in
  let '(o', s2) := d s1 in
  (match o' with Panic => Panic | _ => o end, s2).

(** [if err != nil { panic(err) }] *)
Definition must {S A} (m : M S A) : M S A := fun s =>
  match m s with (Err _, s') => (Panic, s') | r => r end.

(** [runs P m Q X]: from [P], [m] returns with [Q] or panics with [X]. *)
Definition runs {S A} (P : S -> Prop) (m : M S A) (Q : A -> S -> Prop) (X : S -> Prop) : Prop := forall s, P s ->
  match m s with
  | (Ok a, s') => Q a s'
  | (Err _, _) => False
  | (Panic, s') => X s'
  end.

Section Runs.
Context {S : Type}.
Implicit Types (P X : S -> Prop).

Lemma runs_ret {A} P (a : A) (Q : A -> S -> Prop) X : (forall s, P s -> Q a s) -> runs P (ret a) Q X.
Proof. intros H s Hs. by apply H. Qed.
Lemma runs_panic {A} P (Q : A -> S -> Prop) X : (forall s, P s -> X s) -> runs P panic Q X.
Proof. intros H s Hs. by apply H. Qed.
Lemma runs_bind {A B} P (m : M S A) (k : A -> M S B) Q Q' X :
  runs P m Q X -> (forall a, runs (Q a) (k a) Q' X) -> runs P (x <- m ;; k x) Q' X.
Proof.
  intros Hm Hk s Hs. specialize (Hm s Hs). unfold bind. destruct (m s) as [[a|e|] s1]; [by apply Hk|done|done].
Qed.
Lemma runs_value {A B} P (a : A) (k : A -> M S B) Q X : runs P (k a) Q X -> runs P (x <- must (lift (Ok a)) ;; k x) Q X.
Proof. intros H. exact H. Qed.
Lemma runs_conseq {A} P P' (m : M S A) (Q Q' : A -> S -> Prop) X X' :
  runs P' m Q' X' -> (forall s, P s -> P' s) -> (forall a s, Q' a s -> Q a s) -> (forall s, X' s -> X s) -> runs P m Q X.
Proof. intros Hm HP HQ HX s Hs. specialize (Hm s (HP s Hs)). destruct (m s) as [[a|e|] s1]; auto. Qed.
Lemma runs_pure {A} (p : Prop) P (m : M S A) Q X : (p -> runs P m Q X) -> runs (fun s => p /\ P s) m Q X.
Proof. intros H s [Hp Hs]. by apply H. Qed.

(** Library code, which returns an error or a value. *)
Lemma runs_try {A} P (m : M S A) Q E X : hoare P m Q E ->
  runs P (try m) (fun r s => match r with inl a => Q a s | inr _ => E s end) X.
Proof. intros Hm s Hs. specialize (Hm s Hs). unfold try. by destruct (m s) as [[a|e|] s1]. Qed.
Lemma runs_must {A} P (m : M S A) Q E : hoare P m Q E -> runs P (must m) Q E.
Proof. intros Hm s Hs. specialize (Hm s Hs). unfold must. by destruct (m s) as [[a|e|] s1]. Qed.

Lemma runs_defer {A} P (d : M S unit) (m : M S A) Q X Q' X' :
  runs P m Q X -> (forall a, hoare (Q a) d (fun _ => Q' a) (Q' a)) -> hoare X d (fun _ => X') X' -> runs P (defer d m) Q' X'.
Proof.
  intros Hm Hd Hx s Hs. specialize (Hm s Hs). unfold defer. destruct (m s) as [[a|e|] s1]; [|done|].
  - specialize (Hd a s1 Hm). by destruct (d s1) as [[u|e|] s2].
  - specialize (Hx s1 Hm). by destruct (d s1) as [[u|e|] s2].
Qed.

(** A step on a component. *)
Lemma runs_zoom {A T} (g : S -> T) u P (m : M T A) Q X :
  (forall s, P s -> runs (fun t => t = g s) m (fun a t => Q a (u t s)) (fun t => X (u t s))) ->
  runs P (zoom g u m) Q X.
Proof.
  intros H s Hs. specialize (H s Hs (g s) eq_refl). unfold zoom. by destruct (m (g s)) as [[a|e|] t].
Qed.
End Runs.

(** ** The questions of the programs *)

(** A text with its white space trimmed. *)
Definition answer (line : list byte) : string := TrimSpace (string_of line).

(** [ask]: a new reader for each question, whose buffer is dropped. *)
Definition ask (label : string) : M console string :=
  print (Text label) ;;
  r <- ReadString [] ;;
  match snd r with
  | Some _ => panic
  | None => ret (answer (fst (fst r)))
  end.

(** [ask] where the error is dropped. *)
Definition ask_blank (label : string) : M console string :=
  print (Text label) ;; r <- ReadString [] ;; ret (answer (fst (fst r))).

Definition defaultValue (v def : string) : string :=
  if (TrimSpace v =? EmptyString)%string then def else TrimSpace v.

(** An answer that is empty stands for [def]. *)
Definition or_default (v def : string) : string := if (v =? EmptyString)%string then def else v.

Definition mustInt64 (label : string) : M console Z := v <- ask label ;; must (lift (ParseInt64 v)).

Definition askInt (label : string) (def : Z) : M console Z :=
  value <- ask label ;;
  if (value =? EmptyString)%string then ret def
  else match Atoi value with
       | Ok n => if n <? 0 then panic else ret n
       | _ => panic
       end.

Definition askBool (unicode_lower : list byte -> list byte) (label : string) (def : bool) : M console bool :=
  v <- ask label ;;
  let value := ToLower unicode_lower v in
  ret (if (value =? EmptyString)%string then def
       else ((value =? "true") || (value =? "yes") || (value =? "y") || (value =? "1"))%string).

(** [strconv.ParseInt(text, 10, 32)] and the check of the API id. *)
Definition parse_api_id {S} (text : string) : M S Z :=
  match ParseInt32 text with
  | Ok id => if id <=? 0 then panic else ret id
  | _ => panic
  end.

(** ** Reading ends *)

Lemma pending_cons chunk rest out : pending (Console (chunk :: rest) out) = len chunk + pending (Console rest out).
Proof. unfold pending. cbn [cn_reads concat]. apply len_app. Qed.

Lemma pending_nonneg s : 0 <= pending s.
Proof. apply len_nonneg. Qed.

Lemma stdin_Read_spec n s : 0 < n ->
  match stdin_Read n s with
  | (Ok chunk, s') => 0 < len chunk /\ pending s' = pending s - len chunk /\ cn_out s' = cn_out s
  | (Err _, s') => pending s' <= pending s /\ cn_out s' = cn_out s
  | (Panic, _) => False
  end.
Proof.
  intros Hn. unfold stdin_Read. destruct s as [[|[|x chunk] rest] out]; cbn [cn_reads cn_out]; [done|done|].
  set (l := x :: chunk). assert (Hl : 0 < len l) by (unfold l; rewrite len_cons; pose proof (len_nonneg chunk); lia).
  destruct (Z.leb_spec (len l) n) as [Hle|Hgt].
  - split; [done|]. split; [|done]. rewrite pending_cons. lia.
  - assert (E : len (sub l 0 n) = n) by (rewrite len_sub; lia).
    assert (E2 : len (sub l n (len l)) = len l - n) by (rewrite len_sub; lia).
    split; [lia|]. split; [|done]. rewrite !pending_cons. lia.
Qed.

(** A reading that does not run out of fuel. *)
Lemma read_string_spec fuel : forall acc b s, (Z.to_nat (rounds_left b s) < fuel)%nat ->
  match read_string fuel acc b s with
  | (Ok _, s') => pending s' <= pending s /\ cn_out s' = cn_out s
  | _ => False
  end.
Proof.
  induction fuel as [|fuel IH]; intros acc b s Hf; [lia|]. cbn [read_string].
  destruct (cut_line b) as [[line rest]|]; [done|]. unfold rounds_left in Hf. pose proof (pending_nonneg s) as Hp.
  revert Hf. destruct (Z.leb_spec buffer_size (len b)) as [Hb|Hb]; intros Hf.
  - apply IH. unfold rounds_left. change (len []) with 0. change (buffer_size <=? 0) with false. lia.
  - unfold bind, try. pose proof (stdin_Read_spec (buffer_size - len b) s ltac:(lia)) as R.
    destruct (stdin_Read _ s) as [[chunk|e|] s1]; [|by destruct R|done]. destruct R as (R1 & R2 & R3).
    specialize (IH acc (b ++ chunk) s1). rewrite <- R3.
    assert (Hs : (Z.to_nat (rounds_left (b ++ chunk) s1) < fuel)%nat).
    { pose proof (pending_nonneg s1). unfold rounds_left. rewrite R2 in *. destruct (buffer_size <=? _); lia. }
    specialize (IH Hs). destruct (read_string fuel acc _ s1) as [[r|e|] s2]; [|done..]. destruct IH. split; [lia|done].
Qed.

Lemma ReadString_spec b s :
  match ReadString b s with
  | (Ok _, s') => pending s' <= pending s /\ cn_out s' = cn_out s
  | _ => False
  end.
Proof. apply read_string_spec. lia. Qed.

Definition anything : console -> Prop := fun _ => True.

Lemma runs_ReadString b : runs anything (ReadString b) (fun _ => anything) anything.
Proof. intros s _. pose proof (ReadString_spec b s) as H. by destruct (ReadString b s) as [[r|e|] s']. Qed.
Lemma runs_print p : runs anything (print p) (fun _ => anything) anything.
Proof. done. Qed.

Lemma runs_ask label : runs anything (ask label) (fun _ => anything) anything.
Proof.
  eapply runs_bind; [apply runs_print|intros ?]. eapply runs_bind; [apply runs_ReadString|].
  intros r. destruct (snd r); [by apply runs_panic|by apply runs_ret].
Qed.
Lemma runs_ask_blank label : runs anything (ask_blank label) (fun _ => anything) anything.
Proof.
  eapply runs_bind; [apply runs_print|intros ?]. eapply runs_bind; [apply runs_ReadString|intros r; by apply runs_ret].
Qed.
Lemma runs_mustInt64 label : runs anything (mustInt64 label) (fun _ => anything) anything.
Proof.
  eapply runs_bind; [apply runs_ask|intros v s _]. unfold must, lift.
  assert (H : ParseInt64 v <> Panic) by (unfold ParseInt64; repeat case_match; done). by destruct (ParseInt64 v).
Qed.
Lemma runs_askInt label def : runs anything (askInt label def) (fun _ => anything) anything.
Proof. eapply runs_bind; [apply runs_ask|intros v s _]. repeat case_match; done. Qed.
Lemma runs_askBool lower label def : runs anything (askBool lower label def) (fun _ => anything) anything.
Proof. eapply runs_bind; [apply runs_ask|intros v s _]. done. Qed.
Lemma runs_api_id {S} P text : runs (S := S) P (parse_api_id text) (fun id s => 0 < id /\ P s) P.
Proof.
  intros s Hs. unfold parse_api_id. destruct (ParseInt32 text) as [id|e|]; [|done..].
  destruct (Z.leb_spec id 0); done.
Qed.

(** ** On a terminal, and on a pipe *)

Definition one_line (l : list byte) : Prop := ~ In newline l.

Lemma cut_line_app l rest : one_line l -> cut_line (l ++ newline :: rest) = Some (l ++ [newline], rest).
Proof.
  intros Hl. unfold cut_line. rewrite index_byte_app by done. pose proof (len_nonneg l). rewrite (proj2 (Z.leb_le _ _)) by lia.
  assert (E : l ++ newline :: rest = (l ++ [newline]) ++ rest) by (by rewrite <- app_assoc).
  rewrite E. pose proof (len_nonneg rest).
  assert (Hn : len (l ++ [newline]) = 0 + len l + 1) by (rewrite len_app; change (len [newline]) with 1; lia).
  rewrite sub_app_head by lia. rewrite (sub_app_tail (l ++ [newline]) rest); [done|lia|]. rewrite !len_app in *. lia.
Qed.

Lemma stdin_Read_chunk n chunk rest out : 0 < len chunk <= n ->
  stdin_Read n (Console (chunk :: rest) out) = (Ok chunk, Console rest out).
Proof. intros [H1 H2]. unfold stdin_Read. destruct chunk as [|x l]; [done|]. cbn [cn_reads cn_out]. by rewrite (proj2 (Z.leb_le _ _)). Qed.

(** The line is there with the next read. *)
Lemma ReadString_chunk l more rest out : one_line l -> len (l ++ newline :: more) <= buffer_size ->
  ReadString [] (Console ((l ++ newline :: more) :: rest) out) = (Ok (l ++ [newline], more, None), Console rest out).
Proof.
  intros Hl Hn. unfold ReadString, rounds_left. change (len []) with 0. change (buffer_size <=? 0) with false.
  set (chunk := l ++ newline :: more) in *.
  assert (Hc : 0 < len chunk) by (unfold chunk; rewrite len_app, len_cons; pose proof (len_nonneg l); pose proof (len_nonneg more); lia).
  destruct (Z.to_nat _) as [|f] eqn:Ef.
  { rewrite pending_cons in Ef. pose proof (pending_nonneg (Console rest out)). lia. }
  cbn [read_string]. change (cut_line []) with (None (A := list byte * list byte)).
  change (buffer_size <=? len []) with false. cbv iota. unfold bind at 1, try.
  rewrite (stdin_Read_chunk (buffer_size - len []) chunk) by done. cbn [app]. unfold chunk. by rewrite cut_line_app.
Qed.

(** With a line to each read every question is answered by its line. *)
Lemma ask_terminal label l rest out : one_line l -> len l < buffer_size ->
  ask label (Console ((l ++ [newline]) :: rest) out) = (Ok (answer (l ++ [newline])), Console rest (out ++ [Text label])).
Proof.
  intros Hl Hn. unfold ask, bind at 1, print, modify. cbn [cn_reads cn_out]. unfold bind.
  rewrite ReadString_chunk; [done|done|]. rewrite len_app. change (len [newline]) with 1. lia.
Qed.

(** What a read brings after the line is lost. *)
Lemma ask_drops label l more rest out : one_line l -> len (l ++ newline :: more) <= buffer_size ->
  ask label (Console ((l ++ newline :: more) :: rest) out) =
  (Ok (answer (l ++ [newline])), Console rest (out ++ [Text label])).
Proof.
  intros Hl Hn. unfold ask, bind at 1, print, modify. cbn [cn_reads cn_out]. unfold bind.
  by rewrite ReadString_chunk.
Qed.

(** At the end of the input. *)
Lemma ask_end label out : ask label (Console [] out) = (Panic, Console [] (out ++ [Text label])).
Proof. reflexivity. Qed.
