(* ===== verification/Programs.v ===== *)
(** * Programs: the example programs on the encrypted client (src/examples)

    mtproto_probe, mtproto_auth, mtproto_config, mtproto_bot_login,
    mtproto_send_message and mtproto_account_login, whole: questions, context,
    session store, client, printing, panics and deferred calls. *)

From S2P Require Import Prelude Strings TL Transport Hash AES Crypto Envelope Auth Invoke Queries Seal Client Account Password Peers Difference Api Media Life Session Json Codec Saved Console.

(** ** The process

    [ps_ctx]: what the next looks at the context find; past the end it is not
    done.  The clock and the random source are in [ps_env]. *)
Record process := Process {
  ps_console : console; ps_env : env; ps_stores : stores; ps_ctx : list (option goerr) }.

Definition on_console {A} (m : M console A) : M process A :=
  zoom ps_console (fun c p => Process c (ps_env p) (ps_stores p) (ps_ctx p)) m.
Definition on_net {A} (m : M env A) : M process A :=
  zoom ps_env (fun e p => Process (ps_console p) e (ps_stores p) (ps_ctx p)) m.
Definition on_store {A} (m : M stores A) : M process A :=
  zoom ps_stores (fun s p => Process (ps_console p) (ps_env p) s (ps_ctx p)) m.
Definition look_ctx : M process (option goerr) := fun p =>
  (Ok (match ps_ctx p with [] => None | d :: _ => d end),
   Process (ps_console p) (ps_env p) (ps_stores p) (tail (ps_ctx p))).

Definition say (l : list operand) : M process unit := on_console (Println l).
Definition question (label : string) : M process string := on_console (ask label).

(** [context.WithTimeout(context.Background(), d)] *)
Definition with_timeout (d : Z) : M process ctx := now <- on_net env_Now ;; ret (Some (now + d)).

(** [v, result, err := m]: the value and the result, or the error. *)
Definition both {A} (m : Method ((A + goerr) * InvokeResult)) : Method (A * InvokeResult) :=
  r <- m ;; match fst r with inl a => ret (a, snd r) | inr err => fail err end.

(** ** Code with a client at hand *)

Definition client_process : Type := EncryptedClient * process.

Definition with_client {A} (client : EncryptedClient) (m : M client_process A) : M process A := fun p =>
  let '(o, (_, p')) := m (client, p) in (o, p').
Definition on_program {A} (m : M process A) : M client_process A := zoom snd (fun p s => (fst s, p)) m.
Definition on_client {A} (m : Method A) : M client_process A :=
  zoom (fun s => (fst s, ps_env (snd s)))
       (fun t s => (fst t, Process (ps_console (snd s)) (snd t) (ps_stores (snd s)) (ps_ctx (snd s)))) m.
Definition say' (l : list operand) : M client_process unit := on_program (say l).

(** [defer client.Close()], then the rest with the client. *)
Definition closing {A} (client : EncryptedClient) (m : M client_process A) : M process A :=
  defer (on_net (Client_Close client)) (with_client client m).

Definition print_constructor (label : string) (c : Z) (hex : string) : list operand := [PS label; PS hex; PS (ConstructorName c)].

Section Programs.
Variable ProbablyPrime : Z -> bool.
Variable keys : list RSAPublicKey.
Variable gunzip : list byte -> outcome (list byte).
Variable unicode_lower : list byte -> list byte.

(** ** mtproto_probe and mtproto_auth: one reader for all questions *)

Definition address_label : string := "Telegram DC address, or press Enter to try defaults: ".

Definition mtproto_probe : M process unit :=
  on_console (print (Text address_label)) ;;
  r <- on_console (ReadString []) ;;
  let address := answer (fst (fst r)) in
  c <- with_timeout (20 * second) ;;
  result <- must (on_net (if (address =? EmptyString)%string then ProbeDefault ProbablyPrime c
                          else Probe ProbablyPrime c address)) ;;
  say [PS "Pure MTProto probe OK"] ;;
  say [PS "Address:"; PS (pr_Address result)] ;;
  say [PS "PQ hex:"; PS (ProbeResult_PQHex result)] ;;
  say [PS "P:"; PS (ProbeResult_PHex result)] ;;
  say [PS "Q:"; PS (ProbeResult_QHex result)] ;;
  on_console (print (Formatted "RSA fingerprints: %x" [PList (pr_RSAFingerprints result)])).

Definition mtproto_auth : M process unit :=
  on_console (print (Text address_label)) ;;
  r <- on_console (ReadString []) ;;
  let address := answer (fst (fst r)) in
  c <- with_timeout (40 * second) ;;
  result <-
    (if (address =? EmptyString)%string then must (on_net (AuthKeyDefault ProbablyPrime keys c))
     else
       on_console (print (Text "DC ID for this address: ")) ;;
       r <- on_console (ReadString (snd (fst r))) ;;
       match Atoi (answer (fst (fst r))) with
       | Ok dcID => if dcID =? 0 then panic else must (on_net (AuthKey_on ProbablyPrime keys c (DC dcID address)))
       | _ => panic
       end) ;;
  say [PS "Pure MTProto auth key OK"] ;;
  say [PS "Address:"; PS (ak_Address result)] ;;
  say [PS "DC ID:"; PZ (ak_DCID result)] ;;
  on_console (print (Formatted "RSA fingerprint: %016x" [PZ (ak_RSAFingerprint result)])) ;;
  say [PS "Auth key bytes:"; PZ (len (ak_AuthKey result))] ;;
  on_console (print (Formatted "Auth key ID: %016x" [PZ (ak_AuthKeyID result)])) ;;
  say [PS "Server salt:"; PZ (ak_ServerSalt result)] ;;
  say [PS "Server time offset:"; PZ (ak_TimeOffset result)].

(** ** mtproto_config *)

Definition mtproto_config : M process unit :=
  say [PS "MtProGo V6 encrypted MTProto help.getConfig test"] ;;
  say [PS "This creates a temporary auth key, sends an encrypted request, and prints the response constructor."] ;;
  say [] ;;
  apiIDText <- question "Enter API ID, or press Enter to send direct help.getConfig: " ;;
  apiID <- (if (apiIDText =? EmptyString)%string then ret 0 else must (lift (Atoi apiIDText))) ;;
  c <- with_timeout (45 * second) ;;
  result <- must (on_net (HelpGetConfigDefault ProbablyPrime keys gunzip c apiID)) ;;
  say [] ;;
  say [PS "Encrypted MTProto help.getConfig OK"] ;;
  say [PS "Address:"; PS (ir_Address result)] ;;
  say [PS "DC ID:"; PZ (ir_DCID result)] ;;
  say [PS "Auth key ID:"; PS (InvokeResult_AuthKeyIDHex result)] ;;
  say [PS "Server salt:"; PZ (ir_ServerSalt result)] ;;
  say [PS "Session ID:"; PZ (ir_SessionID result)] ;;
  say [PS "Request msg ID:"; PZ (ir_RequestMessageID result)] ;;
  say [PS "Response msg ID:"; PZ (ir_ResponseMessageID result)] ;;
  say [PS "Result constructor:"; PS (InvokeResult_ConstructorHex result)] ;;
  say [PS "Gzip packed:"; PB (ir_GzipPacked result)] ;;
  say [PS "Result bytes:"; PZ (len (ir_Body result))].

(** ** mtproto_bot_login and mtproto_send_message *)

Definition mtproto_bot_login : M process unit :=
  say [PS "MtProGo V12 pure MTProto bot authorization"] ;;
  apiIDText <- question "Enter API ID: " ;;
  apiHash <- question "Enter API Hash: " ;;
  botToken <- question "Enter Bot Token: " ;;
  apiID <- parse_api_id apiIDText ;;
  c <- with_timeout (60 * second) ;;
  cr <- must (on_net (ImportBotAuthorizationDefault ProbablyPrime keys gunzip c apiID apiHash botToken)) ;;
  let result := snd cr in
  closing (fst cr)
    (say' [PS "Pure MTProto bot authorization OK"] ;;
     say' [PS "Address:"; PS (ir_Address result)] ;;
     say' [PS "DC ID:"; PZ (ir_DCID result)] ;;
     say' [PS "Auth key ID:"; PS (InvokeResult_AuthKeyIDHex result)] ;;
     say' [PS "Server salt:"; PZ (ir_ServerSalt result)] ;;
     say' [PS "Session ID:"; PZ (ir_SessionID result)] ;;
     say' (print_constructor "Result constructor:" (ir_Constructor result) (InvokeResult_ConstructorHex result)) ;;
     say' [PS "Result bytes:"; PZ (len (ir_Body result))]).

(** The peer to send to; the arguments are asked for in their order. *)
Definition ask_peer (peerKind : string) : M process InputPeer :=
  if (peerKind =? "self")%string then ret InputPeerSelf
  else if (peerKind =? "chat")%string then
    id <- on_console (mustInt64 "Chat ID: ") ;; ret (InputPeerChat id)
  else if (peerKind =? "user")%string then
    id <- on_console (mustInt64 "User ID: ") ;; hash <- on_console (mustInt64 "User access_hash: ") ;;
    ret (InputPeerUser id hash)
  else if (peerKind =? "channel")%string then
    id <- on_console (mustInt64 "Channel ID: ") ;; hash <- on_console (mustInt64 "Channel access_hash: ") ;;
    ret (InputPeerChannel id hash)
  else panic.

Definition mtproto_send_message : M process unit :=
  say [PS "MtProGo V12 pure MTProto sendMessage"] ;;
  say [PS "Note: inputPeerUser/inputPeerChannel require the Telegram access_hash."] ;;
  say [PS "Bots normally learn access_hash values from MTProto updates or dialogs; that update loop is planned for the next update-loop milestone."] ;;
  say [] ;;
  apiIDText <- question "Enter API ID: " ;;
  apiHash <- question "Enter API Hash: " ;;
  botToken <- question "Enter Bot Token: " ;;
  apiID <- parse_api_id apiIDText ;;
  kind <- question "Peer type (chat/user/channel/self): " ;;
  peer <- ask_peer (ToLower unicode_lower kind) ;;
  text <- question "Message text: " ;;
  c <- with_timeout (75 * second) ;;
  cr <- must (on_net (ImportBotAuthorizationDefault ProbablyPrime keys gunzip c apiID apiHash botToken)) ;;
  closing (fst cr)
    (say' (print_constructor "Bot authorized:" (ir_Constructor (snd cr)) (InvokeResult_ConstructorHex (snd cr))) ;;
     result <- must (on_client (MessagesSendMessage gunzip c peer text)) ;;
     say' [PS "messages.sendMessage OK"] ;;
     say' (print_constructor "Result constructor:" (ir_Constructor result) (InvokeResult_ConstructorHex result)) ;;
     say' [PS "Result bytes:"; PZ (len (ir_Body result))]).

(** ** mtproto_account_login *)

Definition account_name : string := "account".

(** The store of the answers; a string session is put into a new memory. *)
Definition account_store (sessionPath encPassword stringSession : string) : M process SessionStore :=
  if negb (stringSession =? EmptyString)%string then
    sess <- must (lift (ParseStringSession stringSession)) ;;
    now <- on_net env_Now ;;
    data <- must (lift (MarshalBinary (unix now) (Some sess))) ;;
    on_store (modify (set_mem ∅)) ;;
    done <- look_ctx ;;
    must (on_store (Store_Save MemorySession done (MkSessionData account_name data))) ;;
    ret MemorySession
  else if negb (encPassword =? EmptyString)%string then ret (EncryptedFileSession sessionPath encPassword)
  else ret (FileSession sessionPath).

Definition print_state (state : UpdatesState) : list operand :=
  [PS "PTS:"; PZ (us_PTS state); PS "QTS:"; PZ (us_QTS state); PS "Date:"; PZ (us_Date state); PS "Seq:"; PZ (us_Seq state)].

Definition print_string_session (sess : option Session) : M client_process unit :=
  now <- on_program (on_net env_Now) ;;
  match EncodeString (unix now) sess with
  | Ok encoded => say' [PS "String session:"; PS encoded]
  | Err _ => ret tt
  | Panic => panic
  end.

(** With the client of the saved session: does it still work? *)
Definition check_saved (c : ctx) : M client_process bool :=
  r <- try (on_client (both (UpdatesGetState gunzip c))) ;;
  match r with
  | inr err => say' [PS "saved session check failed; clear the session or login again:"; PErr err] ;; ret false
  | inl (state, result) =>
      s <- get ;;
      say' [PS "Loaded account session OK"] ;;
      say' [PS "Address:"; PS (dc_Address (ec_dc (fst s)))] ;;
      say' [PS "DC ID:"; PZ (dc_ID (ec_dc (fst s)))] ;;
      say' (print_constructor "updates.getState:" (ir_Constructor result) (InvokeResult_ConstructorHex result)) ;;
      say' (print_state state) ;;
      sess <- on_client (ExportSession "user") ;;
      print_string_session sess ;;
      ret true
  end.

(** How [main] returned: with the saved session, without a code to ask for, or
    after saving a new session. *)
Inductive ending :=
| Resumed
| NotSent
| SavedSession (session : option Session).

(** The login, with the client of [AuthSendCodeDefault]. *)
Definition sign_in (c : ctx) (apiID : Z) (phone : string) (sent : SentCodeResult) (code : string)
  : M client_process InvokeResult :=
  r <- try (on_client (AuthSignIn gunzip c apiID phone (sc_PhoneCodeHash sent) code)) ;;
  match r with
  | inl result => ret result
  | inr err =>
      match as_RPCError err with
      | Some (_, message) =>
          if Contains message "SESSION_PASSWORD_NEEDED" then
            say' [PS "Telegram says SESSION_PASSWORD_NEEDED."] ;;
            password <- on_program (question "Enter 2FA Password: ") ;;
            pr <- must (on_client (both (AccountGetPassword gunzip c))) ;;
            say' [] ;;
            say' [PS "account.getPassword OK"] ;;
            say' (print_constructor "Result constructor:" (ir_Constructor (snd pr)) (InvokeResult_ConstructorHex (snd pr))) ;;
            say' [PS "Hint:"; PS (ap_Hint (fst pr))] ;;
            say' [PS "SRP ID:"; PZ (ap_SRPID (fst pr))] ;;
            must (on_client (AuthCheckPassword gunzip c (Some (fst pr)) password))
          else panic
      | None => panic
      end
  end.

Definition signed_in (c : ctx) (store : SessionStore) (sessionPath : string) (loginResult : InvokeResult)
  : M client_process ending :=
  say' [] ;;
  say' [PS "Account authorization OK"] ;;
  say' (print_constructor "Result constructor:" (ir_Constructor loginResult) (InvokeResult_ConstructorHex loginResult)) ;;
  sr <- must (on_client (both (UpdatesGetState gunzip c))) ;;
  say' [] ;;
  say' [PS "updates.getState OK"] ;;
  say' (print_constructor "Result constructor:" (ir_Constructor (snd sr)) (InvokeResult_ConstructorHex (snd sr))) ;;
  say' (print_state (fst sr)) ;;
  sess <- on_client (ExportSession "user") ;;
  now <- on_program (on_net env_Now) ;;
  data <- must (lift (MarshalBinary (unix now) sess)) ;;
  done <- on_program look_ctx ;;
  must (on_program (on_store (Store_Save store done (MkSessionData account_name data)))) ;;
  say' [PS "Session saved:"; PS sessionPath] ;;
  print_string_session sess ;;
  ret (SavedSession sess).

Definition account_login_anew (c : ctx) (apiID : Z) (apiHash : string) (store : SessionStore) (sessionPath : string)
  : M process ending :=
  phone <- question "Enter Phone Number (+countrycode...): " ;;
  cr <- must (on_net (AuthSendCodeDefault ProbablyPrime keys gunzip c apiID apiHash phone)) ;;
  let sent := snd cr in
  closing (fst cr)
    (say' [] ;;
     say' [PS "auth.sendCode OK"] ;;
     s <- get ;;
     say' [PS "Address:"; PS (dc_Address (ec_dc (fst s)))] ;;
     say' [PS "DC ID:"; PZ (dc_ID (ec_dc (fst s)))] ;;
     say' (print_constructor "SentCode constructor:" (sc_Constructor sent) (SentCode_ConstructorHex sent)) ;;
     say' (print_constructor "Code type:" (sc_CodeTypeConstructor sent) (SentCode_CodeTypeHex sent)) ;;
     say' [PS "Phone code hash:"; PS (sc_PhoneCodeHash sent)] ;;
     when (0 <? sc_Timeout sent) (say' [PS "Timeout:"; PZ (sc_Timeout sent)]) ;;
     if (sc_PhoneCodeHash sent =? EmptyString)%string then
       say' [PS "No phone_code_hash was returned; the account may already be authorized or a special login flow was returned."] ;;
       ret NotSent
     else
       code <- on_program (question "Enter Login Code: ") ;;
       loginResult <- sign_in c apiID phone sent code ;;
       signed_in c store sessionPath loginResult).

(** The client of the saved session, if there is one to connect. *)
Definition saved_client (c : ctx) (store : SessionStore) : M process (option EncryptedClient) :=
  done <- look_ctx ;;
  data <- try (on_store (Store_Load store done account_name)) ;;
  match data with
  | inr err => say [PS "saved session load failed; will login again:"; PErr err] ;; ret None
  | inl None => ret None
  | inl (Some data) =>
      sess <- try (lift (ParseSession (sd_Data data))) ;;
      match sess with
      | inr err => say [PS "saved session parse failed; will login again:"; PErr err] ;; ret None
      | inl sess =>
          client <- try (on_net (DialEncryptedFromSession c (Some sess))) ;;
          match client with
          | inr err => say [PS "saved session connect failed; will login again:"; PErr err] ;; ret None
          | inl client => ret (Some client)
          end
      end
  end.

(** After the questions; a saved client is closed when [main] ends, after the
    client of a new login. *)
Definition account_session (c : ctx) (apiID : Z) (apiHash sessionPath : string) (store : SessionStore) : M process ending :=
  saved <- saved_client c store ;;
  match saved with
  | None => account_login_anew c apiID apiHash store sessionPath
  | Some client =>
      closing client
        (loaded <- check_saved c ;;
         if loaded : bool then ret Resumed
         else on_program (account_login_anew c apiID apiHash store sessionPath))
  end.

Definition mtproto_account_login : M process ending :=
  say [PS "MtProGo V13 pure MTProto user account login with persistent session"] ;;
  say [PS "First run logs in and saves account.session. Next run loads it without phone code."] ;;
  say [] ;;
  apiIDText <- question "Enter API ID: " ;;
  apiHash <- question "Enter API Hash: " ;;
  path <- question "Session file [account.session]: " ;;
  let sessionPath := defaultValue path "account.session" in
  encPassword <- question "Encrypt session password optional [empty = plain file]: " ;;
  stringSession <- question "Paste string session optional [empty = use file/login]: " ;;
  apiID <- parse_api_id apiIDText ;;
  c <- with_timeout (180 * second) ;;
  store <- account_store sessionPath encPassword stringSession ;;
  account_session c apiID apiHash sessionPath store.

End Programs.

(** ** Where the client of a login is connected *)

(** A working client of one of the default data centres. *)
Definition homed (cl : EncryptedClient) : Prop :=
  client_wf cl /\ In (ec_dc cl) DefaultDCOptions /\ is_u64 (ak_AuthKeyID (ec_auth cl)).

Lemma kept_homed cl e cl' e' : kept (cl, e) (cl', e') -> homed cl -> homed cl'.
Proof. intros [K1 K2 K3 _ _ _ _] (H1 & H2 & H3). cbn in *. split; [done|]. by rewrite K2, K3. Qed.

Section Homed.
Variable ProbablyPrime : Z -> bool.
Variable keys : list RSAPublicKey.

Lemma dial_homed c dc e cl e' : In dc DefaultDCOptions ->
  DialEncrypted ProbablyPrime keys c dc e = (Ok cl, e') -> homed cl.
Proof.
  intros Hdc H. assert (Ho : opened (e_open e) (S (length (e_dials e))) e) by (split; [done|lia]).
  pose proof (DialEncrypted_spec ProbablyPrime keys c dc _ _ e Ho) as R. rewrite H in R. destruct R as [R _].
  unfold DialEncrypted in H. run_inv. destruct a0 as [[auth|err] l']; cbn [fst snd] in H; run_inv.
  split; [exact R|]. split; [exact Hdc|]. cbn [ec_auth]. unfold on_link in Hrun0.
  destruct (authKeyOnConn _ _ _ _) as [[r|x|] w] eqn:E; [|discriminate..]. injection Hrun0 as <- _ _.
  rewrite (ag_id _ _ (authKeyOnConn_agreed _ _ _ _ _ _ E)). apply authKeyID_range.
Qed.

Lemma first_success_inv {D A} (f : D -> M env A) none ds : forall last e a e',
  first_success f none last ds e = (Ok a, e') -> exists d e0, In d ds /\ f d e0 = (Ok a, e').
Proof.
  induction ds as [|d ds IH]; intros last e a e' H; cbn [first_success] in H; [discriminate|].
  apply bind_inv in H as ([x|err] & e1 & H1 & H).
  - run_inv. unfold try in H1. exists d, e. split; [by left|]. destruct (f d e) as [[y|z|] e2]; congruence.
  - destruct (IH _ _ _ _ H) as (d' & e0 & Hin & Hf). exists d', e0. split; [by right|done].
Qed.

Section Login.
Context {A : Type}.
Variable login : Method A.
Hypothesis login_ok : method_ok login.

Lemma attempt_homed cl e r cl' e' : homed cl -> attempt login cl e = (Ok (r, cl'), e') -> homed cl'.
Proof.
  intros Hc H. pose proof (login_ok (cl, e) (cl, e) (kept_refl (cl, e) (proj1 Hc))) as R. unfold attempt in H.
  destruct (login (cl, e)) as [[a|x|] [c1 e1]]; [..|done]; injection H as _ <- _; by eapply kept_homed.
Qed.

Lemma onDC_homed c again dcID options : (forall d e r e', again d e = (Ok r, e') -> homed (fst r)) ->
  (forall dc, In dc options -> In dc DefaultDCOptions) -> forall last e r e',
  onDC_loop ProbablyPrime keys c login again dcID options last e = (Ok r, e') -> homed (fst r).
Proof.
  intros Ha. induction options as [|dc rest IH]; intros Ho last e r e' H; cbn [onDC_loop] in H; [discriminate|].
  assert (IH' := IH (fun d Hd => Ho d (or_intror Hd))).
  apply bind_inv in H as ([cl|err] & e1 & H1 & H); [|by eapply IH'].
  assert (Hcl : homed cl).
  { unfold try in H1. destruct (DialEncrypted _ _ _ _ _) as [[x|y|] e2] eqn:E; [|discriminate..]. injection H1 as -> _.
    eapply dial_homed; [|exact E]. apply Ho. by left. }
  apply bind_inv in H as ([[a|err] cl'] & e2 & H2 & H); cbn [fst snd] in H.
  - run_inv. by eapply attempt_homed.
  - apply bind_inv in H as (u & e3 & _ & H). destruct (MigrationDCID err); [|by eapply IH'].
    destruct (negb _); [by eapply Ha|by eapply IH'].
Qed.

Lemma onDC_options_default dcID dc : In dc (dcOptionsByID dcID) -> In dc DefaultDCOptions.
Proof. intros H. by apply filter_In in H as [H _]. Qed.

Lemma loginOnDC_homed fuel c : forall dcID e r e',
  loginOnDC ProbablyPrime keys (fail out_of_fuel) fuel c login dcID e = (Ok r, e') -> homed (fst r).
Proof.
  induction fuel as [|fuel IH]; intros dcID e r e' H; cbn [loginOnDC] in H; [discriminate|].
  destruct (_ =? 0); [discriminate|]. eapply onDC_homed; [exact IH|apply onDC_options_default|exact H].
Qed.

Lemma loginDefault_homed c migrated e r e' :
  loginDefault ProbablyPrime keys c login migrated e = (Ok r, e') -> homed (fst r).
Proof.
  intros H. unfold loginDefault in H. apply bind_inv in H as (cl & e1 & H1 & H).
  apply first_success_inv in H1 as (dc & e0 & Hin & H1). apply dial_homed in H1; [|done].
  apply bind_inv in H as ([[a|err] cl'] & e2 & H2 & H); cbn [fst snd] in H.
  - run_inv. by eapply attempt_homed.
  - apply bind_inv in H as (u & e3 & _ & H). destruct (MigrationDCID err); [|discriminate].
    run_inv. cbn [fst]. eapply loginOnDC_homed; eassumption.
Qed.
End Login.
End Homed.

(** ** What the steps of a program keep

    [k] connections open, the stores as [F] says. *)
Definition balance (k : Z) (F : stores -> Prop) (p : process) : Prop := e_open (ps_env p) = k /\ F (ps_stores p).

(** The same, with a client of which [H] holds. *)
Definition holding (k : Z) (F : stores -> Prop) (H : EncryptedClient -> Prop) (s : client_process) : Prop :=
  H (fst s) /\ balance k F (snd s).

(** What calls keep of a working client. *)
Record lasting (H : EncryptedClient -> Prop) : Prop := {
  ls_wf : forall cl, H cl -> client_wf cl;
  ls_kept : forall cl e cl' e', kept (cl, e) (cl', e') -> H cl -> H cl' }.

Lemma lasting_wf : lasting client_wf.
Proof. split; [done|]. intros cl e cl' e' K _. apply (k_wf _ _ K). Qed.
Lemma lasting_homed : lasting homed.
Proof. split; [by intros cl [H _]|]. intros cl e cl' e'. apply kept_homed. Qed.

Create HintDb programs.

Section Steps.
Variables (k : Z) (F : stores -> Prop).

Lemma step_console {A} (m : M console A) : runs anything m (fun _ => anything) anything ->
  runs (balance k F) (on_console m) (fun _ => balance k F) (balance k F).
Proof.
  intros Hm p Hp. unfold on_console, zoom. specialize (Hm (ps_console p) I). by destruct (m (ps_console p)) as [[a|e|] c].
Qed.
Lemma step_print x X : runs (balance k F) (on_console (print x)) (fun _ => balance k F) X.
Proof. by intros p Hp. Qed.
Lemma step_say l X : runs (balance k F) (say l) (fun _ => balance k F) X.
Proof. apply step_print. Qed.
Lemma step_question label : runs (balance k F) (question label) (fun _ => balance k F) (balance k F).
Proof. apply step_console, runs_ask. Qed.
Lemma step_int label : runs (balance k F) (on_console (mustInt64 label)) (fun _ => balance k F) (balance k F).
Proof. apply step_console, runs_mustInt64. Qed.
Lemma step_ReadString b : runs (balance k F) (on_console (ReadString b)) (fun _ => balance k F) (balance k F).
Proof. apply step_console, runs_ReadString. Qed.
Lemma step_now X : runs (balance k F) (on_net env_Now) (fun _ => balance k F) X.
Proof. by intros p Hp. Qed.
Lemma step_look X : runs (balance k F) look_ctx (fun _ => balance k F) X.
Proof. by intros p Hp. Qed.
Lemma step_timeout d : runs (balance k F) (with_timeout d) (fun _ => balance k F) (balance k F).
Proof. by intros p Hp. Qed.
Lemma step_lift {A} (o : outcome A) : runs (balance k F) (must (lift o)) (fun _ => balance k F) (balance k F).
Proof. intros p Hp. by destruct o. Qed.
Lemma step_ret {A} (a : A) X : runs (balance k F) (ret a) (fun _ => balance k F) X.
Proof. by intros p Hp. Qed.
Lemma step_panic {A} Q : runs (A := A) (balance k F) panic Q (balance k F).
Proof. by intros p Hp. Qed.
Lemma step_store {A} (m : M stores A) (Q : A -> stores -> Prop) : hoare F m Q F ->
  hoare (balance k F) (on_store m) (fun a p => balance k (Q a) p) (balance k F).
Proof.
  intros Hm p [Hp HF]. unfold on_store, zoom. specialize (Hm _ HF). by destruct (m (ps_stores p)) as [[a|e|] w].
Qed.

(** Steps on the network. *)
Lemma step_net {A} (m : M env A) (Q : A -> Prop) k' :
  (forall n, hoare (opened k n) m (fun a e => Q a /\ opened k' n e) (opened k n)) ->
  hoare (balance k F) (on_net m) (fun a p => Q a /\ balance k' F p) (balance k F).
Proof.
  intros Hm p [Hp HF]. unfold on_net, zoom.
  assert (Ho : opened k (S (length (e_dials (ps_env p)))) (ps_env p)) by (split; [done|lia]). specialize (Hm _ _ Ho).
  destruct (m (ps_env p)) as [[a|e|] e']; [|by destruct Hm|done]. by destruct Hm as [Ha [Hk _]].
Qed.

Variable H : EncryptedClient -> Prop.
Hypothesis H_lasts : lasting H.

Lemma step_method {A} (m : Method A) : method_ok m ->
  hoare (holding k F H) (on_client m) (fun _ => holding k F H) (holding k F H).
Proof.
  intros Hm [cl p] [Hc [Hp HF]]. unfold on_client, zoom. cbn [fst snd] in *.
  pose proof (Hm (cl, ps_env p) (cl, ps_env p) (kept_refl (cl, ps_env p) (ls_wf _ H_lasts _ Hc))) as R.
  destruct (m (cl, ps_env p)) as [[a|e|] [cl' e']]; [..|done]; pose proof (k_open _ _ R) as Ko; cbn in Ko;
    (split; [by eapply (ls_kept _ H_lasts)|]; split; [by rewrite <- Hp|done]).
Qed.
Lemma step_call {A} (m : Method A) : method_ok m ->
  runs (holding k F H) (must (on_client m)) (fun _ => holding k F H) (holding k F H).
Proof. intros Hm. by apply runs_must, step_method. Qed.

Lemma step_program {A} (m : M process A) Q X : runs (balance k F) m Q X ->
  runs (holding k F H) (on_program m) (fun a s => H (fst s) /\ Q a (snd s)) (fun s => H (fst s) /\ X (snd s)).
Proof.
  intros Hm [cl p] [Hc Hp]. unfold on_program, zoom. cbn [fst snd] in *. specialize (Hm p Hp). by destruct (m p) as [[a|e|] p'].
Qed.
Lemma step_say' l X : runs (holding k F H) (say' l) (fun _ => holding k F H) X.
Proof. by intros p Hp. Qed.
Lemma step_question' label :
  runs (holding k F H) (on_program (question label)) (fun _ => holding k F H) (holding k F H).
Proof. exact (step_program _ _ _ (step_question label)). Qed.
Lemma step_now' X : runs (holding k F H) (on_program (on_net env_Now)) (fun _ => holding k F H) X.
Proof. by intros p Hp. Qed.
Lemma step_look' X : runs (holding k F H) (on_program look_ctx) (fun _ => holding k F H) X.
Proof. by intros p Hp. Qed.
Lemma step_lift' {A} (o : outcome A) : runs (holding k F H) (must (lift o)) (fun _ => holding k F H) (holding k F H).
Proof. intros p Hp. by destruct o. Qed.
Lemma step_ret' {A} (a : A) X : runs (holding k F H) (ret a) (fun _ => holding k F H) X.
Proof. by intros p Hp. Qed.
Lemma step_get' X : runs (holding k F H) get (fun _ => holding k F H) X.
Proof. by intros p Hp. Qed.
Lemma step_panic' {A} Q : runs (A := A) (holding k F H) panic Q (holding k F H).
Proof. by intros p Hp. Qed.
Lemma step_tried {A} (m : Method A) X : method_ok m ->
  runs (holding k F H) (try (on_client m)) (fun _ => holding k F H) X.
Proof. intros Hm. eapply runs_conseq; [by apply runs_try, step_method|done|by intros [a|e] s Hs|done]. Qed.
End Steps.

#[export] Hint Resolve step_print step_say step_question step_int step_ReadString step_now step_look step_timeout step_lift
  step_ret step_panic step_say' step_question' step_now' step_look' step_lift' step_ret' step_get' step_panic' step_call step_tried
  lasting_wf lasting_homed : programs.

(** Go through the steps of a program, leaving what the hints do not know. *)
Ltac program_step :=
  cbv beta zeta;
  lazymatch goal with
  | |- runs (fun s => _ /\ _) _ _ _ => apply runs_pure; intros ?
  | |- runs _ (bind _ _) _ _ => eapply runs_bind; [solve [repeat program_step]|intros ?]
  | |- runs _ (if ?c then _ else _) _ _ => destruct c
  | |- runs _ (must (on_net (if ?c then _ else _))) _ _ => destruct c
  | |- runs _ (match ?c with _ => _ end) _ _ => destruct c
  | |- runs _ _ _ _ => solve [eauto with programs]
  end.
Ltac program_steps := repeat program_step.

(** The client is closed whatever happens. *)
Lemma runs_closing {A} k F F' (H : EncryptedClient -> Prop) client (m : M client_process A) (Q : A -> stores -> Prop) :
  lasting H -> H client ->
  runs (holding (k + 1) F H) m (fun a s => balance (k + 1) (Q a) (snd s)) (fun s => balance (k + 1) F' (snd s)) ->
  runs (balance (k + 1) F) (closing client m) (fun a p => balance k (Q a) p) (balance k F').
Proof.
  intros HL Hc Hm. unfold closing. destruct (ls_wf _ HL _ Hc) as (l & es & Hl & _).
  assert (Hd : forall G : stores -> Prop, hoare (balance (k + 1) G) (on_net (Client_Close client)) (fun _ => balance k G) (balance k G)).
  { intros G p [Hp HG]. unfold Client_Close. rewrite Hl. split; [cbn; lia|done]. }
  eapply runs_defer; [|intros a; apply Hd|apply Hd]. intros p Hp. unfold with_client.
  specialize (Hm (client, p) (conj Hc Hp)). by destruct (m (client, p)) as [[a|e|] [cl' p']].
Qed.

(** The same where the steps keep the stores. *)
Lemma step_closing {A} k F (H : EncryptedClient -> Prop) client (m : M client_process A) : lasting H -> H client ->
  runs (holding (k + 1) F H) m (fun _ => holding (k + 1) F H) (holding (k + 1) F H) ->
  runs (balance (k + 1) F) (closing client m) (fun _ => balance k F) (balance k F).
Proof.
  intros HL Hc Hm. apply (runs_closing k F F H _ _ (fun _ => F) HL Hc).
  eapply runs_conseq; [exact Hm|done|by intros a s [_ Hs]|by intros s [_ Hs]].
Qed.

Section Safety.
Variable ProbablyPrime : Z -> bool.
Variable keys : list RSAPublicKey.
Variable gunzip : list byte -> outcome (list byte).
Variable unicode_lower : list byte -> list byte.
Hypothesis gunzip_returns : forall d, gunzip d <> Panic.

Section Calls.
Variables (k : Z) (F : stores -> Prop).

(** A call that closes the connection it opens. *)
Lemma step_once {A} (m : M env A) : (forall n, hoare (opened k n) m (fun _ => opened k n) (opened k n)) ->
  runs (balance k F) (must (on_net m)) (fun _ => balance k F) (balance k F).
Proof.
  intros Hm. eapply runs_must, hoare_conseq; [apply (step_net k F m (fun _ => True) k)|done|by intros a p [_ H]|done].
  intros n. eapply hoare_conseq; [apply Hm|done|done|done].
Qed.

Lemma step_Probe c address :
  runs (balance k F) (must (on_net (Probe ProbablyPrime c address))) (fun _ => balance k F) (balance k F).
Proof. apply step_once. intros n. apply Probe_opened. Qed.
Lemma step_ProbeDefault c :
  runs (balance k F) (must (on_net (ProbeDefault ProbablyPrime c))) (fun _ => balance k F) (balance k F).
Proof. apply step_once. intros n. apply first_success_spec. intros d. apply Probe_opened. Qed.
Lemma step_AuthKey c dc :
  runs (balance k F) (must (on_net (AuthKey_on ProbablyPrime keys c dc))) (fun _ => balance k F) (balance k F).
Proof. apply step_once. intros n. apply AuthKey_on_opened. Qed.
Lemma step_AuthKeyDefault c :
  runs (balance k F) (must (on_net (AuthKeyDefault ProbablyPrime keys c))) (fun _ => balance k F) (balance k F).
Proof. apply step_once. intros n. apply first_success_spec. intros d. apply AuthKey_on_opened. Qed.
Lemma step_HelpGetConfig c apiID :
  runs (balance k F) (must (on_net (HelpGetConfigDefault ProbablyPrime keys gunzip c apiID))) (fun _ => balance k F) (balance k F).
Proof. apply step_once. intros n. apply first_success_spec. intros d. by apply HelpGetConfig_opened. Qed.

(** A login, with its client. *)
Lemma step_login {A} c (login : Method A) migrated : method_ok login ->
  runs (balance k F) (must (on_net (loginDefault ProbablyPrime keys c login migrated)))
    (fun cr p => homed (fst cr) /\ balance (k + 1) F p) (balance k F).
Proof.
  intros Hl p [Hp HF]. unfold must, on_net, zoom.
  pose proof (loginDefault_settled ProbablyPrime keys c login migrated (ps_env p) Hl) as R. unfold settled in R.
  destruct (loginDefault _ _ _ _ _ _) as [[[cl a]|err|] e'] eqn:E; cbn [fst snd] in R; [..|done].
  - split; [by eapply (loginDefault_homed _ _ login Hl) in E|]. split; [cbn; lia|done].
  - split; [cbn; lia|done].
Qed.

Lemma step_bot c apiID apiHash token :
  runs (balance k F) (must (on_net (ImportBotAuthorizationDefault ProbablyPrime keys gunzip c apiID apiHash token)))
    (fun cr p => homed (fst cr) /\ balance (k + 1) F p) (balance k F).
Proof. by apply step_login, ImportBotAuthorization_ok. Qed.
Lemma step_send_code c apiID apiHash phone :
  runs (balance k F) (must (on_net (AuthSendCodeDefault ProbablyPrime keys gunzip c apiID apiHash phone)))
    (fun cr p => homed (fst cr) /\ balance (k + 1) F p) (balance k F).
Proof. by apply step_login, AuthSendCode_ok. Qed.

Lemma step_api_id text : runs (balance k F) (parse_api_id text) (fun _ => balance k F) (balance k F).
Proof. eapply runs_conseq; [apply runs_api_id|done|by intros a s [_ H]|done]. Qed.
Lemma step_peer peerKind : runs (balance k F) (ask_peer peerKind) (fun _ => balance k F) (balance k F).
Proof. unfold ask_peer. program_steps. Qed.
End Calls.

#[local] Hint Resolve step_Probe step_ProbeDefault step_AuthKey step_AuthKeyDefault step_HelpGetConfig step_bot step_send_code
  step_api_id step_peer MessagesSendMessage_ok : programs.

Definition untouched : stores -> Prop := fun _ => True.

(** Whether the program returns or panics, as many connections are open after
    it as before. *)
Definition tidy {A} (m : M process A) : Prop :=
  forall k, runs (balance k untouched) m (fun _ => balance k untouched) (balance k untouched).

Lemma probe_tidy : tidy (mtproto_probe ProbablyPrime).
Proof. intros k. unfold mtproto_probe. program_steps. Qed.
Lemma auth_tidy : tidy (mtproto_auth ProbablyPrime keys).
Proof. intros k. unfold mtproto_auth. program_steps. Qed.
Lemma config_tidy : tidy (mtproto_config ProbablyPrime keys gunzip).
Proof. intros k. unfold mtproto_config. program_steps. Qed.

Lemma bot_login_tidy : tidy (mtproto_bot_login ProbablyPrime keys gunzip).
Proof.
  intros k. unfold mtproto_bot_login. program_steps. eapply step_closing; [apply lasting_homed|done|]. program_steps.
Qed.

Lemma send_message_tidy : tidy (mtproto_send_message ProbablyPrime keys gunzip unicode_lower).
Proof.
  intros k. unfold mtproto_send_message. program_steps.
  eapply step_closing; [apply lasting_homed|done|]. program_steps.
Qed.
(** ** The session of mtproto_account_login *)

Lemma homed_exportable cl es now : homed cl -> ec_state cl = Some es ->
  Valid (Some (exported "user" cl es now)) = Ok tt -> exportable cl es.
Proof.
  intros ((l & es' & _ & _ & Hes & Hwf) & Hdc & Hid) Hs Hv%Valid_spec. cbn in Hv. destruct Hv as (_ & _ & Hk & H0).
  assert (es' = es) as -> by congruence. split; [done|done|..|done|unfold is_u64 in Hid; lia];
    cbn in Hdc; repeat (destruct Hdc as [<-|Hdc]; [by vm_compute|]); done.
Qed.

(** A session that reads back as it was saved. *)
Definition storable (s : Session) : Prop := session_ranges s /\ Valid (Some s) = Ok tt /\ clean_Session s = s.

Lemma both_ok {A} (m : Method ((A + goerr) * InvokeResult)) : method_ok m -> method_ok (both m).
Proof. intros Hm. apply method_ok_bind; [done|]. intros [[a|e] r]; [apply method_ok_ret|apply method_ok_fail]. Qed.

Section Clients.
Variables (k : Z) (F : stores -> Prop) (H : EncryptedClient -> Prop).
Hypothesis H_lasts : lasting H.

Lemma step_string sess X : runs (holding k F H) (print_string_session sess) (fun _ => holding k F H) X.
Proof.
  unfold print_string_session. eapply runs_bind; [apply step_now'|intros now].
  pose proof (EncodeString_returns (unix now) sess). destruct (EncodeString _ _); [apply step_say'|by apply runs_ret|done].
Qed.

(** The session of the client as it is. *)
Lemma step_export X : runs (holding k F H) (on_client (ExportSession "user"))
  (fun sess s => (exists cl es now, H cl /\ ec_state cl = Some es /\ sess = Some (exported "user" cl es now)) /\ holding k F H s) X.
Proof.
  intros [cl p] [Hc [Hp HF]]. cbn [fst snd] in *. destruct (ls_wf _ H_lasts _ Hc) as (l & es & _ & _ & Hes & _).
  unfold on_client, zoom. cbn [fst snd]. rewrite (ExportSession_run "user" cl es) by done.
  split; [by exists cl, es, (e_clock (ps_env p) (e_tick (ps_env p)))|]. split; [done|by split].
Qed.

Lemma check_saved_step c X : runs (holding k F H) (check_saved gunzip c) (fun _ => holding k F H) X.
Proof.
  unfold check_saved. eapply runs_bind; [by apply step_tried, both_ok, UpdatesGetState_ok|].
  intros [[state result]|err].
  - eapply runs_bind; [apply step_get'|intros s]. do 5 (eapply runs_bind; [apply step_say'|intros ?]).
    eapply runs_bind; [apply step_export|intros sess]. apply runs_pure. intros _.
    eapply runs_bind; [apply step_string|intros ?]. apply step_ret'.
  - eapply runs_bind; [apply step_say'|intros ?]. apply step_ret'.
Qed.

Lemma sign_in_step c apiID phone sent code :
  runs (holding k F H) (sign_in gunzip c apiID phone sent code) (fun _ => holding k F H) (holding k F H).
Proof.
  unfold sign_in. eapply runs_bind; [by apply step_tried, AuthSignIn_ok|]. intros [result|err]; [apply step_ret'|].
  destruct (as_RPCError err) as [[code' message]|]; [|apply step_panic']. destruct (Contains _ _); [|apply step_panic'].
  eapply runs_bind; [apply step_say'|intros ?]. eapply runs_bind; [apply step_question'|intros password].
  eapply runs_bind; [by apply step_call, both_ok, AccountGetPassword_ok|intros pr].
  do 5 (eapply runs_bind; [apply step_say'|intros ?]). by apply step_call, AuthCheckPassword_ok.
Qed.
End Clients.

(** A login with a store: saving turns [F] into [G] of the session, or fails. *)
Section Account.
Variables (F : stores -> Prop) (G : Session -> stores -> Prop) (store : SessionStore).
Hypothesis saves : forall done now s data, is_i64 now -> storable s -> MarshalBinary now (Some s) = Ok data ->
  hoare F (Store_Save store done (MkSessionData account_name data)) (fun _ => G s) F.
Hypothesis loads : forall done, hoare F (Store_Load store done account_name) (fun _ => F) F.

(** The stores at the end. *)
Definition at_end (a : ending) (w : stores) : Prop :=
  match a with SavedSession sess => exists s, sess = Some s /\ storable s /\ G s w | _ => F w end.

Lemma save_step k' s data now : is_i64 now -> storable s -> MarshalBinary now (Some s) = Ok data -> forall done,
  runs (holding k' F homed) (must (on_program (on_store (Store_Save store done (MkSessionData account_name data)))))
    (fun _ => holding k' (G s) homed) (fun t => balance k' F (snd t)).
Proof.
  intros Hn Hs Hd done [cl p] [Hc [Hp HF]]. cbn [fst snd] in *. unfold must, on_program, on_store, zoom. cbn [fst snd].
  pose proof (saves done now s data Hn Hs Hd _ HF) as R. by destruct (Store_Save _ _ _ _) as [[u|e|] w].
Qed.

Lemma signed_in_step k' c path r :
  runs (holding k' F homed) (signed_in gunzip c store path r) (fun a s => balance k' (at_end a) (snd s))
    (fun s => balance k' F (snd s)).
Proof.
  unfold signed_in. do 3 (eapply runs_bind; [apply step_say'|intros ?]).
  eapply runs_bind; [eapply runs_conseq; [apply step_call; [apply lasting_homed|by apply both_ok, UpdatesGetState_ok]|done|intros a' s Hs; exact Hs|by intros s [_ Hs]]|].
  intros sr. do 4 (eapply runs_bind; [apply step_say'|intros ?]).
  eapply runs_bind; [apply step_export, lasting_homed|]. intros sess. apply runs_pure. intros (cl & es & clock & Hcl & Hes & ->).
  eapply runs_bind; [apply step_now'|intros now].
  destruct (MarshalBinary (unix now) (Some (exported "user" cl es clock))) as [data|e|] eqn:Hm.
  2,3: by intros s [_ Hs].
  assert (Hv : Valid (Some (exported "user" cl es clock)) = Ok tt).
  { unfold MarshalBinary in Hm. by destruct (Valid _) as [[]|e|]. }
  assert (Hs : storable (exported "user" cl es clock))
    by (destruct (exported_ok "user" cl es clock eq_refl (homed_exportable cl es clock Hcl Hes Hv)) as (? & ? & ?); done).
  apply runs_value. eapply runs_bind; [apply step_look'|intros done].
  eapply runs_bind; [exact (save_step k' _ data (unix now) (unix_range now) Hs Hm done)|intros ?].
  eapply runs_bind; [apply step_say'|intros ?]. eapply runs_bind; [apply step_string|intros ?].
  apply runs_ret. intros t [_ [Hp HG]]. split; [done|]. by eexists.
Qed.

Lemma login_anew_step c apiID apiHash path k' :
  runs (balance k' F) (account_login_anew ProbablyPrime keys gunzip c apiID apiHash store path)
    (fun a => balance k' (at_end a)) (balance k' F).
Proof.
  assert (Hx : forall s, holding (k' + 1) F homed s -> balance (k' + 1) F (snd s)) by (by intros s [_ Hs]).
  unfold account_login_anew. do 2 program_step. cbv beta. apply runs_pure. intros Hc.
  apply (runs_closing k' F F homed _ _ at_end); [apply lasting_homed|done|].
  do 2 (eapply runs_bind; [apply step_say'|intros ?]). eapply runs_bind; [apply step_get'|intros s].
  do 5 (eapply runs_bind; [apply step_say'|intros ?]).
  eapply (runs_bind _ _ _ (fun _ => holding (k' + 1) F homed)).
  { unfold when. destruct (_ <? _); [apply step_say'|by apply runs_ret]. }
  intros ?. destruct (_ =? _)%string.
  - eapply runs_bind; [apply step_say'|intros ?]. apply runs_ret. apply Hx.
  - eapply runs_bind; [eapply runs_conseq; [apply step_question'|done|intros a' t Ht; exact Ht|apply Hx]|intros code].
    eapply runs_bind; [eapply runs_conseq; [apply sign_in_step, lasting_homed|done|intros a' t Ht; exact Ht|apply Hx]|].
    intros r. apply signed_in_step.
Qed.

Lemma dial_step c sess k' (F' : stores -> Prop) X : session_typed sess ->
  runs (balance k' F') (try (on_net (DialEncryptedFromSession c (Some sess))))
    (fun r p => match r with inl cl => resumed sess cl /\ balance (k' + 1) F' p | inr _ => balance k' F' p end) X.
Proof.
  intros Ht. eapply runs_conseq; [apply runs_try, (step_net k' F' _ (resumed sess) (k' + 1))|done|by intros [cl|err] p Hp|done].
  intros n. eapply hoare_conseq; [by apply dial_from_session|done| |done].
  intros cl e [Hr Ho]. split; [done|by apply opened_pred].
Qed.

Lemma saved_client_step c k' X :
  runs (balance k' F) (saved_client c store)
    (fun o p => match o with Some cl => client_wf cl /\ balance (k' + 1) F p | None => balance k' F p end) X.
Proof.
  unfold saved_client. eapply runs_bind; [apply step_look|intros done].
  eapply (runs_bind _ _ _ (fun _ => balance k' F)).
  { eapply runs_conseq; [eapply runs_try, step_store, loads|done|by intros [d|err] p Hp|done]. }
  intros [[data|]|err]; [|by apply runs_ret|eapply runs_bind; [apply step_say|intros ?; by apply runs_ret]].
  eapply (runs_bind _ _ _ (fun r p => match r with inl s => ParseSession (sd_Data data) = Ok s | inr _ => True end /\ balance k' F p)).
  { intros p Hp. pose proof (ParseSession_sound (sd_Data data)) as R. unfold try, lift.
    by destruct (ParseSession (sd_Data data)) as [s|e|]. }
  intros [sess|err]; apply runs_pure; intros Hparse; [|eapply runs_bind; [apply step_say|intros ?; by apply runs_ret]].
  eapply runs_bind; [apply dial_step|].
  { apply ParseSession_typed in Hparse. unfold session_ranges, session_typed in *. tauto. }
  intros [cl|err]; [|eapply runs_bind; [apply step_say|intros ?; by apply runs_ret]].
  apply runs_ret. intros p [[Hw _ _ _] Hp]. done.
Qed.

Lemma account_session_step c apiID apiHash path k' :
  runs (balance k' F) (account_session ProbablyPrime keys gunzip c apiID apiHash path store)
    (fun a => balance k' (at_end a)) (balance k' F).
Proof.
  unfold account_session. eapply runs_bind; [apply saved_client_step|]. intros [client|]; [|apply login_anew_step].
  apply runs_pure. intros Hw. apply (runs_closing k' F F client_wf _ _ at_end); [apply lasting_wf|done|].
  eapply runs_bind; [apply check_saved_step, lasting_wf|intros loaded]. destruct loaded.
  - apply runs_ret. by intros s [_ Hs].
  - eapply runs_conseq; [apply step_program, login_anew_step|done|by intros a s [_ Hs]|by intros s [_ Hs]].
Qed.
End Account.

(** Stores may change in any way. *)
Lemma saves_untouched store done data :
  hoare untouched (Store_Save store done data) (fun _ => untouched) untouched.
Proof. intros w _. pose proof (stores_save store done data w) as H. by destruct (Store_Save _ _ _ w) as [[u|e|] w']. Qed.
Lemma loads_untouched store done name :
  hoare untouched (Store_Load store done name) (fun _ => untouched) untouched.
Proof. intros w _. pose proof (stores_load store done name w) as H. by destruct (Store_Load _ _ _ w) as [[u|e|] w']. Qed.

Lemma account_store_step k F path password text :
  hoare F (modify (set_mem ∅)) (fun _ => F) F -> (forall done data, hoare F (Store_Save MemorySession done data) (fun _ => F) F) ->
  runs (balance k F) (account_store path password text)
    (fun store p => store = (if negb (text =? EmptyString)%string then MemorySession
                             else if negb (password =? EmptyString)%string then EncryptedFileSession path password
                             else FileSession path) /\ balance k F p) (balance k F).
Proof.
  intros Hm Hs. unfold account_store. destruct (negb _); [|by destruct (negb _); apply runs_ret].
  eapply runs_bind; [apply step_lift|intros sess]. eapply runs_bind; [apply step_now|intros now].
  eapply runs_bind; [apply step_lift|intros data].
  eapply (runs_bind _ _ _ (fun _ => balance k F)); [by intros p Hp; apply (step_store k F _ (fun _ => F) Hm p Hp)|intros ?].
  eapply runs_bind; [apply step_look|intros done].
  eapply (runs_bind _ _ _ (fun _ => balance k F)); [by apply runs_must, (step_store k F _ (fun _ => F))|intros ?].
  by apply runs_ret.
Qed.

Lemma account_login_tidy : tidy (mtproto_account_login ProbablyPrime keys gunzip).
Proof.
  intros k. unfold mtproto_account_login. do 10 program_step. eapply runs_bind.
  - apply account_store_step; [done|]. intros done data. apply saves_untouched.
  - intros store. apply runs_pure. intros _.
    eapply runs_conseq; [apply (account_session_step untouched (fun _ => untouched))|done| |done].
    + intros done now s data _ _ _. apply saves_untouched.
    + intros done. apply loads_untouched.
    + intros r p [Hp _]. done.
Qed.
End Safety.


Definition typed_lines (l : list string) : list (list byte) := map (fun s => bytes_of s ++ [newline]) l.

(** Answers on a terminal; the network of [Account]'s example. *)
Definition demo_process : process :=
  Process (Console (typed_lines ["7"; "hash"; "token"]) []) demo_env (Stores ∅ ∅ [] []) [].


(** ** What mtproto_account_login saves *)

Definition found_in (store : SessionStore) (found : outcome (option SessionData)) (w : stores) : Prop :=
  contents store w account_name = found.

Lemma clean_stamped now s : clean_Session s = s -> clean_Session (stamped now s) = stamped now s.
Proof.
  intros H. assert (H1 : clean_string (se_Kind s) = se_Kind s) by exact (f_equal se_Kind H).
  assert (H2 : clean_string (se_Address s) = se_Address s) by exact (f_equal se_Address H).
  unfold clean_Session, stamped. cbn [se_Kind se_Address]. by rewrite H1, H2.
Qed.

(** What a later run finds. *)
Definition saved_in (store : SessionStore) (s : Session) (w : stores) : Prop := exists now data,
  found_in store (Ok (Some (MkSessionData account_name data))) w /\ ParseSession data = Ok (stamped now s).


Definition demo_files : stores := Stores ∅ {[ "a.session"%string := [x01; x02] ]} [] [].


(** The client of a session that parses. *)
Lemma saved_client_found c store name data s p :
  found_in store (Ok (Some (MkSessionData name data))) (ps_stores p) -> ParseSession data = Ok s ->
  match saved_client c store p with
  | (Ok (Some cl), p1) => resumed s cl /\ e_open (ps_env p1) = e_open (ps_env p) + 1 /\ ps_console p1 = ps_console p /\
      ss_mem (ps_stores p1) = ss_mem (ps_stores p) /\ ss_fs (ps_stores p1) = ss_fs (ps_stores p)
  | (Ok None, p1) => e_open (ps_env p1) = e_open (ps_env p) /\ exists err,
      cn_out (ps_console p1) = cn_out (ps_console p) ++ [Line [PS "saved session load failed; will login again:"; PErr err]] \/
      cn_out (ps_console p1) = cn_out (ps_console p) ++ [Line [PS "saved session connect failed; will login again:"; PErr err]]
  | _ => False
  end.
Proof.
  intros Hf Hp. unfold saved_client, bind at 1, look_ctx. cbn [fst snd]. set (done := match ps_ctx p with [] => None | d :: _ => d end).
  pose proof (stores_load store done account_name (ps_stores p)) as L.
  unfold bind at 1, try at 1, on_store, zoom. cbn [ps_stores].
  destruct (Store_Load store done account_name (ps_stores p)) as [[found|e|] w]; [|by split; [|exists e; left]|done].
  destruct L as (L & Lm & Lf). unfold found_in in Hf. assert (found = Some (MkSessionData name data)) as -> by congruence.
  unfold bind at 1, try at 1, lift at 1. cbn [sd_Data ps_stores]. rewrite Hp.
  set (p1 := Process _ _ _ _). assert (Ht : session_typed s).
  { apply ParseSession_typed in Hp. unfold session_ranges, session_typed in *. tauto. }
  assert (D := dial_step c s (e_open (ps_env p)) (fun v => v = w) (fun _ => False) Ht p1 (conj eq_refl eq_refl)).
  assert (Dc : forall r q, try (on_net (DialEncryptedFromSession c (Some s))) p1 = (r, q) -> ps_console q = ps_console p).
  { intros r q. unfold try, on_net, zoom. destruct (DialEncryptedFromSession _ _ _) as [[x|x|] e']; by intros [= <- <-]. }
  unfold bind. destruct (try _ p1) as [[[cl|e]|e|] q]; [..|done|done]; specialize (Dc _ _ eq_refl).
  - destruct D as [D1 [D2 D3]]. split; [done|]. split; [done|]. split; [done|]. by rewrite D3.
  - destruct D as [D1 D2]. split; [done|]. exists e. right. cbn. by rewrite Dc.
Qed.

(** The check of a client that answers. *)
Lemma check_saved_answers gunzip c cl p state result t :
  method_ok (UpdatesGetState gunzip c) -> client_wf cl ->
  UpdatesGetState gunzip c (cl, ps_env p) = (Ok (inl state, result), t) ->
  exists cl' p', check_saved gunzip c (cl, p) = (Ok true, (cl', p')) /\
    cn_reads (ps_console p') = cn_reads (ps_console p) /\ e_open (ps_env p') = e_open (ps_env p) /\ ps_stores p' = ps_stores p.
Proof.
  intros Hm Hw Ha. pose proof (Hm (cl, ps_env p) (cl, ps_env p) (kept_refl (cl, ps_env p) Hw)) as K. rewrite Ha in K.
  destruct t as [cl' e']. destruct K as [(l & es & _ & _ & Hes & _) _ _ _ Ko _ _]. cbn [fst snd] in *.
  unfold check_saved, both, bind, try, on_client, zoom, get. cbn [fst snd ps_env ps_console ps_stores ps_ctx].
  rewrite Ha. unfold ret. cbn [fst snd].
  unfold say', say, on_program, on_console, Println, print, zoom, modify. cbn [fst snd ps_env ps_console ps_stores ps_ctx cn_reads cn_out].
  rewrite (ExportSession_run "user" cl' es) by done.
  unfold print_string_session, bind, on_program, on_net, zoom, env_Now. cbn [fst snd ps_env ps_console ps_stores ps_ctx cn_reads cn_out].
  set (sess := Some _). set (now := e_clock _ _).
  pose proof (EncodeString_returns (unix now) sess) as Hn. destruct (EncodeString (unix now) sess); [..|done];
    do 2 eexists; (split; [reflexivity|done]).
Qed.

Lemma account_session_resumed ProbablyPrime keys gunzip (Hg : forall d, gunzip d <> Panic) c apiID apiHash path store p cl p1 state result t :
  client_wf cl -> saved_client c store p = (Ok (Some cl), p1) ->
  UpdatesGetState gunzip c (cl, ps_env p1) = (Ok (inl state, result), t) ->
  exists p', account_session ProbablyPrime keys gunzip c apiID apiHash path store p = (Ok Resumed, p') /\
    cn_reads (ps_console p') = cn_reads (ps_console p1) /\ e_open (ps_env p') = e_open (ps_env p1) - 1 /\ ps_stores p' = ps_stores p1.
Proof.
  intros Hw Hs Ha. unfold account_session. rewrite (bind_ok _ _ _ _ _ Hs). cbv iota.
  destruct (check_saved_answers gunzip c cl p1 state result t (UpdatesGetState_ok gunzip Hg c) Hw Ha) as (cl' & p2 & E & H1 & H2 & H3).
  unfold closing, defer, with_client. rewrite (bind_ok _ _ _ _ _ E). cbv iota. unfold ret at 1.
  destruct Hw as (l & es & Hl & _). unfold on_net, zoom, Client_Close. rewrite Hl.
  eexists. split; [reflexivity|]. cbn. rewrite H2. split_and!; [done|lia|done].
Qed.

(** C15. The next run needs no code ([main] of mtproto_account_login): when the
    store holds a session that parses, the run asks nothing before it has tried
    it: either loading or connecting fails, which is said, or it has a working
    client of exactly that session (endpoint, key, salt, clock offset), one more
    connection open; and if that client answers updates.getState, the run ends
    there, having read no input and written no store. *)
Theorem account_login_resumes (ProbablyPrime : Z -> bool) (keys : list RSAPublicKey)
    (gunzip : list byte -> outcome (list byte)) (c : ctx) (apiID : Z) (apiHash path : string) (store : SessionStore)
    (name : string) (data : list byte) (s : Session) (p : process) :
  (forall d, gunzip d <> Panic) ->
  found_in store (Ok (Some (MkSessionData name data))) (ps_stores p) -> ParseSession data = Ok s ->
  let printed text err p' := cn_out (ps_console p') = cn_out (ps_console p) ++ [Line [PS text; PErr err]] in
  match saved_client c store p with
  | (Ok (Some cl), p1) => resumed s cl /\ e_open (ps_env p1) = e_open (ps_env p) + 1 /\
      forall state result t, UpdatesGetState gunzip c (cl, ps_env p1) = (Ok (inl state, result), t) ->
        exists p', account_session ProbablyPrime keys gunzip c apiID apiHash path store p = (Ok Resumed, p') /\
          cn_reads (ps_console p') = cn_reads (ps_console p) /\ e_open (ps_env p') = e_open (ps_env p) /\
          ss_mem (ps_stores p') = ss_mem (ps_stores p) /\ ss_fs (ps_stores p') = ss_fs (ps_stores p)
  | (Ok None, p1) => e_open (ps_env p1) = e_open (ps_env p) /\
      exists err, printed "saved session load failed; will login again:"%string err p1 \/
                  printed "saved session connect failed; will login again:"%string err p1
  | _ => False
  end.
Proof.
  intros Hg Hf Hp printed. pose proof (saved_client_found c store name data s p Hf Hp) as R.
  destruct (saved_client c store p) as [[[cl|]|e|] p1] eqn:E; [|done..].
  destruct R as (R1 & R2 & R3 & R4 & R5). do 2 (split; [done|]). intros state result t Ha.
  destruct (account_session_resumed ProbablyPrime keys gunzip Hg c apiID apiHash path store p cl p1 state result t)
    as (p' & H1 & H2 & H3 & H4); [apply R1|done..|].
  exists p'. split; [done|]. rewrite H2, H3, H4, R3. split_and!; [done|lia|done|done].
Qed.

(** The example session of [Saved], in memory. *)
Definition demo_data : list byte := ok_or [] (MarshalBinary 1700000002 (Some demo_saved)).
Definition next_process : process :=
  Process (Console [] []) dial_env (Stores (memorySessionWithData account_name demo_data) ∅ [] []) [].

Lemma account_login_resumes_witness :
  exists cl p1, saved_client None MemorySession next_process = (Ok (Some cl), p1) /\
    resumed (stamped 1700000002 demo_saved) cl /\ e_open (ps_env p1) = e_open (ps_env next_process) + 1.
Proof.
  assert (Hd : ParseSession demo_data = Ok (stamped 1700000002 demo_saved)).
  { assert (E : MarshalBinary 1700000002 (Some demo_saved) = Ok (json_print (enc_Session (stamped 1700000002 demo_saved))))
      by (apply MarshalBinary_valid; by vm_compute).
    unfold demo_data. rewrite E. cbn [ok_or]. rewrite ParseSession_marshal; [|unfold_words; lia|apply demo_saved_ranges|by vm_compute].
    vm_compute. reflexivity. }
  assert (H := account_login_resumes (fun _ => true) [] demo_gunzip None 7 "hash" "account.session" MemorySession account_name
    demo_data _ next_process ltac:(done) ltac:(vm_compute; reflexivity) Hd).
  cbv zeta in H. destruct (saved_client None MemorySession next_process) as [[[cl|]|e|] p1] eqn:E; [| |destruct H..].
  - destruct H as (H1 & H2 & _). exists cl, p1. exact (conj eq_refl (conj H1 H2)).
  - exfalso. clear H. assert (X : match fst (saved_client None MemorySession next_process) with Ok (Some _) => true | _ => false end = true)
      by (vm_compute; reflexivity). rewrite E in X. discriminate X.
Defined.

(** ** A string session is not written to the file *)

(** What holds of the results of [m]. *)
Definition returns {S A} (m : M S A) (Q : A -> S -> Prop) : Prop := forall s a s', m s = (Ok a, s') -> Q a s'.

Lemma returns_bind {S A B} (m : M S A) (k : A -> M S B) Q : (forall a, returns (k a) Q) -> returns (x <- m ;; k x) Q.
Proof. intros Hk s b s' H. apply bind_inv in H as (a & s1 & _ & H). by eapply Hk. Qed.

Definition saved_line (path : string) : printed := Line [PS "Session saved:"; PS path].

Definition announced (path : string) (a : ending) (c : console) : Prop :=
  match a with SavedSession _ => In (saved_line path) (cn_out c) | _ => True end.

Lemma returns_closing {A} client (m : M client_process A) (Q : A -> console -> Prop) :
  returns m (fun a s => Q a (ps_console (snd s))) -> returns (closing client m) (fun a p => Q a (ps_console p)).
Proof.
  intros Hm p a p' H. unfold closing, defer, with_client in H. destruct (m (client, p)) as [o [cl p1]] eqn:E.
  unfold on_net, zoom in H. destruct (Client_Close client (ps_env p1)) as [[u|e|] e1]; [..|discriminate H];
    injection H as -> <-; exact (Hm _ _ _ E).
Qed.

Lemma signed_in_announces gunzip c store path r :
  returns (signed_in gunzip c store path r) (fun a s => announced path a (ps_console (snd s))).
Proof.
  unfold signed_in. do 3 (apply returns_bind; intros ?). apply returns_bind; intros sr. do 4 (apply returns_bind; intros ?).
  apply returns_bind; intros sess. do 4 (apply returns_bind; intros ?).
  intros [cl p] x s' H. unfold say', say, on_program, on_console, Println, print, zoom, modify, bind in H. cbn in H.
  destruct (EncodeString _ sess) as [text|e|]; cbn in H; [..|discriminate H]; injection H as <- <-;
    cbn; rewrite !in_app_iff; cbn; auto.
Qed.

Section Announced.
Variable ProbablyPrime : Z -> bool.
Variable keys : list RSAPublicKey.
Variable gunzip : list byte -> outcome (list byte).

Lemma login_anew_announces c apiID apiHash store path :
  returns (account_login_anew ProbablyPrime keys gunzip c apiID apiHash store path)
    (fun a p => announced path a (ps_console p)).
Proof.
  unfold account_login_anew. do 2 (apply returns_bind; intros ?). apply (returns_closing _ _ (announced path)).
  do 2 (apply returns_bind; intros ?). apply returns_bind; intros s. do 6 (apply returns_bind; intros ?).
  destruct (_ =? _)%string.
  - apply returns_bind; intros ?. by intros t x t' [= <- <-].
  - do 2 (apply returns_bind; intros ?). apply signed_in_announces.
Qed.

Lemma account_session_announces c apiID apiHash path store :
  returns (account_session ProbablyPrime keys gunzip c apiID apiHash path store)
    (fun a p => announced path a (ps_console p)).
Proof.
  unfold account_session. apply returns_bind; intros [client|]; [|apply login_anew_announces].
  apply (returns_closing _ _ (announced path)). apply returns_bind; intros [].
  - by intros t x t' [= <- <-].
  - intros [cl p] a s' H. unfold on_program, zoom in H. cbn [fst snd] in H.
    destruct (account_login_anew _ _ _ _ _ _ _ _ p) as [o p'] eqn:E. injection H as -> <-.
    by apply login_anew_announces in E.
Qed.
End Announced.

(** With a string session pasted the files stay as they are ([main] of
    mtproto_account_login): the session goes into a new memory store, every
    later save goes there too, and neither the return nor a panic leaves any
    file changed; yet after a new login the program prints the line that the
    session was saved at the path. *)
Theorem string_session_not_written (ProbablyPrime : Z -> bool) (keys : list RSAPublicKey)
    (gunzip : list byte -> outcome (list byte)) (c : ctx) (apiID : Z) (apiHash path password text : string)
    (files : gmap string (list byte)) (k : Z) :
  (forall d, gunzip d <> Panic) -> text <> EmptyString ->
  let run := store <- account_store path password text ;;
             account_session ProbablyPrime keys gunzip c apiID apiHash path store in
  runs (balance k (fun w => ss_fs w = files)) run
    (fun a p => balance k (fun w => ss_fs w = files) p /\
       match a with SavedSession _ => In (Line [PS "Session saved:"; PS path]) (cn_out (ps_console p)) | _ => True end)
    (balance k (fun w => ss_fs w = files)).
Proof.
  intros Hg Htext run. set (F := fun w => ss_fs w = files).
  assert (Hsave : forall done d, hoare F (Store_Save MemorySession done d) (fun _ => F) F)
    by (intros [e|] d w Hw; exact Hw).
  assert (H1 : runs (balance k F) run (fun _ => balance k F) (balance k F)).
  { unfold run. eapply runs_bind; [apply account_store_step; [intros w Hw; exact Hw|exact Hsave]|]. intros store. apply runs_pure.
    apply String.eqb_neq in Htext. rewrite Htext. cbn [negb]. intros ->.
    eapply runs_conseq; [apply (account_session_step ProbablyPrime keys gunzip Hg F (fun _ => F) MemorySession)|done| |done].
    - intros done now s data _ _ _. apply Hsave.
    - intros [e|] w Hw; exact Hw.
    - intros [| |sess] p [Hp Hf]; [done..|]. destruct Hf as (s & _ & _ & Hf). done. }
  intros p Hp. specialize (H1 p Hp). destruct (run p) as [[a|e|] p'] eqn:E; [|done..]. split; [done|].
  unfold run in E. apply bind_inv in E as (store & p1 & _ & E). apply account_session_announces in E. by destruct a.
Qed.

Definition demo_text : string := ok_or EmptyString (EncodeString 1700000002 (Some demo_saved)).

Lemma string_session_not_written_witness :
  let p := Process (Console (typed_lines ["+100"]) []) demo_env demo_files [] in
  let run := store <- account_store "a.session" EmptyString demo_text ;;
             account_session (fun _ => true) [] demo_gunzip None 7 "hash" "a.session" store in
  demo_text <> EmptyString /\
  match run p with
  | (Ok _, p') | (Panic, p') => ss_fs (ps_stores p') = {[ "a.session"%string := [x01; x02] ]}
  | (Err _, _) => False
  end.
Proof.
  intros p run. assert (Ht : demo_text <> EmptyString) by (vm_compute; discriminate). split; [exact Ht|].
  assert (H := string_session_not_written (fun _ => true) [] demo_gunzip None 7 "hash" "a.session" EmptyString demo_text
    {[ "a.session"%string := [x01; x02] ]} 2 ltac:(done) Ht p (conj eq_refl eq_refl)).
  cbv zeta in H. fold run in H. destruct (run p) as [[a|e|] p'].
  - destruct H as [[_ H] _]. exact H.
  - destruct H.
  - destruct H as [_ H]. exact H.
Defined.
