(* ===== verification/CachePrograms.v ===== *)
(** * CachePrograms: the example programs on the caches (src/examples)

    selective_cache and cache_options, which give messages to the dispatcher of a
    [Client] themselves and print what its caches keep. *)

From S2P Require Import Prelude Strings Updates Dispatcher Filters Session Saved Config Console.

Section CachePrograms.
Variable unicode_fold : list byte -> list byte -> bool.

(** The handlers print; messages carry no raw update. *)
Abbreviation Message := (Message console unit).
Abbreviation Client := (Client (W := console) (Raw := unit)).

(** [&updates.Message{ID: .., ChatID: .., FromID: .., Text: ..}] *)
Definition message (id chatID fromID : Z) (text : string) : Message :=
  MkMessage id chatID 0 fromID EmptyString text 0 None None None None.

(** [_ = client.Dispatcher().DispatchMessage(ctx, m)] *)
Definition give (m : Message) : M (Client * console) unit :=
  _ <- try (zoom (fun s => (cl_dispatcher (fst s), (snd s, m)))
              (fun t s => (MkClient (cl_config (fst s)) (fst t), fst (snd t))) DispatchMessage) ;;
  ret tt.

Fixpoint give_all (l : list Message) : M (Client * console) unit :=
  match l with [] => ret tt | m :: rest => give m ;; give_all rest end.

Definition tell (p : printed) : M (Client * console) unit := zoom snd (fun c s => (fst s, c)) (print p).
Fixpoint tell_all (l : list printed) : M (Client * console) unit :=
  match l with [] => ret tt | p :: rest => tell p ;; tell_all rest end.
Definition snapshot : M (Client * console) CacheSnapshot := s <- get ;; ret (Client_CacheSnapshot (Some (fst s))).

(** A program with its client, from the console. *)
Definition with_new {A} (r : outcome Client) (m : M (Client * console) A) : M console A :=
  client <- must (lift r) ;;
  fun c => let '(o, s) := m (client, c) in (o, snd s).

(** ** selective_cache *)

Definition quiet_handler : MessageHandler (W := console) (Raw := unit) := handle (fun _ => ret tt).

Definition commands : list string := ["start"; "ping"; "help"; "queue"]%string.

Definition on_commands (client : Client) : Client :=
  fold_left (fun client command =>
    Client_OnMessage (Some (fun m => Command unicode_fold command (Some m))) (Some quiet_handler) client) commands client.

Definition noise (i : Z) : string :=
  if i =? 7 then "/start" else if i =? 100 then "/ping" else if i =? 777 then "/help"
  else if i =? 9999 then "/queue" else "hello noise".

(** [for i := 1; i <= n; i++] *)
Fixpoint count_from (n : nat) (i : Z) : list Z := match n with O => [] | S n' => i :: count_from n' (i + 1) end.
Definition count (n : Z) : list Z := count_from (Z.to_nat n) 1.

Definition selective_cache : M console unit :=
  with_new
    (omap_outcome on_commands
       (New 12345 "test_hash" [Some (WithMessageCacheSize 1000); Some (WithMessageCacheCommands unicode_fold commands)]))
    (give_all (map (fun i => message i i i (noise i)) (count 10000)) ;;
     s <- snapshot ;;
     tell (Formatted "cache mode=%s messages=%d/%d peers=%d/%d"
             [PS (cs_CacheMode s); PZ (cs_MessageCount s); PZ (cs_MessageLimit s); PZ (cs_PeerCount s); PZ (cs_PeerLimit s)]) ;;
     tell (Line [PS "Only /start, /ping, /help, and /queue were cached; 9996 noisy messages were not kept in RAM."])).

(** ** cache_options *)

Definition print_handler : MessageHandler (W := console) (Raw := unit) :=
  handle (fun m => Println [PS "handler:"; PS (m_Text m)]).

Definition cache_options : M console unit :=
  with_new
    (omap_outcome (Client_OnMessage (Some (fun m => Command unicode_fold "start" (Some m))) (Some print_handler))
       (New 12345 "test_hash" [Some (Config.WithUpdates true); Some (WithMessageCacheSize 3); Some (WithPeerCacheSize 2);
                               Some (WithUpdateQueueSize 64)]))
    (give_all (map (fun i => message i (1000 + i) (2000 + i) ("/start " ++ FormatInt i)) (count 5)) ;;
     s <- snapshot ;;
     tell (Formatted "messages cached: %d/%d" [PZ (cs_MessageCount s); PZ (cs_MessageLimit s)]) ;;
     tell (Formatted "peers cached: %d/%d" [PZ (cs_PeerCount s); PZ (cs_PeerLimit s)]) ;;
     s <- get ;;
     all <- lift (MessageCache_All (d_messages (cl_dispatcher (fst s)))) ;;
     tell_all (map (fun msg => Formatted "cached message: id=%d text=%q" [PZ (m_ID msg); PS (m_Text msg)]) all)).

End CachePrograms.

(** ** The dispatches of a program are those of its dispatcher *)

Abbreviation Client := (Client (W := console) (Raw := unit)).

Lemma dispatch_all_config {W Raw} (l : list (Message W Raw)) : forall d w hist q, sound d hist q ->
  d_config (fst (fst (dispatch_all l d w))) = d_config d.
Proof.
  induction l as [|m l IH]; intros d w hist q Hs; [done|]. cbn [dispatch_all].
  destruct (DispatchMessage_ok m d w hist q Hs) as (d1 & m' & E & C & _ & _ & _ & S1). rewrite E.
  specialize (IH d1 (snd (handlers_of d m w)) _ _ S1). destruct (dispatch_all l d1 _) as [[d2 w2] os]. cbn [fst] in *. congruence.
Qed.

Lemma give_all_dispatch l : forall (cl : Client) w d' w' os, dispatch_all l (cl_dispatcher cl) w = (d', w', os) ->
  Forall (fun o => o <> Panic) os -> give_all l (cl, w) = (Ok tt, (MkClient (cl_config cl) d', w')).
Proof.
  induction l as [|m l IH]; intros cl w d' w' os E Ho; cbn [dispatch_all give_all] in *.
  - injection E as <- <- <-. by destruct cl.
  - destruct (DispatchMessage (cl_dispatcher cl, (w, m))) as [o [d1 [w1 m1]]] eqn:E1.
    destruct (dispatch_all l d1 w1) as [[d2 w2] os2] eqn:E2. injection E as <- <- <-. apply Forall_cons in Ho as [Ho Hos].
    assert (G : give m (cl, w) = (Ok tt, (MkClient (cl_config cl) d1, w1))).
    { unfold give, bind, try, zoom. cbn [fst snd]. rewrite E1. by destruct o. }
    rewrite (bind_ok _ _ _ _ _ G). by apply (IH (MkClient (cl_config cl) d1) _ _ _ os2).
Qed.

(** What the caches of a new client keep of the messages given to it. *)
Lemma give_all_new l (cl : Client) w w' os : sound (cl_dispatcher cl) [] [] ->
  handle_all (cl_dispatcher cl) l w = (w', os) -> Forall (fun o => o <> Panic) os ->
  let d := cl_dispatcher cl in
  exists cl', give_all l (cl, w) = (Ok tt, (cl', w')) /\
    let all := lastn (mc_limit (d_messages d)) (List.filter (keeps d) l) in
    MessageCache_All (d_messages (cl_dispatcher cl')) = Ok all /\
    Client_CacheSnapshot (Some cl') =
      MkSnapshot (len all) (mc_limit (d_messages d))
        (len (put_peers (pc_limit (d_peers d)) (flat_map msg_peers (List.filter (knows d) l)) [])) (pc_limit (d_peers d))
        (MessageCacheMode_String (dc_MessageCacheMode (d_config d))).
Proof.
  intros Hs Hh Ho d. destruct (dispatch_all_ok l d w [] [] Hs) as (d' & w2 & os2 & E & L1 & L2 & [Sm Sp]).
  destruct (dispatch_all_handlers l d w [] [] Hs) as [H1 H2]. fold d in Hh. rewrite E, Hh in H1, H2. cbn [fst snd] in *. subst w2 os2.
  assert (Hc := dispatch_all_config l d w [] [] Hs). rewrite E in Hc. cbn [fst] in Hc.
  exists (MkClient (cl_config cl) d'). split; [by apply (give_all_dispatch _ _ _ _ _ os)|]. cbv zeta. cbn [app] in *. split.
  - unfold MessageCache_All. cbn [cl_dispatcher]. by rewrite (ring_ordered _ _ Sm), L1.
  - unfold Client_CacheSnapshot, Dispatcher_CacheSnapshot, MessageCache_Limit, PeerCache_Limit. cbn [cl_dispatcher].
    by rewrite (ring_len _ _ Sm), (represents_len _ _ Sp), L1, L2, Hc.
Qed.

(** Handlers that do nothing. *)
Lemma handle_all_quiet (d : Dispatcher (W := console) (Raw := unit)) l w :
  Forall (fun r => mr_handler r = quiet_handler) (d_messageRoutes d) ->
  exists os, handle_all d l w = (w, os) /\ Forall (fun o => o <> Panic) os.
Proof.
  intros Hq. assert (Hr : forall routes m, Forall (fun r => mr_handler r = quiet_handler) routes -> run_routes routes (w, m) = (Ok tt, (w, m))).
  { intros routes m. induction 1 as [|r routes Hr _ IH]; [done|]. cbn [run_routes]. unfold bind. rewrite Hr. unfold quiet_handler, handle at 1, zoom. cbn. exact IH. }
  assert (Ho : forall m, handlers_of d m w = (Ok tt, w)).
  { intros m. unfold handlers_of. destruct (dc_UpdatesEnabled _); [|done]. rewrite Hr; [done|].
    unfold matchingRoutes. apply Forall_forall. intros r [Hin _]%list_elem_of_In%filter_In.
    rewrite Forall_forall in Hq. by apply Hq, list_elem_of_In. }
  induction l as [|m l (os & E & Hos)]; [by exists []|]. cbn [handle_all]. rewrite Ho, E. exists (Ok tt :: os). by split; [|constructor].
Qed.

(** Filtering by a property of the number. *)
Lemma filter_map_count {A} (f : Z -> A) (p : A -> bool) (q : Z -> bool) l :
  (forall i, q i = false -> p (f i) = false) ->
  List.filter p (map f l) = List.filter p (map f (List.filter q l)).
Proof.
  intros H. induction l as [|i l IH]; [done|]. cbn. destruct (q i) eqn:E; cbn; [|by rewrite H]. destruct (p (f i)); by rewrite IH.
Qed.

(** ** What the programs print *)

(** The client of selective_cache. *)
Definition selective_client (unicode_fold : list byte -> list byte -> bool) : outcome Client :=
  omap_outcome (on_commands unicode_fold)
    (New 12345 "test_hash" [Some (WithMessageCacheSize 1000); Some (WithMessageCacheCommands unicode_fold commands)]).

(** A text without a slash is no command. *)
Lemma no_command fold command (m : Message console unit) : HasPrefix (m_Text m) "/" = false ->
  Command fold command (Some m) = false.
Proof. intros H. unfold Command, on_message. rewrite H. by rewrite orb_true_r. Qed.

Definition is_command (i : Z) : bool := (i =? 7) || (i =? 100) || (i =? 777) || (i =? 9999).
Definition noises : list (Message console unit) := map (fun i => message i i i (noise i)) (count 10000).

Section Selective.
Variable fold : list byte -> list byte -> bool.
Variable cl : Client.
Hypothesis cl_is : selective_client fold = Ok cl.
Let d := cl_dispatcher cl.

Lemma noise_text i : is_command i = false -> noise i = "hello noise"%string.
Proof. unfold is_command, noise. destruct (i =? 7), (i =? 100), (i =? 777), (i =? 9999); done. Qed.

Lemma selective_fact (P : Client -> Prop) : match selective_client fold with Ok c => P c | _ => True end -> P cl.
Proof. by rewrite cl_is. Qed.
Lemma selective_routes : d_messageRoutes d = map (fun c => MkRoute (fun m => Command fold c (Some m)) quiet_handler) commands.
Proof. unfold d. apply selective_fact. reflexivity. Qed.
Lemma selective_mode : dc_MessageCacheMode (d_config d) = CacheFilteredMessages /\
  dc_MessageCacheFilter (d_config d) = Some (fun m => Or (commandFilters fold commands) (Some m)).
Proof. unfold d. apply selective_fact. split; reflexivity. Qed.
Lemma selective_limits : mc_limit (d_messages d) = 1000 /\ pc_limit (d_peers d) = 1000.
Proof. unfold d. apply selective_fact. split; reflexivity. Qed.
Lemma selective_sound : sound d [] [].
Proof. unfold d. apply selective_fact. do 4 apply OnMessage_sound. apply NewDispatcher_sound. Qed.

Lemma noise_unmatched i : is_command i = false -> matchingRoutes d (message i i i (noise i)) = [] /\
  keeps d (message i i i (noise i)) = false.
Proof.
  intros H. rewrite (noise_text i H). set (m := message i i i "hello noise").
  assert (Hc : forall c, Command fold c (Some m) = false) by (intros; by apply no_command).
  assert (Hm : matchingRoutes d m = []).
  { unfold matchingRoutes. rewrite selective_routes. unfold commands. cbn [map List.filter mr_filter]. by rewrite !Hc. }
  split; [done|]. unfold keeps, shouldCacheMessage. destruct selective_mode as [-> ->]. destruct (_ <=? 0); [done|].
  unfold commandFilters, commands. cbn [map Or]. by rewrite !Hc.
Qed.

Lemma command_kept i : is_command i = true -> keeps d (message i i i (noise i)) = true.
Proof.
  intros H. assert (Hi : In i [7; 100; 777; 9999]).
  { unfold is_command in H. rewrite !orb_true_iff, !Z.eqb_eq in H. cbn. intuition. }
  unfold keeps, shouldCacheMessage, MessageCache_Limit. destruct selective_mode as [-> ->], selective_limits as [-> _].
  repeat (destruct Hi as [<-|Hi]; [vm_compute; reflexivity|]). done.
Qed.

Lemma noises_kept (p : Message console unit -> bool) :
  (forall i, is_command i = false -> p (message i i i (noise i)) = false) ->
  (forall i, is_command i = true -> p (message i i i (noise i)) = true) ->
  List.filter p noises = map (fun i => message i i i (noise i)) [7; 100; 777; 9999].
Proof.
  intros H0 H1. unfold noises. rewrite (filter_map_count _ p is_command) by done.
  assert (E : List.filter is_command (count 10000) = [7; 100; 777; 9999]) by (vm_compute; reflexivity). rewrite E.
  cbn [map List.filter]. by rewrite !H1.
Qed.

Lemma selective_run w : exists cl', give_all noises (cl, w) = (Ok tt, (cl', w)) /\
  Client_CacheSnapshot (Some cl') = MkSnapshot 4 1000 4 1000 "filtered".
Proof.
  destruct (handle_all_quiet d noises w) as (os & Hh & Ho).
  { rewrite selective_routes. unfold commands. cbn [map]. by repeat constructor. }
  destruct (give_all_new noises cl w w os selective_sound Hh Ho) as (cl' & E & _ & Hs). exists cl'. split; [done|].
  fold d in Hs. rewrite Hs. destruct selective_limits as [-> ->], selective_mode as [-> _].
  rewrite (noises_kept (keeps d)), (noises_kept (knows d)).
  - vm_compute. reflexivity.
  - intros i Hi. unfold knows. destruct (noise_unmatched i Hi) as [-> ->]. done.
  - intros i Hi. unfold knows. by rewrite (command_kept i Hi).
  - intros i Hi. apply noise_unmatched, Hi.
  - apply command_kept.
Qed.
End Selective.

(** *** cache_options *)

Definition options_client (unicode_fold : list byte -> list byte -> bool) : outcome Client :=
  omap_outcome (Client_OnMessage (Some (fun m => Command unicode_fold "start" (Some m))) (Some print_handler))
    (New 12345 "test_hash" [Some (Config.WithUpdates true); Some (WithMessageCacheSize 3); Some (WithPeerCacheSize 2);
                            Some (WithUpdateQueueSize 64)]).

Definition starts : list (Message console unit) :=
  map (fun i => message i (1000 + i) (2000 + i) ("/start " ++ FormatInt i)) (count 5).

Section Options.
Variable fold : list byte -> list byte -> bool.
Variable cl : Client.
Hypothesis cl_is : options_client fold = Ok cl.
Let d := cl_dispatcher cl.

Lemma options_fact (P : Client -> Prop) : match options_client fold with Ok c => P c | _ => True end -> P cl.
Proof. by rewrite cl_is. Qed.
Lemma options_routes : d_messageRoutes d = [MkRoute (fun m => Command fold "start" (Some m)) print_handler].
Proof. unfold d. apply options_fact. reflexivity. Qed.
Lemma options_config : dc_UpdatesEnabled (d_config d) = true /\ dc_MessageCacheMode (d_config d) = CacheMatchedMessages /\
  mc_limit (d_messages d) = 3 /\ pc_limit (d_peers d) = 2.
Proof. unfold d. apply options_fact. split_and!; reflexivity. Qed.
Lemma options_sound : sound d [] [].
Proof. unfold d. apply options_fact. apply OnMessage_sound, NewDispatcher_sound. Qed.

Lemma starts_matched : Forall (fun m => matchingRoutes d m = d_messageRoutes d /\ keeps d m = true /\ knows d m = true) starts.
Proof.
  assert (H : forall m, Command fold "start" (Some m) = true ->
    matchingRoutes d m = d_messageRoutes d /\ keeps d m = true /\ knows d m = true).
  { intros m Hm. assert (E : matchingRoutes d m = d_messageRoutes d).
    { unfold matchingRoutes. rewrite options_routes. cbn [List.filter mr_filter]. by rewrite Hm. }
    assert (K : keeps d m = true).
    { unfold keeps, shouldCacheMessage, MessageCache_Limit. destruct options_config as (_ & -> & -> & _).
      by rewrite E, options_routes. }
    split; [done|]. split; [done|]. unfold knows. by rewrite K. }
  unfold starts. change (count 5) with [1; 2; 3; 4; 5]. cbn [map].
  repeat (constructor; [apply H; vm_compute; reflexivity|]). constructor.
Qed.

Definition handler_line (m : Message console unit) : printed := Line [PS "handler:"; PS (m_Text m)].

Lemma options_handled l : forall w, Forall (fun m => matchingRoutes d m = d_messageRoutes d) l ->
  handle_all d l w = (Console (cn_reads w) (cn_out w ++ map handler_line l), map (fun _ => Ok tt) l).
Proof.
  induction l as [|m l IH]; intros w Hl; [cbn; rewrite app_nil_r; by destruct w|]. apply Forall_cons in Hl as [Hm Hl].
  cbn [handle_all]. unfold handlers_of. destruct options_config as (-> & _). rewrite Hm, options_routes.
  unfold run_routes, print_handler, handle, bind, zoom, Println, print, modify, ret. cbn [fst snd mr_handler].
  rewrite IH by done. cbn [cn_reads cn_out map]. by rewrite <- app_assoc.
Qed.
End Options.

