(* ===== verification/BotPrograms.v ===== *)
(** * BotPrograms: the example MTProto bots (src/examples)

    mtproto_bot_updates, mtproto_chat_helpers, mtproto_highlevel, mtproto_media
    and mtproto_session_tools, whole: their questions, options, handlers and
    runs.  The application's state of these bots is the console. *)

From S2P Require Import Prelude Strings TL Transport Hash AES Crypto Envelope Auth Invoke Queries Seal Client Peers Difference Api Media Flood Life Session Json Codec Saved Updates Dispatcher Filters Config Bot Calls Runtime Delivery Console.

(** ** The process of a bot

    [bh_world]: the clock, the random source, the network and the files;
    [bh_ctx]: what the next looks at the context find. *)
Record bot_host := BotHost {
  bh_console : console; bh_world : bworld; bh_stores : stores; bh_ctx : list (option goerr) }.

Abbreviation World := (bworld * console)%type.
Abbreviation BotMessage := (Message World TextMessage).
Abbreviation BotHandler := (MessageHandler (W := World) (Raw := TextMessage)).
Abbreviation BotFilter := (Filters.Filter (W := World) (Raw := TextMessage)).
Abbreviation BotConfig := (Config (W := World) (Raw := TextMessage)).
Abbreviation BotOption := (Option (W := World) (Raw := TextMessage)).
Abbreviation BotRuntime := (runtime (App := console)).

Definition bot_console {A} (m : M console A) : M bot_host A :=
  zoom bh_console (fun c h => BotHost c (bh_world h) (bh_stores h) (bh_ctx h)) m.
Definition bot_say (l : list operand) : M bot_host unit := bot_console (Println l).
Definition bot_ask (label : string) : M bot_host string := bot_console (ask label).
Definition bot_Now : M bot_host Z :=
  zoom (fun h => bw_env (bh_world h))
    (fun e h => let w := bh_world h in
       BotHost (bh_console h) (BW (bw_bot w) e (bw_sleeps w) (bw_slept w) (bw_reader w) (bw_writer w) (bw_files w))
         (bh_stores h) (bh_ctx h)) env_Now.

(** The handlers of a program, with their filters. *)
Definition routes : Type := list (BotFilter * BotHandler).
Definition registrations (l : routes) : list (option (BotMessage -> bool) * option BotHandler) :=
  map (fun fh => (Some (fun m => fst fh (Some m)), Some (snd fh))) l.

(** [Must(NewMTProtoBot(config, opts...))], the handlers, then [m] with the bot. *)
Definition with_new_bot {A} (config : MTProtoBotConfig) (opts : list (option BotOption))
    (handlers : MTProtoBotConfig -> BotConfig -> routes) (m : MTProtoBotConfig -> BotConfig -> M BotRuntime A) : M bot_host A := fun h =>
  match NewMTProtoBot config opts (bh_world h) (bh_console h) (bh_stores h) (bh_ctx h) with
  | Ok (bc, o, r) =>
      let '(res, r') := m bc o (register (registrations (handlers bc o)) r) in
      (res, BotHost (snd (rt_app r')) (rt_world r') (rt_stores r') (rt_ctx r'))
  | _ => (Panic, h)
  end.

Definition runtime_say (l : list operand) : M BotRuntime unit :=
  zoom (fun r => snd (rt_app r)) (fun c r => set_app (rt_world r, c) r) (Println l).

(** ** What the handlers do *)

Definition tell (p : printed) : M World unit := zoom snd (fun c w => (fst w, c)) (print p).
Definition on_bot {A} (m : M bworld A) : M World A := zoom fst (fun w x => (w, snd x)) m.

Section Programs.
Variable ProbablyPrime : Z -> bool.
Variable keys : list RSAPublicKey.
Variable gunzip : list byte -> outcome (list byte).
Variable unicode_fold : list byte -> list byte -> bool.
Variable unicode_lower : list byte -> list byte.
Variable range_values : seen_map -> list PeerRef.
Variable peer_values : gmap Z PeerRef -> list PeerRef.
Variable mime_type : string -> string.
Variable net_error : string -> bool.
(** No store of these programs is the application's own. *)
Definition no_Load (n : nat) (done : option goerr) (name : string) : M stores (option SessionData) := ret None.
Definition no_Save (n : nat) (done : option goerr) (data : SessionData) : M stores unit := ret tt.
Definition no_Delete (n : nat) (done : option goerr) (name : string) : M stores unit := ret tt.

(** [bot.Run(context.Background())]: the context is never done, so a run is
    looked at after [ticks] rounds of its loop; an error is a panic. *)
Definition still_running : goerr := ErrEnv "still running".
Definition is_running (e : goerr) : bool := match e with ErrEnv "still running" => true | _ => false end.

Definition run_bot (ticks : nat) (bc : MTProtoBotConfig) (o : BotConfig) : M BotRuntime unit :=
  r <- try (Run bc o None ProbablyPrime keys gunzip range_values peer_values no_Load no_Save net_error ticks still_running) ;;
  match r with
  | inl _ => ret tt
  | inr e => if is_running e then ret tt else panic
  end.

Definition command (name : string) : BotFilter := Command unicode_fold name.
Definition also (f g : BotFilter) : BotFilter := And [Some f; Some g].

(** ** mtproto_bot_updates *)

Definition updates_handlers : routes :=
  [(command "start", handle (fun m =>
      tell (Formatted "/start received from %d in %s chat %d" [PZ (m_FromID m); PS (m_ChatType m); PZ (m_ChatID m)]) ;;
      Message_Reply m "Hello from MtProGo V16 over pure MTProto 🚀" ;;
      tell (Line [PS "Reply sent over MTProto"])));
   (command "ping", handle (fun m => Message_Reply m "pong" ;; tell (Line [PS "pong sent over MTProto"])));
   (command "help", handle (fun m => Message_Reply m
      "Commands: /start, /ping, /help, /chatid. Private chats, groups, and supergroups are parsed; V16 also persists update state and reconnects automatically."));
   (command "chatid", handle (fun m => Message_Reply m
      ("chat_id=" ++ FormatInt (m_ChatID m) ++ " type=" ++ m_ChatType m ++ " from_id=" ++ FormatInt (m_FromID m))));
   (also (command "ping") Private, handle (fun m => tell (Line [PS "private ping matched"])))].

Definition updates_options (sessionPath encPassword stringSession : string) (now : Z) : list (option BotOption) :=
  map Some
    ([Config.WithUpdates true; WithMessageCacheSize 1000; WithPeerCacheSize 1000;
      WithMessageCacheCommands unicode_fold ["start"; "ping"; "help"; "chatid"; "delete"];
      WithAutoReconnect true; WithReconnectBackoff second (30 * second); WithAutoFloodWait true (60 * second)] ++
     [if negb (stringSession =? EmptyString)%string then WithStringSession (unix now) stringSession
      else if negb (encPassword =? EmptyString)%string then WithEncryptedSessionFile sessionPath encPassword
      else WithSessionFile sessionPath]).

Definition mtproto_bot_updates (ticks : nat) : M bot_host unit :=
  bot_say [PS "MtProGo V16 pure MTProto bot updates with reliability hardening"] ;;
  apiIDText <- bot_ask "Enter API ID: " ;;
  apiHash <- bot_ask "Enter API Hash: " ;;
  botToken <- bot_ask "Enter Bot Token: " ;;
  path <- bot_ask "Session file [bot.session]: " ;;
  let sessionPath := or_default path "bot.session" in
  encPassword <- bot_ask "Encrypt session password optional [empty = plain file]: " ;;
  stringSession <- bot_ask "Paste string session optional [empty = use file/login]: " ;;
  apiID <- parse_api_id apiIDText ;;
  now <- (if negb (stringSession =? EmptyString)%string then bot_Now else ret 0) ;;
  with_new_bot (MkBotConfig apiID apiHash botToken (2 * second) 100)
    (updates_options sessionPath encPassword stringSession now) (fun _ _ => updates_handlers)
    (fun bc o =>
       runtime_say [PS "Send /start, /ping, /help or /chatid to your bot in private or group/channel contexts."] ;;
       run_bot ticks bc o).

(** ** mtproto_chat_helpers *)

Definition chat_helpers_handlers (o : BotConfig) : routes :=
  [(command "start", handle (fun m => Message_Reply m ("MtProGo V14.1 ready in " ++ m_ChatType m ++ " chat")));
   (also (command "ping") Private, handle (fun m => Message_Reply m "private pong"));
   (also (command "ping") Group, handle (fun m => Message_Reply m "group pong"));
   (also (command "ping") Channel, handle (fun m => Message_Reply m "channel/supergroup pong"));
   (command "chatid", handle (fun m =>
      on_bot (fun w => Bot_SendText o gunzip (S (bot_stream w)) None (m_ChatID m)
        ("chat_id=" ++ FormatInt (m_ChatID m) ++ " type=" ++ m_ChatType m) w)))].

Definition mtproto_chat_helpers (ticks : nat) : M bot_host unit :=
  bot_say [PS "MtProGo V14.1 MTProto chat helper example"] ;;
  apiIDText <- bot_ask "Enter API ID: " ;;
  apiHash <- bot_ask "Enter API Hash: " ;;
  botToken <- bot_ask "Enter Bot Token: " ;;
  apiID <- parse_api_id apiIDText ;;
  with_new_bot (MkBotConfig apiID apiHash botToken (2 * second) 100)
    (map Some [WithSessionFile "bot.session"; WithMessageCacheCommands unicode_fold ["start"; "ping"; "chatid"];
               WithPeerCacheSize 5000])
    (fun _ o => chat_helpers_handlers o) (run_bot ticks).

(** ** mtproto_highlevel *)

Definition highlevel_handlers (o : BotConfig) : routes :=
  [(command "start", handle (fun m =>
      me <- try (on_bot (fun w => Bot_GetMe o gunzip (S (bot_stream w)) None w)) ;;
      match me with
      | inr _ => Message_Reply m "Hello from MtProGo V17"
      | inl me => Message_Reply m ("Hello from " ++ or_default (DisplayName me) "MtProGo" ++ " 🚀")
      end));
   (command "ping", handle (fun m => Message_Reply m "pong"));
   (command "chatid", handle (fun m => Message_Reply m
      ("chat_id=" ++ FormatInt (m_ChatID m) ++ " raw_chat_id=" ++ FormatInt (m_RawChatID m) ++ " type=" ++ m_ChatType m ++
       " from_id=" ++ FormatInt (m_FromID m))))].

Definition mtproto_highlevel (ticks : nat) : M bot_host unit :=
  bot_say [PS "MtProGo V17 high-level MTProto helper example"] ;;
  apiIDText <- bot_console (ask_blank "Enter API ID: ") ;;
  apiID <- parse_api_id apiIDText ;;
  apiHash <- bot_console (ask_blank "Enter API Hash: ") ;;
  botToken <- bot_console (ask_blank "Enter Bot Token: ") ;;
  with_new_bot (MkBotConfig apiID apiHash botToken 0 0)
    (map Some [WithSessionFile "bot.session"; Config.WithUpdates true; WithDebug false])
    (fun _ o => highlevel_handlers o)
    (fun bc o =>
       runtime_say [PS "Send /start, /ping, or /chatid to your bot in private or group chats."] ;; run_bot ticks bc o).

(** ** mtproto_media *)

Definition caption (text : string) : SendMediaOptions := MkSendMedia text 0 false false false false EmptyString EmptyString.

Definition media_handlers (docPath photoPath : string) (o : BotConfig) : routes :=
  [(command "start", handle (fun m => Message_Reply m
      "Send /doc to receive a document. Send /photo after providing a local photo path."));
   (command "doc", handle (fun m =>
      tell (Line [PS "/doc received, uploading"; PS docPath]) ;;
      on_bot (fun w => Bot_SendDocument o gunzip mime_type (S (bot_stream w)) None (m_ChatID m) docPath
        (caption "Document sent by MtProGo V18") w)));
   (command "photo", handle (fun m =>
      if (photoPath =? EmptyString)%string then Message_Reply m "No photo path was provided when the example started."
      else
        tell (Line [PS "/photo received, uploading"; PS photoPath]) ;;
        on_bot (fun w => Bot_SendPhoto o gunzip mime_type (S (bot_stream w)) None (m_ChatID m) photoPath
          (caption "Photo sent by MtProGo V18") w)))].

Definition mtproto_media (ticks : nat) : M bot_host unit :=
  bot_say [PS "MtProGo V18 pure MTProto media example"] ;;
  apiIDText <- bot_console (ask_blank "Enter API ID: ") ;;
  apiID <- must (lift (ParseInt32 apiIDText)) ;;
  apiHash <- bot_console (ask_blank "Enter API Hash: ") ;;
  token <- bot_console (ask_blank "Enter Bot Token: ") ;;
  path <- bot_console (ask_blank "Document path to send on /doc [README.md]: ") ;;
  let docPath := or_default path "README.md" in
  photoPath <- bot_console (ask_blank "Photo path to send on /photo [optional]: ") ;;
  with_new_bot (MkBotConfig apiID apiHash token 0 0)
    (map Some [WithSessionFile "media_bot.session"; Config.WithUpdates true;
               WithMessageCacheCommands unicode_fold ["start"; "doc"; "photo"]; WithAutoReconnect true;
               WithReconnectBackoff second (30 * second); WithAutoFloodWait true (60 * second)])
    (fun _ o => media_handlers docPath photoPath o) (run_bot ticks).

(** ** mtproto_session_tools *)

(** After [Login], [bot.Close] is deferred. *)
Definition session_tool (mode sessionPath : string) (c : ctx) (bc : MTProtoBotConfig) (o : BotConfig) : M BotRuntime unit :=
  let lower := ToLower unicode_lower mode in
  if (lower =? "clear")%string then
    must (ClearSession o no_Delete) ;;
    runtime_say [PS "Session cleared:"; PS sessionPath]
  else if (lower =? "check")%string || (lower =? "export")%string then
    must (Login bc o c ProbablyPrime keys gunzip peer_values no_Load no_Save) ;;
    defer Close
      (if (mode =? "check")%string then runtime_say [PS "Session check/login OK"]
       else
         encoded <- must ExportStringSession ;;
         runtime_say [PS "String session:"] ;;
         runtime_say [PS encoded])
  else panic.

Definition mtproto_session_tools : M bot_host unit :=
  bot_say [PS "MtProGo V13 MTProto bot session tools"] ;;
  bot_say [PS "Modes: export, clear, check"] ;;
  answer <- bot_ask "Mode [export]: " ;;
  let mode := or_default answer "export" in
  apiIDText <- bot_ask "Enter API ID: " ;;
  apiHash <- bot_ask "Enter API Hash: " ;;
  botToken <- bot_ask "Enter Bot Token: " ;;
  path <- bot_ask "Session file [bot.session]: " ;;
  let sessionPath := or_default path "bot.session" in
  password <- bot_ask "Encrypted session password optional: " ;;
  apiID <- parse_api_id apiIDText ;;
  with_new_bot (MkBotConfig apiID apiHash botToken second 0)
    (map Some [Config.WithUpdates false;
               if negb (password =? EmptyString)%string then WithEncryptedSessionFile sessionPath password
               else WithSessionFile sessionPath])
    (fun _ _ => [])
    (fun bc o => now <- on_process env_Now ;; session_tool mode sessionPath (Some (now + 60 * second)) bc o).

End Programs.

(** ** The handlers keep the bot *)

Section Handlers.
Variable gunzip : list byte -> outcome (list byte).
Variable unicode_fold : list byte -> list byte -> bool.
Variable range_values : seen_map -> list PeerRef.
Variable mime_type : string -> string.
Hypothesis gunzip_returns : forall d, gunzip d <> Panic.

Lemma keeps_tell p : keeps_bot (App := console) (tell p).
Proof. by intros s0 [w a] Hw. Qed.

(** A step of a handler. *)
Lemma keeps_on_bot {A} (m : M bworld A) : bot_ok m ->
  forall s0, hoare (fun x : World => bot_inv s0 (fst x)) (on_bot m) (fun _ x => bot_inv s0 (fst x)) (fun x => bot_inv s0 (fst x)).
Proof.
  intros Hm s0 [w a] Hw. unfold on_bot, zoom. cbn [fst snd] in *. specialize (Hm s0 w Hw). by destruct (m w) as [[u|e|] w'].
Qed.

(** The methods, with the rounds their streams allow. *)
Lemma send_text_ok (o : BotConfig) c chatID text :
  bot_ok (fun w => Bot_SendText o gunzip (S (bot_stream w)) c chatID text w).
Proof. intros s0 w Hw. by apply (bot_run_ok o gunzip gunzip_returns range_values mime_type _ c (DoSend chatID text _) I). Qed.
Lemma send_local_ok (o : BotConfig) c chatID path asPhoto opts :
  bot_ok (fun w => sendLocalMedia o gunzip mime_type (S (bot_stream w)) c chatID path asPhoto opts w).
Proof. intros s0 w Hw. by apply (bot_run_ok o gunzip gunzip_returns range_values mime_type _ c (DoSendLocal asPhoto chatID path opts) I). Qed.
Lemma get_me_ok (o : BotConfig) c : bot_ok (fun w => Bot_GetMe o gunzip (S (bot_stream w)) c w).
Proof.
  intros s0 w Hw. revert s0 w Hw. set (m := fun fuel => Bot_GetMe o gunzip fuel c).
  enough (H : forall fuel, bot_ok (m fuel)) by (intros s0 w Hw; by apply H).
  intros fuel. unfold m, Bot_GetMe. apply bot_ok_bind; [apply bot_ok_logged_in|intros ?].
  apply bot_ok_flood, bot_ok_client, value_of_ok. auto with methods.
Qed.

Ltac each_handler := repeat apply List.Forall_cons; try apply List.Forall_nil; cbn [snd]; apply handle_ok; intros m Hm.

Definition routes_ok (l : routes) : Prop := Forall (fun fh => handler_ok (App := console) (snd fh)) l.

Lemma updates_ok : routes_ok (updates_handlers unicode_fold).
Proof.
  unfold updates_handlers. each_handler;
    repeat first [apply keeps_tell | by apply keeps_bot_reply | apply keeps_bot_bind; [|intros ?]].
Qed.

Lemma chat_helpers_ok o : routes_ok (chat_helpers_handlers gunzip unicode_fold o).
Proof.
  unfold chat_helpers_handlers. each_handler; try by apply keeps_bot_reply.
  apply keeps_bot_method, send_text_ok.
Qed.

Lemma highlevel_ok o : routes_ok (highlevel_handlers gunzip unicode_fold o).
Proof.
  unfold highlevel_handlers. each_handler; try by apply keeps_bot_reply.
  apply keeps_bot_bind; [|intros [me|e]; by apply keeps_bot_reply].
  intros s0 x Hx. pose proof (keeps_on_bot _ (get_me_ok o None) s0 x Hx) as R. unfold try. by destruct (on_bot _ x) as [[u|e|] y].
Qed.

Lemma media_ok docPath photoPath o : routes_ok (media_handlers gunzip unicode_fold mime_type docPath photoPath o).
Proof.
  unfold media_handlers. each_handler; [by apply keeps_bot_reply|..].
  - apply keeps_bot_bind; [apply keeps_tell|intros ?]. apply keeps_bot_method, send_local_ok.
  - destruct (_ =? _)%string; [by apply keeps_bot_reply|]. apply keeps_bot_bind; [apply keeps_tell|intros ?].
    apply keeps_bot_method, send_local_ok.
Qed.

Lemma registrations_ok l : routes_ok l -> regs_ok (registrations l).
Proof. intros H. apply Forall_map. eapply Forall_impl; [exact H|]. intros [f h] Hh h' [= <-]. exact Hh. Qed.
End Handlers.

(** ** The ends of the programs *)

(** [k] connections open, the files of a size that Go can count. *)
Definition host_ok (k : Z) (h : bot_host) : Prop := e_open (bw_env (bh_world h)) = k /\ files_ok (bw_files (bh_world h)).
Definition host_done (k : Z) (h : bot_host) : Prop := e_open (bw_env (bh_world h)) = k.

Lemma host_console {A} (m : M console A) k : runs anything m (fun _ => anything) anything ->
  runs (host_ok k) (bot_console m) (fun _ => host_ok k) (host_done k).
Proof.
  intros Hm h [Hh Hf]. unfold bot_console, zoom. specialize (Hm (bh_console h) I). by destruct (m (bh_console h)) as [[a|e|] c].
Qed.
Lemma host_say l k : runs (host_ok k) (bot_say l) (fun _ => host_ok k) (host_done k).
Proof. apply host_console. done. Qed.
Lemma host_ask label k : runs (host_ok k) (bot_ask label) (fun _ => host_ok k) (host_done k).
Proof. apply host_console, runs_ask. Qed.
Lemma host_ask_blank label k : runs (host_ok k) (bot_console (ask_blank label)) (fun _ => host_ok k) (host_done k).
Proof. apply host_console, runs_ask_blank. Qed.
Lemma host_api_id text k : runs (host_ok k) (parse_api_id text) (fun _ => host_ok k) (host_done k).
Proof. intros h Hh. unfold parse_api_id. destruct (ParseInt32 text) as [id|e|]; [|apply Hh..]. destruct (id <=? 0); [apply Hh|done]. Qed.
Lemma host_lift {A} (r : outcome A) k : runs (host_ok k) (must (lift r)) (fun _ => host_ok k) (host_done k).
Proof. intros h Hh. destruct r; [done|apply Hh..]. Qed.
Lemma host_now (b : bool) k : runs (host_ok k) (if b then bot_Now else ret 0) (fun _ => host_ok k) (host_done k).
Proof. by destruct b; intros h Hh. Qed.
Create HintDb bots.
#[local] Hint Resolve host_say host_ask host_ask_blank host_api_id host_lift host_now : bots.

Lemma host_new_bot {A} k config opts handlers (m : MTProtoBotConfig -> BotConfig -> M BotRuntime A) :
  (forall bc o, routes_ok (handlers bc o)) ->
  (forall bc o, runs (down k) (m bc o) (fun _ r => e_open (bw_env (rt_world r)) = k) (fun r => e_open (bw_env (rt_world r)) = k)) ->
  runs (host_ok k) (with_new_bot config opts handlers m) (fun _ => host_done k) (host_done k).
Proof.
  intros Hh Hm h [Hk Hf]. unfold with_new_bot.
  destruct (NewMTProtoBot config opts (bh_world h) (bh_console h) (bh_stores h) (bh_ctx h)) as [[[bc o] r]|e|] eqn:E; [|done..].
  apply (New_down _ _ _ _ _ _ _ _ _ k) in E; [|done..].
  apply (register_down _ (registrations (handlers bc o))) in E; [|apply registrations_ok, Hh].
  specialize (Hm bc o _ E). by destruct (m bc o _) as [[a|e|] r'].
Qed.

Section Ends.
Variable ProbablyPrime : Z -> bool.
Variable keys : list RSAPublicKey.
Variable gunzip : list byte -> outcome (list byte).
Variable unicode_fold : list byte -> list byte -> bool.
Variable unicode_lower : list byte -> list byte.
Variable range_values : seen_map -> list PeerRef.
Variable peer_values : gmap Z PeerRef -> list PeerRef.
Variable mime_type : string -> string.
Variable net_error : string -> bool.
Hypothesis gunzip_returns : forall d, gunzip d <> Panic.

Definition open_is (k : Z) (r : BotRuntime) : Prop := e_open (bw_env (rt_world r)) = k.

Lemma down_open k r : down k r -> open_is k r.
Proof. intros [H Hc]. pose proof (ri_client _ _ H) as R. by rewrite Hc in R. Qed.

Lemma say_down k l X : runs (down k) (runtime_say l) (fun _ => down k) X.
Proof. intros r Hr. unfold runtime_say, zoom. cbn. by eapply (change down k r); [right|..]. Qed.
Lemma say_live k l X : runs (live k) (runtime_say l) (fun _ => live k) X.
Proof. intros r Hr. unfold runtime_say, zoom. cbn. by eapply (change live k r); [left|..]. Qed.

Lemma run_bot_done ticks bc o k :
  runs (down k) (run_bot ProbablyPrime keys gunzip range_values peer_values net_error ticks bc o) (fun _ => open_is k) (open_is k).
Proof.
  intros r Hr. unfold run_bot, bind, try.
  pose proof (Run_spec bc o None ProbablyPrime keys gunzip range_values peer_values no_Load no_Save net_error gunzip_returns
    ltac:(done) ltac:(done) ticks still_running k r (proj1 Hr)) as R.
  destruct (Run _ _ _ _ _ _ _ _ _ _ _ _ _ r) as [[u|e|] r']; [done| |done].
  destruct (is_running e); apply (en_open _ _ R).
Qed.

(** The four bots. *)
Lemma updates_done ticks k :
  runs (host_ok k) (mtproto_bot_updates ProbablyPrime keys gunzip unicode_fold range_values peer_values net_error ticks)
    (fun _ => host_done k) (host_done k).
Proof.
  unfold mtproto_bot_updates. cbv zeta. do 9 (eapply runs_bind; [solve [eauto with bots]|intros ?]).
  apply host_new_bot; [intros bc o; apply updates_ok|]. intros bc o.
  eapply runs_bind; [apply say_down|intros ?]. apply run_bot_done.
Qed.

Lemma chat_helpers_done ticks k :
  runs (host_ok k) (mtproto_chat_helpers ProbablyPrime keys gunzip unicode_fold range_values peer_values net_error ticks)
    (fun _ => host_done k) (host_done k).
Proof.
  unfold mtproto_chat_helpers. do 5 (eapply runs_bind; [solve [eauto with bots]|intros ?]).
  apply host_new_bot; [intros bc o; by apply (chat_helpers_ok _ _ range_values mime_type)|]. intros bc o. apply run_bot_done.
Qed.

Lemma highlevel_done ticks k :
  runs (host_ok k) (mtproto_highlevel ProbablyPrime keys gunzip unicode_fold range_values peer_values net_error ticks)
    (fun _ => host_done k) (host_done k).
Proof.
  unfold mtproto_highlevel. do 5 (eapply runs_bind; [solve [eauto with bots]|intros ?]).
  apply host_new_bot; [intros bc o; by apply highlevel_ok|]. intros bc o.
  eapply runs_bind; [apply say_down|intros ?]. apply run_bot_done.
Qed.

Lemma media_done ticks k :
  runs (host_ok k) (mtproto_media ProbablyPrime keys gunzip unicode_fold range_values peer_values mime_type net_error ticks)
    (fun _ => host_done k) (host_done k).
Proof.
  unfold mtproto_media. cbv zeta. do 7 (eapply runs_bind; [solve [eauto with bots]|intros ?]).
  apply host_new_bot; [intros bc o; by apply (media_ok _ _ range_values)|]. intros bc o. apply run_bot_done.
Qed.

(** The session tools. *)
Lemma store_Delete_returns st done name : nopanic (store_Delete no_Delete st done name).
Proof.
  destruct st as [st|m|n]; intros w _; cbn [store_Delete]; [|pose proof (stores_delete MemorySession done name w) as H|done];
    [pose proof (stores_delete st done name w) as H|]; by destruct (Store_Delete _ _ _ w) as [[a|e|] w'].
Qed.

Lemma Clear_down (o : BotConfig) k : hoare (down k) (ClearSession o no_Delete) (fun _ => down k) (down k).
Proof.
  assert (H : same (App := console) (ClearSession o no_Delete)).
  { apply same_bind; [apply same_poll|intros done]. apply same_stores, store_Delete_returns. }
  apply H. by right.
Qed.

Lemma Close_open k : hoare (live k) (Close (App := console)) (fun _ => open_is k) (open_is k).
Proof.
  intros r Hr. pose proof (Close_spec k (fun _ => False) r Hr) as R. destruct (Close r) as [[u|e|] r']; [|done..].
  exact (ri_client _ _ R).
Qed.

Lemma Export_live k : hoare (live k) (ExportStringSession (App := console)) (fun _ => live k) (live k).
Proof.
  assert (H : up (App := console) ExportStringSession).
  { apply up_bind; [apply same_up, same_get|intros r]. destruct (bt_client (rt_bot r)); [|apply same_up, same_fail].
    apply up_bind; [apply up_world, bot_ok_client, ExportSession_ok|]. intros [s|]; [|apply same_up, same_fail].
    apply up_bind; [apply same_up, same_process; done|intros now]. apply same_up, same_lift, EncodeString_returns. }
  apply H.
Qed.

Lemma session_tool_done mode path c bc o k :
  runs (down k) (session_tool ProbablyPrime keys gunzip unicode_lower peer_values mode path c bc o)
    (fun _ => open_is k) (open_is k).
Proof.
  unfold session_tool. destruct (_ =? "clear")%string; [|destruct (_ || _)%bool].
  - eapply runs_bind; [eapply runs_conseq; [apply runs_must, Clear_down|done|intros ? r Hr; exact Hr|apply down_open]|intros ?].
    eapply runs_conseq; [apply say_down|done|intros ? r Hr; by apply down_open|done].
  - eapply runs_bind.
    + eapply runs_conseq; [apply runs_must, (Login_spec bc o c ProbablyPrime keys gunzip peer_values no_Load no_Save)|done| |];
        [done..|intros ? r Hr; exact Hr|apply down_open].
    + intros ?. eapply (runs_defer _ _ _ (fun _ => live k) (live k)); [|intros ?; apply Close_open|apply Close_open].
      destruct (_ =? _)%string; [apply say_live|].
      eapply runs_bind; [apply runs_must, Export_live|intros ?]. eapply runs_bind; [apply say_live|intros ?]. apply say_live.
  - apply runs_panic. apply down_open.
Qed.

Lemma session_tools_done k :
  runs (host_ok k) (mtproto_session_tools ProbablyPrime keys gunzip unicode_lower peer_values)
    (fun _ => host_done k) (host_done k).
Proof.
  unfold mtproto_session_tools. cbv zeta. do 9 (eapply runs_bind; [solve [eauto with bots]|intros ?]).
  apply host_new_bot; [intros bc o; apply List.Forall_nil|]. intros bc o.
  eapply (runs_bind _ _ _ (fun _ => down k)); [intros r Hr; by apply (change down k r); [right|..]|intros now].
  apply session_tool_done.
Qed.
End Ends.


(** ** What the chat helper answers *)

Lemma register_routes (l : routes) r :
  d_messageRoutes (rt_disp (register (registrations l) r)) =
  d_messageRoutes (rt_disp r) ++ map (fun fh => MkRoute (fun m => fst fh (Some m)) (snd fh)) l.
Proof.
  unfold registrations. revert r. induction l as [|[f h] l IH]; intros r; cbn [map register]; [by rewrite app_nil_r|].
  rewrite IH. cbn. by rewrite <- app_assoc.
Qed.

Lemma new_bot_routes config opts w (a : console) st cx bc o r :
  NewMTProtoBot config opts w a st cx = Ok (bc, o, r) -> d_messageRoutes (rt_disp r) = [].
Proof.
  unfold NewMTProtoBot. destruct (_ <=? 0); [discriminate|]. destruct (_ =? _)%string; [discriminate|].
  destruct (bc_Token config =? _)%string; [discriminate|]. by intros [= <- <- <-].
Qed.

(** The replies to a ping, by the type of the chat. *)
Definition pongs (kind : string) : list string :=
  if (kind =? ChatPrivate)%string then ["private pong"]
  else if (kind =? ChatGroup)%string then ["group pong"]
  else if (kind =? ChatSupergroup)%string then ["group pong"; "channel/supergroup pong"]
  else if (kind =? ChatChannel)%string then ["channel/supergroup pong"]
  else [].

Fixpoint reply_all (m : BotMessage) (l : list string) : M World unit :=
  match l with [] => ret tt | text :: rest => Message_Reply m text ;; reply_all m rest end.

(** The handlers that reply, one after the other. *)
Lemma run_replies l m : forall routes x, map mr_handler routes = map (fun t => handle (fun m => Message_Reply m t)) l ->
  run_routes routes (x, m) = let '(res, y) := reply_all m l x in (res, (y, m)).
Proof.
  induction l as [|t l IH]; intros [|[f h] routes] x E; try discriminate; [done|]. cbn [map mr_handler] in E.
  injection E as -> E. cbn [run_routes mr_handler reply_all]. unfold bind. unfold handle at 1, zoom. cbn [fst snd].
  destruct (Message_Reply m t x) as [[u|e|] y]; [by apply IH|done..].
Qed.

(** The chat helper answers a ping according to the chat
    (mtproto_chat_helpers, its filters and handlers; [filters.Command], [And],
    [Private], [Group], [Channel]; [OnMessage] and the dispatcher's routes): take
    a bot from [NewMTProtoBot] with the program's handlers and a text that is the
    command ping in any mixture of cases, with any bot name and arguments.  The
    handlers that match send exactly the replies of the chat's type in order, and
    nothing in a chat of another type; in a supergroup they are two, as it is
    both a group and a channel to the filters. *)
Theorem chat_helpers_pong (gunzip : list byte -> outcome (list byte)) (unicode_fold : list byte -> list byte -> bool)
    (config : MTProtoBotConfig) (opts : list (option BotOption)) (w0 : bworld) (out : console) (st : stores)
    (cx : list (option goerr)) (bc : MTProtoBotConfig) (o : BotConfig) (r : BotRuntime)
    (m : BotMessage) (w bot args : list byte) (x : World) :
  NewMTProtoBot config opts w0 out st cx = Ok (bc, o, r) ->
  is_ascii w = true -> map lower_byte w = map lower_byte (bytes_of "ping") -> forallb graphic w = true -> ~ In x40 w ->
  at_suffix bot -> forallb graphic bot = true ->
  (args = [] \/ exists rest, skip_rune space_runes args = Some rest) ->
  m_Text m = string_of (x2f :: w ++ bot ++ args) ->
  let d := live_dispatcher (register (registrations (chat_helpers_handlers gunzip unicode_fold o)) r) in
  run_routes (matchingRoutes d m) (x, m) = let '(res, y) := reply_all m (pongs (m_ChatType m)) x in (res, (y, m)).
Proof.
  intros Hnew Hwa Hping Hw Hat Hbot Hbotg Hargs Ht d.
  assert (Hr : d_messageRoutes d = map (fun fh => MkRoute (fun m => fst fh (Some m)) (snd fh))
    (chat_helpers_handlers gunzip unicode_fold o)).
  { unfold d, live_dispatcher. cbn [set_peers d_messageRoutes].
    rewrite register_routes, (new_bot_routes _ _ _ _ _ _ _ _ _ Hnew). done. }
  assert (Hc : forall name, bytes_of (command_name name) <> [] -> is_ascii (bytes_of (command_name name)) = true ->
    Command unicode_fold name (Some m) = bool_decide (map lower_byte (bytes_of "ping") = map lower_byte (bytes_of (command_name name)))).
  { intros name Hn Ha. rewrite (Command_text unicode_fold name m w bot args) by done. rewrite <- Hping.
    case_bool_decide; [by apply equal_fold_ascii|by apply equal_fold_differs]. }
  assert (Hstart : Command unicode_fold "start" (Some m) = false) by (rewrite Hc; by vm_compute).
  assert (Hpong : Command unicode_fold "ping" (Some m) = true) by (rewrite Hc; by vm_compute).
  assert (Hchat : Command unicode_fold "chatid" (Some m) = false) by (rewrite Hc; by vm_compute).
  unfold matchingRoutes. rewrite Hr. unfold chat_helpers_handlers, command, also.
  cbn [map List.filter mr_filter fst snd And]. rewrite Hstart, Hpong, Hchat. cbn [negb].
  unfold Private, Group, Channel, on_message, pongs. cbv beta iota. generalize (m_ChatType m). intros kind.
  destruct (String.eqb_spec kind ChatPrivate) as [->|H1]; [by apply run_replies|].
  destruct (String.eqb_spec kind ChatGroup) as [->|H2]; [by apply run_replies|].
  destruct (String.eqb_spec kind ChatSupergroup) as [->|H3]; [by apply run_replies|].
  destruct (String.eqb_spec kind ChatChannel) as [->|H4]; by apply run_replies.
Qed.

(** A private chat and a supergroup; the reply sender notes what it sends. *)
Definition noting : ReplySender (W := World) := fun chatID replyTo text => tell (Line [PZ chatID; PZ replyTo; PS text]).
Definition ping_in (kind : string) : BotMessage :=
  MkMessage 7 (-1000000000005) 5 9 kind "/Ping@my_bot" 0 None (Some noting) None None.
Definition demo_bot_config : MTProtoBotConfig := MkBotConfig 1 "hash" "token" 0 0.
Definition demo_bworld : bworld :=
  BW (MkBot None (Book ∅ (NewPeerCache 10))) (Env [] (fun _ => 0) 0 [] 0 []) [] [] (UploadIO None []) (DownloadIO None [] []) ∅.

Lemma chat_helpers_pong_witness :
  match NewMTProtoBot demo_bot_config [] demo_bworld (Console [] []) (Stores ∅ ∅ [] []) [] with
  | Ok (bc, o, r) =>
      let d := live_dispatcher (register (registrations (chat_helpers_handlers (fun d => Ok d) (fun _ _ => false) o)) r) in
      let m := ping_in ChatSupergroup in
      cn_out (snd (fst (snd (run_routes (matchingRoutes d m) ((demo_bworld, Console [] []), m))))) =
        [Line [PZ (-1000000000005); PZ 7; PS "group pong"]; Line [PZ (-1000000000005); PZ 7; PS "channel/supergroup pong"]]
  | _ => False
  end.
Proof.
  destruct (NewMTProtoBot demo_bot_config [] demo_bworld (Console [] []) (Stores ∅ ∅ [] []) []) as [[[bc o] r]|e|] eqn:E;
    [|discriminate E..].
  intros d m. unfold d. rewrite (chat_helpers_pong (fun d => Ok d) (fun _ _ => false) _ _ _ _ _ _ _ _ _ m (bytes_of "Ping")
    (bytes_of "@my_bot") [] (demo_bworld, Console [] []) E); [reflexivity|reflexivity|reflexivity|reflexivity| | |reflexivity|by left|reflexivity].
  - vm_compute. intuition discriminate.
  - right. eexists. reflexivity.
Defined.

(** ** What the session tools print *)

Section Tools.
Variable ProbablyPrime : Z -> bool.
Variable keys : list RSAPublicKey.
Variable gunzip : list byte -> outcome (list byte).
Variable unicode_lower : list byte -> list byte.
Variable peer_values : gmap Z PeerRef -> list PeerRef.

Definition rt_console (r : BotRuntime) : console := snd (rt_app r).

Lemma console_world {A} (m : M bworld A) : frames rt_console (Runtime.on_world (App := console) m).
Proof. by apply frames_zoom. Qed.
Lemma console_process {A} (m : M env A) : frames rt_console (on_process (App := console) m).
Proof. apply console_world. Qed.
Lemma console_stores {A} (m : M stores A) : frames rt_console (on_stores (App := console) m).
Proof. by apply frames_zoom. Qed.
Lemma console_poll : frames rt_console (poll_ctx (App := console)).
Proof. done. Qed.
#[local] Hint Resolve console_world console_process console_stores console_poll : frames.
Lemma console_Login bc o c :
  frames rt_console (Login (App := console) bc o c ProbablyPrime keys gunzip peer_values no_Load no_Save).
Proof. unfold Login, login_anew, loadSession, save_session, SaveSession, snapshotState, set_bot_client, remember_peers. frames_steps. Qed.
Lemma console_Close : frames rt_console (Close (App := console)).
Proof. unfold Close. frames_steps. Qed.
Lemma console_Export : frames rt_console (ExportStringSession (App := console)).
Proof. unfold ExportStringSession. frames_steps. Qed.

(** What a step that frames the console leaves of its output. *)
Lemma frames_out {A} (m : M BotRuntime A) r a r' : frames rt_console m -> m r = (Ok a, r') -> cn_out (rt_console r') = cn_out (rt_console r).
Proof. intros H E. specialize (H r). rewrite E in H. by rewrite H. Qed.

Lemma must_inv {S A} (m : M S A) s a s' : must m s = (Ok a, s') -> m s = (Ok a, s').
Proof. unfold must. by destruct (m s) as [[b|e|] t]. Qed.

Lemma defer_inv {S A} (d : M S unit) (m : M S A) s a s' : defer d m s = (Ok a, s') ->
  exists s1 o, m s = (Ok a, s1) /\ d s1 = (o, s') /\ o <> Panic.
Proof.
  unfold defer. destruct (m s) as [o s1]. destruct (d s1) as [o' s2] eqn:E. intros H.
  exists s1, o'. destruct o'; [injection H as -> ->; done..|discriminate H].
Qed.

Lemma session_tool_output mode path c bc o r r' :
  session_tool ProbablyPrime keys gunzip unicode_lower peer_values mode path c bc o r = (Ok tt, r') ->
  ToLower unicode_lower mode = "check"%string \/ ToLower unicode_lower mode = "export"%string ->
  exists lines, cn_out (rt_console r') = cn_out (rt_console r) ++ lines /\
    if (mode =? "check")%string then lines = [Line [PS "Session check/login OK"]]
    else exists encoded, lines = [Line [PS "String session:"]; Line [PS encoded]].
Proof.
  intros H Hm. unfold session_tool in H. cbv zeta in H.
  assert (E : (ToLower unicode_lower mode =? "clear")%string = false /\
    ((ToLower unicode_lower mode =? "check") || (ToLower unicode_lower mode =? "export"))%string = true)
    by (by destruct Hm as [-> | ->]).
  destruct E as [E1 E]. rewrite E1, E in H. clear E1 E.
  apply bind_inv in H as (u & r1 & H1 & H). apply must_inv, (frames_out _ _ _ _ (console_Login bc o c)) in H1.
  apply defer_inv in H as (r2 & res & H & Hd & Hp).
  assert (Hc : cn_out (rt_console r') = cn_out (rt_console r2)).
  { pose proof (console_Close r2) as F. rewrite Hd in F. destruct res; [by rewrite F..|done]. }
  rewrite Hc, <- H1. destruct (mode =? "check")%string.
  - injection H as <-. eexists. split; [reflexivity|done].
  - apply bind_inv in H as (encoded & r3 & H3 & H). apply must_inv, (frames_out _ _ _ _ console_Export) in H3.
    rewrite <- H3. injection H as <-. eexists. split; [|by exists encoded]. cbn. by rewrite <- app_assoc.
Qed.
End Tools.


(** CHECK, with a saved session. *)
Definition tools_stores : stores :=
  Stores (memorySessionWithData "mtproto_bot"
    (ok_or [] (marshalRuntimeSession 1700000002 "bot" (Some demo_saved) (Some (MkState 7 0 3 (-1) 0 [])) []))) ∅ [] [].
Definition tools_bot : BotRuntime :=
  Rt (BW (MkBot None (Book ∅ (NewPeerCache 10))) dial_env [] [] (UploadIO None []) (DownloadIO None [] []) ∅, Console [] [])
    (config_dispatcher (default_config 1 "hash" "mtproto_bot")) false None tools_stores [].


(** Answers on a terminal, a dial that finds a server saying nothing. *)
Definition demo_host : bot_host :=
  BotHost (Console (map (fun s => bytes_of s ++ [newline]) ["7"; "hash"; "token"]%string) []) (fst (rt_app tools_bot))
    (Stores ∅ ∅ [] []) [].

