(* ===== verification/ApiPrograms.v ===== *)
(** * ApiPrograms: the example Bot API bots (src/examples)

    realbot and realbot_env: their questions, configuration, handler and run.
    realbot_cache and realbot_selective_cache, whose handlers read the caches of
    their own bot while it dispatches, are not modelled. *)

From S2P Require Import Prelude Strings Transport Json Codec Updates Dispatcher Filters Session Saved Config BotClient BotApi Console.

Section Programs.
Context {Net : Type}.
Abbreviation World := (surroundings Net * console)%type.
Abbreviation BotMessage := (Message World ApiMessage).
Variable exchange : string -> list byte -> Net -> http_result * Net.
Variable unicode_fold : list byte -> list byte -> bool.

(** The console, and the surroundings the bot finds. *)
Definition api_host : Type := console * surroundings Net.

Definition host_console {A} (m : M console A) : M api_host A := zoom fst (fun c h => (c, snd h)) m.

(** [context.Background()] is never done: a run is looked at after [rounds] of
    its loop; an error is a panic. *)
Definition still_polling : goerr := ErrEnv "still polling".
Definition is_polling (e : goerr) : bool := match e with ErrEnv "still polling" => true | _ => false end.

(** [Must(NewBot(config))], the handler of /start, [Must0(bot.Run(...))]. *)
Definition run_new_bot (config : BotConfig (Net := Net) (App := console)) (start : BotMessage -> M World unit)
    (before : list printed) (rounds : nat) : M api_host unit := fun h =>
  match NewBot config (snd h, fst h) [] with
  | Ok b =>
      let b := Bot_OnMessage (Some (fun m => Command unicode_fold "start" (Some m))) (Some (handle start)) b in
      let c := Console (cn_reads (fst h)) (cn_out (fst h) ++ before) in
      let '(o, b') := Bot_Run exchange rounds still_polling (BotApi.set_world (snd h, c) b) in
      (match o with
       | Ok _ => Ok tt
       | Err e => if is_polling e then Ok tt else Panic
       | Panic => Panic
       end, (snd (bo_world b'), fst (bo_world b')))
  | _ => (Panic, h)
  end.

Definition say_in (l : list operand) : M World unit := zoom snd (fun c w => (fst w, c)) (Println l).

Definition bot_config (apiID : Z) (apiHash token session : string) : BotConfig (Net := Net) (App := console) :=
  BotApi.MkBotConfig apiID apiHash token session 0 false false 0 CacheDefault None 0 0.

(** ** realbot *)

Definition Version : string := "v18.0.0-dev".

Definition realbot_start (m : BotMessage) : M World unit :=
  say_in [PS "/start from"; PZ (m_FromID m); PS "in chat"; PZ (m_ChatID m)] ;;
  Message_Reply m "Hello from MtProGo V12 🚀".

Definition realbot (rounds : nat) : M api_host unit :=
  host_console (Println [PS "MtProGo V12 Real Bot Example"]) ;;
  host_console (Println [PS "Version:"; PS Version]) ;;
  host_console (Println []) ;;
  apiIDText <- host_console (ask "Enter API ID: ") ;;
  apiHash <- host_console (ask "Enter API Hash: ") ;;
  token <- host_console (ask "Enter Bot Token: ") ;;
  apiID <- must (lift (Atoi apiIDText)) ;;
  run_new_bot (bot_config apiID apiHash token "bot.session") realbot_start [Line [PS "Send /start to your bot now."]] rounds.

(** ** realbot_env: the environment instead of questions *)

Definition realbot_env_start (m : BotMessage) : M World unit :=
  say_in [PS "/start from"; PZ (m_FromID m)] ;;
  Message_Reply m "Hello from MtProGo V12 🚀".

(** [n, _ := strconv.Atoi(s)]: with an error the value is 0, or the nearest [int]
    when the number is too large. *)
Definition atoi_value (s : string) : Z :=
  match Atoi s with
  | Ok n => n
  | Err (ErrNew "value out of range") => if HasPrefix s "-" then - two63 else two63 - 1
  | _ => 0
  end.

Definition realbot_env (Getenv : string -> string) (rounds : nat) : M api_host unit :=
  run_new_bot (bot_config (atoi_value (Getenv "API_ID")) (Getenv "API_HASH") (Getenv "BOT_TOKEN") EmptyString)
    realbot_env_start [] rounds.

End Programs.

(** ** What they need to start *)

Section Starting.
Context {Net : Type}.
Variable exchange : string -> list byte -> Net -> http_result * Net.
Variable unicode_fold : list byte -> list byte -> bool.

(** Without a token nothing is sent: the program panics where it is. *)
Lemma realbot_env_needs_token Getenv rounds (h : api_host (Net := Net)) : Getenv "BOT_TOKEN" = EmptyString ->
  realbot_env exchange unicode_fold Getenv rounds h = (Panic, h).
Proof. intros H. unfold realbot_env, run_new_bot, bot_config. rewrite H. reflexivity. Qed.

(** Neither program ends with an error: it returns to be looked at, or panics. *)
Lemma run_new_bot_ends config start before rounds (h : api_host (Net := Net)) :
  match run_new_bot exchange unicode_fold config start before rounds h with (Err _, _) => False | _ => True end.
Proof.
  unfold run_new_bot. destruct (NewBot _ _ _) as [b|e|]; [|done..].
  destruct (Bot_Run _ _ _ _) as [[u|e|] b']; [done| |done]. by destruct (is_polling e).
Qed.
End Starting.
